(* ===== verification/_CoqProject ===== *)
-Q . S2P
Prelude.v
Bytes.v
Float64.v
StdMap.v
Sqlite.v
Uint.v
Keccak.v
Sponge.v
Duplex.v
Threefish.v
Skein.v
Packet.v
Coinbase.v
LLD.v
CBlock.v
Ddos.v
Banned.v
Base58.v
Hash.v
Prime.v
Registry.v
Config.v
Payout.v
Threads.v
Races.v
World.v
Daemon_queue.v
Pool_conn.v
Pool_shares.v
Pool_sessions.v
Daemon_conn.v
Daemon_rounds.v
Server.v
Runs.v
Endpoint.v
Network.v
System.v
Lifecycle.v
Coinbase_threads.v
Process.v
