(* ===== verification/Prelude.v ===== *)
(** * NexusPool: a verification development of the mining pool server

    NexusPool stands between a Nexus wallet (the daemon) and prime miners.  Miners log in with an
    address, ask for block headers, and submit numbers that start clusters of primes; the pool
    credits shares, passes blocks on to the wallet, pays each round out over the accounts, and has
    the wallet put the payments into the coinbase of the next block.  This library models the C++
    program under [src/src/] and proves what its parts do and what holds of every run.

    ** Parts

    Data and arithmetic.
    - [Prelude]: machine integers ([wrap], [u8] ... [u64]), bytes, the state-and-failure monad [M]
      of the handlers ([None] is undefined behaviour of C++ or a failed [assert]).
    - [Bytes]: [utils.hpp].  [Float64]: [double] as binary64 with its rounding, over the standard
      library's [SpecFloat].  [StdMap]: [std::map] as its ordered sequence of entries.
    - [Uint]: [hash/uint1024.h], word by word.
    - [Base58]: [base58.h].  [Prime]: [prime.hpp].

    Hashes, under [hash/].
    - [Keccak]: [Keccak-compact64.cpp], the permutation; Module [FIPS202] is that of the standard.
      [Sponge]: [KeccakSponge.cpp], [KeccakHash.cpp]; Module [FIPS202_sponge].  [Duplex]:
      [KeccakDuplex.cpp].
    - [Threefish]: [skein_block.cpp], with the cipher of the designers in Module [Threefish].
      [Skein]: [skein.cpp], [skein_iv.h]; Module [UBI] is the hash of the designers.
    - [Hash]: [templates.h], the hashes the program calls, and the instances of the classes
      [Block_hash] and [Address_hash] that [CBlock] and [Base58] are written against.

    Messages and records.
    - [Packet]: [packet.hpp], [daemon_packet.hpp], [daemon_packet.cpp] (Modules [Packet] and
      [Daemon_packet]).  [CBlock]: [LLP/block.h] and the two wire forms of a block.
    - [Coinbase]: [coinbase.hpp] (Modules [Coinbase] and [Credits]).  [LLD]: [LLD/database.h]
      (Module [Database], against the class [LLD_record]) and [LLD/record.h] (Modules [Account]
      and [Block], its instances).
    - [Ddos]: [LLP/timer.hpp], [LLP/ddos.hpp].  [Banned]: [banned_users.hpp].
    - [Registry]: [data_registry.hpp], [data_registry.cpp].  [Payout]: [payout_manager.cpp].
    - [Config]: [config.cpp], over a parsed document (Module [Json]).  [Sqlite]:
      [database/sqlite_database.cpp], which the registry creates and does not use.
    - [Threads]: the handlers that change accounts, as sequences of the operations of [LLD] that
      hold a mutex ([prog]), and their interleavings by a schedule ([interleave]); its functions
      are those of [Payout] taken apart.  [Races] has what the interleavings do.
      [Coinbase_threads]: the calls of [Coinbase_mt] in the same way, with the threads that build
      the coinbase and that ask for a payout.

    The running pool.
    - [World]: the objects the handlers share, as one record: the registry, the daemon connection,
      the pool connections by identity, the globals of [prime.hpp], the clock, and the messages
      sent so far.  A [shared_ptr] is an identity, and a [weak_ptr] locks while the map of the
      connections still has it.  A handler is a computation of [M World].
    - [Daemon_queue]: the list of [daemon_connection.cpp] that miners' connections write to, and
      the class [Daemon_api], what a pool connection may rely on when it calls the daemon.
    - [Pool_conn]: [pool_connection.cpp], against [Daemon_api]; its theorems are in [Pool_shares]
      and [Pool_sessions].
    - [Daemon_conn]: [daemon_connection.cpp]; its theorems are in [Daemon_rounds].
    - [Server]: [server.cpp]: the events of the io_context, [possible] ones, and [reachable]
      states.  Handlers run one at a time here, in any order; [Threads] interleaves them.
      [Runs] has what adds up along the events: invariants that grow with their number.
    - [Network]: what is under those events, the code around asio: [connection_impl.hpp] (Module
      [Connection]), [socket_impl.hpp] and [protocol_description.hpp] (Module [Socket]) and
      [chrono/timer.hpp] (Module [Timer]), each with its events.  [connection_protocol] is what
      [Server] takes for granted of the results a handler is called with, except that any result
      and any bytes are [possible] there.
    - [System]: [Server] and [Network] together, for the wallet and the miners.  What a connection
      calls is the handler of [Server], what the handler transmits goes to the connection, and a
      pointer that the handler resets drops the connection.
    - [Lifecycle]: [main.cpp], the construction in [server.cpp] and [data_registry.cpp], the
      factories of [network/] and [chrono/], [stats_collector.cpp], the end by a signal and the
      destructors.
    - [Process]: [System] with the listening socket and the timers, from what [main] leaves running:
      its events are those of the network and of the clock, and no others.
    - [Endpoint]: [network/endpoint.hpp], with the addresses of asio it is made of.

    ** What the theorems show

    - Every run: [no_shares_ever] (by induction over [reachable]), [connections_in_order], which
      bounds the scores of the filters by the number of events, and [share_once], a number is
      credited once in a round (both in [Runs]); a run of the pool over its connections is one of the pool and one of each connection
      ([system_refines]), and a run of the program from [main] on is one of these and one of the
      listening socket, with timers that go on ([process_refines]).
    - The ends of a run: without the wallet the pool does not get past a tick of its height timer
      ([wallet_lost]); two to four bytes of any peer end what is defined ([short_packet]).
    - Threads: threads on different accounts do not disturb each other ([separate_accounts]), nor
      do miners disturb the coinbase but for outputs of zero ([coinbase_undisturbed]); on one
      account shares, payments and whole accounts are lost ([shares_race], [payout_race],
      [login_race]), and a share between the passes of a payment makes it undefined
      ([stale_weight]).  A thread alone is its handler ([threads_alone], a lemma of the others).
    - Start and end: what [main] has made when the threads start ([startup]); a signal ends the
      program ([signal_ends]), and what it does not destroy ([registry_stays]).
    - Shares: the handler refines a specification by verdicts ([share_refines]), and as the
      program is, every share is refused ([shares_refused]).
    - Sessions: nothing happens before a login ([login_gate]), the outcomes of one ([login_spec]),
      new rounds and blocks ([rounds_and_blocks], [closed_connection]).
    - Rounds: the coinbase adds up ([coinbase_complete]), the message of an accepted block pays the round
      ([accepted_block], [payout_conserves], [shares_cleared], [fee_takes_all]), an orphan is
      refunded once ([refund_block]), what a tick of a timer sends ([block_tick],
      [orphan_checks], [request_overcount]), and how a round goes wrong ([new_round_null],
      [stale_submission], [coinbase_echo], [shared_address], [cleanup_expired]).
    - Data: word arithmetic refines arithmetic modulo a power of two ([uint_refines]); round trips
      of integers, packets, coinbases, records, databases and addresses; the sieve is the primes
      ([sieve_correct]); the walk over a cluster ends ([verification_terminates]); base 58 is defined
      on strings of less than 2 GiB, whose sizes fit an [int] ([base58_roundtrip],
      [login_address]); numbers of 2^32 or more do not survive a file ([db_roundtrip]); the filter's
      invariant and its bans ([filter_invariant], [ban_spec]).
    - Hashes: each layer is the one of its standard ([permutation_standard], [hash_standard] for
      every suffix of up to seven bits, [block_standard], [skein_standard]), parts of a message and
      of the output may be given one by one ([sponge_incremental], [duplexing_sponge]), and the
      templates are the compositions ([templates_standard]).
    - Network: the order of the calls of a handler and the integrity of the stream
      ([connection_protocol]), the lack of framing ([segments_not_packets]), the end of the accept
      loop ([accept_loop]), timers ([timer_once]); what an endpoint made of a string is, and the
      order of endpoints ([endpoint_of_string], [endpoint_order]).
    - Configuration and statistics: what is read is in range, and what is wrong ends the program
      ([config_bounds], [config_errors]); the statistics database never opens
      ([sqlite_never_opens]).

    ** Bounds and fuel

    Recursion is structural except here.  [Prime.mark] counts the multiples of an index and has
    the sieve's size as fuel ([sieve_correct]); [Prime.cluster] has [cluster_fuel] = 255270 steps,
    enough because among 255255 consecutive odd numbers there are six in a row that the sieve's
    small primes divide ([verification_terminates]); [LLD.Database.read_records] has the length of
    the file, each record taking four bytes or more; [Daemon_conn.request_loop] has the count it
    decreases.  The loops of [Sponge] have a step more than there are bytes, each step taking one
    or more, and those of [Skein]'s output a step more than there are bytes left; that this is
    enough is part of [hash_standard], [sponge_incremental] and [skein_standard], whose results are
    [Some].  [Sqlite.step_while_busy] waits for other programs; its fuel is an argument, and the
    theorems hold for any.  A schedule of [Threads] is a list of any length, and a theorem about
    several threads speaks of the schedules that run them to their ends.  After a signal, n threads
    end within 3n + 3 steps ([signal_ends]).

    ** Parameters

    [Platform] gives the 32-bit shift by 32 of [bytes2uint64], which C++ leaves undefined;
    [Block_hash] and [Address_hash] the hashes [SK1024] and [SK256], whose real instances are in
    [Hash]; [Stack] what uninitialised objects hold there; [Gmp] the multi-precision library, with
    the laws of its documentation in [Gmp_laws]; [Std_sort] the standard sort; [Libm] the function
    [pow]; [Address_text] the parser and the printer of addresses; [Sqlite] the SQL library, with
    [Sqlite_laws].  Each has a concrete instance that the
    witnesses use.  The completions of asio, and the document that the JSON parser makes of
    [pool.conf], are arguments.

    ** Not modelled

    Third-party code: asio, the JSON parser, spdlog, mpir and sqlite.  The log and the console.
    Data races on objects that no mutex guards (the list of [Daemon_queue], the members of a
    registry), which C++ leaves undefined: the threads of [Threads] interleave operations that are
    atomic.  [Process] runs one handler at a time, and a signal is in [Lifecycle.Shutdown] only.  The
    constructors that the classes of [hash/uint1024.h] repeat for each width are there once. *)
From Stdlib Require Export ZArith Lia.
From Stdlib Require Export Init.Byte.
From Stdlib Require Strings.Byte.
From stdpp Require Export base numbers list option gmap sorting.

#[global] Open Scope Z_scope.

(** ** Machine integers

    An unsigned integer of width [w] is a [Z] in [[0, 2^w)]; [wrap w] is the conversion to that
    width.  [sgn w] is the conversion to the signed type of the same width. *)
Definition wrap (w z : Z) : Z := z `mod` 2 ^ w.
Definition sgn (w z : Z) : Z := (z + 2 ^ (w - 1)) `mod` 2 ^ w - 2 ^ (w - 1).

Abbreviation u8 := (wrap 8).
Abbreviation u16 := (wrap 16).
Abbreviation u32 := (wrap 32).
Abbreviation u64 := (wrap 64).
Abbreviation i32 := (sgn 32).

(** [x] fits an unsigned integer of width [w]. *)
Definition fits (w x : Z) : Prop := 0 <= x < 2 ^ w.

#[export] Instance fits_dec w x : Decision (fits w x).
Proof. unfold fits. apply _. Defined.

(** ** Bytes: [uint8_t], [unsigned char] and the [char] of a [std::string] *)
Abbreviation bytes := (list byte).

Definition b2z (b : byte) : Z := Z.of_N (Byte.to_N b).
Definition z2b (z : Z) : byte :=
  match Byte.of_N (Z.to_N (u8 z)) with Some b => b | None => Byte.x00 end.

#[export] Instance byte_eq_decision : EqDecision byte := Byte.byte_eq_dec.

#[export] Program Instance byte_countable : Countable byte :=
  {| encode b := encode (Byte.to_N b);
     decode p := (n ← decode p; Byte.of_N n) |}.
Next Obligation. intros b. cbn. rewrite decode_encode. apply Byte.of_to_N. Qed.

(** ** The monad of handlers

    A handler reads and writes a state [S]; [None] is a C++ behaviour the language leaves
    undefined (a null or out-of-range access) or a failed [assert]. *)
Definition M (S A : Type) : Type := S -> option (A * S).

#[export] Instance M_ret {S} : MRet (M S) := fun A a s => Some (a, s).
#[export] Instance M_bind {S} : MBind (M S) :=
  fun A B f m s => match m s with Some (a, s') => f a s' | None => None end.

Definition undefined {S A} : M S A := fun _ => None.
Definition get {S} : M S S := fun s => Some (s, s).
Definition gets {S A} (f : S -> A) : M S A := fun s => Some (f s, s).
Definition modify {S} (f : S -> S) : M S unit := fun s => Some (tt, f s).
Definition lift {S A} (o : option A) : M S A :=
  fun s => match o with Some a => Some (a, s) | None => None end.
Definition when {S} (b : bool) (m : M S unit) : M S unit := if b then m else mret tt.

(** A loop over a list, as the range-based [for] of the code. *)
Fixpoint foreach {S A} (f : A -> M S unit) (l : list A) : M S unit :=
  match l with
  | [] => mret tt
  | x :: l' => f x ≫= fun _ => foreach f l'
  end.

(** [exec m s] is the final state of [m] from [s]. *)
Definition exec {S A} (m : M S A) (s : S) : option S := snd <$> m s.

(** ** Ranges of a [std::vector], [None] when the range leaves the vector *)
Definition slice {A} (off n : nat) (l : list A) : option (list A) :=
  if bool_decide (off + n <= length l)%nat then Some (take n (drop off l)) else None.

(** ** Tactics *)
Ltac zlia := Z.to_euclidean_division_equations; lia.

(** Case analysis on the tests of a handler that was unfolded. *)
Ltac split_cases :=
  repeat match goal with
  | H : context [if ?b then _ else _] |- _ => let E := fresh "E" in destruct b eqn:E
  | |- context [if ?b then _ else _] => let E := fresh "E" in destruct b eqn:E
  end.

(** Reads the boolean comparisons of the context as propositions. *)
Ltac bools :=
  repeat match goal with
  | H : _ && _ = true |- _ => apply andb_true_iff in H as [? ?]
  | H : _ || _ = false |- _ => apply orb_false_iff in H as [? ?]
  | H : negb _ = true |- _ => apply negb_true_iff in H
  | H : negb _ = false |- _ => apply negb_false_iff in H
  | H : (_ =? _) = true |- _ => apply Z.eqb_eq in H
  | H : (_ =? _) = false |- _ => apply Z.eqb_neq in H
  | H : (_ <? _) = true |- _ => apply Z.ltb_lt in H
  | H : (_ <? _) = false |- _ => apply Z.ltb_ge in H
  | H : (_ <=? _) = true |- _ => apply Z.leb_le in H
  | H : (_ <=? _) = false |- _ => apply Z.leb_gt in H
  | H : bool_decide _ = true |- _ => apply bool_decide_eq_true_1 in H
  | H : bool_decide _ = false |- _ => apply bool_decide_eq_false_1 in H
  end.

(** ** Hint databases: [width] proves that a value fits its type, [bytes] rewrites conversions *)
Create HintDb width.
Create Rewrite HintDb bytes.

(** ** Lemmas on widths *)
Lemma wrap_fits w z : 0 <= w -> fits w (wrap w z).
Proof. intros Hw. unfold fits, wrap. apply Z.mod_pos_bound. lia. Qed.

Lemma wrap_small w z : fits w z -> wrap w z = z.
Proof. apply Z.mod_small. Qed.

Lemma wrap_wrap w z : wrap w (wrap w z) = wrap w z.
Proof. apply Z.mod_mod_divide, Z.divide_refl. Qed.

Lemma wrap_0 w : wrap w 0 = 0.
Proof. apply Zmod_0_l. Qed.

Lemma wrap_add_l w x y : wrap w (wrap w x + y) = wrap w (x + y).
Proof. apply Zplus_mod_idemp_l. Qed.

Lemma wrap_add_r w x y : wrap w (x + wrap w y) = wrap w (x + y).
Proof. apply Zplus_mod_idemp_r. Qed.

Lemma wrap_sub_l w x y : wrap w (wrap w x - y) = wrap w (x - y).
Proof. apply Zminus_mod_idemp_l. Qed.

Lemma wrap_sub_r w x y : wrap w (x - wrap w y) = wrap w (x - y).
Proof. apply Zminus_mod_idemp_r. Qed.

Lemma wrap_wider v w z : 0 <= v <= w -> wrap v (wrap w z) = wrap v z.
Proof.
  intros [Hv Hw]. unfold wrap. apply Z.mod_mod_divide.
  exists (2 ^ (w - v)). rewrite <-Z.pow_add_r by lia. f_equal. lia.
Qed.

Lemma wrap_sgn w z : 0 < w -> wrap w (sgn w z) = wrap w z.
Proof.
  intros Hw. unfold wrap, sgn. rewrite Zminus_mod_idemp_l. f_equal. lia.
Qed.

Lemma fits_mono v w x : v <= w -> fits v x -> fits w x.
Proof.
  unfold fits. intros Hw ?. destruct (decide (0 <= v)).
  - pose proof (Z.pow_le_mono_r 2 v w). lia.
  - rewrite (Z.pow_neg_r 2 v) in * by lia. lia.
Qed.

#[export] Hint Resolve wrap_fits : width.
#[export] Hint Extern 1 (0 <= _) => lia : width.
#[export] Hint Extern 5 (fits _ _) => unfold fits; lia : width.
#[export] Hint Rewrite wrap_wrap wrap_0 : bytes.

(** ** Lemmas on bit operations *)
Lemma fits_bits w x : 0 <= w -> 0 <= x -> fits w x <-> forall i, w <= i -> Z.testbit x i = false.
Proof.
  intros Hw Hx. split.
  - intros [_ Hlt] i Hi. destruct (decide (x = 0)) as [->|]; [apply Z.testbit_0_l|].
    apply Z.bits_above_log2; [done|]. apply Z.log2_lt_pow2 in Hlt; lia.
  - intros H. split; [done|]. destruct (decide (x = 0)) as [->|]; [lia|].
    apply Z.log2_lt_pow2; [lia|]. apply Z.nle_gt. intros Hle.
    specialize (H _ Hle). rewrite Z.bit_log2 in H by lia. done.
Qed.

Lemma lor_fits w x y : 0 <= w -> fits w x -> fits w y -> fits w (Z.lor x y).
Proof.
  intros Hw Hx Hy. assert (0 <= x /\ 0 <= y) as [? ?] by (unfold fits in *; lia).
  apply fits_bits; [done|by apply Z.lor_nonneg|]. intros i Hi. rewrite Z.lor_spec.
  by rewrite (proj1 (fits_bits w x Hw ltac:(done))), (proj1 (fits_bits w y Hw ltac:(done))).
Qed.

Lemma land_fits w x y : 0 <= w -> fits w x -> fits w y -> fits w (Z.land x y).
Proof.
  intros Hw Hx Hy. assert (0 <= x /\ 0 <= y) as [? ?] by (unfold fits in *; lia).
  apply fits_bits; [done|apply Z.land_nonneg; by left|]. intros i Hi. rewrite Z.land_spec.
  by rewrite (proj1 (fits_bits w x Hw ltac:(done))).
Qed.

Lemma lxor_fits w x y : 0 <= w -> fits w x -> fits w y -> fits w (Z.lxor x y).
Proof.
  intros Hw Hx Hy. assert (0 <= x /\ 0 <= y) as [? ?] by (unfold fits in *; lia).
  apply fits_bits; [done|by apply Z.lxor_nonneg|]. intros i Hi. rewrite Z.lxor_spec.
  by rewrite (proj1 (fits_bits w x Hw ltac:(done))), (proj1 (fits_bits w y Hw ltac:(done))).
Qed.

#[export] Hint Resolve lor_fits land_fits lxor_fits : width.

(** ** Lemmas on bytes *)
Lemma b2z_fits b : fits 8 (b2z b).
Proof. unfold fits, b2z. pose proof (Byte.to_N_bounded b). lia. Qed.

Lemma b2z_z2b z : b2z (z2b z) = u8 z.
Proof.
  unfold b2z, z2b. pose proof (wrap_fits 8 z ltac:(lia)) as Hz. unfold fits in Hz.
  destruct (Byte.of_N _) as [b|] eqn:E.
  - apply Byte.to_of_N in E. rewrite E. lia.
  - apply Byte.of_N_None_iff in E. lia.
Qed.

Lemma b2z_inj b c : b2z b = b2z c -> b = c.
Proof.
  unfold b2z. intros H%N2Z.inj.
  pose proof (Byte.of_to_N b) as Hb. pose proof (Byte.of_to_N c). rewrite H in Hb. congruence.
Qed.

Lemma z2b_b2z b : z2b (b2z b) = b.
Proof. apply b2z_inj. rewrite b2z_z2b. apply wrap_small, b2z_fits. Qed.

Lemma z2b_wrap w z : 8 <= w -> z2b (wrap w z) = z2b z.
Proof. intros. apply b2z_inj. rewrite !b2z_z2b. apply wrap_wider. lia. Qed.

#[export] Hint Resolve b2z_fits : width.
#[export] Hint Rewrite b2z_z2b z2b_b2z : bytes.

(** ** Lemmas on ranges *)
Lemma slice_app {A} (l1 l2 l3 : list A) off n :
  off = length l1 -> n = length l2 -> slice off n (l1 ++ l2 ++ l3) = Some l2.
Proof.
  intros -> ->. unfold slice. rewrite bool_decide_eq_true_2 by (rewrite !length_app; lia).
  by rewrite drop_app_length, take_app_length.
Qed.

Lemma slice_Some {A} off n (l r : list A) :
  slice off n l = Some r <-> (off + n <= length l)%nat /\ r = take n (drop off l).
Proof. unfold slice. case_bool_decide; naive_solver. Qed.

Lemma slice_None {A} off n (l : list A) :
  slice off n l = None <-> (length l < off + n)%nat.
Proof. unfold slice. case_bool_decide; split; try done; lia. Qed.

Lemma slice_is_Some {A} off n (l : list A) :
  (off + n <= length l)%nat -> exists r, slice off n l = Some r /\ length r = n.
Proof.
  intros H. exists (take n (drop off l)). rewrite slice_Some. split; [done|].
  rewrite length_take, length_drop. lia.
Qed.

(** ** Lemmas on handlers *)
Lemma M_bind_run {S A B} (m : M S A) (f : A -> M S B) s a s' :
  m s = Some (a, s') -> (m ≫= f) s = f a s'.
Proof. unfold mbind, M_bind. by intros ->. Qed.

Lemma M_bind_Some {S A B} (m : M S A) (f : A -> M S B) s b s' :
  (m ≫= f) s = Some (b, s') <-> exists a t, m s = Some (a, t) /\ f a t = Some (b, s').
Proof.
  unfold mbind, M_bind. destruct (m s) as [[a t]|]; split.
  - eauto.
  - intros (?&?&[= <- <-]&?). done.
  - done.
  - intros (?&?&?&?). done.
Qed.

Lemma foreach_app {S A} (f : A -> M S unit) l1 l2 s :
  foreach f (l1 ++ l2) s = (foreach f l1 ≫= fun _ => foreach f l2) s.
Proof.
  revert s. induction l1 as [|x l1 IH]; intros s; [done|].
  cbn. unfold mbind, M_bind in *. destruct (f x s) as [[? t]|]; [|done]. apply IH.
Qed.

(** An invariant of the body is an invariant of the loop. *)
Lemma foreach_invariant {S A} (I : S -> Prop) (f : A -> M S unit) l s u s' :
  (forall x t v t', x ∈ l -> I t -> f x t = Some (v, t') -> I t') ->
  I s -> foreach f l s = Some (u, s') -> I s'.
Proof.
  revert s. induction l as [|x l IH]; intros s Hf Hs H; [by injection H as <- <-|].
  cbn [foreach] in H. apply M_bind_Some in H as (v&t&Hx&Ht).
  eapply IH; [| |exact Ht].
  - intros. eapply Hf; [by right|..]; eauto.
  - eapply Hf; [left|..]; eauto.
Qed.

Lemma M_bind_None {S A B} (m : M S A) (f : A -> M S B) s : m s = None -> (m ≫= f) s = None.
Proof. unfold mbind, M_bind. by intros ->. Qed.

(** A body that is defined under an invariant makes the loop defined. *)
Lemma foreach_total {S A} (I : S -> Prop) (f : A -> M S unit) l s :
  (forall x t, x ∈ l -> I t -> exists t', f x t = Some (tt, t') /\ I t') ->
  I s -> exists s', foreach f l s = Some (tt, s') /\ I s'.
Proof.
  revert s. induction l as [|x l IH]; intros s Hf Hs; [by exists s|].
  destruct (Hf x s) as (t&Ht&HI); [by left|done|].
  destruct (IH t) as (s'&Hs'&?); [intros; apply Hf; [by right|done]|done|].
  exists s'. split; [|done]. cbn. unfold mbind, M_bind. by rewrite Ht.
Qed.
