(* ===== verification/Bytes.v ===== *)
(** * Byte conversions: [src/src/utils.hpp]

    [uint2bytes], [bytes2uint], [uint2bytes64], [bytes2uint64], [string2bytes] and
    [bytes2string], with their round trips.  A [std::string] is its sequence of [char]s, a
    [bytes].  The conversions of [double] are in [Float64]. *)
From S2P Require Import Prelude.

(** The C++ expression [x << 32] on a 32-bit [unsigned int] has no defined value: the shift
    count equals the width.  The model takes the value the compiler gives it as a parameter,
    some 32-bit number. *)
Class Platform := {
  shl32_by_32 : Z -> Z;
  shl32_by_32_fits : forall x, fits 32 (shl32_by_32 x);
}.

(** The shift instruction of x86 takes the count modulo 32. *)
#[refine] Definition x86_platform : Platform := {| shl32_by_32 x := u32 x |}.
Proof. auto with width. Defined.

(** A compiler that folds the constant shift to zero. *)
#[refine] Definition zero_platform : Platform := {| shl32_by_32 _ := 0 |}.
Proof. done. Defined.

(** [uint2bytes]: most significant byte first. *)
Definition uint2bytes (UINT : Z) : bytes :=
  [z2b (UINT ≫ 24); z2b (UINT ≫ 16); z2b (UINT ≫ 8); z2b UINT].

(** The sum of four shifted bytes, computed in [int] and converted to [uint32_t]. *)
Definition be32 (b0 b1 b2 b3 : byte) : Z :=
  u32 (i32 (b2z b0 ≪ 24) + (b2z b1 ≪ 16) + (b2z b2 ≪ 8) + b2z b3).

(** [bytes2uint]: 0 when fewer than four bytes are left at the offset. *)
Definition bytes2uint (BYTES : bytes) (nOffset : nat) : Z :=
  match drop nOffset BYTES with
  | b0 :: b1 :: b2 :: b3 :: _ => be32 b0 b1 b2 b3
  | _ => 0
  end.

(** [uint2bytes64]: the low word first, each word most significant byte first. *)
Definition uint2bytes64 (UINT : Z) : bytes :=
  uint2bytes (u32 UINT) ++ uint2bytes (u32 (UINT ≫ 32)).

(** [bytes2uint64]: the cast to 64 bits stands outside the shift. *)
Definition bytes2uint64 `{Platform} (BYTES : bytes) (nOffset : nat) : Z :=
  Z.lor (bytes2uint BYTES nOffset) (shl32_by_32 (bytes2uint BYTES (nOffset + 4))).

Definition string2bytes (STRING : bytes) : bytes := STRING.

(** [bytes2string]: an offset past the end is an invalid iterator range. *)
Definition bytes2string (BYTES : bytes) (nOffset : nat) : option bytes :=
  if bool_decide (nOffset <= length BYTES)%nat then Some (drop nOffset BYTES) else None.

(** ** Words of 64 bits in memory, least significant byte first *)
Definition le64 (w : Z) : bytes := (fun i => z2b (w ≫ (8 * Z.of_nat i))) <$> seq 0 8.
Fixpoint of_le (b : bytes) : Z :=
  match b with [] => 0 | c :: b' => b2z c + 2 ^ 8 * of_le b' end.

(** The 64-bit words of [n] groups of eight bytes, and back. *)
Fixpoint words64 (n : nat) (b : bytes) : list Z :=
  match n with O => [] | S n' => of_le (take 8 b) :: words64 n' (drop 8 b) end.
Definition bytes64 (ws : list Z) : bytes := ws ≫= le64.

(** ** Lemmas *)
Lemma length_uint2bytes v : length (uint2bytes v) = 4%nat.
Proof. done. Qed.

Lemma length_uint2bytes64 v : length (uint2bytes64 v) = 8%nat.
Proof. done. Qed.

#[export] Hint Rewrite length_uint2bytes length_uint2bytes64 : bytes.

Lemma be32_value b0 b1 b2 b3 :
  be32 b0 b1 b2 b3 = b2z b0 * 2 ^ 24 + b2z b1 * 2 ^ 16 + b2z b2 * 2 ^ 8 + b2z b3.
Proof.
  unfold be32. rewrite !Z.shiftl_mul_pow2 by lia.
  rewrite <-!Z.add_assoc, <-wrap_add_l, wrap_sgn, wrap_add_l by lia.
  rewrite !Z.add_assoc. apply wrap_small. unfold fits.
  pose proof (b2z_fits b0). pose proof (b2z_fits b1).
  pose proof (b2z_fits b2). pose proof (b2z_fits b3). unfold fits in *. lia.
Qed.

Lemma be32_fits b0 b1 b2 b3 : fits 32 (be32 b0 b1 b2 b3).
Proof. unfold be32. auto with width. Qed.

Lemma be32_uint2bytes v :
  be32 (z2b (v ≫ 24)) (z2b (v ≫ 16)) (z2b (v ≫ 8)) (z2b v) = u32 v.
Proof.
  rewrite be32_value, !b2z_z2b. unfold wrap. rewrite !Z.shiftr_div_pow2 by lia.
  Z.to_euclidean_division_equations. lia.
Qed.

Lemma bytes2uint_fits l off : fits 32 (bytes2uint l off).
Proof.
  unfold bytes2uint. destruct (drop off l) as [|? [|? [|? [|? ?]]]];
    auto using be32_fits with width; done.
Qed.

#[export] Hint Resolve be32_fits bytes2uint_fits : width.

Lemma bytes2uint_short l off : (length l < off + 4)%nat -> bytes2uint l off = 0.
Proof.
  intros H. unfold bytes2uint. pose proof (length_drop l off) as Hl.
  destruct (drop off l) as [|? [|? [|? [|? ?]]]]; try done. cbn in Hl. lia.
Qed.

(** Reading back, at any offset, what [uint2bytes] wrote. *)
Lemma bytes2uint_uint2bytes pre v post off :
  off = length pre -> bytes2uint (pre ++ uint2bytes v ++ post) off = u32 v.
Proof. intros ->. unfold bytes2uint. rewrite drop_app_length. apply be32_uint2bytes. Qed.

Lemma bytes2uint_uint2bytes_0 v post : bytes2uint (uint2bytes v ++ post) 0 = u32 v.
Proof. by apply (bytes2uint_uint2bytes []). Qed.

Lemma bytes2uint_uint2bytes_nil v : bytes2uint (uint2bytes v) 0 = u32 v.
Proof. rewrite <-(app_nil_r (uint2bytes v)). apply bytes2uint_uint2bytes_0. Qed.

Lemma bytes2uint_app pre l off :
  bytes2uint (pre ++ l) (length pre + off) = bytes2uint l off.
Proof. unfold bytes2uint. by rewrite <-drop_drop, drop_app_length. Qed.

(** Writing back what [bytes2uint] read. *)
Lemma uint2bytes_be32 b0 b1 b2 b3 : uint2bytes (be32 b0 b1 b2 b3) = [b0; b1; b2; b3].
Proof.
  rewrite be32_value. unfold uint2bytes.
  pose proof (b2z_fits b0). pose proof (b2z_fits b1).
  pose proof (b2z_fits b2). pose proof (b2z_fits b3). unfold fits in *.
  rewrite !Z.shiftr_div_pow2 by lia.
  repeat f_equal; apply b2z_inj; rewrite b2z_z2b; unfold wrap; zlia.
Qed.

Lemma bytes2uint64_fits `{Platform} l off : fits 32 (bytes2uint64 l off).
Proof. apply lor_fits; [done|auto with width|apply shl32_by_32_fits]. Qed.

#[export] Hint Resolve bytes2uint64_fits : width.

Lemma bytes2uint64_uint2bytes64 `{Platform} pre v post off :
  off = length pre ->
  bytes2uint64 (pre ++ uint2bytes64 v ++ post) off =
    Z.lor (u32 v) (shl32_by_32 (u32 (v ≫ 32))).
Proof.
  intros ->. unfold bytes2uint64, uint2bytes64. rewrite <-!app_assoc.
  rewrite bytes2uint_uint2bytes by done. rewrite app_assoc.
  rewrite (bytes2uint_uint2bytes (pre ++ _)) by (by rewrite length_app).
  by rewrite !wrap_wrap.
Qed.

Lemma bytes2uint64_app `{Platform} pre l off :
  bytes2uint64 (pre ++ l) (length pre + off) = bytes2uint64 l off.
Proof. unfold bytes2uint64. by rewrite <-Nat.add_assoc, !bytes2uint_app. Qed.

(** A 64-bit value below [2^32] survives, when the compiler shifts zero to zero. *)
Lemma bytes2uint64_small `{Platform} pre v post off :
  shl32_by_32 0 = 0 -> off = length pre -> fits 32 v ->
  bytes2uint64 (pre ++ uint2bytes64 v ++ post) off = v.
Proof.
  intros H0 Hoff Hv. rewrite bytes2uint64_uint2bytes64 by done.
  rewrite (wrap_small 32 v) by done. unfold fits in Hv.
  rewrite Z.shiftr_div_pow2, Z.div_small by lia. rewrite wrap_0, H0. apply Z.lor_0_r.
Qed.

Lemma bytes2string_app pre l : bytes2string (pre ++ l) (length pre) = Some l.
Proof.
  unfold bytes2string. rewrite bool_decide_eq_true_2 by (rewrite length_app; lia).
  by rewrite drop_app_length.
Qed.

(** ** Lemmas on words in memory *)
Lemma length_le64 w : length (le64 w) = 8%nat.
Proof. done. Qed.

Lemma length_words64 n b : length (words64 n b) = n.
Proof. revert b. induction n; intros b; cbn; [done|]. by rewrite IHn. Qed.

Lemma length_bytes64 ws : length (bytes64 ws) = (8 * length ws)%nat.
Proof.
  unfold bytes64. induction ws as [|w ws IH]; [done|].
  cbn [mbind list_bind]. rewrite length_app, IH, length_le64. cbn [length]. lia.
Qed.

Lemma of_le_fits b : fits (8 * Z.of_nat (length b)) (of_le b).
Proof.
  induction b as [|c b IH]; [done|]. cbn [of_le length]. pose proof (b2z_fits c).
  unfold fits in *. replace (8 * Z.of_nat (S (length b))) with (8 + 8 * Z.of_nat (length b)) by lia.
  rewrite Z.pow_add_r by lia. nia.
Qed.

Lemma of_le_app a b : of_le (a ++ b) = of_le a + 2 ^ (8 * Z.of_nat (length a)) * of_le b.
Proof.
  induction a as [|c a IH]; cbn [of_le app length]; [cbn; lia|]. rewrite IH.
  replace (8 * Z.of_nat (S (length a))) with (8 + 8 * Z.of_nat (length a)) by lia.
  rewrite Z.pow_add_r by lia. ring.
Qed.

Lemma words64_fits n b : Forall (fits 64) (words64 n b).
Proof.
  revert b. induction n as [|n IH]; intros b; constructor; [|apply IH].
  eapply fits_mono; [|apply of_le_fits]. rewrite length_take. lia.
Qed.

#[export] Hint Resolve of_le_fits words64_fits : width.

Lemma of_le_bytes w n :
  of_le ((fun i => z2b (w ≫ (8 * Z.of_nat i))) <$> seq 0 n) = w `mod` 2 ^ (8 * Z.of_nat n).
Proof.
  induction n as [|n IH]; [by rewrite Z.mod_1_r|].
  rewrite seq_S, fmap_app, of_le_app, IH, length_fmap, length_seq. cbn [fmap list_fmap of_le Nat.add].
  rewrite b2z_z2b, Z.mul_0_r, Z.add_0_r, Z.shiftr_div_pow2 by lia.
  replace (8 * Z.of_nat (S n)) with (8 * Z.of_nat n + 8) by lia.
  rewrite Z.pow_add_r, Z.rem_mul_r by lia. done.
Qed.

Lemma of_le_le64 w : fits 64 w -> of_le (le64 w) = w.
Proof. intros H. unfold le64. rewrite (of_le_bytes w 8). by apply wrap_small. Qed.

Lemma words64_bytes64 ws : Forall (fits 64) ws -> words64 (length ws) (bytes64 ws) = ws.
Proof.
  induction 1 as [|w ws Hw _ IH]; [done|]. cbn [length words64]. unfold bytes64. cbn [mbind list_bind].
  rewrite take_app_length', drop_app_length', of_le_le64 by done. f_equal. exact IH.
Qed.
