(* ===== verification/Float64.v ===== *)
(** * The [double] arithmetic the pool uses

    A [double] is an IEEE binary64 number of the standard library's [SpecFloat]; every operation
    is the correctly rounded one (to nearest, ties to even).  [fixed] reads a finite double as an
    integer number of units [2^-1074], so that the rounding lemmas are statements about [Z]. *)
From Stdlib Require Export Floats.SpecFloat.
From S2P Require Import Prelude Bytes.

Abbreviation f64 := spec_float.
Abbreviation prec := 53.
Abbreviation emax := 1024.

(** Conversion of an integer to [double]. *)
Definition f64_of_Z (z : Z) : f64 := binary_normalize prec emax z 0 false.

Definition f64_add : f64 -> f64 -> f64 := SFadd prec emax.
Definition f64_sub : f64 -> f64 -> f64 := SFsub prec emax.
Definition f64_mul : f64 -> f64 -> f64 := SFmul prec emax.
Definition f64_div : f64 -> f64 -> f64 := SFdiv prec emax.

(** The decimal literal [n / d], correctly rounded when both are exact. *)
Definition f64_lit (n d : Z) : f64 := f64_div (f64_of_Z n) (f64_of_Z d).

(** The integer part, toward zero; no value for an infinity or a NaN. *)
Definition f64_trunc (x : f64) : option Z :=
  match x with
  | S754_zero _ => Some 0
  | S754_finite s m e => Some (cond_Zopp s (Z.pos m ≪ e))
  | _ => None
  end.

(** [static_cast] to an unsigned integer of width [w]: undefined when the integer part does not
    fit. *)
Definition f64_to_uint (w : Z) (x : f64) : option Z :=
  z ← f64_trunc x; if bool_decide (fits w z) then Some z else None.

(** The value in units of [2^-1074]. *)
Definition bias : Z := 1074.
Definition fixed (x : f64) : option Z :=
  match x with
  | S754_zero _ => Some 0
  | S754_finite s m e =>
      if -bias <=? e then Some (cond_Zopp s (Z.pos m * 2 ^ (e + bias))) else None
  | _ => None
  end.

Lemma bias_eq : bias = 1074.
Proof. done. Qed.
#[global] Opaque bias.

(** ** Rounding *)

(** [F] is the value of a double nearest to [P / Q]: within half of the unit [U] of its
    magnitude. *)
Definition rounds_to (P Q F : Z) : Prop :=
  exists N k, 0 <= k /\ F = N * 2 ^ k /\ 2 * Z.abs (F * Q - P) <= Q * 2 ^ k /\
    (k = 0 \/ 2 ^ 52 * 2 ^ k * Q <= P).

(** [y * 2^j] with a 53-bit mantissa. *)
Definition representable (Y : Z) : Prop :=
  exists y j, 0 <= j /\ 0 <= y <= 2 ^ 53 /\ Y = y * 2 ^ j.

(** A bound that is a multiple of the unit survives rounding. *)
Lemma nearest_le N n U P Q :
  0 < Q -> 0 < U -> 2 * Z.abs (N * U * Q - P) <= Q * U -> P <= n * U * Q -> N <= n.
Proof.
  intros HQ HU Herr HP. assert (0 < U * Q) by nia.
  assert (2 * (N - n) * (U * Q) <= 1 * (U * Q)) by lia.
  apply Z.mul_le_mono_pos_r in H0; lia.
Qed.

Lemma nearest_ge N n U P Q :
  0 < Q -> 0 < U -> 2 * Z.abs (N * U * Q - P) <= Q * U -> n * U * Q <= P -> n <= N.
Proof.
  intros HQ HU Herr HP. assert (0 < U * Q) by nia.
  assert (2 * (n - N) * (U * Q) <= 1 * (U * Q)) by lia.
  apply Z.mul_le_mono_pos_r in H0; lia.
Qed.

Lemma pow2_split j k : 0 <= j <= k -> 2 ^ k = 2 ^ (k - j) * 2 ^ j.
Proof. intros. rewrite <-Z.pow_add_r by lia. f_equal. lia. Qed.

Lemma pow2_pos k : 0 <= k -> 0 < 2 ^ k.
Proof. intros. apply Z.pow_pos_nonneg; lia. Qed.

Lemma pow2_double j k : 0 <= j < k -> 2 * 2 ^ j <= 2 ^ k.
Proof. intros. rewrite <-Z.pow_succ_r by lia. apply Z.pow_le_mono_r; lia. Qed.

(** Rounding never exceeds a double that bounds the exact value. *)
Lemma rounds_to_le P Q F Y :
  0 < Q -> representable Y -> rounds_to P Q F -> P <= Y * Q -> F <= Y.
Proof.
  intros HQ (y&j&Hj&Hy&->) (N&k&Hk&->&Herr&Hmag) HP.
  pose proof (pow2_pos k Hk). pose proof (pow2_pos j Hj).
  assert (exists n, y * 2 ^ j = n * 2 ^ k) as [n Hn].
  { destruct (decide (k <= j)).
    - exists (y * 2 ^ (j - k)). rewrite (pow2_split k j) by lia. lia.
    - exists (2 ^ 52). destruct Hmag as [->|Hmag]; [lia|].
      pose proof (pow2_double j k ltac:(lia)).
      assert (2 ^ 52 * 2 ^ k <= y * 2 ^ j) by (apply (Z.mul_le_mono_pos_r _ _ Q); lia).
      nia. }
  rewrite Hn in *. apply Z.mul_le_mono_nonneg_r; [lia|].
  by apply (nearest_le N n (2 ^ k) P Q).
Qed.

(** Rounding never falls below a double that bounds the exact value. *)
Lemma rounds_to_ge P Q F Y :
  0 < Q -> representable Y -> rounds_to P Q F -> Y * Q <= P -> Y <= F.
Proof.
  intros HQ (y&j&Hj&Hy&->) (N&k&Hk&->&Herr&Hmag) HP.
  pose proof (pow2_pos k Hk). pose proof (pow2_pos j Hj).
  assert (exists n, y * 2 ^ j <= n * 2 ^ k /\ n * 2 ^ k * Q <= P) as (n&Hn&HnP).
  { destruct (decide (k <= j)).
    - exists (y * 2 ^ (j - k)). rewrite (pow2_split k j) in HP |- * by lia. lia.
    - exists (2 ^ 52). destruct Hmag as [->|Hmag]; [lia|].
      pose proof (pow2_double j k ltac:(lia)). nia. }
  etrans; [exact Hn|]. apply Z.mul_le_mono_nonneg_r; [lia|].
  by apply (nearest_ge N n (2 ^ k) P Q).
Qed.

(** The relative error of a rounding is at most [2^-53], and its absolute error at most half a
    unit where the value is below the normal range. *)
Lemma rounds_to_error P Q F :
  0 < Q -> 0 <= P -> rounds_to P Q F -> 2 ^ 53 * (F * Q) <= (2 ^ 53 + 1) * P + 2 ^ 52 * Q.
Proof.
  intros HQ HP (N&k&Hk&->&Herr&Hmag). pose proof (pow2_pos k Hk) as HU.
  assert (2 * (N * 2 ^ k * Q) <= 2 * P + Q * 2 ^ k) as Hle by lia. clear Herr.
  destruct Hmag as [->|Hmag]; [rewrite Z.pow_0_r in *; lia|].
  revert HU Hle Hmag. generalize (2 ^ k). intros U HU Hle Hmag. lia.
Qed.

(** ** The operations of [SpecFloat] round *)

(** [num / den] lies where the location [l] says, in [[m, m + 1)]. *)
Definition located (m : Z) (l : location) (num den : Z) : Prop :=
  match l with
  | loc_Exact => num = m * den
  | loc_Inexact Lt => m * den < num /\ 2 * num < (2 * m + 1) * den
  | loc_Inexact Eq => 2 * num = (2 * m + 1) * den
  | loc_Inexact Gt => (2 * m + 1) * den < 2 * num /\ num < (m + 1) * den
  end.

Lemma located_shr_1 s num den :
  0 <= shr_m s -> 0 < den -> located (shr_m s) (loc_of_shr_record s) num den ->
  0 <= shr_m (shr_1 s) /\
  located (shr_m (shr_1 s)) (loc_of_shr_record (shr_1 s)) num (den * 2).
Proof.
  destruct s as [m r t]. cbn [shr_m]. intros Hm Hd Hl.
  assert (0 <= m) as _ by done.
  destruct m as [|p|p]; [| |lia].
  - destruct r, t; cbn in *; lia.
  - destruct p as [p|p|]; destruct r, t; cbn in *; lia.
Qed.

Lemma located_iter p s num den :
  0 <= shr_m s -> 0 < den -> located (shr_m s) (loc_of_shr_record s) num den ->
  0 <= shr_m (SpecFloat.iter_pos shr_1 p s) /\
  located (shr_m (SpecFloat.iter_pos shr_1 p s)) (loc_of_shr_record (SpecFloat.iter_pos shr_1 p s))
    num (den * 2 ^ Z.pos p).
Proof.
  revert s den. induction p as [p IH|p IH|]; intros s den Hm Hd Hl; cbn [SpecFloat.iter_pos].
  - apply located_shr_1 in Hl as [Hm1 Hl1]; [|done..].
    apply IH in Hl1 as [Hm2 Hl2]; [|done|lia].
    apply IH in Hl2 as [Hm3 Hl3]; [|done|nia].
    replace (den * 2 ^ Z.pos p~1) with (den * 2 * 2 ^ Z.pos p * 2 ^ Z.pos p); [done|].
    replace (Z.pos p~1) with (1 + Z.pos p + Z.pos p) by lia.
    rewrite !Z.pow_add_r by lia. lia.
  - apply IH in Hl as [Hm2 Hl2]; [|done|done].
    apply IH in Hl2 as [Hm3 Hl3]; [|done|nia].
    replace (den * 2 ^ Z.pos p~0) with (den * 2 ^ Z.pos p * 2 ^ Z.pos p); [done|].
    replace (Z.pos p~0) with (Z.pos p + Z.pos p) by lia.
    rewrite !Z.pow_add_r by lia. lia.
  - by apply located_shr_1.
Qed.

Lemma loc_of_shr_record_of_loc m l : loc_of_shr_record (shr_record_of_loc m l) = l.
Proof. by destruct l as [|[]]. Qed.

Lemma shr_m_of_loc m l : shr_m (shr_record_of_loc m l) = m.
Proof. by destruct l as [|[]]. Qed.

Lemma located_round m l num den :
  0 < den -> located m l num den ->
  2 * Z.abs (round_nearest_even m l * den - num) <= den.
Proof.
  intros Hd. destruct l as [|[]]; cbn; intros; try destruct (Z.even m); lia.
Qed.

Lemma Zdigits2_log2 m : 0 < m -> Zdigits2 m = Z.log2 m + 1.
Proof.
  destruct m as [|p|p]; [lia| |lia]. intros _. cbn [Zdigits2].
  assert (forall q, Z.pos (digits2_pos q) = Z.log2 (Z.pos q) + 1) as H; [|apply H].
  induction q as [q IH|q IH|]; cbn [digits2_pos]; [| |done].
  - rewrite Pos2Z.inj_succ, IH, (Pos2Z.inj_xI q), Z.add_comm.
    rewrite Z.add_comm, Z.log2_succ_double by lia. lia.
  - rewrite Pos2Z.inj_succ, IH, (Pos2Z.inj_xO q), Z.log2_double by lia. lia.
Qed.

(** [shr] by the distance to [e'] keeps the location, when the target is not below [e]. *)
Lemma shr_to m l e e' num den :
  0 <= m -> 0 < den -> e <= e' -> located m l num den ->
  exists mrs, shr (shr_record_of_loc m l) e (e' - e) = (mrs, e') /\ 0 <= shr_m mrs /\
    located (shr_m mrs) (loc_of_shr_record mrs) num (den * 2 ^ (e' - e)).
Proof.
  intros Hm Hd He Hl. unfold shr. destruct (e' - e) as [|p|p] eqn:E; [| |lia].
  - exists (shr_record_of_loc m l). rewrite shr_m_of_loc, loc_of_shr_record_of_loc.
    rewrite Z.pow_0_r, Z.mul_1_r. repeat split; [f_equal; lia|done..].
  - eexists. split; [f_equal; lia|]. apply located_iter; [by rewrite shr_m_of_loc|done|].
    by rewrite shr_m_of_loc, loc_of_shr_record_of_loc.
Qed.

(** The first shift of [binary_round_aux] leaves at most 53 bits. *)
Lemma located_digits m l num den :
  0 < m -> 0 < den -> located m l num den ->
  2 ^ (Zdigits2 m - 1) * den <= num < 2 ^ Zdigits2 m * den.
Proof.
  intros Hm Hd Hl. rewrite Zdigits2_log2 by done.
  pose proof (Z.log2_spec m Hm) as [H1 H2]. rewrite <-Z.add_1_r in H2.
  rewrite Z.add_simpl_r. set (a := 2 ^ Z.log2 m) in *. set (b := 2 ^ (Z.log2 m + 1)) in *.
  assert (m * den <= num < (m + 1) * den) by (destruct l as [|[]]; cbn in Hl; lia).
  nia.
Qed.

(** The second shift of [binary_round_aux] is exact. *)
Lemma renormalize N e' :
  0 <= N <= 2 ^ 53 -> -1074 <= e' ->
  exists m e, shr_fexp prec emax N e' loc_Exact = (Build_shr_record m false false, e) /\
    0 <= m /\ e' <= e <= e' + 1 /\ m * 2 ^ (e - e') = N.
Proof.
  intros HN He. unfold shr_fexp.
  assert (fexp prec emax (Zdigits2 N + e') <= e' + 1) as Hf.
  { unfold fexp, emin. destruct (decide (N = 0)) as [->|]; [cbn; lia|].
    rewrite Zdigits2_log2 by lia.
    pose proof (Z.log2_le_mono N (2 ^ 53) ltac:(lia)). rewrite Z.log2_pow2 in H by lia. lia. }
  destruct (decide (fexp prec emax (Zdigits2 N + e') = e' + 1)) as [Heq|Hne].
  - rewrite Heq, Z.add_simpl_l.
    assert (N = 2 ^ 53) as ->.
    { unfold fexp, emin in Heq. destruct (decide (N = 0)) as [->|]; [cbn in Heq; lia|].
      rewrite Zdigits2_log2 in Heq by lia. pose proof (Z.log2_spec N ltac:(lia)) as [Hlo _].
      pose proof (Z.pow_le_mono_r 2 53 (Z.log2 N)). lia. }
    exists (2 ^ 52), (e' + 1). rewrite Z.add_simpl_l. repeat split; lia.
  - exists N, e'. rewrite Z.sub_diag, Z.pow_0_r. repeat split; try lia.
    unfold shr. destruct (_ - e') eqn:E; [done|lia|done].
Qed.

Lemma located_floor m l num den : 0 < den -> located m l num den -> m * den <= num.
Proof. intros Hd. destruct l as [|[]]; cbn; lia. Qed.

Lemma round_bounds m l :
  0 <= m -> m <= round_nearest_even m l <= m + 1.
Proof. intros. destruct l as [|[]]; cbn; try destruct (Z.even m); lia. Qed.

Section Round.
Variables (m e : Z) (l : location) (num den P Q A : Z).
Hypotheses (Hm : 0 < m) (Hden : 0 < den) (Hl : located m l num den) (HQ : 0 < Q).
Hypotheses (HA : 0 <= A) (HAe : 0 <= A + e + bias).
Hypothesis Hval : P * den * 2 ^ A = Q * num * 2 ^ (A + e + bias).
Let e1 := fexp prec emax (Zdigits2 m + e).
Hypotheses (He : e <= e1) (Hmax : e1 <= 970).

Lemma round_exponent : -1074 <= e1 /\ Zdigits2 m + e - 53 <= e1 /\
  (e1 = -1074 \/ e1 = Zdigits2 m + e - 53).
Proof. subst e1. unfold fexp, emin. lia. Qed.

Lemma round_scale : 2 ^ (e1 + bias) * 2 ^ A = 2 ^ (e1 - e) * 2 ^ (A + e + bias).
Proof.
  pose proof round_exponent. pose proof bias_eq.
  rewrite <-!Z.pow_add_r by lia. f_equal. lia.
Qed.

(** The integer nearest at the target exponent. *)
Lemma round_nearest N :
  2 * Z.abs (N * (den * 2 ^ (e1 - e)) - num) <= den * 2 ^ (e1 - e) ->
  rounds_to P Q (N * 2 ^ (e1 + bias)).
Proof.
  intros HN. pose proof round_exponent as (?&?&Hcase). pose proof bias_eq as Hb.
  pose proof round_scale as Hs. pose proof (located_digits m l num den Hm Hden Hl) as [Hlo _].
  exists N, (e1 + bias). split; [lia|]. split; [done|].
  pose proof (pow2_pos A HA) as HA2. pose proof (pow2_pos _ HAe) as HB2.
  assert (0 < den * 2 ^ A) as HD by nia.
  split.
  - apply (Z.mul_le_mono_pos_r _ _ (den * 2 ^ A)); [done|].
    replace (2 * Z.abs (N * 2 ^ (e1 + bias) * Q - P) * (den * 2 ^ A))
      with (2 * Z.abs ((N * 2 ^ (e1 + bias) * Q - P) * (den * 2 ^ A)))
      by (rewrite Z.abs_mul, (Z.abs_eq (den * 2 ^ A)); lia).
    replace ((N * 2 ^ (e1 + bias) * Q - P) * (den * 2 ^ A))
      with ((N * (den * 2 ^ (e1 - e)) - num) * (Q * 2 ^ (A + e + bias))).
    + rewrite Z.abs_mul, (Z.abs_eq (Q * _)) by nia.
      replace (Q * 2 ^ (e1 + bias) * (den * 2 ^ A))
        with (den * 2 ^ (e1 - e) * (Q * 2 ^ (A + e + bias))); [nia|].
      transitivity (Q * den * (2 ^ (e1 - e) * 2 ^ (A + e + bias))); [lia|].
      rewrite <-Hs. lia.
    + transitivity (N * Q * den * (2 ^ (e1 - e) * 2 ^ (A + e + bias))
        - Q * num * 2 ^ (A + e + bias)); [lia|].
      rewrite <-Hs, <-Hval. lia.
  - destruct Hcase as [Hc|Hc]; [left; lia|right].
    apply (Z.mul_le_mono_pos_r _ _ (den * 2 ^ A)); [done|].
    transitivity (2 ^ 52 * Q * den * (2 ^ (e1 - e) * 2 ^ (A + e + bias)));
      [rewrite <-Hs; lia|].
    transitivity (P * den * 2 ^ A); [rewrite Hval|lia].
    replace (2 ^ 52 * Q * den * (2 ^ (e1 - e) * 2 ^ (A + e + bias)))
      with ((2 ^ 52 * 2 ^ (e1 - e)) * den * (Q * 2 ^ (A + e + bias))) by lia.
    replace (2 ^ 52 * 2 ^ (e1 - e)) with (2 ^ (Zdigits2 m - 1)); [nia|].
    rewrite <-Z.pow_add_r by lia. f_equal. lia.
Qed.

Lemma round_correct :
  exists F, fixed (binary_round_aux prec emax false m e l) = Some F /\ rounds_to P Q F.
Proof.
  pose proof round_exponent as (Hlow&Hdig&_).
  destruct (shr_to m l e e1 num den) as (mrs&Hshr&Hpos&Hloc); [lia|done|done|done|].
  pose proof (located_digits m l num den Hm Hden Hl) as [_ Hhi].
  assert (0 < den * 2 ^ (e1 - e)) as Hd' by (pose proof (pow2_pos (e1 - e)); nia).
  assert (shr_m mrs < 2 ^ 53) as Hsmall.
  { apply located_floor in Hloc; [|done].
    apply (Z.mul_lt_mono_pos_r (den * 2 ^ (e1 - e))); [done|].
    eapply Z.le_lt_trans; [exact Hloc|]. eapply Z.lt_le_trans; [exact Hhi|].
    transitivity (2 ^ 53 * 2 ^ (e1 - e) * den); [|lia].
    rewrite <-Z.pow_add_r by lia. apply Z.mul_le_mono_nonneg_r; [lia|].
    apply Z.pow_le_mono_r; lia. }
  set (N := round_nearest_even (shr_m mrs) (loc_of_shr_record mrs)).
  pose proof (round_bounds (shr_m mrs) (loc_of_shr_record mrs) Hpos) as HN. fold N in HN.
  destruct (renormalize N e1) as (m2&e2&Hre&Hm2&He2&Hv); [lia|lia|].
  exists (N * 2 ^ (e1 + bias)). split; [|by apply round_nearest, located_round].
  unfold binary_round_aux, shr_fexp at 1. fold e1. rewrite Hshr. fold N. rewrite Hre.
  cbn [shr_m]. destruct m2 as [|p|p]; [| |lia].
  - cbn [fixed]. f_equal. rewrite Z.mul_0_l in Hv. lia.
  - rewrite (proj2 (Z.leb_le e2 _)) by lia. cbn [fixed cond_Zopp].
    pose proof bias_eq. rewrite (proj2 (Z.leb_le (-bias) e2)) by lia.
    f_equal. rewrite <-Hv, <-Z.mul_assoc, <-Z.pow_add_r by lia. do 2 f_equal. lia.
Qed.
End Round.

(** With no remainder the rounding is right even when the exponent need not grow. *)
Lemma round_exact_correct m e P Q A :
  0 < m -> 0 < Q -> 0 <= A -> 0 <= A + e + bias ->
  P * 2 ^ A = Q * m * 2 ^ (A + e + bias) ->
  fexp prec emax (Zdigits2 m + e) <= 970 -> e <= 970 ->
  exists F, fixed (binary_round_aux prec emax false m e loc_Exact) = Some F /\ rounds_to P Q F.
Proof.
  intros Hm HQ HA HAe Hval H970 He970.
  set (e1 := fexp prec emax (Zdigits2 m + e)) in *.
  destruct (decide (e <= e1)) as [He|He].
  - apply (round_correct m e loc_Exact m 1 P Q A); try done; cbn; lia.
  - assert (-1074 <= e1 /\ Zdigits2 m + e - 53 <= e1) as [? ?] by (unfold e1, fexp, emin; lia).
    pose proof bias_eq. pose proof (located_digits m loc_Exact m 1 Hm) as Hd.
    destruct Hd as [_ Hd]; [lia|cbn; lia|].
    assert (m <= 2 ^ 53).
    { rewrite Z.mul_1_r in Hd. pose proof (Z.pow_le_mono_r 2 (Zdigits2 m) 53). lia. }
    destruct (renormalize m e) as (m2&e2&Hre&Hm2&He2&Hv); [lia|lia|].
    exists (m * 2 ^ (e + bias)). split.
    + unfold binary_round_aux, shr_fexp at 1. fold e1. unfold shr at 1.
      destruct (e1 - e) as [|p|p] eqn:E; [lia|lia|].
      cbn [shr_record_of_loc shr_m loc_of_shr_record round_nearest_even]. rewrite Hre.
      cbn [shr_m]. destruct m2 as [|p2|p2]; [lia| |lia].
      rewrite (proj2 (Z.leb_le e2 _)) by lia. cbn [fixed cond_Zopp].
      rewrite (proj2 (Z.leb_le (-bias) e2)) by lia.
      f_equal. rewrite <-Hv, <-Z.mul_assoc, <-Z.pow_add_r by lia. do 2 f_equal. lia.
    + exists (m * 2 ^ (e + bias)), 0. rewrite Z.pow_0_r, !Z.mul_1_r.
      split; [done|]. split; [done|]. split; [|by left].
      replace (A + e + bias) with (A + (e + bias)) in Hval by lia.
      rewrite Z.pow_add_r in Hval by lia.
      pose proof (pow2_pos A HA).
      assert (P = Q * m * 2 ^ (e + bias)) as ->.
      { apply (Z.mul_cancel_r _ _ (2 ^ A)); lia. }
      replace (_ - _) with 0 by lia. lia.
Qed.

(** A positive finite double, with its exponent in range. *)
Lemma fixed_pos x X :
  fixed x = Some X -> 0 < X ->
  exists m e, x = S754_finite false m e /\ -bias <= e /\ X = Z.pos m * 2 ^ (e + bias).
Proof.
  destruct x as [| | |s m e]; cbn; try done; [intros [= <-]; lia|].
  case_match eqn:E; [|done]. apply Z.leb_le in E. intros [= <-] Hpos.
  pose proof (pow2_pos (e + bias) ltac:(lia)).
  destruct s; cbn in *; [nia|]. by exists m, e.
Qed.

Lemma pow2_lt_inv a b : 0 <= b -> 2 ^ a < 2 ^ b -> a < b.
Proof.
  intros Hb H. destruct (decide (a < b)); [done|].
  pose proof (Z.pow_le_mono_r 2 b a). lia.
Qed.

Lemma digits_pow2 m : 0 < m -> 1 <= Zdigits2 m /\ 2 ^ (Zdigits2 m - 1) <= m < 2 ^ Zdigits2 m.
Proof.
  intros Hm. rewrite Zdigits2_log2 by done. pose proof (Z.log2_nonneg m).
  pose proof (Z.log2_spec m Hm). rewrite Z.add_simpl_r, Z.add_1_r. lia.
Qed.

Lemma f64_of_Z_rounds z :
  0 < z < 2 ^ 64 -> exists F, fixed (f64_of_Z z) = Some F /\ rounds_to (z * 2 ^ bias) 1 F.
Proof.
  intros [Hz Hz64]. destruct z as [|p|p]; [lia| |lia].
  unfold f64_of_Z, binary_normalize, binary_round, shl_align.
  change (Z.pos (digits2_pos p)) with (Zdigits2 (Z.pos p)).
  pose proof (digits_pow2 (Z.pos p) Hz) as (Hd1&Hd&_). pose proof bias_eq.
  assert (Zdigits2 (Z.pos p) - 1 < 64) as Hd64 by (apply pow2_lt_inv; lia).
  assert (-1074 <= fexp prec emax (Zdigits2 (Z.pos p) + 0) <= 970) as Hf
    by (unfold fexp, emin; lia).
  set (f := fexp prec emax (Zdigits2 (Z.pos p) + 0)) in *.
  destruct (f - 0) as [|d|d] eqn:E.
  1,2: apply (round_exact_correct (Z.pos p) 0 _ _ 0); rewrite ?Z.add_0_l; lia || (fold f; lia).
  assert (f = -Z.pos d) as Hfd by lia.
  assert (Z.pos (Pos.iter xO p d) = Z.pos p * 2 ^ Z.pos d) as Hsh.
  { rewrite (Pos.iter_swap_gen _ _ Z.pos xO (Z.mul 2)) by done.
    by rewrite <-(Z.shiftl_mul_pow2 (Z.pos p)) by lia. }
  rewrite Hsh. apply (round_exact_correct _ f _ _ 0); rewrite ?Z.add_0_l; try lia.
  - rewrite Z.pow_0_r, Z.mul_1_r, Z.mul_1_l, <-Z.mul_assoc, <-Z.pow_add_r by lia.
    f_equal. f_equal. lia.
  - assert (Zdigits2 (Z.pos p * 2 ^ Z.pos d) = Zdigits2 (Z.pos p) + Z.pos d) as ->.
    { rewrite <-Z.shiftl_mul_pow2 by lia. rewrite !Zdigits2_log2; [|lia|].
      - rewrite Z.log2_shiftl by lia. lia.
      - rewrite Z.shiftl_mul_pow2 by lia. pose proof (pow2_pos (Z.pos d) ltac:(lia)). nia. }
    unfold fexp, emin in *. lia.
Qed.

(** A product below [2^1000] is rounded correctly. *)
Lemma f64_mul_rounds x y X Y :
  fixed x = Some X -> fixed y = Some Y -> 0 < X -> 0 < Y -> X * Y < 2 ^ (2 * bias + 900) ->
  exists F, fixed (f64_mul x y) = Some F /\ rounds_to (X * Y) (2 ^ bias) F.
Proof.
  intros Hx Hy HX HY Hlt. pose proof bias_eq as Hb.
  apply fixed_pos in Hx as (m1&e1&->&He1&->); [|done].
  apply fixed_pos in Hy as (m2&e2&->&He2&->); [|done].
  cbn [f64_mul SFmul xorb]. change (Z.pos (m1 * m2)) with (Z.pos m1 * Z.pos m2).
  pose proof (digits_pow2 (Z.pos m1 * Z.pos m2) ltac:(lia)) as (Hd1&Hd&_).
  set (dg := Zdigits2 (Z.pos m1 * Z.pos m2)) in *.
  assert (Z.pos m1 * 2 ^ (e1 + bias) * (Z.pos m2 * 2 ^ (e2 + bias)) =
    Z.pos m1 * Z.pos m2 * 2 ^ (e1 + e2 + 2 * bias)) as Hprod.
  { replace (e1 + e2 + 2 * bias) with (e1 + bias + (e2 + bias)) by lia.
    rewrite (Z.pow_add_r 2 (e1 + bias)) by lia. lia. }
  assert (dg - 1 + (e1 + e2 + 2 * bias) < 2 * bias + 900) as Hexp.
  { apply pow2_lt_inv; [lia|]. rewrite Z.pow_add_r by lia.
    eapply Z.le_lt_trans; [|exact Hlt]. rewrite Hprod.
    pose proof (pow2_pos (e1 + e2 + 2 * bias) ltac:(lia)). nia. }
  apply (round_exact_correct _ _ _ _ bias); try lia.
  - rewrite Hprod. replace (bias + (e1 + e2) + bias) with (e1 + e2 + 2 * bias) by lia. lia.
  - fold dg. unfold fexp, emin. lia.
Qed.

Lemma located_div a b :
  0 < b -> located (a / b) (new_location b (a `mod` b)) a b.
Proof.
  intros Hb. pose proof (Z.div_mod a b ltac:(lia)) as Hdm.
  pose proof (Z.mod_pos_bound a b Hb) as Hr.
  set (q := a / b) in *. set (r := a `mod` b) in *.
  unfold new_location, new_location_even, new_location_odd.
  destruct (Z.even b) eqn:Hev.
  - destruct (Z.eqb_spec r 0); [cbn; lia|]. cbn [located].
    destruct (Z.compare_spec (2 * r) b); lia.
  - destruct (Z.eqb_spec r 0); [cbn; lia|]. cbn [located].
    assert (exists k, b = 2 * k + 1) as [k Hk]
      by (apply Z.odd_spec; by rewrite <-Z.negb_even, Hev).
    destruct (Z.compare_spec (2 * r + 1) b); lia.
Qed.

(** The shifted quotient of [SFdiv_core_binary] in the normal range. *)
Lemma div_core_quotient m1 m2 s :
  0 < m1 -> 0 < m2 -> Zdigits2 m2 - Zdigits2 m1 + 53 <= s -> 0 <= s ->
  0 < m1 * 2 ^ s / m2 /\ Zdigits2 m1 + s - Zdigits2 m2 <= Zdigits2 (m1 * 2 ^ s / m2).
Proof.
  intros Hm1 Hm2 Hs Hs0.
  pose proof (digits_pow2 m1 Hm1) as (?&?&_). pose proof (digits_pow2 m2 Hm2) as (?&_&?).
  set (d1 := Zdigits2 m1) in *. set (d2 := Zdigits2 m2) in *.
  assert (2 ^ (d1 + s - 1 - d2) <= m1 * 2 ^ s / m2) as Hq.
  { apply Z.div_le_lower_bound; [done|].
    transitivity (2 ^ d2 * 2 ^ (d1 + s - 1 - d2)).
    - apply Z.mul_le_mono_nonneg_r; [|lia]. pose proof (pow2_pos (d1 + s - 1 - d2) ltac:(lia)). lia.
    - rewrite <-Z.pow_add_r by lia. replace (d2 + _) with (d1 - 1 + s) by lia.
      rewrite Z.pow_add_r by lia. pose proof (pow2_pos s Hs0). nia. }
  pose proof (pow2_pos (d1 + s - 1 - d2) ltac:(lia)) as Hpos. split; [lia|].
  rewrite Zdigits2_log2 by lia. apply Z.log2_le_mono in Hq.
  rewrite Z.log2_pow2 in Hq by lia. lia.
Qed.

(** The exponents of an inequality between scaled mantissas. *)
Lemma scaled_lt m1 m2 a b c d e :
  0 <= a -> 0 <= b -> 0 <= c -> 0 <= d -> 0 <= e ->
  2 ^ d <= m1 -> m2 < 2 ^ e -> m1 * 2 ^ a < m2 * 2 ^ b * 2 ^ c -> d + a < e + b + c.
Proof.
  intros ????? H1 H2 Hlt. apply pow2_lt_inv; [lia|]. rewrite !Z.pow_add_r by lia.
  pose proof (pow2_pos a ltac:(lia)). pose proof (pow2_pos b ltac:(lia)).
  pose proof (pow2_pos c ltac:(lia)).
  apply (Z.le_lt_trans _ (m1 * 2 ^ a)); [by apply Z.mul_le_mono_nonneg_r; lia|].
  eapply Z.lt_le_trans; [exact Hlt|].
  apply Z.mul_le_mono_nonneg_r; [lia|]. apply Z.mul_le_mono_nonneg_r; lia.
Qed.

(** A quotient between [2^-900] and [2^900] is rounded correctly. *)
Lemma f64_div_rounds x y X Y :
  fixed x = Some X -> fixed y = Some Y -> 0 < X -> 0 < Y ->
  X < Y * 2 ^ 900 -> Y < X * 2 ^ 900 ->
  exists F, fixed (f64_div x y) = Some F /\ rounds_to (X * 2 ^ bias) Y F.
Proof.
  intros Hx Hy HX HY Hlt1 Hlt2. pose proof bias_eq as Hb.
  apply fixed_pos in Hx as (m1&e1&->&He1&->); [|done].
  apply fixed_pos in Hy as (m2&e2&->&He2&->); [|done].
  pose proof (digits_pow2 (Z.pos m1) ltac:(lia)) as (?&Hlo1&Hhi1).
  pose proof (digits_pow2 (Z.pos m2) ltac:(lia)) as (?&Hlo2&Hhi2).
  set (d1 := Zdigits2 (Z.pos m1)) in *. set (d2 := Zdigits2 (Z.pos m2)) in *.
  pose proof (pow2_pos (e1 + bias) ltac:(lia)). pose proof (pow2_pos (e2 + bias) ltac:(lia)).
  assert (d1 - 1 + (e1 + bias) < d2 + (e2 + bias) + 900) as Hup.
  { by eapply scaled_lt; [..|exact Hlt1]; lia. }
  assert (d2 - 1 + (e2 + bias) < d1 + (e1 + bias) + 900) as Hdn.
  { by eapply scaled_lt; [..|exact Hlt2]; lia. }
  cbn [f64_div SFdiv xorb]. unfold f64_div, SFdiv, SFdiv_core_binary. fold d1 d2. cbn [xorb].
  assert (fexp prec emax (d1 + e1 - (d2 + e2)) = d1 + e1 - (d2 + e2) - 53) as ->
    by (unfold fexp, emin; lia).
  set (e' := Z.min (d1 + e1 - (d2 + e2) - 53) (e1 - e2)).
  set (s := e1 - e2 - e').
  assert (0 <= s /\ d2 - d1 + 53 <= s /\ s + e' = e1 - e2) as (Hs0&Hs&Hse) by lia.
  assert (match s with Z0 => Z.pos m1 | Z.pos _ => Z.pos m1 ≪ s | Z.neg _ => 0 end
    = Z.pos m1 * 2 ^ s) as ->.
  { destruct s as [|p|p]; [lia| |lia]. by rewrite Z.shiftl_mul_pow2. }
  destruct (div_core_quotient (Z.pos m1) (Z.pos m2) s) as [Hq Hdq]; [lia..|].
  fold d1 d2 in Hdq.
  pose proof (Z.div_eucl_eq (Z.pos m1 * 2 ^ s) (Z.pos m2) ltac:(lia)) as _.
  destruct (Z.div_eucl (Z.pos m1 * 2 ^ s) (Z.pos m2)) as [q r] eqn:Ediv.
  assert (q = Z.pos m1 * 2 ^ s / Z.pos m2) as -> by (unfold Z.div; by rewrite Ediv).
  assert (r = (Z.pos m1 * 2 ^ s) `mod` Z.pos m2) as -> by (unfold Z.modulo; by rewrite Ediv).
  pose proof (located_div (Z.pos m1 * 2 ^ s) (Z.pos m2) ltac:(lia)) as Hloc.
  set (q := Z.pos m1 * 2 ^ s / Z.pos m2) in *.
  assert (Zdigits2 q <= d1 + s - d2 + 1) as Hdq2.
  { rewrite Zdigits2_log2 by done. assert (Z.log2 q < d1 + s - d2 + 1); [|lia].
    apply Z.log2_lt_pow2; [done|]. apply Z.div_lt_upper_bound; [lia|].
    eapply (Z.lt_le_trans _ (2 ^ d1 * 2 ^ s)).
    - apply Z.mul_lt_mono_pos_r; [by apply pow2_pos|lia].
    - transitivity (2 ^ (d2 - 1) * 2 ^ (d1 + s - d2 + 1)).
      + rewrite <-!Z.pow_add_r by lia. apply Z.pow_le_mono_r; lia.
      + apply Z.mul_le_mono_nonneg_r; [|lia]. pose proof (pow2_pos (d1 + s - d2 + 1) ltac:(lia)). lia. }
  apply (round_correct q e' _ (Z.pos m1 * 2 ^ s) (Z.pos m2) _ _ (Z.abs (e' + bias)));
    try done; try lia.
  - transitivity (Z.pos m1 * Z.pos m2 * 2 ^ (e1 + bias + bias + Z.abs (e' + bias))).
    + rewrite !(Z.pow_add_r 2 (e1 + bias + bias)), (Z.pow_add_r 2 (e1 + bias)) by lia. lia.
    + replace (e1 + bias + bias + Z.abs (e' + bias))
        with (e2 + bias + s + (Z.abs (e' + bias) + e' + bias)) by lia.
      rewrite (Z.pow_add_r 2 (e2 + bias + s)), (Z.pow_add_r 2 (e2 + bias)) by lia. lia.
  - unfold fexp, emin. lia.
  - unfold fexp, emin. lia.
Qed.

(** ** Values *)
Lemma rounds_to_exact Y Q F : 0 < Q -> representable Y -> rounds_to (Y * Q) Q F -> F = Y.
Proof.
  intros HQ HY HF. apply Z.le_antisymm.
  - by eapply rounds_to_le.
  - by eapply rounds_to_ge.
Qed.

Lemma representable_scaled z j : 0 <= z <= 2 ^ 53 -> 0 <= j -> representable (z * 2 ^ j).
Proof. intros. exists z, j. lia. Qed.

Lemma f64_of_Z_exact z : 0 <= z <= 2 ^ 53 -> fixed (f64_of_Z z) = Some (z * 2 ^ bias).
Proof.
  intros Hz. destruct (decide (z = 0)) as [->|]; [done|].
  destruct (f64_of_Z_rounds z) as (F&HF&Hr); [lia|]. rewrite HF. f_equal.
  apply (rounds_to_exact _ 1); [done| |by rewrite Z.mul_1_r].
  apply representable_scaled; [done|]. rewrite bias_eq. lia.
Qed.

(** Truncation reads the integer part of the fixed-point value. *)
Lemma f64_trunc_fixed x F : fixed x = Some F -> 0 <= F -> f64_trunc x = Some (F / 2 ^ bias).
Proof.
  destruct x as [s| | |s m e]; cbn; try done; [by intros [= <-]|].
  pose proof bias_eq as Hb.
  case_match eqn:E; [|done]. apply Z.leb_le in E. intros [= <-] HF.
  pose proof (pow2_pos (e + bias) ltac:(lia)).
  destruct s; cbn in *; [nia|]. f_equal. destruct (decide (0 <= e)).
  - rewrite Z.shiftl_mul_pow2, Z.pow_add_r, Z.mul_assoc by lia.
    by rewrite Z.div_mul by (pose proof (pow2_pos bias); lia).
  - replace e with (-(-e)) at 1 by lia. rewrite Z.shiftl_opp_r, Z.shiftr_div_pow2 by lia.
    replace bias with (-e + (e + bias)) at 2 by lia.
    rewrite (Z.pow_add_r 2 (-e)) by lia. rewrite Z.div_mul_cancel_r; [done|..].
    + pose proof (pow2_pos (-e)). lia.
    + lia.
Qed.

(** ** The bit pattern of a [double]: the unions of [double2bytes] and [bytes2double] *)
Definition f64_of_bits (n : Z) : f64 :=
  let s := Z.testbit n 63 in
  let e := Z.land (n ≫ 52) 2047 in
  let m := Z.land n (2 ^ 52 - 1) in
  if e =? 2047 then if m =? 0 then S754_infinity s else S754_nan
  else if e =? 0 then
    match m with Z.pos p => S754_finite s p (-1074) | _ => S754_zero s end
  else match m + 2 ^ 52 with Z.pos p => S754_finite s p (e - 1075) | _ => S754_nan end.

Definition bits_of_f64 (x : f64) : Z :=
  match x with
  | S754_zero s => Z.b2z s ≪ 63
  | S754_infinity s => (Z.b2z s ≪ 63) + (2047 ≪ 52)
  | S754_nan => (2047 ≪ 52) + (1 ≪ 51)
  | S754_finite s m e =>
      (Z.b2z s ≪ 63) +
      (if Z.pos m <? 2 ^ 52 then Z.pos m else ((e + 1075) ≪ 52) + (Z.pos m - 2 ^ 52))
  end.

Definition double2bytes (DOUBLE : f64) : bytes := uint2bytes64 (bits_of_f64 DOUBLE).
Definition bytes2double `{Platform} (BYTES : bytes) : f64 := f64_of_bits (bytes2uint64 BYTES 0).

