(* ===== verification/StdMap.v ===== *)
(** * [std::map]: the ordered maps of the pool

    A [std::map<K, V>] is its sequence of entries in iteration order, kept strictly increasing by
    [insert] and [erase].  [KeyOrder] is what the key type's [operator<] promises; the instances
    are the integers (a [uint1024] by value) and [std::string] (by unsigned [char]). *)
From S2P Require Import Prelude.

Class KeyOrder (K : Type) := {
  key_lt : K -> K -> bool;
  key_lt_irrefl : forall a, key_lt a a = false;
  key_lt_trans : forall a b c, key_lt a b = true -> key_lt b c = true -> key_lt a c = true;
  key_lt_total : forall a b, key_lt a b = false -> key_lt b a = false -> a = b;
}.

Abbreviation smap K V := (list (K * V)).

#[export] Program Instance Z_order : KeyOrder Z := {| key_lt := Z.ltb |}.
Next Obligation. intros a. lia. Qed.
Next Obligation. intros a b c. lia. Qed.
Next Obligation. intros a b. lia. Qed.

(** [std::string::operator<]. *)
Fixpoint bytes_lt (a b : bytes) : bool :=
  match a, b with
  | _, [] => false
  | [], _ :: _ => true
  | x :: a', y :: b' =>
      if b2z x <? b2z y then true else if b2z y <? b2z x then false else bytes_lt a' b'
  end.

#[export] Program Instance bytes_order : KeyOrder bytes := {| key_lt := bytes_lt |}.
Next Obligation. induction a as [|x a IH]; [done|]. cbn. by rewrite Z.ltb_irrefl. Qed.
Next Obligation.
  induction a as [|x a IH]; intros [|y b] [|z c]; cbn; try done.
  intros H1 H2. split_cases; bools; try done; try lia. eapply IH; eauto.
Qed.
Next Obligation.
  induction a as [|x a IH]; intros [|y b]; cbn; try done.
  intros H1 H2. split_cases; bools; try done.
  f_equal; [apply b2z_inj; lia|eauto].
Qed.

Section StdMap.
Context {K V : Type} `{KeyOrder K}.
Implicit Types (m : smap K V) (k : K) (v : V).

(** [find]: [None] is [end()]. *)
Fixpoint map_find k m : option V :=
  match m with
  | [] => None
  | (k', v') :: m' =>
      if key_lt k' k then map_find k m' else if key_lt k k' then None else Some v'
  end.

(** [m[k] = v]. *)
Fixpoint map_insert k v m : smap K V :=
  match m with
  | [] => [(k, v)]
  | (k', v') :: m' =>
      if key_lt k' k then (k', v') :: map_insert k v m'
      else if key_lt k k' then (k, v) :: m
      else (k, v) :: m'
  end.

Fixpoint map_erase k m : smap K V :=
  match m with
  | [] => []
  | (k', v') :: m' =>
      if key_lt k' k then (k', v') :: map_erase k m'
      else if key_lt k k' then m
      else m'
  end.

Definition map_count k m : bool := match map_find k m with Some _ => true | None => false end.

Definition map_keys m : list K := m.*1.

(** [k] is below every key of [m]. *)
Definition below k m : Prop := Forall (fun e => key_lt k e.1 = true) m.

(** The invariant of [std::map]. *)
Fixpoint map_sorted m : Prop :=
  match m with
  | [] => True
  | (k, _) :: m' => below k m' /\ map_sorted m'
  end.

Lemma key_lt_asym a b : key_lt a b = true -> key_lt b a = false.
Proof.
  intros Hab. destruct (key_lt b a) eqn:Hba; [|done].
  pose proof (key_lt_trans _ _ _ Hab Hba) as Haa. by rewrite key_lt_irrefl in Haa.
Qed.

Lemma below_trans k k' m : key_lt k k' = true -> below k' m -> below k m.
Proof. intros Hk Hm. eapply Forall_impl; [exact Hm|]. intros e He. by eapply key_lt_trans. Qed.

Lemma find_below k m : below k m -> map_find k m = None.
Proof.
  destruct m as [|[k' v'] m]; [done|]. intros [Hk _]%Forall_cons. cbn in *.
  by rewrite (key_lt_asym _ _ Hk), Hk.
Qed.

Lemma insert_below k k' v m : below k m -> key_lt k k' = true -> below k (map_insert k' v m).
Proof.
  intros Hm Hk. induction m as [|[k2 v2] m IH]; cbn; [by constructor|].
  pose proof Hm as [H1 H2]%Forall_cons. split_cases; constructor; try done.
  by apply IH.
Qed.

Lemma insert_sorted k v m : map_sorted m -> map_sorted (map_insert k v m).
Proof.
  induction m as [|[k' v'] m IH]; cbn; [by repeat constructor|]. intros [Hb Hs].
  destruct (key_lt k' k) eqn:E1; [|destruct (key_lt k k') eqn:E2].
  - split; [by apply insert_below|auto].
  - cbn. split; [|done]. constructor; [done|]. by eapply below_trans.
  - cbn. by rewrite <-(key_lt_total _ _ E1 E2).
Qed.

Lemma erase_below k k' m : below k m -> below k (map_erase k' m).
Proof.
  intros Hm. induction m as [|[k2 v2] m IH]; cbn; [done|].
  pose proof Hm as [H1 H2]%Forall_cons. split_cases; [|done..]. constructor; [done|].
  by apply IH.
Qed.

Lemma erase_sorted k m : map_sorted m -> map_sorted (map_erase k m).
Proof.
  induction m as [|[k' v'] m IH]; cbn; [done|]. intros [Hb Hs].
  split_cases; cbn; try done. split; [by apply erase_below|auto].
Qed.

(** A new value under a key that is there. *)
Lemma keys_insert k v m : map_sorted m -> is_Some (map_find k m) -> map_keys (map_insert k v m) = map_keys m.
Proof.
  unfold map_keys. induction m as [|[k' v'] m IH]; cbn; [by intros _ [? ?]|]. intros [Hb Hs].
  destruct (key_lt k' k) eqn:E1; [intros Hf; cbn; by rewrite IH|].
  destruct (key_lt k k') eqn:E2; [by intros [? ?]|]. intros _. cbn. by rewrite (key_lt_total _ _ E1 E2).
Qed.

Lemma find_insert_eq k v m : map_find k (map_insert k v m) = Some v.
Proof.
  induction m as [|[k' v'] m IH]; cbn.
  - by rewrite key_lt_irrefl.
  - destruct (key_lt k' k) eqn:E1; [|destruct (key_lt k k') eqn:E2]; cbn;
      rewrite ?E1, ?key_lt_irrefl; done.
Qed.

Lemma find_insert_ne k k' v m :
  map_sorted m -> k <> k' -> map_find k (map_insert k' v m) = map_find k m.
Proof.
  intros Hs Hne. induction m as [|[k2 v2] m IH]; cbn.
  - destruct (key_lt k' k) eqn:E1; [done|]. destruct (key_lt k k') eqn:E2; [done|].
    by destruct Hne; apply key_lt_total.
  - destruct Hs as [Hb Hs].
    destruct (key_lt k2 k') eqn:E1; [|destruct (key_lt k' k2) eqn:E2]; cbn.
    + by rewrite IH.
    + destruct (key_lt k' k) eqn:E3; [done|].
      destruct (key_lt k k') eqn:E4; [|by destruct Hne; apply key_lt_total].
      pose proof (key_lt_trans _ _ _ E4 E2) as E5.
      by rewrite (key_lt_asym _ _ E5), E5.
    + rewrite (key_lt_total _ _ E1 E2).
      destruct (key_lt k' k) eqn:E3; [done|].
      by destruct (key_lt k k') eqn:E4; [|destruct Hne; apply key_lt_total].
Qed.

Lemma find_erase_eq k m : map_sorted m -> map_find k (map_erase k m) = None.
Proof.
  intros Hs. induction m as [|[k' v'] m IH]; cbn; [done|]. destruct Hs as [Hb Hs].
  destruct (key_lt k' k) eqn:E1; [|destruct (key_lt k k') eqn:E2]; cbn.
  - rewrite E1. auto.
  - by rewrite E1, E2.
  - rewrite <-(key_lt_total _ _ E1 E2). by apply find_below.
Qed.

Lemma find_erase_ne k k' m :
  map_sorted m -> k <> k' -> map_find k (map_erase k' m) = map_find k m.
Proof.
  intros Hs Hne. induction m as [|[k2 v2] m IH]; cbn; [done|]. destruct Hs as [Hb Hs].
  destruct (key_lt k2 k') eqn:E1; [|destruct (key_lt k' k2) eqn:E2]; cbn; [by rewrite IH|done|].
  rewrite (key_lt_total _ _ E1 E2) in *.
  destruct (key_lt k' k) eqn:E3; [done|].
  destruct (key_lt k k') eqn:E4; [|by destruct Hne; apply key_lt_total].
  apply find_below. by eapply below_trans.
Qed.

Lemma find_insert `{EqDecision K} k k' v m :
  map_sorted m ->
  map_find k (map_insert k' v m) = if decide (k = k') then Some v else map_find k m.
Proof.
  intros Hs. case_decide as Hk; [subst; apply find_insert_eq|by apply find_insert_ne].
Qed.

(** Entries and lookups of a sorted map agree. *)
Lemma find_Some k v m : map_sorted m -> map_find k m = Some v <-> (k, v) ∈ m.
Proof.
  induction m as [|[k' v'] m IH]; cbn; [intros; split; [done|by intros ?%not_elem_of_nil]|].
  intros [Hb Hs]. rewrite elem_of_cons, <-IH by done.
  destruct (key_lt k' k) eqn:E1; [|destruct (key_lt k k') eqn:E2].
  - split; [by right|]. intros [[= -> ->]|]; [|done]. by rewrite key_lt_irrefl in E1.
  - split; [done|]. intros [[= -> ->]|Hf]; [by rewrite key_lt_irrefl in E2|].
    rewrite find_below in Hf; [done|]. by eapply below_trans.
  - rewrite <-(key_lt_total _ _ E1 E2). rewrite find_below by done. split; [intros [= ->]; by left|]. intros [[= ->]|?]; [done|done].
Qed.

Lemma find_is_Some k m : map_sorted m -> is_Some (map_find k m) <-> k ∈ map_keys m.
Proof.
  intros Hs. unfold map_keys. rewrite list_elem_of_fmap. split.
  - intros [v Hv]. exists (k, v). by rewrite <-find_Some.
  - intros ([k' v]&->&Hin). exists v. by apply find_Some.
Qed.

Lemma keys_NoDup m : map_sorted m -> NoDup (map_keys m).
Proof.
  induction m as [|[k v] m IH]; cbn; [constructor|]. intros [Hb Hs].
  constructor; [|auto]. rewrite list_elem_of_fmap. intros ([k' v']&->&Hin).
  unfold below in Hb. rewrite Forall_forall in Hb. apply Hb in Hin. cbn in Hin.
  by rewrite key_lt_irrefl in Hin.
Qed.

(** Two sorted maps with the same lookups are the same sequence. *)
Lemma smap_eq m1 m2 :
  map_sorted m1 -> map_sorted m2 -> (forall k, map_find k m1 = map_find k m2) -> m1 = m2.
Proof.
  revert m2. induction m1 as [|[k1 v1] m1 IH]; intros [|[k2 v2] m2] H1 H2 Heq; [done| | |].
  - specialize (Heq k2). cbn in Heq. by rewrite key_lt_irrefl in Heq.
  - specialize (Heq k1). cbn in Heq. by rewrite key_lt_irrefl in Heq.
  - destruct H1 as [Hb1 Hs1], H2 as [Hb2 Hs2].
    assert (k1 = k2) as ->.
    { pose proof (Heq k1) as Ha. pose proof (Heq k2) as Hb. cbn in Ha, Hb.
      rewrite key_lt_irrefl in Ha, Hb.
      destruct (key_lt k1 k2) eqn:E1.
      - by rewrite (key_lt_asym _ _ E1) in Ha.
      - destruct (key_lt k2 k1) eqn:E2; [done|by apply key_lt_total]. }
    assert (v1 = v2) as ->.
    { specialize (Heq k2). cbn in Heq. rewrite key_lt_irrefl in Heq. congruence. }
    f_equal. apply IH; [done..|]. intros k. specialize (Heq k). cbn in Heq.
    destruct (key_lt k2 k) eqn:E1; [done|].
    destruct (key_lt k k2) eqn:E2.
    + by rewrite !find_below by (by eapply below_trans).
    + rewrite <-(key_lt_total _ _ E1 E2). by rewrite !find_below.
Qed.

(** ** Totals over the entries *)
Fixpoint total (f : V -> Z) m : Z :=
  match m with [] => 0 | (_, v) :: m' => f v + total f m' end.

Lemma total_insert f k v m :
  map_sorted m ->
  total f (map_insert k v m) =
    total f m - match map_find k m with Some v' => f v' | None => 0 end + f v.
Proof.
  induction m as [|[k' v'] m IH]; cbn; [intros; lia|]. intros [Hb Hs].
  destruct (key_lt k' k) eqn:E1; [|destruct (key_lt k k') eqn:E2]; cbn.
  - rewrite IH by done. lia.
  - lia.
  - lia.
Qed.

Lemma total_nonneg f m : (forall k v, (k, v) ∈ m -> 0 <= f v) -> 0 <= total f m.
Proof.
  induction m as [|[k v] m IH]; cbn; [done|]. intros Hf.
  pose proof (Hf k v ltac:(left)). assert (0 <= total f m); [|lia].
  apply IH. intros. eapply Hf. by right.
Qed.

Lemma total_find_le f k v m :
  map_sorted m -> (forall k v, (k, v) ∈ m -> 0 <= f v) -> map_find k m = Some v ->
  f v <= total f m.
Proof.
  intros Hs Hf Hv%find_Some; [|done]. clear Hs. induction m as [|[k' v'] m IH]; cbn.
  - by apply not_elem_of_nil in Hv.
  - assert (0 <= total f m) by (apply total_nonneg; intros; eapply Hf; by right).
    apply elem_of_cons in Hv as [[= -> ->]|Hv]; [lia|].
    pose proof (Hf k' v' ltac:(left)). cut (f v <= total f m); [lia|].
    apply IH; [|done]. intros. eapply Hf. by right.
Qed.

(** Inserting keys in increasing order appends: reading back a map that was written in order. *)
Lemma insert_last k v m : map_sorted (m ++ [(k, v)]) -> map_insert k v m = m ++ [(k, v)].
Proof.
  induction m as [|[k' v'] m IH]; [done|]. cbn. intros [Hb Hs].
  apply Forall_app in Hb as [_ Hk]. apply Forall_cons in Hk as [Hk _]. cbn in Hk.
  by rewrite Hk, IH.
Qed.

Lemma map_sorted_app_l m1 m2 : map_sorted (m1 ++ m2) -> map_sorted m1.
Proof.
  induction m1 as [|[k v] m1 IH]; [done|]. cbn. intros [Hb Hs].
  apply Forall_app in Hb as [? _]. split; [done|by apply IH].
Qed.
End StdMap.

#[export] Hint Resolve insert_sorted erase_sorted : core.
