(* ===== verification/Sqlite.v ===== *)
(** * The statistics database: [src/src/database/sqlite_database.cpp], [types.hpp], [utils.hpp]

    The object that [Data_registry::init] creates when the configuration says [sqlite].  The SQL
    library is the class [Sqlite], with the laws of its documentation that the code meets in
    [Sqlite_laws]; [lib] is the state of the library with its databases.  The members for the
    prepared statements are pointers that the constructor does not initialise, so reading one
    before [init] has set it is undefined ([None]). *)
From Stdlib Require Import Strings.String.
From S2P Require Import Prelude Bytes Float64 StdMap.

(** ** The library *)
Definition SQLITE_OK : Z := 0.
Definition SQLITE_BUSY : Z := 5.
Definition SQLITE_DONE : Z := 101.

Inductive parameter_value :=
  | text (s : bytes)
  | int (z : Z)
  | int64 (z : Z)
  | real (x : f64).

(** A statement handle is never null; [None] is a null pointer. *)
Class Sqlite := {
  lib : Type;
  handle : Type;
  stmt : Type;
  sqlite3_open : bytes -> lib -> Z * option handle * lib;
  sqlite3_prepare : option handle -> string -> lib -> Z * option stmt * lib;
  sqlite3_step : option stmt -> lib -> Z * lib;
  sqlite3_finalize : option stmt -> lib -> lib;
  sqlite3_close : option handle -> lib -> lib;
  sqlite3_bind_parameter_index : option stmt -> string -> lib -> Z;
  sqlite3_bind : option stmt -> Z -> parameter_value -> lib -> lib;
  put_time : Z -> bytes;
}.

(** The query that every simple query runs. *)
Definition create_tbl : string := "CREATE TABLE tbl ( str TEXT )"%string.

(** A table that exists cannot be created: the statement does not compile.  When the statement
    that creates it has run the table exists, also after the statement is finalized. *)
Class Sqlite_laws `{Sqlite} := {
  has_tbl : option handle -> lib -> Prop;
  prepare_exists h l : has_tbl h l -> (sqlite3_prepare h create_tbl l).1.1 <> SQLITE_OK;
  step_creates h l s l1 l2 :
    sqlite3_prepare h create_tbl l = (SQLITE_OK, s, l1) -> sqlite3_step s l1 = (SQLITE_DONE, l2) ->
    has_tbl h l2;
  finalize_keeps h s l : has_tbl h l -> has_tbl h (sqlite3_finalize s l);
}.

(** ** The data: [types.hpp] *)
Record pool_data := mk_pool_data {
  pd_round : Z;
  pd_block_number : Z;
  pd_round_reward : Z;
  pd_total_shares : Z;
  pd_connection_count : Z;
}.

Record round_data := mk_round_data {
  rd_round : Z;
  rd_block_number : Z;
  rd_hash_block : bytes;
  rd_round_reward : Z;
  rd_total_shares : Z;
  rd_block_finder : bytes;
  rd_orphan : bool;
  rd_block_found_time : Z;
}.

Record connection_miner_data := mk_miner_data { m_pps : f64; m_wps : f64; m_guid : bytes }.
Record connection_data := mk_connection_data {
  m_address : bytes;
  MINER_DATA : smap bytes connection_miner_data;
}.

Definition GetTotalPPS (c : connection_data) : f64 :=
  foldl (fun PPS e => f64_add PPS (m_pps e.2)) (f64_of_Z 0) (MINER_DATA c).
Definition GetTotalWPS (c : connection_data) : f64 :=
  foldl (fun WPS e => f64_add WPS (m_wps e.2)) (f64_of_Z 0) (MINER_DATA c).

(** ** The object *)
Inductive statement :=
  | m_update_pool_data_stmt | m_save_connection_data_stmt | m_add_round_data_stmt
  | m_flag_round_as_orphan_stmt | m_update_account_data_stmt | m_clear_account_round_shares_stmt
  | m_add_account_earnings_stmt | m_delete_account_earnings_stmt | m_add_account_payment_stmt
  | m_delete_account_payment_stmt.

#[export] Instance statement_eq_dec : EqDecision statement.
Proof. solve_decision. Defined.

(** The queries [init] asks for, and the statements it prepares. *)
Definition queries : list string := [
  "CREATE DATABASE IF NOT EXISTS nxspool;";
  "CREATE TABLE IF NOT EXISTS pool_data	(id INTEGER PRIMARY KEY AUTOINCREMENT, 		round_number INTEGER NOT NULL,		block_number INTEGER DEFAULT NULL,		round_reward INTEGER DEFAULT NULL,		total_shares INTEGER DEFAULT NULL,		connection_count INTEGER DEFAULT NULL);";
  "CREATE TABLE IF NOT EXISTS round_history	( round_number INTEGER PRIMARY KEY,		block_number INTEGER DEFAULT NULL,		block_hash TEXT NOT NULL,		round_reward INTEGER DEFAULT NULL,		total_shares INTEGER DEFAULT NULL,		block_finder TEXT NOT NULL,		orphan INTEGER DEFAULT NULL,		block_found_time TEXT NOT NULL);";
  "CREATE TABLE IF NOT EXISTS connection_history	( account_address TEXT NOT NULL,		series_time TEXT NOT NULL,		last_save_time TEXT NOT NULL,		connection_count INTEGER DEFAULT NULL,		pps REAL DEFAULT NULL,		wps REAL DEFAULT NULL,		PRIMARY KEY (account_address, series_time));";
  "CREATE TABLE IF NOT EXISTS account_data	( account_address TEXT PRIMARY KEY,		last_save_time TEXT NOT NULL,		connection_count INTEGER DEFAULT NULL,		round_shares INTEGER DEFAULT NULL,		balance INTEGER DEFAULT NULL,		pending_payout INTEGER DEFAULT NULL);";
  "CREATE TABLE IF NOT EXISTS earnings_history	( account_address TEXT PRIMARY KEY,		round_number INTEGER NOT NULL ,		block_number INTEGER DEFAULT NULL,		round_shares INTEGER DEFAULT NULL,		amount_earned INTEGER DEFAULT NULL,		datetime TEXT NOT NULL);";
  "CREATE INDEX idx_earnings_history ON earnings_history		(account_address, round_number);";
  "CREATE TABLE IF NOT EXISTS payment_history	( account_address TEXT PRIMARY KEY,		round_number INTEGER NOT NULL ,		block_number INTEGER DEFAULT NULL,		amount_paid INTEGER DEFAULT NULL,		datetime TEXT NOT NULL);";
  "CREATE INDEX idx_payment_history ON payment_history		(account_address, block_number);"]%string.

Definition statements : list (statement * string) := [
  (m_update_pool_data_stmt, "REPLACE INTO nxspool.pool_data VALUES (:round, :blocknumber, :roundreward, :totalshares, :connectioncount);");
  (m_save_connection_data_stmt, "REPLACE INTO nxspool.connection_history VALUES (':address', ':seriestime', ':time', :connectioncount, :pps, :wps);");
  (m_add_round_data_stmt, "INSERT INTO nxspool.round_history VALUES (:round, :blocknumber,		':hashblock', :roundrewards, :totalshares, ':blockfinder', :orphan, ':blockfoundtime');");
  (m_flag_round_as_orphan_stmt, "UPDATE nxspool.round_history SET orphan = 1 WHERE round_number = :round;");
  (m_update_account_data_stmt, "INSERT INTO nxspool.account_data (account_address, last_save_time, connection_count, round_shares, balance, pending_payout) VALUES (':accountaddress', :currenttime, :connections, :shares, :balance, :pendingpayouts) ON CONFLICT(account_address) DO UPDATE SET last_save_time = excluded.last_save_time, connection_count = excluded.connection_count, round_shares = excluded.round_shares, balance = excluded.balance, pending_payout = excluded.pending_payout; ");
  (m_clear_account_round_shares_stmt, "UPDATE nxspool.account_data SET round_shares = 0 ;");
  (m_add_account_earnings_stmt, "INSERT INTO nxspool.earnings_history VALUES (':accountaddress', :round, :blocknumber, :shares, :amountearned, ':time';");
  (m_delete_account_earnings_stmt, "DELETE FROM nxspool.earnings_history WHERE account_address=':accountaddress' AND round_number= :round;");
  (m_add_account_payment_stmt, "INSERT INTO nxspool.payment_history VALUES (':accountaddress', :round, :blocknumber, :amountpaid, ':time');");
  (m_delete_account_payment_stmt, "DELETE FROM nxspool.payment_history WHERE account_address=':accountaddress' AND round_number= :round;")]%string.

Section sqlite.
Context `{Sqlite}.

(** [members] is what the members for statements hold, [None] before they are assigned. *)
Record Sqlite_database := mk_sqlite {
  m_init_complete : bool;
  m_db_name : bytes;
  m_handle : option handle;
  members : statement -> option (option stmt);
}.

Record Db := mk_db { object : Sqlite_database; library : lib }.

Definition new_sqlite (db_name : bytes) : Sqlite_database := mk_sqlite false db_name None (fun _ => None).

(** The library's calls, on the state it keeps. *)
Definition with_library (l : lib) (d : Db) : Db := mk_db (object d) l.
Definition call {A} (f : lib -> A * lib) : M Db A :=
  fun d => let '(a, l) := f (library d) in Some (a, with_library l d).
Definition call_ (f : lib -> lib) : M Db unit := modify (fun d => with_library (f (library d)) d).

Definition set_object (f : Sqlite_database -> Sqlite_database) : M Db unit :=
  modify (fun d => mk_db (f (object d)) (library d)).
Definition set_complete (b : bool) (o : Sqlite_database) : Sqlite_database :=
  mk_sqlite b (m_db_name o) (m_handle o) (members o).
Definition set_handle (h : option handle) (o : Sqlite_database) : Sqlite_database :=
  mk_sqlite (m_init_complete o) (m_db_name o) h (members o).
Definition set_member (n : statement) (p : option stmt) (o : Sqlite_database) : Sqlite_database :=
  mk_sqlite (m_init_complete o) (m_db_name o) (m_handle o)
    (fun k => if decide (k = n) then Some p else members o k).

(** Reads the member for a statement. *)
Definition member (n : statement) : M Db (option stmt) := d ← get; lift (members (object d) n).

(** Its argument is not used. *)
Definition run_simple_query (query : string) : M Db bool :=
  d ← get;
  '(rc, stmt) ← call (sqlite3_prepare (m_handle (object d)) create_tbl);
  if negb (rc =? SQLITE_OK) then mret false else
  rc ← call (sqlite3_step stmt);
  if negb (rc =? SQLITE_DONE) then mret false else
  call_ (sqlite3_finalize stmt) ;;
  mret true.

Fixpoint run_queries (l : list string) : M Db bool :=
  match l with
  | [] => mret true
  | query :: l' => ok ← run_simple_query query; if ok : bool then run_queries l' else mret false
  end.

Fixpoint prepare_statements (l : list (statement * string)) : M Db bool :=
  match l with
  | [] => mret true
  | (n, sql) :: l' =>
      d ← get;
      '(ret, p) ← call (sqlite3_prepare (m_handle (object d)) sql);
      set_object (set_member n p) ;;
      if negb (ret =? SQLITE_OK) then mret false else prepare_statements l'
  end.

Definition init : M Db bool :=
  d ← get;
  '(result, h) ← call (sqlite3_open (m_db_name (object d)));
  set_object (set_handle h) ;;
  if negb (result =? SQLITE_OK) then mret false else
  ok ← run_queries queries;
  if negb ok then mret false else
  ok ← prepare_statements statements;
  if negb ok then mret false else
  set_object (set_complete true) ;;
  mret true.

(** Also the destructor. *)
Definition close : M Db unit :=
  set_object (set_complete false) ;;
  foreach (fun n => p ← member n; call_ (sqlite3_finalize p)) (statements.*1) ;;
  d ← get;
  call_ (sqlite3_close (m_handle (object d))).

Definition bind_param (n : statement) (name : string) (value : parameter_value) : M Db unit :=
  p ← member n;
  index ← call (fun l => (sqlite3_bind_parameter_index p name l, l));
  if index =? 0 then mret tt else call_ (sqlite3_bind p index value).

(** Whatever the statement, that of the pool's data is executed, and again while the database is
    busy; [None] when it still is after [fuel] times. *)
Fixpoint step_while_busy (fuel : nat) : M Db unit :=
  match fuel with
  | O => undefined
  | S fuel' =>
      p ← member m_update_pool_data_stmt;
      ret ← call (sqlite3_step p);
      if ret =? SQLITE_BUSY then step_while_busy fuel' else mret tt
  end.

Definition exec_statement (fuel : nat) (n : statement) : M Db unit :=
  d ← get;
  if negb (m_init_complete (object d)) then mret tt else step_while_busy fuel.

Definition update_pool_data (fuel : nat) (p : pool_data) : M Db unit :=
  let stmt := m_update_pool_data_stmt in
  bind_param stmt "round" (int (i32 (pd_round p))) ;;
  bind_param stmt "blocknumber" (int (i32 (pd_block_number p))) ;;
  bind_param stmt "roundreward" (int64 (sgn 64 (pd_round_reward p))) ;;
  bind_param stmt "totalshares" (int64 (sgn 64 (pd_total_shares p))) ;;
  bind_param stmt "connectioncount" (int (i32 (pd_connection_count p))) ;;
  exec_statement fuel stmt.

(** [std::time] overwrites the argument with the current time. *)
Definition time_to_string (now nTime : Z) : bytes := put_time now.

(** The values go to the statement of the connections. *)
Definition add_round_data (fuel : nat) (now : Z) (r : round_data) : M Db unit :=
  let stmt := m_save_connection_data_stmt in
  bind_param stmt "round" (int (i32 (rd_round r))) ;;
  bind_param stmt "blocknumber" (int (i32 (rd_block_number r))) ;;
  bind_param stmt "hashblock" (text (rd_hash_block r)) ;;
  bind_param stmt "roundrewards" (int64 (sgn 64 (rd_round_reward r))) ;;
  bind_param stmt "totalshares" (int64 (sgn 64 (rd_total_shares r))) ;;
  bind_param stmt "blockfinder" (text (rd_block_finder r)) ;;
  bind_param stmt "orphan" (int (Z.b2z (rd_orphan r))) ;;
  bind_param stmt "blockfoundtime" (text (time_to_string now (rd_block_found_time r))) ;;
  exec_statement fuel stmt.

(** The calls of the interface.  The other ten have an empty body, as [Empty]. *)
Inductive operation :=
  | Init
  | Close
  | Update_pool_data (fuel : nat) (p : pool_data)
  | Add_round_data (fuel : nat) (now : Z) (r : round_data)
  | Empty.

Definition perform (op : operation) : M Db unit :=
  match op with
  | Init => init ;; mret tt
  | Close => close
  | Update_pool_data fuel p => update_pool_data fuel p
  | Add_round_data fuel now r => add_round_data fuel now r
  | Empty => mret tt
  end.

(** ** Lemmas *)
(** An object as the constructor leaves it, but for the handle. *)
Definition blank (d : Db) : Prop :=
  m_init_complete (object d) = false /\ forall n, members (object d) n = None.

(** The operations that do not read a member. *)
Definition harmless (op : operation) : Prop := op = Init \/ op = Empty.

Lemma member_blank {A} n (f : option stmt -> M Db A) d : blank d -> (member n ≫= f) d = None.
Proof.
  intros [_ Hn]. unfold member, mbind, M_bind, get, lift. by rewrite Hn.
Qed.

Lemma bind_param_blank {A} n name v (f : unit -> M Db A) d :
  blank d -> (bind_param n name v ≫= f) d = None.
Proof. intros Hd. apply M_bind_None. by apply member_blank. Qed.

Lemma undefined_blank op d : ~ harmless op -> blank d -> perform op d = None.
Proof.
  intros Hop Hd. destruct op; try (by destruct Hop; (left + right)); cbn [perform].
  - unfold close. erewrite M_bind_run by done. do 2 apply M_bind_None. apply member_blank.
    split; [done|]. apply Hd.
  - by apply bind_param_blank.
  - by apply bind_param_blank.
Qed.

Context `{!Sqlite_laws}.

(** A query that succeeds has created the table, and it fails where the table is. *)
Lemma run_simple_query_spec q d :
  exists b d', run_simple_query q d = Some (b, d') /\ object d' = object d /\
    (b = true -> has_tbl (m_handle (object d)) (library d')) /\
    (has_tbl (m_handle (object d)) (library d) -> b = false).
Proof.
  unfold run_simple_query, mbind, M_bind, get, call, call_, modify.
  destruct (sqlite3_prepare _ _ _) as [[rc s] l1] eqn:E1. cbn.
  destruct (Z.eqb_spec rc SQLITE_OK) as [->|Hrc]; cbn; [|by eexists _, _].
  assert (~ has_tbl (m_handle (object d)) (library d)) as Hno.
  { intros Ht. by apply (prepare_exists _ _ Ht); rewrite E1. }
  destruct (sqlite3_step s l1) as [rc l2] eqn:E2. cbn.
  destruct (Z.eqb_spec rc SQLITE_DONE) as [->|Hrc]; cbn; eexists _, _; (split; [done|]); [|done].
  split; [done|]. split; [|done]. intros _. apply finalize_keeps. by eapply step_creates.
Qed.

Lemma run_queries_fail q1 q2 l d :
  exists d', run_queries (q1 :: q2 :: l) d = Some (false, d') /\ object d' = object d.
Proof.
  destruct (run_simple_query_spec q1 d) as (b1&d1&H1&Ho1&Ht&_). cbn [run_queries].
  erewrite M_bind_run by exact H1. destruct b1; [|by eexists].
  destruct (run_simple_query_spec q2 d1) as (b2&d2&H2&Ho2&_&Hf). rewrite Ho1 in Hf, Ho2.
  erewrite M_bind_run by exact H2. rewrite Hf by auto. by eexists.
Qed.

Lemma init_spec d :
  exists d', init d = Some (false, d') /\ (blank d -> blank d').
Proof.
  unfold init. erewrite M_bind_run by done.
  destruct (sqlite3_open (m_db_name (object d)) (library d)) as [[rc h] l1] eqn:E.
  erewrite M_bind_run by (unfold call; rewrite E; reflexivity).
  cbv beta iota. erewrite M_bind_run by reflexivity.
  destruct (negb (rc =? SQLITE_OK)); [by eexists|].
  edestruct run_queries_fail as (d'&Hq&Ho). erewrite M_bind_run by exact Hq. exists d'.
  split; [done|]. unfold blank. by rewrite Ho.
Qed.

(** ** Properties *)

(** The statistics database is never opened, and an object of it cannot be
    destroyed.  [init] reports a failure on every database: each of its queries runs the same
    statement, which creates a table, so the second one fails if not the first.  The statements are
    never prepared and their members stay as they are, not initialised; after any calls of [init]
    and of the empty operations, [update_pool_data], [add_round_data] and [close], which is
    the destructor, read one of them. *)
Theorem sqlite_never_opens db_name l ops :
  Forall harmless ops ->
  exists d, foreach perform ops (mk_db (new_sqlite db_name) l) = Some (tt, d) /\
    (exists d', init d = Some (false, d')) /\
    forall op, ~ harmless op -> perform op d = None.
Proof.
  intros Hops. assert (Hb : blank (mk_db (new_sqlite db_name) l)) by done. revert Hb.
  generalize (mk_db (new_sqlite db_name) l). induction Hops as [|op ops Hop Hops IH]; intros d Hb.
  - exists d. split; [done|]. split; [|intros op Hop; by apply undefined_blank].
    destruct (init_spec d) as (d'&Hi&_). by exists d'.
  - assert (exists d1, perform op d = Some (tt, d1) /\ blank d1) as (d1&H1&Hb1).
    { destruct Hop as [->| ->]; cbn [perform]; [|by exists d].
      destruct (init_spec d) as (d'&Hi&Hd'). exists d'. split; [|by apply Hd'].
      by erewrite M_bind_run by exact Hi. }
    destruct (IH d1 Hb1) as (d2&H2&Hrest). exists d2. split; [|done].
    cbn [foreach]. by erewrite M_bind_run by exact H1.
Qed.
End sqlite.

(** A library with one database, which has the table or not. *)
#[export] Instance one_table : Sqlite := {
  lib := bool; handle := unit; stmt := string;
  sqlite3_open _ l := (SQLITE_OK, Some tt, l);
  sqlite3_prepare _ sql l :=
    if String.eqb sql create_tbl && l then (1, None, l) else (SQLITE_OK, Some sql, l);
  sqlite3_step s l :=
    (SQLITE_DONE, match s with Some sql => if String.eqb sql create_tbl then true else l | None => l end);
  sqlite3_finalize _ l := l;
  sqlite3_close _ l := l;
  sqlite3_bind_parameter_index _ _ _ := 1;
  sqlite3_bind _ _ _ l := l;
  put_time _ := [];
}.

#[export] Program Instance one_table_laws : Sqlite_laws := { has_tbl _ l := l = true }.
Next Obligation. by intros h l ->. Qed.
Next Obligation.
  intros h l s l1 l2. cbn. destruct l; [done|]. by intros [= <- <-] [= <-].
Qed.
Next Obligation. done. Qed.

Lemma sqlite_never_opens_witness :
  Forall harmless [Init; Empty] /\
  exists d, foreach perform [Init; Empty] (mk_db (new_sqlite []) false) = Some (tt, d) /\
    perform Close d = None.
Proof.
  assert (Forall harmless [Init; Empty]) as Hops by (repeat constructor; (by left) || by right).
  split; [exact Hops|].
  destruct (@sqlite_never_opens one_table one_table_laws [] false [Init; Empty] Hops) as (d&Hd&_&Hu).
  exists d. split; [exact Hd|]. apply Hu. by intros [|].
Defined.
