(* ===== verification/Uint.v ===== *)
(** * Wide unsigned integers: [src/src/hash/uint1024.h]

    A [base_uint<BITS>] is its array [pn] of [WIDTH = BITS / 32] words, least significant first.
    Every operator is the loop of the source over the words; [val] is the number the words
    denote, and the theorems say what each operator computes on it.  The classes [uint256],
    [uint512], [uint576] and [uint1024] are the instances of the operations at their widths. *)
From S2P Require Import Prelude Bytes.

(** ** The value of an array of words *)
Abbreviation words := (list Z).

Fixpoint val (pn : words) : Z :=
  match pn with [] => 0 | w :: pn' => w + 2 ^ 32 * val pn' end.

Definition bits (pn : words) : Z := 32 * Z.of_nat (length pn).

Definition wf_words (WIDTH : nat) (pn : words) : Prop :=
  length pn = WIDTH /\ Forall (fits 32) pn.

(** The words of a number. *)
Fixpoint of_val (WIDTH : nat) (z : Z) : words :=
  match WIDTH with O => [] | S n => u32 z :: of_val n (z ≫ 32) end.

(** ** [base_uint]: unary operators and assignment *)
Definition is_zero (pn : words) : bool := forallb (fun w => w =? 0) pn.

(** [~] *)
Definition compl (pn : words) : words := (fun w => u32 (Z.lnot w)) <$> pn.

(** [++]: the carry runs while a word becomes zero, up to the last word. *)
Fixpoint incr (pn : words) : words :=
  match pn with
  | [] => []
  | [w] => [u32 (w + 1)]
  | w :: pn' => if u32 (w + 1) =? 0 then 0 :: incr pn' else u32 (w + 1) :: pn'
  end.

(** [--]: the test [--pn[i] == -1] converts [-1] to [unsigned int]. *)
Fixpoint decr (pn : words) : words :=
  match pn with
  | [] => []
  | [w] => [u32 (w - 1)]
  | w :: pn' => if u32 (w - 1) =? u32 (-1) then u32 (-1) :: decr pn' else u32 (w - 1) :: pn'
  end.

(** Unary [-] *)
Definition neg (pn : words) : words := incr (compl pn).

(** [operator=(uint64 b)] *)
Definition assign64 (WIDTH : nat) (b : Z) : words :=
  u32 b :: u32 (b ≫ 32) :: replicate (WIDTH - 2) 0.

(** ** Bitwise operators *)
Definition xor_words : words -> words -> words := zip_with Z.lxor.
Definition and_words : words -> words -> words := zip_with Z.land.
Definition or_words : words -> words -> words := zip_with Z.lor.

Definition xor64 (pn : words) (b : Z) : words :=
  alter (fun w => Z.lxor w (u32 (b ≫ 32))) 1%nat (alter (fun w => Z.lxor w (u32 b)) 0%nat pn).
Definition or64 (pn : words) (b : Z) : words :=
  alter (fun w => Z.lor w (u32 (b ≫ 32))) 1%nat (alter (fun w => Z.lor w (u32 b)) 0%nat pn).

(** ** Shifts: the loops of [<<=] and [>>=] *)
Definition or_at (i : nat) (x : Z) (pn : words) : words := alter (fun w => Z.lor w x) i pn.

Definition shl_step (a : words) (k : nat) (shift : Z) (pn : words) (i : nat) : words :=
  let ai := default 0 (a !! i) in
  let pn := if bool_decide (i + k + 1 < length a)%nat && negb (shift =? 0)
            then or_at (i + k + 1) (ai ≫ (32 - shift)) pn else pn in
  if bool_decide (i + k < length a)%nat then or_at (i + k) (u32 (ai ≪ shift)) pn else pn.

Definition shl_words (a : words) (shift : Z) : words :=
  foldl (shl_step a (Z.to_nat (shift / 32)) (shift `mod` 32)) (replicate (length a) 0)
    (seq 0 (length a)).

Definition shr_step (a : words) (k : nat) (shift : Z) (pn : words) (i : nat) : words :=
  let ai := default 0 (a !! i) in
  let pn := if bool_decide (k + 1 <= i)%nat && negb (shift =? 0)
            then or_at (i - k - 1) (u32 (ai ≪ (32 - shift))) pn else pn in
  if bool_decide (k <= i)%nat then or_at (i - k) (ai ≫ shift) pn else pn.

Definition shr_words (a : words) (shift : Z) : words :=
  foldl (shr_step a (Z.to_nat (shift / 32)) (shift `mod` 32)) (replicate (length a) 0)
    (seq 0 (length a)).

(** ** Addition and subtraction *)
Fixpoint add_loop (carry : Z) (a b : words) : words :=
  match a, b with
  | x :: a', y :: b' =>
      let n := carry + x + y in Z.land n 0xffffffff :: add_loop (n ≫ 32) a' b'
  | _, _ => a
  end.
Definition add_words (a b : words) : words := add_loop 0 a b.
Definition sub_words (a b : words) : words := add_words a (neg b).
Definition add64 (a : words) (b64 : Z) : words := add_words a (assign64 (length a) b64).
Definition sub64 (a : words) (b64 : Z) : words := add_words a (neg (assign64 (length a) b64)).

(** ** Comparisons: from the most significant word *)
Fixpoint cmp_loop (eq : bool) (lt : Z -> Z -> bool) (ra rb : words) : bool :=
  match ra, rb with
  | x :: ra', y :: rb' => if lt x y then true else if lt y x then false else cmp_loop eq lt ra' rb'
  | _, _ => eq
  end.
Definition lt_words (a b : words) : bool := cmp_loop false Z.ltb (rev a) (rev b).
Definition le_words (a b : words) : bool := cmp_loop true Z.ltb (rev a) (rev b).
Definition gt_words (a b : words) : bool := cmp_loop false Z.gtb (rev a) (rev b).
Definition ge_words (a b : words) : bool := cmp_loop true Z.gtb (rev a) (rev b).

Fixpoint eq_words (a b : words) : bool :=
  match a, b with
  | x :: a', y :: b' => if negb (x =? y) then false else eq_words a' b'
  | _, _ => true
  end.
Definition eq_words64 (a : words) (b : Z) : bool :=
  match a with
  | w0 :: w1 :: rest => (w0 =? u32 b) && (w1 =? u32 (b ≫ 32)) && is_zero rest
  | _ => false
  end.

(** ** Bytes of the wire: [GetBytes] and [SetBytes] *)
Fixpoint GetBytes (pn : words) : bytes :=
  match pn with [] => [] | w :: pn' => uint2bytes w ++ GetBytes pn' end.

(** [SetBytes] copies four bytes per word; too short a vector is an invalid iterator range. *)
Fixpoint SetBytes (WIDTH : nat) (DATA : bytes) : option words :=
  match WIDTH with
  | O => Some []
  | S n =>
      match DATA with
      | b0 :: b1 :: b2 :: b3 :: DATA' => pn ← SetBytes n DATA'; Some (be32 b0 b1 b2 b3 :: pn)
      | _ => None
      end
  end.

(** ** Bytes of memory ([begin], [end], [memcpy]): little-endian words *)
Definition le32 (w : Z) : bytes := [z2b w; z2b (w ≫ 8); z2b (w ≫ 16); z2b (w ≫ 24)].
Fixpoint memory (pn : words) : bytes :=
  match pn with [] => [] | w :: pn' => le32 w ++ memory pn' end.

Fixpoint of_memory (WIDTH : nat) (mem : bytes) : words :=
  match WIDTH, mem with
  | S n, b0 :: b1 :: b2 :: b3 :: mem' => be32 b3 b2 b1 b0 :: of_memory n mem'
  | S n, _ => replicate (S n) 0
  | O, _ => []
  end.

Definition Get64 (pn : words) (n : nat) : Z :=
  Z.lor (default 0 (pn !! (2 * n)%nat)) (default 0 (pn !! (2 * n + 1)%nat) ≪ 32).

(** ** Hexadecimal: [GetHex] and [SetHex] *)
Definition hex_digit (d : Z) : byte := z2b (if d <? 10 then 48 + d else 87 + d).
(** The bytes of memory from the last to the first, two lower-case digits each. *)
Definition GetHex (pn : words) : bytes :=
  b ← rev (memory pn); [hex_digit (b2z b ≫ 4); hex_digit (Z.land (b2z b) 15)].

(** The table [phexdigit]: 0 for every character that is not a digit. *)
Definition phexdigit (c : byte) : Z :=
  let z := b2z c in
  if (48 <=? z) && (z <=? 57) then z - 48
  else if (65 <=? z) && (z <=? 70) then z - 55
  else if (97 <=? z) && (z <=? 102) then z - 87
  else 0.
Definition is_hex (c : byte) : bool := negb (phexdigit c =? 0) || (b2z c =? 48).

Definition is_space (c : byte) : bool :=
  let z := b2z c in (z =? 32) || ((9 <=? z) && (z <=? 13)).

Fixpoint drop_while (p : byte -> bool) (s : bytes) : bytes :=
  match s with [] => [] | c :: s' => if p c then drop_while p s' else s end.
Fixpoint take_while (p : byte -> bool) (s : bytes) : bytes :=
  match s with [] => [] | c :: s' => if p c then c :: take_while p s' else [] end.

(** The loop that fills memory from the last digit on, two digits a byte. *)
Fixpoint pack_digits (n : nat) (digits : bytes) : bytes :=
  match n, digits with
  | O, _ => []
  | S n', [] => z2b 0 :: pack_digits n' []
  | S n', [c] => z2b (phexdigit c) :: pack_digits n' []
  | S n', c :: d :: digits' =>
      z2b (Z.lor (phexdigit c) (phexdigit d ≪ 4)) :: pack_digits n' digits'
  end.

Definition skip_0x (s : bytes) : bytes :=
  match s with
  | c :: d :: s' => if (b2z c =? 48) && ((b2z d =? 120) || (b2z d =? 88)) then s' else s
  | _ => s
  end.

Definition SetHex (WIDTH : nat) (s : bytes) : words :=
  let digits := take_while is_hex (skip_0x (drop_while is_space s)) in
  of_memory WIDTH (pack_digits (4 * WIDTH) (rev digits)).

(** ** The classes [uint256], [uint512], [uint576] and [uint1024]

    They add constructors to [base_uint]; the operators between them are those of the base. *)
Definition WIDTH256 : nat := 8.
Definition WIDTH512 : nat := 16.
Definition WIDTH576 : nat := 18.
Definition WIDTH1024 : nat := 32.

Definition uint_default (WIDTH : nat) : words := replicate WIDTH 0.

(** From a vector of bytes: a copy of the memory when the size is right, 0 otherwise. *)
Definition uint_from_vector (WIDTH : nat) (vch : bytes) : words :=
  if bool_decide (length vch = 4 * WIDTH)%nat then of_memory WIDTH vch else assign64 WIDTH 0.

(** The vector constructor of [uint512] reads the words of the wire instead. *)
Definition uint512_from_vector (vch : bytes) : option words := SetBytes WIDTH512 vch.

(** [uint1024] from a narrower number, and back. *)
Definition uint1024_from (b : words) : words :=
  (fun i => if bool_decide (i < length b)%nat then default 0 (b !! i) else 0)
    <$> seq 0 WIDTH1024.
Definition getuint256 (pn : words) : words := take WIDTH256 pn.
Definition getuint512 (pn : words) : words := take WIDTH512 pn.
Definition high_bits (pn : words) (mask : Z) : Z :=
  Z.land (default 0 (pn !! (length pn - 1)%nat)) mask.

(** The operators between numbers of one class: each converts to the base and calls its operator. *)
Record uint_operators := mk_operators {
  op_eq64 : words -> Z -> bool; op_ne64 : words -> Z -> bool;
  op_shl : words -> Z -> words; op_shr : words -> Z -> words;
  op_xor : words -> words -> words; op_and : words -> words -> words; op_or : words -> words -> words;
  op_add : words -> words -> words; op_sub : words -> words -> words;
  op_lt : words -> words -> bool; op_le : words -> words -> bool;
  op_gt : words -> words -> bool; op_ge : words -> words -> bool;
  op_eq : words -> words -> bool; op_ne : words -> words -> bool;
}.

Definition base_operators : uint_operators :=
  mk_operators eq_words64 (fun a b => negb (eq_words64 a b)) shl_words shr_words xor_words and_words
    or_words add_words sub_words lt_words le_words gt_words ge_words eq_words
    (fun a b => negb (eq_words a b)).
Definition uint256_operators : uint_operators := base_operators.
Definition uint512_operators : uint_operators := base_operators.
Definition uint576_operators : uint_operators := base_operators.
Definition uint1024_operators : uint_operators := base_operators.

(** The copy of a base number of the same width. *)
Definition uint_copy (WIDTH : nat) (b : words) : words := take WIDTH b.

(** ** Lemmas on words and their value *)
Lemma bits_cons w pn : bits (w :: pn) = 32 + bits pn.
Proof. unfold bits. cbn [length]. lia. Qed.

Lemma bits_nonneg pn : 0 <= bits pn.
Proof. unfold bits. lia. Qed.

Lemma pow_bits_cons w pn : 2 ^ bits (w :: pn) = 2 ^ 32 * 2 ^ bits pn.
Proof. rewrite bits_cons, Z.pow_add_r; [done|lia|apply bits_nonneg]. Qed.

Lemma val_fits pn : Forall (fits 32) pn -> fits (bits pn) (val pn).
Proof.
  induction 1 as [|w pn Hw _ IH]; [done|].
  unfold fits in *. rewrite pow_bits_cons. cbn [val]. nia.
Qed.

Lemma val_inj a b :
  Forall (fits 32) a -> Forall (fits 32) b -> length a = length b -> val a = val b -> a = b.
Proof.
  intros Ha. revert b. induction Ha as [|x a Hx Ha IH]; intros [|y b] Hb Hl Hv; try done.
  apply Forall_cons in Hb as [Hy Hb]. cbn [val] in Hv. unfold fits in Hx, Hy.
  assert (x = y) as -> by lia. f_equal. apply IH; [done|by injection Hl|lia].
Qed.

Lemma val_app a b : val (a ++ b) = val a + 2 ^ bits a * val b.
Proof.
  induction a as [|x a IH]; [unfold bits; cbn; lia|].
  rewrite pow_bits_cons. cbn [val app]. rewrite IH. lia.
Qed.

Lemma of_val_wf n z : wf_words n (of_val n z).
Proof.
  revert z. induction n as [|n IH]; intros z; [by split|].
  destruct (IH (z ≫ 32)) as [Hl HF]. split; cbn; [by rewrite Hl|].
  constructor; [auto with width|done].
Qed.

Lemma val_of_val n z : val (of_val n z) = wrap (32 * Z.of_nat n) z.
Proof.
  revert z. induction n as [|n IH]; intros z; [symmetry; apply Z.mod_1_r|].
  cbn [of_val val]. rewrite IH, Z.shiftr_div_pow2 by lia.
  replace (32 * Z.of_nat (S n)) with (32 + 32 * Z.of_nat n) by lia.
  unfold wrap. rewrite Z.pow_add_r, Z.rem_mul_r by lia. lia.
Qed.

Lemma of_val_val n pn : wf_words n pn -> of_val n (val pn) = pn.
Proof.
  intros [Hl HF]. destruct (of_val_wf n (val pn)) as [Hl' HF'].
  apply val_inj; [done|done|by rewrite Hl'|].
  rewrite val_of_val. apply wrap_small. rewrite <-Hl. by apply val_fits.
Qed.

Lemma val_replicate_0 n : val (replicate n 0) = 0.
Proof. induction n as [|n IH]; [done|]. cbn [replicate val]. lia. Qed.

Lemma is_zero_val pn : Forall (fits 32) pn -> is_zero pn = (val pn =? 0).
Proof.
  induction 1 as [|w pn Hw HF IH]; [done|].
  change (is_zero (w :: pn)) with ((w =? 0) && is_zero pn). rewrite IH. cbn [val].
  pose proof (val_fits pn HF). unfold fits in *.
  destruct (Z.eqb_spec w 0), (Z.eqb_spec (val pn) 0), (Z.eqb_spec (w + 2 ^ 32 * val pn) 0);
    cbn -[Z.pow] in *; lia.
Qed.

(** ** The unary operators *)
Lemma incr_cons w w' pn :
  incr (w :: w' :: pn) =
    if u32 (w + 1) =? 0 then 0 :: incr (w' :: pn) else u32 (w + 1) :: w' :: pn.
Proof. done. Qed.

Lemma decr_cons w w' pn :
  decr (w :: w' :: pn) =
    if u32 (w - 1) =? u32 (-1) then u32 (-1) :: decr (w' :: pn) else u32 (w - 1) :: w' :: pn.
Proof. done. Qed.

Lemma incr_wf n pn : wf_words n pn -> wf_words n (incr pn).
Proof.
  intros [<- HF]. induction HF as [|w [|w' pn] Hw HF IH]; [by split| |].
  - split; cbn; [done|]. constructor; auto with width.
  - destruct IH as [Hl HF']. rewrite incr_cons. destruct (_ =? 0); split; cbn in *.
    + by rewrite Hl.
    + constructor; [done|done].
    + done.
    + constructor; auto with width.
Qed.

Lemma decr_wf n pn : wf_words n pn -> wf_words n (decr pn).
Proof.
  intros [<- HF]. induction HF as [|w [|w' pn] Hw HF IH]; [by split| |].
  - split; cbn; [done|]. constructor; auto with width.
  - destruct IH as [Hl HF']. rewrite decr_cons. destruct (_ =? _); split; cbn in *.
    + by rewrite Hl.
    + constructor; [done|done].
    + done.
    + constructor; auto with width.
Qed.

Lemma wrap_carry w B x v :
  0 <= w -> 0 <= B -> fits w x -> 
  x + 2 ^ w * wrap B v = wrap (w + B) (x + 2 ^ w * v).
Proof.
  intros Hw HB Hx. unfold wrap, fits in *. rewrite Z.pow_add_r, Z.rem_mul_r by lia.
  rewrite (Z.mul_comm (2 ^ w) v), Z.mod_add, Z.div_add, (Z.mod_small x), (Z.div_small x) by lia.
  done.
Qed.

Lemma incr_val pn : Forall (fits 32) pn -> val (incr pn) = wrap (bits pn) (val pn + 1).
Proof.
  induction 1 as [|w [|w' pn] Hw HF IH].
  - done.
  - change (bits [w]) with 32. cbn [incr val]. by rewrite Z.mul_0_r, !Z.add_0_r.
  - rewrite bits_cons, incr_cons. destruct (Z.eqb_spec (u32 (w + 1)) 0) as [E|E].
    + change (val (0 :: ?l)) with (0 + 2 ^ 32 * val l). rewrite IH.
      rewrite (wrap_carry 32) by (first [lia | apply bits_nonneg | done]).
      f_equal. change (val (w :: ?l)) with (w + 2 ^ 32 * val l). unfold fits, wrap in *. zlia.
    + rewrite (wrap_small (32 + _)).
      * change (val (?x :: ?l)) with (x + 2 ^ 32 * val l). unfold fits, wrap in *. zlia.
      * pose proof (val_fits (w' :: pn) HF) as Hv. unfold fits in *.
        change (val (w :: ?l)) with (w + 2 ^ 32 * val l).
        rewrite Z.pow_add_r by (first [lia|apply bits_nonneg]).
        assert (w + 1 < 2 ^ 32); [|nia].
        unfold wrap in E. zlia.
Qed.

Lemma decr_val pn : Forall (fits 32) pn -> val (decr pn) = wrap (bits pn) (val pn - 1).
Proof.
  induction 1 as [|w [|w' pn] Hw HF IH].
  - done.
  - change (bits [w]) with 32. cbn [decr val]. by rewrite Z.mul_0_r, !Z.add_0_r.
  - rewrite bits_cons, decr_cons. destruct (Z.eqb_spec (u32 (w - 1)) (u32 (-1))) as [E|E].
    + change (val (u32 (-1) :: ?l)) with (u32 (-1) + 2 ^ 32 * val l). rewrite IH.
      rewrite (wrap_carry 32) by (first [lia | apply bits_nonneg | auto with width]).
      f_equal. change (val (w :: ?l)) with (w + 2 ^ 32 * val l). unfold fits, wrap in *. zlia.
    + rewrite (wrap_small (32 + _)).
      * change (val (?x :: ?l)) with (x + 2 ^ 32 * val l). unfold fits, wrap in *. zlia.
      * pose proof (val_fits (w' :: pn) HF) as Hv. unfold fits in *.
        change (val (w :: ?l)) with (w + 2 ^ 32 * val l).
        rewrite Z.pow_add_r by (first [lia|apply bits_nonneg]).
        assert (0 <= w - 1); [|nia].
        unfold wrap in E. zlia.
Qed.

Lemma lnot_u32 w : fits 32 w -> u32 (Z.lnot w) = 2 ^ 32 - 1 - w.
Proof. unfold fits, wrap, Z.lnot. intros. zlia. Qed.

Lemma compl_wf n pn : wf_words n pn -> wf_words n (compl pn).
Proof.
  intros [<- HF]. unfold compl. split; [apply length_fmap|].
  apply Forall_fmap, Forall_forall. intros w _. cbn. auto with width.
Qed.

Lemma compl_val pn : Forall (fits 32) pn -> val (compl pn) = 2 ^ bits pn - 1 - val pn.
Proof.
  induction 1 as [|w pn Hw HF IH]; [done|].
  rewrite pow_bits_cons. unfold compl in *. cbn [fmap list_fmap val].
  rewrite IH, lnot_u32 by done. lia.
Qed.

Lemma compl_bits pn : bits (compl pn) = bits pn.
Proof. unfold bits, compl. by rewrite length_fmap. Qed.

Lemma neg_wf n pn : wf_words n pn -> wf_words n (neg pn).
Proof. intros. by apply incr_wf, compl_wf. Qed.

Lemma neg_val pn : Forall (fits 32) pn -> val (neg pn) = wrap (bits pn) (- val pn).
Proof.
  intros HF. unfold neg. rewrite incr_val.
  - rewrite compl_bits, compl_val by done. unfold wrap.
    replace (_ - 1 - _ + 1) with (- val pn + 1 * 2 ^ bits pn) by lia. by rewrite Z_mod_plus_full.
  - by destruct (compl_wf (length pn) pn (conj eq_refl HF)).
Qed.

(** ** Assignment, addition and subtraction *)
Lemma assign64_wf n b : (2 <= n)%nat -> wf_words n (assign64 n b).
Proof.
  intros Hn. unfold assign64. split.
  - cbn. rewrite length_replicate. lia.
  - repeat (constructor; [auto with width|]). by apply Forall_replicate.
Qed.

Lemma assign64_val n b : fits 64 b -> val (assign64 n b) = b.
Proof.
  intros Hb. unfold assign64. cbn [val]. rewrite val_replicate_0, Z.shiftr_div_pow2 by lia.
  unfold fits, wrap in *. zlia.
Qed.

Lemma add_loop_spec carry a b :
  fits 1 carry -> Forall (fits 32) a -> Forall (fits 32) b -> length a = length b ->
  wf_words (length a) (add_loop carry a b) /\
  val (add_loop carry a b) = wrap (bits a) (carry + val a + val b).
Proof.
  intros Hc Ha. revert carry b Hc. induction Ha as [|x a Hx Ha IH]; intros carry [|y b] Hc Hb Hl;
    try done.
  { split; [done|]. symmetry. apply Z.mod_1_r. }
  apply Forall_cons in Hb as [Hy Hb]. injection Hl as Hl.
  assert (Hland : Z.land (carry + x + y) 0xffffffff = u32 (carry + x + y)).
  { change 0xffffffff with (Z.ones 32). by rewrite Z.land_ones by lia. }
  assert (Hn : fits 1 ((carry + x + y) ≫ 32)).
  { rewrite Z.shiftr_div_pow2 by lia. unfold fits in *. zlia. }
  cbn [add_loop]. rewrite Hland. destruct (IH _ b Hn Hb Hl) as [[Hlen HF] Hv].
  split; [split; cbn; [by rewrite Hlen|]; constructor; auto with width|].
  cbn [val]. rewrite Hv, wrap_carry by (first [lia | apply bits_nonneg | auto with width]).
  rewrite bits_cons. f_equal. rewrite Z.shiftr_div_pow2 by lia. unfold wrap. zlia.
Qed.

Lemma add_words_wf n a b : wf_words n a -> wf_words n b -> wf_words n (add_words a b).
Proof.
  intros [<- Ha] [Hl Hb]. by apply (add_loop_spec 0 a b).
Qed.

Lemma add_words_val a b :
  Forall (fits 32) a -> Forall (fits 32) b -> length a = length b ->
  val (add_words a b) = wrap (bits a) (val a + val b).
Proof. intros. unfold add_words. by apply (add_loop_spec 0 a b). Qed.

Lemma sub_words_val a b :
  Forall (fits 32) a -> Forall (fits 32) b -> length a = length b ->
  val (sub_words a b) = wrap (bits a) (val a - val b).
Proof.
  intros Ha Hb Hl. destruct (neg_wf (length b) b (conj eq_refl Hb)) as [Hl' Hb'].
  unfold sub_words. rewrite add_words_val by congruence.
  rewrite neg_val by done. replace (bits b) with (bits a) by (unfold bits; by rewrite Hl).
  apply wrap_add_r.
Qed.

(** ** Comparisons *)
Lemma cmp_loop_spec eq (lt : Z -> Z -> bool) a b :
  (forall x y, lt x y = (x <? y)) -> Forall (fits 32) a -> Forall (fits 32) b ->
  length a = length b ->
  cmp_loop eq lt (rev a) (rev b) = if val a =? val b then eq else val a <? val b.
Proof.
  intros Hlt Ha. revert b. induction a as [|x a IH] using rev_ind; intros b Hb Hl.
  { destruct b; [done|done]. }
  destruct b as [|y b _] using rev_ind; [rewrite length_app in Hl; cbn in Hl; lia|].
  rewrite !length_app in Hl. cbn in Hl. apply Forall_app in Ha as [Ha Hx].
  apply Forall_app in Hb as [Hb Hy]. apply Forall_singleton in Hx, Hy.
  rewrite !rev_app_distr. cbn [rev app cmp_loop]. rewrite IH by (done || lia).
  rewrite !Hlt, !val_app. replace (bits b) with (bits a) by (unfold bits; do 2 f_equal; lia).
  pose proof (val_fits a Ha) as Hva. pose proof (val_fits b Hb) as Hvb.
  replace (bits b) with (bits a) in Hvb by (unfold bits; do 2 f_equal; lia).
  unfold fits in *. cbn [val]. rewrite !Z.mul_0_r, !Z.add_0_r.
  set (B := 2 ^ bits a) in *.
  destruct (Z.ltb_spec x y); [|destruct (Z.ltb_spec y x)].
  - assert (B * x + B <= B * y) by nia.
    destruct (Z.eqb_spec (val a + B * x) (val b + B * y)); [lia|]. symmetry. apply Z.ltb_lt. lia.
  - assert (B * y + B <= B * x) by nia.
    destruct (Z.eqb_spec (val a + B * x) (val b + B * y)); [lia|]. symmetry. apply Z.ltb_ge. lia.
  - assert (x = y) as -> by lia.
    destruct (Z.eqb_spec (val a) (val b)), (Z.eqb_spec (val a + B * y) (val b + B * y));
      lia || done.
Qed.

Lemma cmp_loop_gt eq ra rb : cmp_loop eq Z.gtb ra rb = cmp_loop eq Z.ltb rb ra.
Proof.
  revert rb. induction ra as [|x ra IH]; intros [|y rb]; cbn; try done.
  by rewrite IH, !Z.gtb_ltb.
Qed.

Section comparisons.
Context (a b : words) (Ha : Forall (fits 32) a) (Hb : Forall (fits 32) b)
  (Hl : length a = length b).

Lemma lt_words_spec : lt_words a b = (val a <? val b).
Proof.
  unfold lt_words. rewrite (cmp_loop_spec _ Z.ltb) by done.
  destruct (Z.eqb_spec (val a) (val b)) as [->|]; [by rewrite Z.ltb_irrefl|done].
Qed.
Lemma le_words_spec : le_words a b = (val a <=? val b).
Proof.
  unfold le_words. rewrite (cmp_loop_spec _ Z.ltb) by done.
  destruct (Z.eqb_spec (val a) (val b)), (Z.leb_spec (val a) (val b)),
    (Z.ltb_spec (val a) (val b)); lia.
Qed.
Lemma gt_words_spec : gt_words a b = (val b <? val a).
Proof.
  unfold gt_words. rewrite cmp_loop_gt, (cmp_loop_spec _ Z.ltb) by done.
  destruct (Z.eqb_spec (val b) (val a)) as [->|]; [by rewrite Z.ltb_irrefl|done].
Qed.
Lemma ge_words_spec : ge_words a b = (val b <=? val a).
Proof.
  unfold ge_words. rewrite cmp_loop_gt, (cmp_loop_spec _ Z.ltb) by done.
  destruct (Z.eqb_spec (val b) (val a)), (Z.leb_spec (val b) (val a)),
    (Z.ltb_spec (val b) (val a)); lia.
Qed.

Lemma eq_words_spec : eq_words a b = (val a =? val b).
Proof.
  revert b Hb Hl. induction Ha as [|x a' Hx Ha' IH]; intros [|y b'] Hb' Hl'; try done.
  apply Forall_cons in Hb' as [Hy Hb']. cbn [eq_words val].
  rewrite IH by (done || by injection Hl'). unfold fits in *.
  destruct (Z.eqb_spec x y), (Z.eqb_spec (val a') (val b')),
    (Z.eqb_spec (x + 2 ^ 32 * val a') (y + 2 ^ 32 * val b')); cbn [negb]; lia.
Qed.
End comparisons.

Lemma eq_words64_spec a b :
  Forall (fits 32) a -> (2 <= length a)%nat -> fits 64 b -> eq_words64 a b = (val a =? b).
Proof.
  intros Ha Hl Hb. destruct a as [|w0 [|w1 rest]]; cbn in Hl; [lia..|].
  apply Forall_cons in Ha as [H0 Ha]. apply Forall_cons in Ha as [H1 Ha].
  cbn [eq_words64 val]. rewrite is_zero_val, Z.shiftr_div_pow2 by (done || lia).
  pose proof (val_fits rest Ha). unfold fits, wrap in *.
  destruct (Z.eqb_spec w0 (b `mod` 2 ^ 32)), (Z.eqb_spec w1 ((b `div` 2 ^ 32) `mod` 2 ^ 32)),
    (Z.eqb_spec (val rest) 0), (Z.eqb_spec (w0 + 2 ^ 32 * (w1 + 2 ^ 32 * val rest)) b);
    cbn [andb]; try done; exfalso; zlia.
Qed.

(** ** Bits of a value *)
Definition word (a : words) (i : nat) : Z := default 0 (a !! i).

Lemma word_fits a i : Forall (fits 32) a -> fits 32 (word a i).
Proof.
  intros Ha. unfold word. destruct (a !! i) as [w|] eqn:E; [|done].
  by apply (Forall_lookup_1 _ _ _ _ Ha E).
Qed.

Lemma testbit_val_cons w pn i :
  fits 32 w -> 0 <= i ->
  Z.testbit (val (w :: pn)) i = if i <? 32 then Z.testbit w i else Z.testbit (val pn) (i - 32).
Proof.
  intros Hw Hi. cbn [val]. unfold fits in Hw. destruct (Z.ltb_spec i 32).
  - rewrite <-(Z.mod_pow2_bits_low _ 32 i) by lia. f_equal.
    rewrite Z.mul_comm, Z.mod_add, Z.mod_small; lia.
  - replace i with ((i - 32) + 32) at 1 by lia. rewrite <-Z.div_pow2_bits by lia. f_equal.
    rewrite Z.mul_comm, Z.div_add, Z.div_small; lia.
Qed.

Lemma testbit_val a i :
  Forall (fits 32) a -> 0 <= i ->
  Z.testbit (val a) i = Z.testbit (word a (Z.to_nat (i / 32))) (i mod 32).
Proof.
  intros Ha. revert i. induction Ha as [|w a Hw Ha IH]; intros i Hi.
  { unfold word. by rewrite lookup_nil, !Z.testbit_0_l. }
  rewrite testbit_val_cons by done. destruct (Z.ltb_spec i 32).
  - by rewrite Z.div_small, Z.mod_small by lia.
  - rewrite IH by lia. replace i with ((i - 32) + 1 * 32) at 3 4 by lia.
    rewrite Z.div_add, Z.mod_add, Z2Nat.inj_add by (lia || zlia).
    change (Z.to_nat 1) with 1%nat. by rewrite Nat.add_comm.
Qed.

Lemma bitwise_val (f : Z -> Z -> Z) (g : bool -> bool -> bool) a b :
  (forall x y i, 0 <= i -> Z.testbit (f x y) i = g (Z.testbit x i) (Z.testbit y i)) ->
  (forall x y, fits 32 x -> fits 32 y -> fits 32 (f x y)) ->
  f 0 0 = 0 ->
  Forall (fits 32) a -> Forall (fits 32) b -> length a = length b ->
  wf_words (length a) (zip_with f a b) /\ val (zip_with f a b) = f (val a) (val b).
Proof.
  intros Hf Hfits H0 Ha. revert b.
  induction Ha as [|x a Hx Ha IH]; intros [|y b] Hb Hl; try done.
  apply Forall_cons in Hb as [Hy Hb]. injection Hl as Hl. destruct (IH b Hb Hl) as [[Hlen HF] Hv].
  split; [split; cbn; [by rewrite Hlen|by constructor; [apply Hfits|]]|].
  apply Z.bits_inj'. intros i Hi. cbn [zip_with].
  rewrite Hf, !testbit_val_cons by (done || by apply Hfits).
  destruct (i <? 32) eqn:E; [by rewrite Hf|]. apply Z.ltb_ge in E. by rewrite Hv, Hf by lia.
Qed.

#[export] Hint Resolve word_fits : width.

Lemma xor_words_val a b :
  Forall (fits 32) a -> Forall (fits 32) b -> length a = length b ->
  wf_words (length a) (xor_words a b) /\ val (xor_words a b) = Z.lxor (val a) (val b).
Proof.
  apply (bitwise_val Z.lxor xorb); [intros; apply Z.lxor_spec|auto with width|done].
Qed.
Lemma and_words_val a b :
  Forall (fits 32) a -> Forall (fits 32) b -> length a = length b ->
  wf_words (length a) (and_words a b) /\ val (and_words a b) = Z.land (val a) (val b).
Proof.
  apply (bitwise_val Z.land andb); [intros; apply Z.land_spec|auto with width|done].
Qed.
Lemma or_words_val a b :
  Forall (fits 32) a -> Forall (fits 32) b -> length a = length b ->
  wf_words (length a) (or_words a b) /\ val (or_words a b) = Z.lor (val a) (val b).
Proof.
  apply (bitwise_val Z.lor orb); [intros; apply Z.lor_spec|auto with width|done].
Qed.

(** ** Shifts *)
Lemma word_or_at i x pn j :
  (j < length pn)%nat ->
  word (or_at i x pn) j = if decide (i = j) then Z.lor (word pn j) x else word pn j.
Proof.
  intros Hj. unfold word, or_at. case_decide as E.
  - subst i. rewrite list_lookup_alter_eq. by destruct (lookup_lt_is_Some_2 pn j Hj) as [w ->].
  - by rewrite list_lookup_alter_ne.
Qed.

Lemma word_ge a i : (length a <= i)%nat -> word a i = 0.
Proof. intros H. unfold word. by rewrite lookup_ge_None_2. Qed.

Lemma word_replicate n i : word (replicate n 0) i = 0.
Proof. unfold word. destruct (replicate n 0 !! i) eqn:E; [|done].
  by apply lookup_replicate in E as [-> _]. Qed.

Lemma length_or_at i x pn : length (or_at i x pn) = length pn.
Proof. apply length_alter. Qed.

(** A loop that ORs [f i j] into every word [j] in its round [i]. *)
Lemma or_loop (step : words -> nat -> words) (f : nat -> nat -> Z) L n :
  (forall pn i, length (step pn i) = length pn) ->
  (forall pn i j, length pn = L -> (j < L)%nat ->
    word (step pn i) j = Z.lor (word pn j) (f i j)) ->
  let r := foldl step (replicate L 0) (seq 0 n) in
  length r = L /\ forall j m, (j < L)%nat -> 0 <= m ->
    Z.testbit (word r j) m = existsb (fun i => Z.testbit (f i j) m) (seq 0 n).
Proof.
  intros Hlen Hstep. induction n as [|n IH]; cbn zeta in *.
  - split; [apply length_replicate|]. intros j m _ _. cbn [seq foldl existsb].
    by rewrite word_replicate, Z.testbit_0_l.
  - destruct IH as [Hl IH]. rewrite seq_S, foldl_app. cbn [foldl Nat.add].
    split; [by rewrite Hlen|]. intros j m Hj Hm.
    rewrite Hstep, Z.lor_spec, IH, existsb_app by congruence. cbn [existsb].
    by rewrite orb_false_r.
Qed.

Lemma existsb_none (p : nat -> bool) n :
  (forall i, (i < n)%nat -> p i = false) -> existsb p (seq 0 n) = false.
Proof.
  intros H. destruct (existsb _ _) eqn:E; [|done].
  apply existsb_exists in E as (i&Hi&Hp). apply in_seq in Hi. rewrite H in Hp; [done|lia].
Qed.

Lemma existsb_one (p : nat -> bool) n i0 :
  (i0 < n)%nat -> (forall i, (i < n)%nat -> i <> i0 -> p i = false) ->
  existsb p (seq 0 n) = p i0.
Proof.
  intros Hi0 H. destruct (p i0) eqn:Ep.
  - apply existsb_exists. exists i0. split; [apply in_seq; lia|done].
  - apply existsb_none. intros i Hi. destruct (decide (i = i0)) as [->|]; eauto.
Qed.

(** What a round of [<<=] and of [>>=] ORs into word [j]. *)
Definition shl_part (a : words) (k : nat) (s : Z) (i j : nat) : Z :=
  if decide (j = i + k)%nat then u32 (word a i ≪ s)
  else if bool_decide (j = i + k + 1)%nat && negb (s =? 0) then word a i ≫ (32 - s) else 0.
Definition shr_part (a : words) (k : nat) (s : Z) (i j : nat) : Z :=
  if decide (i = j + k)%nat then word a i ≫ s
  else if bool_decide (i = j + k + 1)%nat && negb (s =? 0) then u32 (word a i ≪ (32 - s)) else 0.

Lemma shl_step_part a k s pn i j :
  length pn = length a -> (j < length a)%nat ->
  word (shl_step a k s pn i) j = Z.lor (word pn j) (shl_part a k s i j).
Proof.
  intros Hl Hj. unfold shl_step, shl_part. fold (word a i). cbv zeta.
  destruct (s =? 0); rewrite ?andb_false_r, ?andb_true_r; cbn [negb];
    repeat case_bool_decide; rewrite ?word_or_at by (rewrite ?length_or_at; lia);
    repeat destruct (decide (_ = _)); try lia; by rewrite ?Z.lor_0_r.
Qed.

Lemma shr_step_part a k s pn i j :
  length pn = length a -> (j < length a)%nat ->
  word (shr_step a k s pn i) j = Z.lor (word pn j) (shr_part a k s i j).
Proof.
  intros Hl Hj. unfold shr_step, shr_part. fold (word a i). cbv zeta.
  destruct (s =? 0); rewrite ?andb_false_r, ?andb_true_r; cbn [negb];
    repeat case_bool_decide; rewrite ?word_or_at by (rewrite ?length_or_at; lia);
    repeat destruct (decide (_ = _)); try lia; by rewrite ?Z.lor_0_r.
Qed.

Lemma length_shl_step a k s pn i : length (shl_step a k s pn i) = length pn.
Proof. unfold shl_step. by repeat case_match; rewrite ?length_or_at. Qed.
Lemma length_shr_step a k s pn i : length (shr_step a k s pn i) = length pn.
Proof. unfold shr_step. by repeat case_match; rewrite ?length_or_at. Qed.

Lemma testbit_word_high a i m : Forall (fits 32) a -> 32 <= m -> Z.testbit (word a i) m = false.
Proof.
  intros Ha Hm. pose proof (word_fits a i Ha) as Hf.
  by apply (fits_bits 32 (word a i)); [lia|unfold fits in Hf; lia|..].
Qed.

Lemma testbit_u32 x m : Z.testbit (u32 x) m = (m <? 32) && Z.testbit x m.
Proof.
  destruct (Z.ltb_spec m 32) as [Hm|Hm]; [by apply Z.mod_pow2_bits_low|].
  by apply Z.mod_pow2_bits_high.
Qed.

(** A bit of the value, by its word and its place in the word. *)
Lemma testbit_val_at a q m :
  Forall (fits 32) a -> 0 <= m < 32 ->
  Z.testbit (val a) (32 * q + m) =
    if decide (0 <= q) then Z.testbit (word a (Z.to_nat q)) m else false.
Proof.
  intros Ha Hm. case_decide; [|apply Z.testbit_neg_r; lia].
  rewrite testbit_val by (done || lia). f_equal; [f_equal; f_equal|]; zlia.
Qed.

Section shifts.
Context (a : words) (Ha : Forall (fits 32) a) (k : nat) (s : Z) (Hs : 0 <= s < 32).

Lemma testbit_shl_part i j m :
  0 <= m -> Z.testbit (shl_part a k s i j) m =
    (m <? 32) && if bool_decide (j = i + k)%nat then Z.testbit (word a i) (m - s)
    else bool_decide (j = i + k + 1)%nat && Z.testbit (word a i) (m + 32 - s).
Proof.
  intros Hm. unfold shl_part.
  destruct (decide (j = (i + k)%nat)) as [E|E];
    [rewrite (bool_decide_eq_true_2 _ E)|rewrite (bool_decide_eq_false_2 _ E)].
  - by rewrite testbit_u32, Z.shiftl_spec.
  - case_bool_decide; [|by rewrite andb_false_r, Z.testbit_0_l].
    cbn [andb]. destruct (Z.eqb_spec s 0) as [->|]; cbn [negb].
    + rewrite Z.testbit_0_l, testbit_word_high by (done || lia). by rewrite andb_false_r.
    + rewrite Z.shiftr_spec by done. replace (m + (32 - s)) with (m + 32 - s) by lia.
      destruct (Z.ltb_spec m 32); [done|]. by rewrite testbit_word_high by (done || lia).
Qed.

Lemma testbit_shr_part i j m :
  0 <= m -> Z.testbit (shr_part a k s i j) m =
    (m <? 32) && if bool_decide (i = j + k)%nat then Z.testbit (word a i) (m + s)
    else bool_decide (i = j + k + 1)%nat && Z.testbit (word a i) (m + s - 32).
Proof.
  intros Hm. unfold shr_part.
  destruct (decide (i = (j + k)%nat)) as [E|E];
    [rewrite (bool_decide_eq_true_2 _ E)|rewrite (bool_decide_eq_false_2 _ E)].
  - rewrite Z.shiftr_spec by done.
    destruct (Z.ltb_spec m 32); [done|]. by rewrite testbit_word_high by (done || lia).
  - case_bool_decide; [|by rewrite andb_false_r, Z.testbit_0_l].
    cbn [andb]. destruct (Z.eqb_spec s 0) as [->|]; cbn [negb].
    + rewrite Z.testbit_0_l. destruct (Z.ltb_spec m 32); [|done].
      by rewrite Z.testbit_neg_r by lia.
    + rewrite testbit_u32, Z.shiftl_spec by done. do 2 f_equal. lia.
Qed.

Lemma shl_bit j m :
  (j < length a)%nat -> 0 <= m < 32 ->
  existsb (fun i => Z.testbit (shl_part a k s i j) m) (seq 0 (length a)) =
    Z.testbit (val a) (32 * Z.of_nat j + m - (32 * Z.of_nat k + s)).
Proof.
  intros Hj Hm.
  assert (Hp : forall i, Z.testbit (shl_part a k s i j) m =
    if bool_decide (j = i + k)%nat then Z.testbit (word a i) (m - s)
    else bool_decide (j = i + k + 1)%nat && Z.testbit (word a i) (m + 32 - s)).
  { intros i. rewrite testbit_shl_part by lia. by rewrite (proj2 (Z.ltb_lt m 32)) by lia. }
  destruct (decide (s <= m)).
  - replace (_ + m - _) with (32 * (Z.of_nat j - Z.of_nat k) + (m - s)) by lia.
    rewrite testbit_val_at by (done || lia). case_decide.
    + rewrite (existsb_one _ _ (j - k)%nat) by (try lia; intros i Hi Hne; rewrite Hp;
        repeat case_bool_decide; try lia; cbn [andb]; apply testbit_word_high; (done || lia)).
      rewrite Hp, bool_decide_eq_true_2 by lia. f_equal. f_equal. lia.
    + apply existsb_none. intros i Hi. rewrite Hp. repeat case_bool_decide; (lia || done).
  - replace (_ + m - _) with (32 * (Z.of_nat j - Z.of_nat k - 1) + (m + 32 - s)) by lia.
    rewrite testbit_val_at by (done || lia). case_decide.
    + rewrite (existsb_one _ _ (j - k - 1)%nat) by (try lia; intros i Hi Hne; rewrite Hp;
        repeat case_bool_decide; first [lia | done | apply Z.testbit_neg_r; lia]).
      rewrite Hp, bool_decide_eq_false_2, bool_decide_eq_true_2 by lia.
      cbn [andb]. f_equal. f_equal. lia.
    + apply existsb_none. intros i Hi. rewrite Hp.
      repeat case_bool_decide; try (lia || done). apply Z.testbit_neg_r. lia.
Qed.

Lemma shr_bit j m :
  (j < length a)%nat -> 0 <= m < 32 ->
  existsb (fun i => Z.testbit (shr_part a k s i j) m) (seq 0 (length a)) =
    Z.testbit (val a) (32 * Z.of_nat j + m + (32 * Z.of_nat k + s)).
Proof.
  intros Hj Hm.
  assert (Hp : forall i, Z.testbit (shr_part a k s i j) m =
    if bool_decide (i = j + k)%nat then Z.testbit (word a i) (m + s)
    else bool_decide (i = j + k + 1)%nat && Z.testbit (word a i) (m + s - 32)).
  { intros i. rewrite testbit_shr_part by lia. by rewrite (proj2 (Z.ltb_lt m 32)) by lia. }
  assert (Hq : forall q b, 0 <= b < 32 ->
    Z.testbit (val a) (32 * Z.of_nat q + b) = Z.testbit (word a q) b).
  { intros q b Hb. rewrite testbit_val_at, decide_True, Nat2Z.id by (done || lia). done. }
  assert (Hone : forall q, (forall i, i <> q -> Z.testbit (shr_part a k s i j) m = false) ->
    existsb (fun i => Z.testbit (shr_part a k s i j) m) (seq 0 (length a)) =
    Z.testbit (shr_part a k s q j) m).
  { intros q Hne. destruct (decide (q < length a)%nat); [by rewrite (existsb_one _ _ q) by eauto|].
    rewrite existsb_none by (intros; apply Hne; lia).
    rewrite Hp, !(word_ge a q), !Z.testbit_0_l by lia. by repeat case_bool_decide. }
  destruct (decide (m + s < 32)).
  - replace (_ + m + _) with (32 * Z.of_nat (j + k) + (m + s)) by lia.
    rewrite Hq by lia. rewrite (Hone (j + k)%nat).
    + by rewrite Hp, bool_decide_eq_true_2.
    + intros i Hne. rewrite Hp. repeat case_bool_decide; try (lia || done).
      apply Z.testbit_neg_r. lia.
  - replace (_ + m + _) with (32 * Z.of_nat (j + k + 1) + (m + s - 32)) by lia.
    rewrite Hq by lia. rewrite (Hone (j + k + 1)%nat).
    + rewrite Hp, bool_decide_eq_false_2, bool_decide_eq_true_2 by lia. done.
    + intros i Hne. rewrite Hp. repeat case_bool_decide; try (lia || done).
      apply testbit_word_high; (done || lia).
Qed.
End shifts.

(** The words of a loop of ORs are the words of the value with those bits. *)
Lemma or_loop_val (step : words -> nat -> words) (f : nat -> nat -> Z) (a : words) z :
  Forall (fits 32) a ->
  (forall pn i, length (step pn i) = length pn) ->
  (forall pn i j, length pn = length a -> (j < length a)%nat ->
    word (step pn i) j = Z.lor (word pn j) (f i j)) ->
  (forall i j m, 32 <= m -> Z.testbit (f i j) m = false) ->
  (forall i j, 0 <= f i j) ->
  (forall j m, (j < length a)%nat -> 0 <= m < 32 ->
    existsb (fun i => Z.testbit (f i j) m) (seq 0 (length a)) =
      Z.testbit z (32 * Z.of_nat j + m)) ->
  let r := foldl step (replicate (length a) 0) (seq 0 (length a)) in
  wf_words (length a) r /\ val r = wrap (bits a) z.
Proof.
  intros Ha Hlen Hstep Hhigh Hpos Hbit r.
  destruct (or_loop step f (length a) (length a) Hlen Hstep) as [Hl Hr]. fold r in Hl, Hr.
  assert (HF : Forall (fits 32) r).
  { apply Forall_lookup. intros j w Hw. pose proof (lookup_lt_Some _ _ _ Hw) as Hj.
    assert (w = word r j) as -> by (unfold word; by rewrite Hw).
    assert (0 <= word r j).
    { apply Z.bits_iff_nonneg_ex. exists 32. intros m Hm. rewrite Hr by lia.
      apply existsb_none. intros. apply Hhigh. lia. }
    apply fits_bits; [lia|done|]. intros m Hm. rewrite Hr by lia.
    apply existsb_none. intros. by apply Hhigh. }
  split; [done|]. apply Z.bits_inj'. intros n Hn.
  rewrite testbit_val by done. destruct (decide (n < bits a)) as [Hlt|Hge].
  - unfold wrap. rewrite Z.mod_pow2_bits_low by done. unfold bits in Hlt.
    rewrite Hr by zlia. rewrite Hbit by zlia. f_equal. zlia.
  - unfold wrap. rewrite Z.mod_pow2_bits_high by (pose proof (bits_nonneg a); lia).
    unfold bits in Hge. rewrite word_ge by zlia. apply Z.testbit_0_l.
Qed.

Lemma shl_part_nonneg a k s i j : Forall (fits 32) a -> 0 <= shl_part a k s i j.
Proof.
  intros Ha. pose proof (word_fits a i Ha) as Hw. pose proof (wrap_fits 32 (word a i ≪ s)) as Hu.
  unfold fits, shl_part in *. repeat case_match; (apply Z.shiftr_nonneg || idtac); lia.
Qed.
Lemma shr_part_nonneg a k s i j : Forall (fits 32) a -> 0 <= shr_part a k s i j.
Proof.
  intros Ha. pose proof (word_fits a i Ha) as Hw.
  pose proof (wrap_fits 32 (word a i ≪ (32 - s))) as Hu.
  unfold fits, shr_part in *. repeat case_match; (apply Z.shiftr_nonneg || idtac); lia.
Qed.

Lemma shl_words_val a shift :
  Forall (fits 32) a -> 0 <= shift ->
  wf_words (length a) (shl_words a shift) /\
  val (shl_words a shift) = wrap (bits a) (val a * 2 ^ shift).
Proof.
  intros Ha Hs. unfold shl_words.
  set (k := Z.to_nat (shift / 32)). set (s := shift mod 32).
  assert (Hs' : 0 <= s < 32) by (apply Z.mod_pos_bound; lia).
  assert (Hsh : shift = 32 * Z.of_nat k + s) by (unfold k, s; zlia).
  apply (or_loop_val _ (shl_part a k s)); try done.
  - apply length_shl_step.
  - intros pn i j. apply shl_step_part.
  - intros i j m Hm. rewrite testbit_shl_part by (done || lia).
    by rewrite (proj2 (Z.ltb_ge m 32)) by lia.
  - intros. by apply shl_part_nonneg.
  - intros j m Hj Hm. rewrite shl_bit by done. rewrite Hsh, <-Z.shiftl_mul_pow2, Z.shiftl_spec by lia.
    done.
Qed.

Lemma shr_words_val a shift :
  Forall (fits 32) a -> 0 <= shift ->
  wf_words (length a) (shr_words a shift) /\ val (shr_words a shift) = val a / 2 ^ shift.
Proof.
  intros Ha Hs. unfold shr_words.
  set (k := Z.to_nat (shift / 32)). set (s := shift mod 32).
  assert (Hs' : 0 <= s < 32) by (apply Z.mod_pos_bound; lia).
  assert (Hsh : shift = 32 * Z.of_nat k + s) by (unfold k, s; zlia).
  rewrite <-(wrap_small (bits a) (val a / 2 ^ shift)).
  - apply (or_loop_val _ (shr_part a k s)); try done.
    + apply length_shr_step.
    + intros pn i j. apply shr_step_part.
    + intros i j m Hm. rewrite testbit_shr_part by (done || lia).
      by rewrite (proj2 (Z.ltb_ge m 32)) by lia.
    + intros. by apply shr_part_nonneg.
    + intros j m Hj Hm. rewrite shr_bit by done.
      rewrite Hsh, <-Z.shiftr_div_pow2, Z.shiftr_spec by lia. done.
  - pose proof (val_fits a Ha) as Hv. unfold fits in *. pose proof (Z.pow_pos_nonneg 2 shift).
    split; [apply Z.div_pos; lia|]. apply Z.le_lt_trans with (val a); [|lia].
    apply Z.div_le_upper_bound; nia.
Qed.

(** ** Bytes of the wire and of memory *)
Lemma length_GetBytes pn : length (GetBytes pn) = (4 * length pn)%nat.
Proof. induction pn as [|w pn IH]; [done|]. cbn [GetBytes]. rewrite length_app, IH. cbn. lia. Qed.

Lemma SetBytes_GetBytes pn post :
  Forall (fits 32) pn -> SetBytes (length pn) (GetBytes pn ++ post) = Some pn.
Proof.
  induction 1 as [|w pn Hw HF IH]; [done|].
  cbn [GetBytes length]. unfold uint2bytes. cbn -[z2b]. rewrite IH. cbn.
  by rewrite be32_uint2bytes, wrap_small.
Qed.

Lemma SetBytes_is_Some n DATA :
  (4 * n <= length DATA)%nat -> exists pn, SetBytes n DATA = Some pn /\ wf_words n pn.
Proof.
  revert DATA. induction n as [|n IH]; intros DATA H; [exists []; by repeat split|].
  destruct DATA as [|b0 [|b1 [|b2 [|b3 DATA]]]]; cbn [length] in H; try lia.
  destruct (IH DATA) as (pn&Hpn&[Hl HF]); [lia|].
  exists (be32 b0 b1 b2 b3 :: pn). cbn. rewrite Hpn. split; [done|].
  split; [cbn; by rewrite Hl|]. constructor; auto with width.
Qed.

Lemma GetBytes_SetBytes n DATA pn :
  length DATA = (4 * n)%nat -> SetBytes n DATA = Some pn -> GetBytes pn = DATA.
Proof.
  revert DATA pn. induction n as [|n IH]; intros DATA pn Hl H.
  { injection H as <-. by destruct DATA. }
  destruct DATA as [|b0 [|b1 [|b2 [|b3 DATA]]]]; cbn [length] in Hl; try lia.
  cbn [SetBytes] in H. apply bind_Some in H as (pn'&H'&[= <-]).
  cbn [GetBytes]. rewrite uint2bytes_be32, (IH DATA) by (done || lia). done.
Qed.

Lemma of_memory_memory pn : Forall (fits 32) pn -> of_memory (length pn) (memory pn) = pn.
Proof.
  induction 1 as [|w pn Hw HF IH]; [done|].
  cbn [memory length]. unfold le32. cbn -[z2b be32]. rewrite IH. f_equal.
  by rewrite be32_uint2bytes, wrap_small.
Qed.

Lemma length_memory pn : length (memory pn) = (4 * length pn)%nat.
Proof. induction pn as [|w pn IH]; [done|]. cbn [memory]. rewrite length_app, IH. cbn. lia. Qed.

(** ** Hexadecimal: [SetHex] reads back what [GetHex] prints *)
Lemma hex_digit_range d : 0 <= d < 16 ->
  phexdigit (hex_digit d) = d /\ is_hex (hex_digit d) = true /\
  is_space (hex_digit d) = false /\ (b2z (hex_digit d) = 120 -> False) /\
  (b2z (hex_digit d) = 88 -> False).
Proof.
  intros Hd. pose proof (in_seq 16 0 (Z.to_nat d)) as Hin.
  assert (Hall : forallb (fun n => let c := hex_digit (Z.of_nat n) in
    (phexdigit c =? Z.of_nat n) && is_hex c && negb (is_space c) &&
    negb (b2z c =? 120) && negb (b2z c =? 88)) (seq 0 16) = true) by done.
  rewrite forallb_forall in Hall. specialize (Hall (Z.to_nat d)).
  rewrite Z2Nat.id in Hall by lia. cbv zeta in Hall.
  assert (In (Z.to_nat d) (seq 0 16)) as Hi by (apply in_seq; lia).
  specialize (Hall Hi). bools. repeat split; auto; lia.
Qed.

(** The two digits of a byte, most significant first. *)
Definition digits_of (b : byte) : bytes :=
  [hex_digit (b2z b ≫ 4); hex_digit (Z.land (b2z b) 15)].

Lemma nibbles b : 0 <= b2z b ≫ 4 < 16 /\ 0 <= Z.land (b2z b) 15 < 16 /\
  Z.lor (Z.land (b2z b) 15) ((b2z b ≫ 4) ≪ 4) = b2z b.
Proof.
  pose proof (b2z_fits b) as Hb. unfold fits in Hb.
  split; [rewrite Z.shiftr_div_pow2 by lia; zlia|].
  change 15 with (Z.ones 4). rewrite Z.land_ones by lia. split; [zlia|].
  apply Z.bits_inj'. intros i Hi. rewrite Z.lor_spec, Z.shiftl_spec by done.
  destruct (decide (i < 4)).
  - rewrite Z.mod_pow2_bits_low, (Z.testbit_neg_r _ (i - 4)) by lia. apply orb_false_r.
  - rewrite Z.mod_pow2_bits_high, Z.shiftr_spec by lia. cbn [orb]. f_equal. lia.
Qed.

Lemma GetHex_digits pn : GetHex pn = rev (memory pn) ≫= digits_of.
Proof. done. Qed.

Lemma rev_digits ms :
  rev (rev ms ≫= digits_of) = ms ≫= fun b => rev (digits_of b).
Proof.
  induction ms as [|b ms IH]; [done|]. cbn [rev]. rewrite bind_app, rev_app_distr.
  cbn [mbind list_bind]. by rewrite app_nil_r, IH.
Qed.

Lemma pack_digits_spec ms :
  pack_digits (length ms) (ms ≫= fun b => rev (digits_of b)) = ms.
Proof.
  induction ms as [|b ms IH]; [done|].
  change ((b :: ms) ≫= fun b => rev (digits_of b))
    with (rev (digits_of b) ++ (ms ≫= fun b => rev (digits_of b))).
  unfold digits_of at 1. cbn [rev app length pack_digits].
  destruct (nibbles b) as (H1&H2&H3).
  destruct (hex_digit_range _ H1) as [-> _]. destruct (hex_digit_range _ H2) as [-> _].
  by rewrite H3, z2b_b2z, IH.
Qed.

Lemma take_while_all p s : Forall (fun c => p c = true) s -> take_while p s = s.
Proof. induction 1 as [|c s Hc _ IH]; [done|]. cbn. by rewrite Hc, IH. Qed.

Lemma digits_hex ms : Forall (fun c => is_hex c = true) (ms ≫= digits_of).
Proof.
  induction ms as [|b ms IH]; [by constructor|]. apply Forall_app. split; [|done].
  destruct (nibbles b) as (H1&H2&_).
  repeat constructor; by apply hex_digit_range.
Qed.

Lemma digits_prefix ms :
  drop_while is_space (ms ≫= digits_of) = ms ≫= digits_of /\
  skip_0x (ms ≫= digits_of) = ms ≫= digits_of.
Proof.
  destruct ms as [|b ms]; [done|].
  change ((b :: ms) ≫= digits_of)
    with (hex_digit (b2z b ≫ 4) :: hex_digit (Z.land (b2z b) 15) :: (ms ≫= digits_of)).
  destruct (nibbles b) as (H1&H2&_). generalize (ms ≫= digits_of). intros rest.
  destruct (hex_digit_range _ H1) as (_&_&Hs&_). cbn [drop_while]. rewrite Hs. split; [done|].
  destruct (hex_digit_range _ H2) as (_&_&_&Hx&HX). unfold skip_0x.
  apply Z.eqb_neq in Hx, HX. rewrite Hx, HX. cbn [orb]. by rewrite andb_false_r.
Qed.

Lemma SetHex_GetHex pn : Forall (fits 32) pn -> SetHex (length pn) (GetHex pn) = pn.
Proof.
  intros HF. rewrite GetHex_digits. unfold SetHex.
  destruct (digits_prefix (rev (memory pn))) as [-> ->].
  rewrite take_while_all by apply digits_hex. rewrite rev_digits, <-length_memory.
  by rewrite pack_digits_spec, of_memory_memory.
Qed.

(** ** The contract of the type: an array of words stands for a number *)
Definition represents (WIDTH : nat) (pn : words) (z : Z) : Prop :=
  wf_words WIDTH pn /\ val pn = z.

Section represents.
Context (W : nat) (a : words) (x : Z) (Ha : represents W a x).

Lemma represents_fits : fits (32 * Z.of_nat W) x.
Proof. destruct Ha as [[<- HF] <-]. by apply val_fits. Qed.

Lemma represents_incr : represents W (incr a) (wrap (32 * Z.of_nat W) (x + 1)).
Proof. destruct Ha as [[<- HF] <-]. split; [by apply incr_wf|by apply incr_val]. Qed.
Lemma represents_decr : represents W (decr a) (wrap (32 * Z.of_nat W) (x - 1)).
Proof. destruct Ha as [[<- HF] <-]. split; [by apply decr_wf|by apply decr_val]. Qed.
Lemma represents_neg : represents W (neg a) (wrap (32 * Z.of_nat W) (- x)).
Proof. destruct Ha as [[<- HF] <-]. split; [by apply neg_wf|by apply neg_val]. Qed.

Lemma represents_shl s : 0 <= s ->
  represents W (shl_words a s) (wrap (32 * Z.of_nat W) (x * 2 ^ s)).
Proof. intros Hs. destruct Ha as [[<- HF] <-]. by apply shl_words_val. Qed.
Lemma represents_shr s : 0 <= s -> represents W (shr_words a s) (x / 2 ^ s).
Proof. intros Hs. destruct Ha as [[<- HF] <-]. by apply shr_words_val. Qed.
Lemma represents_inj b : represents W b x -> a = b.
Proof.
  destruct Ha as [[<- HF] <-]. intros [[Hl HF'] Hv]. by apply val_inj.
Qed.
End represents.

Lemma represents_add W a b x y : represents W a x -> represents W b y ->
  represents W (add_words a b) (wrap (32 * Z.of_nat W) (x + y)).
Proof.
  intros [[<- HF] <-] [[Hl HF'] <-].
  split; [by apply add_words_wf|by apply add_words_val].
Qed.
Lemma represents_sub W a b x y : represents W a x -> represents W b y ->
  represents W (sub_words a b) (wrap (32 * Z.of_nat W) (x - y)).
Proof.
  intros [[<- HF] <-] [[Hl HF'] <-].
  split; [|by apply sub_words_val]. unfold sub_words. apply add_words_wf; [done|by apply neg_wf].
Qed.

Lemma represents_of_val W z : fits (32 * Z.of_nat W) z -> represents W (of_val W z) z.
Proof. intros Hz. split; [apply of_val_wf|]. rewrite val_of_val. by apply wrap_small. Qed.

Lemma represents_assign64 W b : (2 <= W)%nat -> fits 64 b -> represents W (assign64 W b) b.
Proof. intros. split; [by apply assign64_wf|by apply assign64_val]. Qed.

(** Adding a 64-bit number, as [GetHash() + nNonce] does. *)
Lemma represents_add64 W a x b : (2 <= W)%nat -> represents W a x -> fits 64 b ->
  represents W (add64 a b) (wrap (32 * Z.of_nat W) (x + b)).
Proof.
  intros HW Ha Hb. unfold add64. destruct Ha as [[Hl HF] Hv]. rewrite Hl.
  apply represents_add; [by repeat split|by apply represents_assign64].
Qed.

(** ** Properties *)

(** C28: the operators of [base_uint], each a loop over 32-bit words with carries,
    compute on the numbers the words denote: increment, decrement, negation, addition and
    subtraction modulo [2^BITS], the shifts by any amount as multiplication modulo [2^BITS] and
    division by a power of two, the bitwise operators, and the comparisons as the order of the
    numbers. *)
Theorem uint_refines W a b x y s :
  represents W a x -> represents W b y -> 0 <= s ->
  represents W (incr a) (wrap (32 * Z.of_nat W) (x + 1)) /\
  represents W (decr a) (wrap (32 * Z.of_nat W) (x - 1)) /\
  represents W (neg a) (wrap (32 * Z.of_nat W) (- x)) /\
  represents W (add_words a b) (wrap (32 * Z.of_nat W) (x + y)) /\
  represents W (sub_words a b) (wrap (32 * Z.of_nat W) (x - y)) /\
  represents W (shl_words a s) (wrap (32 * Z.of_nat W) (x * 2 ^ s)) /\
  represents W (shr_words a s) (x / 2 ^ s) /\
  represents W (xor_words a b) (Z.lxor x y) /\
  represents W (and_words a b) (Z.land x y) /\
  represents W (or_words a b) (Z.lor x y) /\
  lt_words a b = (x <? y) /\ le_words a b = (x <=? y) /\
  gt_words a b = (y <? x) /\ ge_words a b = (y <=? x) /\
  eq_words a b = (x =? y) /\ is_zero a = (x =? 0).
Proof.
  intros Ha Hb Hs. split; [by apply represents_incr|]. split; [by apply represents_decr|].
  split; [by apply represents_neg|]. split; [by apply represents_add|].
  split; [by apply represents_sub|]. split; [by apply represents_shl|].
  split; [by apply represents_shr|].
  destruct Ha as [[<- HF] <-], Hb as [[Hl HF'] <-].
  split; [by apply xor_words_val|]. split; [by apply and_words_val|].
  split; [by apply or_words_val|]. split; [by apply lt_words_spec|].
  split; [by apply le_words_spec|]. split; [by apply gt_words_spec|].
  split; [by apply ge_words_spec|]. split; [by apply eq_words_spec|by apply is_zero_val].
Qed.

Lemma uint_refines_witness :
  represents 2 [0xffffffff; 1] 0x1ffffffff /\ represents 2 [1; 2] 0x200000001 /\
  represents 2 (add_words [0xffffffff; 1] [1; 2]) 0x400000000.
Proof.
  assert (Ha : represents 2 [0xffffffff; 1] 0x1ffffffff) by (by repeat constructor).
  assert (Hb : represents 2 [1; 2] 0x200000001) by (by repeat constructor).
  split; [exact Ha|]. split; [exact Hb|].
  exact (proj1 (proj2 (proj2 (proj2 (uint_refines 2 _ _ _ _ 33 Ha Hb ltac:(done)))))).
Defined.

(** The byte forms of a wide integer lose nothing: [SetBytes] after [GetBytes] (the
    wire), the memory image, and [SetHex] after [GetHex] each give the number back, and
    [GetBytes] after [SetBytes] gives the bytes back. *)
Theorem uint_wire W pn DATA :
  wf_words W pn -> length DATA = (4 * W)%nat ->
  SetBytes W (GetBytes pn) = Some pn /\
  of_memory W (memory pn) = pn /\
  SetHex W (GetHex pn) = pn /\
  exists qn, SetBytes W DATA = Some qn /\ wf_words W qn /\ GetBytes qn = DATA.
Proof.
  intros [<- HF] Hl.
  split; [rewrite <-(app_nil_r (GetBytes pn)); by apply SetBytes_GetBytes|].
  split; [by apply of_memory_memory|]. split; [by apply SetHex_GetHex|].
  destruct (SetBytes_is_Some (length pn) DATA) as (qn&Hq&Hw); [lia|].
  exists qn. split; [done|]. split; [done|]. by apply (GetBytes_SetBytes _ _ _ Hl).
Qed.

Lemma uint_wire_witness :
  SetBytes 2 (GetBytes [0xdeadbeef; 7]) = Some [0xdeadbeef; 7] /\
  SetHex 2 (GetHex [0xdeadbeef; 7]) = [0xdeadbeef; 7].
Proof.
  destruct (uint_wire 2 [0xdeadbeef; 7] (replicate 8 Byte.xff)) as (H1&_&H3&_).
  - by repeat constructor.
  - reflexivity.
  - exact (conj H1 H3).
Defined.
