(* ===== verification/Keccak.v ===== *)
(** * The Keccak permutation: [src/src/hash/Keccak-compact64.cpp]

    The state is 25 lanes of 64 bits, lane [5 * y + x] for the coordinates [x] and [y].  The
    functions on bytes see it as 200 bytes, little-endian.  [FIPS202] is the permutation as the
    standard defines it, by step mappings on coordinates. *)
From S2P Require Import Prelude Bytes.

Abbreviation lanes := (list Z).

(** [ROL64(a, offset)], for offsets from 1 to 63. *)
Definition ROL64 (a offset : Z) : Z := Z.lxor (u64 (a ≪ offset)) (a ≫ (64 - offset)).
Definition not64 (a : Z) : Z := u64 (Z.lnot a).
Definition lane (state : lanes) (i : nat) : Z := nth i state 0.

Definition cKeccakNumberOfRounds : nat := 24.
Definition KeccakF_RotationConstants : list Z :=
  [1; 3; 6; 10; 15; 21; 28; 36; 45; 55; 2; 14; 27; 41; 56; 8; 25; 43; 62; 18; 39; 61; 20; 44].
Definition KeccakF_PiLane : list nat :=
  [10; 7; 11; 17; 18; 3; 5; 16; 8; 21; 24; 4; 15; 23; 19; 13; 12; 2; 20; 14; 22; 9; 6; 1]%nat.
Definition KeccakF_Mod5 : list nat := [0; 1; 2; 3; 4; 0; 1; 2; 3; 4]%nat.
Definition MOD5 (i : nat) : nat := nth i KeccakF_Mod5 0%nat.

(** ** Round constants *)
(** One round of the loop over [i], on [tempLSFR] and [roundConstant]. *)
Definition lfsr_step (st : Z * Z) (i : Z) : Z * Z :=
  let '(tempLSFR, roundConstant) := st in
  let doXOR := Z.land tempLSFR 1 in
  let tempLSFR :=
    if negb (Z.land tempLSFR 128 =? 0) then Z.lxor (u32 (tempLSFR ≪ 1)) 0x71
    else u32 (tempLSFR ≪ 1) in
  (tempLSFR,
   if negb (doXOR =? 0) then Z.lxor roundConstant (u64 (1 ≪ (i - 1))) else roundConstant).

(** [for (i = 1; i < 128; i <<= 1)] *)
Definition GetNextRoundConstant (LFSR : Z) : Z * Z :=
  let '(tempLSFR, roundConstant) := foldl lfsr_step (LFSR, 0) [1; 2; 4; 8; 16; 32; 64] in
  (u8 tempLSFR, roundConstant).

(** ** The round *)
Definition theta (state : lanes) : lanes :=
  let BC := (fun x => Z.lxor (Z.lxor (Z.lxor (Z.lxor (lane state x) (lane state (5 + x)))
    (lane state (10 + x))) (lane state (15 + x))) (lane state (20 + x))) <$> seq 0 5 in
  foldl (fun state x =>
    let temp := Z.lxor (lane BC (MOD5 (x + 4))) (ROL64 (lane BC (MOD5 (x + 1))) 1) in
    foldl (fun state y => alter (fun w => Z.lxor w temp) (y + x)%nat state) state
      [0; 5; 10; 15; 20]%nat) state (seq 0 5).

Definition rho_pi_step (st : Z * lanes) (x : nat) : Z * lanes :=
  let '(temp, state) := st in
  let j := nth x KeccakF_PiLane 0%nat in
  let BC0 := lane state j in
  (BC0, <[j := ROL64 temp (nth x KeccakF_RotationConstants 0)]> state).

Definition rho_pi (state : lanes) : lanes := (foldl rho_pi_step (lane state 1, state) (seq 0 24)).2.

Definition chi (state : lanes) : lanes :=
  foldl (fun state y =>
    let BC := (fun x => lane state (y + x)) <$> seq 0 5 in
    foldl (fun state x =>
      <[(y + x)%nat := Z.lxor (lane BC x)
          (Z.land (not64 (lane BC (MOD5 (x + 1)))) (lane BC (MOD5 (x + 2))))]> state)
      state (seq 0 5)) state [0; 5; 10; 15; 20]%nat.

Fixpoint rounds (n : nat) (LFSRstate : Z) (state : lanes) : lanes :=
  match n with
  | O => state
  | S n' =>
      let state := chi (rho_pi (theta state)) in
      let '(LFSRstate, rc) := GetNextRoundConstant LFSRstate in
      rounds n' LFSRstate (alter (fun w => Z.lxor w rc) 0%nat state)
  end.

(** ** The state as bytes *)
Definition xor_byte (a b : byte) : byte := z2b (Z.lxor (b2z a) (b2z b)).

(** [state[offset + i] ^= data[i]] for all of [data]. *)
Fixpoint xor_at (offset : nat) (data : bytes) (state : bytes) : bytes :=
  match data with
  | [] => state
  | d :: data' => xor_at (S offset) data' (alter (fun s => xor_byte s d) offset state)
  end.

Definition StateInitialize : bytes := replicate (25 * 8) (z2b 0).
Definition StateXORBytesInLane (lanePosition : nat) (data : bytes) (offset : nat) (state : bytes) : bytes :=
  xor_at (lanePosition * 8 + offset) data state.
Definition StateXORLanes (data : bytes) (laneCount : nat) (state : bytes) : bytes :=
  xor_at 0 (take (laneCount * 8) data) state.
Definition StateComplementBit (position : nat) (state : bytes) : bytes :=
  let lane := 1 ≪ (Z.of_nat position `mod` 64) in
  xor_at (position / 64 * 8) (le64 lane) state.
Definition StatePermute (state : bytes) : bytes :=
  bytes64 (rounds cKeccakNumberOfRounds 1 (words64 25 state)).
Definition StateExtractBytesInLane (state : bytes) (lanePosition offset length : nat) : bytes :=
  take length (drop (lanePosition * 8 + offset) state).
Definition StateExtractLanes (state : bytes) (laneCount : nat) : bytes := take (laneCount * 8) state.
Definition StateXORPermuteExtract (inData : bytes) (inLaneCount outLaneCount : nat) (state : bytes)
  : bytes * bytes :=
  let state := StatePermute (StateXORLanes inData inLaneCount state) in
  (state, StateExtractLanes state outLaneCount).

(** ** The standard's definition *)
Module FIPS202.
Definition coord (A : lanes) (x y : nat) : Z := lane A (5 * (y `mod` 5) + x `mod` 5).
Definition tabulate (f : nat -> nat -> Z) : lanes :=
  (fun i => f (i `mod` 5)%nat (i / 5)%nat) <$> seq 0 25.

Definition column (A : lanes) (x : nat) : Z :=
  Z.lxor (Z.lxor (Z.lxor (Z.lxor (coord A x 0) (coord A x 1)) (coord A x 2)) (coord A x 3)) (coord A x 4).
Definition theta (A : lanes) : lanes :=
  tabulate (fun x y => Z.lxor (coord A x y) (Z.lxor (column A (x + 4)) (ROL64 (column A (x + 1)) 1))).

(** The offsets of [rho]: [(t + 1) (t + 2) / 2] along the walk [(x, y) -> (y, 2x + 3y)] from
    [(1, 0)]; lane [(0, 0)] is not rotated. *)
Fixpoint offset_from (n t x y x' y' : nat) : option Z :=
  match n with
  | O => None
  | S n' => if bool_decide (x = x' /\ y = y') then Some (Z.of_nat ((t + 1) * (t + 2) / 2) `mod` 64)
            else offset_from n' (S t) y ((2 * x + 3 * y) `mod` 5) x' y'
  end.
Definition rho (A : lanes) : lanes :=
  tabulate (fun x y => match offset_from 24 0 1 0 x y with
                       | Some o => ROL64 (coord A x y) o
                       | None => coord A x y
                       end).
Definition pi (A : lanes) : lanes := tabulate (fun x y => coord A (x + 3 * y) x).
Definition chi (A : lanes) : lanes :=
  tabulate (fun x y => Z.lxor (coord A x y) (Z.land (not64 (coord A (x + 1) y)) (coord A (x + 2) y))).

(** [rc t] is the constant coefficient of [X ^ t] modulo [X^8 + X^6 + X^5 + X^4 + 1] over GF(2). *)
Fixpoint power_of_X (t : nat) : Z :=
  match t with
  | O => 1
  | S t' => let r := 2 * power_of_X t' in if Z.testbit r 8 then Z.lxor r 0x171 else r
  end.
Definition rc (t : nat) : bool := Z.testbit (power_of_X t) 0.
Definition round_constant (ir : nat) : Z :=
  foldr (fun j acc => if rc (j + 7 * ir) then Z.lor acc (2 ^ (2 ^ Z.of_nat j - 1)) else acc) 0 (seq 0 7).
Definition iota (ir : nat) (A : lanes) : lanes := alter (fun w => Z.lxor w (round_constant ir)) 0%nat A.
Definition round (ir : nat) (A : lanes) : lanes := iota ir (chi (pi (rho (theta A)))).
Definition keccak_f (A : lanes) : lanes := foldl (fun A ir => round ir A) A (seq 0 24).
End FIPS202.

(** ** Lemmas *)
(** The 25 lanes as variables: the step mappings then compute to the same terms. *)
Ltac by_lanes A H := do 25 (destruct A as [|? A]; [done|]); destruct A; [reflexivity|done].

Lemma theta_standard A : length A = 25%nat -> theta A = FIPS202.theta A.
Proof. intros H. by_lanes A H. Qed.

Lemma rho_pi_standard A : length A = 25%nat -> rho_pi A = FIPS202.pi (FIPS202.rho A).
Proof. intros H. by_lanes A H. Qed.

Lemma chi_standard A : length A = 25%nat -> chi A = FIPS202.chi A.
Proof. intros H. by_lanes A H. Qed.

Lemma length_tabulate f : length (FIPS202.tabulate f) = 25%nat.
Proof. done. Qed.

Lemma length_round ir A : length (FIPS202.round ir A) = 25%nat.
Proof. unfold FIPS202.round, FIPS202.iota. by rewrite length_alter. Qed.

(** The register after [n] rounds of constants, and the constant taken from it. *)
Definition lfsr_after (n : nat) : Z := Nat.iter n (fun l => (GetNextRoundConstant l).1) 1.

Lemma round_constants_standard ir :
  (ir < 24)%nat -> (GetNextRoundConstant (lfsr_after ir)).2 = FIPS202.round_constant ir.
Proof.
  intros H. assert (Hall : forallb (fun n => (GetNextRoundConstant (lfsr_after n)).2 =?
    FIPS202.round_constant n) (seq 0 24) = true) by (vm_compute; reflexivity).
  rewrite forallb_forall in Hall. apply Z.eqb_eq, Hall, in_seq. lia.
Qed.

Lemma rounds_standard n ir A :
  length A = 25%nat -> (ir + n <= 24)%nat ->
  rounds n (lfsr_after ir) A = foldl (fun A ir => FIPS202.round ir A) A (seq ir n).
Proof.
  revert ir A. induction n as [|n IH]; intros ir A HA Hn; [done|]. cbn [rounds seq foldl].
  destruct (GetNextRoundConstant (lfsr_after ir)) as [l rc] eqn:E.
  replace l with (lfsr_after (S ir)) by (change (lfsr_after (S ir)) with (GetNextRoundConstant (lfsr_after ir)).1; by rewrite E).
  replace rc with (FIPS202.round_constant ir) by (rewrite <-round_constants_standard, E; [done|lia]).
  rewrite theta_standard, rho_pi_standard, chi_standard by done.
  apply IH; [|lia]. apply length_round.
Qed.

Lemma length_keccak_f A : length A = 25%nat -> length (FIPS202.keccak_f A) = 25%nat.
Proof.
  unfold FIPS202.keccak_f. generalize (seq 0 24). intros l. revert A.
  induction l as [|i l IH]; intros A HA; cbn [foldl]; [done|]. apply IH, length_round.
Qed.

Lemma permute_standard state :
  StatePermute state = bytes64 (FIPS202.keccak_f (words64 25 state)).
Proof.
  pose proof (rounds_standard 24 0 (words64 25 state) (length_words64 _ _) (le_n 24)) as E.
  change (lfsr_after 0) with 1 in E. unfold StatePermute, cKeccakNumberOfRounds, FIPS202.keccak_f.
  by rewrite E.
Qed.

Lemma length_permute state : length (StatePermute state) = 200%nat.
Proof. by rewrite permute_standard, length_bytes64, length_keccak_f by apply length_words64. Qed.

Lemma length_xor_at k d s : length (xor_at k d s) = length s.
Proof. revert k s. induction d as [|c d IH]; intros k s; cbn; [done|]. by rewrite IH, length_alter. Qed.

Lemma xor_at_app k d e s : xor_at k (d ++ e) s = xor_at (k + length d) e (xor_at k d s).
Proof.
  revert k s. induction d as [|c d IH]; intros k s; cbn; [by rewrite Nat.add_0_r|].
  rewrite IH. f_equal. lia.
Qed.

(** ** Properties *)

(** The permutation is Keccak-f[1600] as FIPS 202 defines it.  The code's
    loops over a single array, with the tables of lanes and rotations and the constants from the
    8-bit register, compute on any 200 bytes the 24 rounds of theta, rho, pi, chi and iota. *)
Theorem permutation_standard state :
  StatePermute state = bytes64 (FIPS202.keccak_f (words64 25 state)) /\
  length (StatePermute state) = 200%nat.
Proof. split; [apply permute_standard|apply length_permute]. Qed.
