(* ===== verification/Sponge.v ===== *)
(** * The sponge and its hash interface: [src/src/hash/KeccakSponge.cpp], [KeccakHash.cpp]

    A sponge instance is the 200 bytes of the state, the rate, the position of the next byte of
    input or output, and the phase.  Absorbing and squeezing take whole blocks or lanes at once
    where they can; [absorb_byte] and [squeeze_bytes] are what they do, a byte at a time.  [None]
    is a read outside the data, or a loop that does not end.  [FIPS202_sponge] is the sponge of
    the standard: padded messages, block by block. *)
From S2P Require Import Prelude Bytes Keccak.

Record Keccak_SpongeInstance := mk_sponge {
  state : bytes;
  rate : Z;
  byteIOIndex : nat;
  squeezing : bool;
}.

Definition rateInBytes (s : Keccak_SpongeInstance) : nat := Z.to_nat (rate s / 8).
Definition set_io (st : bytes) (i : nat) (s : Keccak_SpongeInstance) : Keccak_SpongeInstance :=
  mk_sponge st (rate s) i (squeezing s).

(** The results are 0 and 1, as in the code. *)
Definition SpongeInitialize (rate capacity : Z) (s : Keccak_SpongeInstance) : Z * Keccak_SpongeInstance :=
  if negb (u32 (rate + capacity) =? 1600) then (1, s) else
  if (rate <=? 0) || (1600 <? rate) || negb (rate `mod` 8 =? 0) then (1, s) else
  (0, mk_sponge StateInitialize rate 0 false).

(** [(unsigned int)(dataByteLen - i)], cut to what is left of the block. *)
Definition partial_block (r idx left_ : nat) : nat :=
  let p := u32 (Z.of_nat left_) in
  if Z.of_nat r <? u32 (p + Z.of_nat idx) then (r - idx)%nat else Z.to_nat p.

(** ** Absorbing *)
(** The fast lane: whole blocks while [j >= rateInBytes]. *)
Fixpoint absorb_blocks (fuel r : nat) (st curData : bytes) : option (bytes * bytes) :=
  match fuel with
  | O => None
  | S fuel' =>
      if (r <=? length curData)%nat then
        let st := if (0 <? r mod 8)%nat
          then StateXORBytesInLane (r / 8) (take (r mod 8) (drop (r / 8 * 8) curData)) 0 st else st in
        let '(st, _) := StateXORPermuteExtract curData (r / 8) 0 st in
        absorb_blocks fuel' r st (drop r curData)
      else Some (st, curData)
  end.

(** [while (partialBlock > 0)] *)
Fixpoint absorb_lanes (fuel partialBlock : nat) (st : bytes) (idx : nat) (curData : bytes)
  : option (bytes * nat * bytes) :=
  match fuel with
  | O => None
  | S fuel' =>
      if (partialBlock =? 0)%nat then Some (st, idx, curData) else
      let offsetInLane := (idx mod 8)%nat in
      let bytesInLane := Nat.min (8 - offsetInLane) partialBlock in
      absorb_lanes fuel' (partialBlock - bytesInLane)
        (StateXORBytesInLane (idx / 8) (take bytesInLane curData) offsetInLane st)
        (idx + bytesInLane) (drop bytesInLane curData)
  end.

(** The normal lane: up to the end of the block; the lanes at once if it begins one. *)
Definition absorb_partial (r : nat) (st : bytes) (idx : nat) (curData : bytes)
  : option (bytes * nat * bytes) :=
  let partialBlock := partial_block r idx (length curData) in
  '(st, idx, curData) ←
    (if (idx =? 0)%nat && (8 <=? partialBlock)%nat then
       let n := (partialBlock / 8 * 8)%nat in
       absorb_lanes (S partialBlock) (partialBlock - n)
         (StateXORLanes curData (partialBlock / 8) st) (idx + n) (drop n curData)
     else absorb_lanes (S partialBlock) partialBlock st idx curData);
  Some (if (idx =? r)%nat then (StatePermute st, 0%nat, curData) else (st, idx, curData)).

(** [while (i < dataByteLen)] *)
Fixpoint absorb_loop (fuel r : nat) (st : bytes) (idx : nat) (curData : bytes) : option (bytes * nat) :=
  match fuel with
  | O => None
  | S fuel' =>
      match curData with
      | [] => Some (st, idx)
      | _ =>
          if (idx =? 0)%nat && (r <=? length curData)%nat then
            '(st, curData) ← absorb_blocks (S (length curData)) r st curData;
            absorb_loop fuel' r st idx curData
          else
            '(st, idx, curData) ← absorb_partial r st idx curData;
            absorb_loop fuel' r st idx curData
      end
  end.

Definition SpongeAbsorb (data : bytes) (s : Keccak_SpongeInstance) : option (Z * Keccak_SpongeInstance) :=
  if squeezing s then Some (1, s) else
  '(st, idx) ← absorb_loop (S (length data)) (rateInBytes s) (state s) (byteIOIndex s) data;
  Some (0, set_io st idx s).

Definition SpongeAbsorbLastFewBits (delimitedData : Z) (s : Keccak_SpongeInstance)
  : Z * Keccak_SpongeInstance :=
  let r := rateInBytes s in
  if delimitedData =? 0 then (1, s) else
  if squeezing s then (1, s) else
  let idx := byteIOIndex s in
  let st := StateXORBytesInLane (idx / 8) [z2b delimitedData] (idx mod 8) (state s) in
  let st := if (128 <=? delimitedData) && (idx =? r - 1)%nat then StatePermute st else st in
  let st := StateComplementBit (r * 8 - 1) st in
  (0, mk_sponge (StatePermute st) (rate s) 0 true).

(** ** Squeezing *)
Fixpoint squeeze_blocks (fuel r left_ : nat) (st data : bytes) : option (bytes * bytes * nat) :=
  match fuel with
  | O => None
  | S fuel' =>
      if (r <=? left_)%nat then
        let '(st, out) := StateXORPermuteExtract [] 0 (r / 8) st in
        let out := if (0 <? r mod 8)%nat
          then out ++ StateExtractBytesInLane st (r / 8) 0 (r mod 8) else out in
        squeeze_blocks fuel' r (left_ - r) st (data ++ out)
      else Some (st, data, left_)
  end.

Fixpoint squeeze_lanes (fuel partialBlock : nat) (st : bytes) (idx : nat) (data : bytes)
  : option (nat * bytes) :=
  match fuel with
  | O => None
  | S fuel' =>
      if (partialBlock =? 0)%nat then Some (idx, data) else
      let offsetInLane := (idx mod 8)%nat in
      let bytesInLane := Nat.min (8 - offsetInLane) partialBlock in
      squeeze_lanes fuel' (partialBlock - bytesInLane) st (idx + bytesInLane)
        (data ++ StateExtractBytesInLane st (idx / 8) offsetInLane bytesInLane)
  end.

Fixpoint squeeze_loop (fuel r left_ : nat) (st : bytes) (idx : nat) (data : bytes)
  : option (bytes * nat * bytes) :=
  match fuel with
  | O => None
  | S fuel' =>
      if (left_ =? 0)%nat then Some (st, idx, data) else
      if (idx =? r)%nat && (r <=? left_)%nat then
        '(st, data, left_) ← squeeze_blocks (S left_) r left_ st data;
        squeeze_loop fuel' r left_ st idx data
      else
        let '(st, idx) := if (idx =? r)%nat then (StatePermute st, 0%nat) else (st, idx) in
        let partialBlock := partial_block r idx left_ in
        '(idx, data) ←
          (if (idx =? 0)%nat && (8 <=? partialBlock)%nat then
             let n := (partialBlock / 8 * 8)%nat in
             squeeze_lanes (S partialBlock) (partialBlock - n) st (idx + n)
               (data ++ StateExtractLanes st (partialBlock / 8))
           else squeeze_lanes (S partialBlock) partialBlock st idx data);
        squeeze_loop fuel' r (left_ - partialBlock) st idx data
  end.

Definition SpongeSqueeze (dataByteLen : nat) (s : Keccak_SpongeInstance)
  : option (bytes * Keccak_SpongeInstance) :=
  let s := if squeezing s then s else (SpongeAbsorbLastFewBits 1 s).2 in
  '(st, idx, data) ←
    squeeze_loop (S dataByteLen) (rateInBytes s) dataByteLen (state s) (byteIOIndex s) [];
  Some (data, set_io st idx s).

(** ** The hash interface: [KeccakHash.cpp] *)
Inductive HashReturn := SUCCESS | FAIL | BAD_HASHLEN.
Definition as_return (n : Z) : HashReturn := if n =? 0 then SUCCESS else FAIL.

Record Keccak_HashInstance := mk_hash {
  sponge : Keccak_SpongeInstance;
  fixedOutputLength : Z;
  delimitedSuffix : Z;
}.

Definition HashInitialize (rate capacity hashbitlen suffix : Z) (h : Keccak_HashInstance)
  : HashReturn * Keccak_HashInstance :=
  if suffix =? 0 then (FAIL, h) else
  let '(ret, s) := SpongeInitialize rate capacity (sponge h) in
  match as_return ret with
  | SUCCESS => (SUCCESS, mk_hash s hashbitlen suffix)
  | e => (e, mk_hash s (fixedOutputLength h) (delimitedSuffix h))
  end.

Definition with_sponge (s : Keccak_SpongeInstance) (h : Keccak_HashInstance) : Keccak_HashInstance :=
  mk_hash s (fixedOutputLength h) (delimitedSuffix h).

(** [data] is what the pointer gives access to. *)
Definition HashUpdate (data : bytes) (databitlen : Z) (h : Keccak_HashInstance)
  : option (HashReturn * Keccak_HashInstance) :=
  let n := Z.to_nat (databitlen / 8) in
  if bool_decide (length data < n)%nat then None else
  '(ret, s) ← SpongeAbsorb (take n data) (sponge h);
  let h := with_sponge s h in
  if databitlen `mod` 8 =? 0 then Some (as_return ret, h) else
  match as_return ret with
  | SUCCESS =>
      lastByte ← data !! n;
      let delimitedLastBytes :=
        wrap 16 (Z.lor (b2z lastByte) (delimitedSuffix h ≪ (databitlen `mod` 8))) in
      if Z.land delimitedLastBytes 0xFF00 =? 0 then
        Some (SUCCESS, mk_hash s (fixedOutputLength h) (Z.land delimitedLastBytes 0xFF))
      else
        '(ret, s) ← SpongeAbsorb [z2b (Z.land delimitedLastBytes 0xFF)] s;
        Some (as_return ret,
              mk_hash s (fixedOutputLength h) (Z.land (delimitedLastBytes ≫ 8) 0xFF))
  | e => Some (e, h)
  end.

Definition HashFinal (h : Keccak_HashInstance) : option (HashReturn * bytes * Keccak_HashInstance) :=
  let '(ret, s) := SpongeAbsorbLastFewBits (delimitedSuffix h) (sponge h) in
  match as_return ret with
  | SUCCESS =>
      '(out, s) ← SpongeSqueeze (Z.to_nat (fixedOutputLength h / 8)) s;
      Some (SUCCESS, out, with_sponge s h)
  | e => Some (e, [], with_sponge s h)
  end.

Definition HashSqueeze (databitlen : Z) (h : Keccak_HashInstance)
  : option (HashReturn * bytes * Keccak_HashInstance) :=
  if negb (databitlen `mod` 8 =? 0) then Some (FAIL, [], h) else
  '(out, s) ← SpongeSqueeze (Z.to_nat (databitlen / 8)) (sponge h);
  Some (SUCCESS, out, with_sponge s h).

(** The hash of [data], as its callers compute it. *)
Definition Keccak_hash (rate capacity hashbitlen suffix : Z) (data : bytes) (h : Keccak_HashInstance)
  : option bytes :=
  let '(_, h) := HashInitialize rate capacity hashbitlen suffix h in
  '(_, h) ← HashUpdate data (8 * Z.of_nat (length data)) h;
  '(_, out, _) ← HashFinal h;
  Some out.

(** ** A byte at a time *)
Definition absorb_byte (r : nat) (si : bytes * nat) (b : byte) : bytes * nat :=
  let st := xor_at si.2 [b] si.1 in
  if (S si.2 =? r)%nat then (StatePermute st, 0%nat) else (st, S si.2).

Fixpoint squeeze_bytes (n r : nat) (si : bytes * nat) : bytes * (bytes * nat) :=
  match n with
  | O => ([], si)
  | S n' =>
      let si := if (si.2 =? r)%nat then (StatePermute si.1, 0%nat) else si in
      let '(out, si') := squeeze_bytes n' r (si.1, S si.2) in
      (default (z2b 0) (si.1 !! si.2) :: out, si')
  end.

(** The end of a block. *)
Definition end_block (r : nat) (st : bytes) (i : nat) : bytes * nat :=
  if (i =? r)%nat then (StatePermute st, 0%nat) else (st, i).

(** An instance as [SpongeInitialize] leaves it and the other operations keep it: the state has
    its 200 bytes, the rate is a number of bytes, and the position is inside the block, or at
    its end while squeezing. *)
Definition wf_sponge (s : Keccak_SpongeInstance) : Prop :=
  length (state s) = 200%nat /\ (0 < rateInBytes s <= 200)%nat /\
  (byteIOIndex s < rateInBytes s + (if squeezing s then 1 else 0))%nat.

#[export] Instance wf_sponge_dec s : Decision (wf_sponge s).
Proof. unfold wf_sponge. apply _. Defined.

(** ** The standard's sponge over a permutation [f], for messages of whole bytes *)
Module FIPS202_sponge.
(** The suffix with its delimiting bit, zeros, and the final bit, up to a multiple of [r]: the last
    byte of a block can hold both bits when the delimiting bit is not itself the top bit, of weight
    128; when it is, the final bit is the last of another block. *)
Definition pad (r : nat) (suffix : Z) (m : nat) : bytes :=
  let q := (r - m mod r)%nat in
  if (q =? 1)%nat then
    if suffix <? 128 then [z2b (Z.lor suffix 128)]
    else z2b suffix :: replicate (r - 1) (z2b 0) ++ [z2b 128]
  else z2b suffix :: replicate (q - 2) (z2b 0) ++ [z2b 128].

Fixpoint absorb (f : bytes -> bytes) (n r : nat) (P : bytes) (st : bytes) : bytes :=
  match n with
  | O => st
  | S n' => absorb f n' r (drop r P) (f (xor_at 0 (take r P) st))
  end.

Fixpoint squeeze (f : bytes -> bytes) (n r : nat) (st : bytes) : bytes :=
  match n with O => [] | S n' => take r st ++ squeeze f n' r (f st) end.

Definition sponge (f : bytes -> bytes) (r : nat) (suffix : Z) (M : bytes) (d : nat) : bytes :=
  let P := M ++ pad r suffix (length M) in
  take d (squeeze f (S (d / r)) r (absorb f (length P / r) r P StateInitialize)).
End FIPS202_sponge.

(** The hash functions of the standard: the sponge over Keccak-f[1600] on bytes. *)
Definition keccak_f_bytes (state : bytes) : bytes := bytes64 (FIPS202.keccak_f (words64 25 state)).
Definition FIPS202_hash : nat -> Z -> bytes -> nat -> bytes := FIPS202_sponge.sponge keccak_f_bytes.

Example sha3_256_empty :
  Keccak_hash 1088 512 256 6 [] (mk_hash (mk_sponge [] 0 0 false) 0 0) =
  Some (z2b <$> [0xa7; 0xff; 0xc6; 0xf8; 0xbf; 0x1e; 0xd7; 0x66; 0x51; 0xc1; 0x47; 0x56; 0xa0; 0x61;
    0xd6; 0x62; 0xf5; 0x80; 0xff; 0x4d; 0xe4; 0x3b; 0x49; 0xfa; 0x82; 0xd8; 0x0a; 0x4b; 0x80; 0xf8;
    0x43; 0x4a]).
Proof. vm_compute. reflexivity. Qed.

#[local] Opaque StatePermute.

(** ** Lemmas on exclusive or *)
Lemma alter_alter_comm {A} (f g : A -> A) i j (l : list A) :
  (forall x, f (g x) = g (f x)) -> alter f i (alter g j l) = alter g j (alter f i l).
Proof.
  intros H. apply list_eq. intros k. rewrite !list_lookup_alter.
  repeat case_decide; subst; destruct (l !! k); try done. cbn. by rewrite H.
Qed.

Lemma b2z_xor_byte a b : b2z (xor_byte a b) = Z.lxor (b2z a) (b2z b).
Proof. unfold xor_byte. rewrite b2z_z2b. apply wrap_small. auto with width. Qed.

Lemma xor_byte_swap s a b : xor_byte (xor_byte s a) b = xor_byte (xor_byte s b) a.
Proof.
  apply b2z_inj. rewrite !b2z_xor_byte, !Z.lxor_assoc. f_equal. apply Z.lxor_comm.
Qed.

Lemma xor_byte_assoc s a b : xor_byte (xor_byte s a) b = xor_byte s (xor_byte a b).
Proof. apply b2z_inj. by rewrite !b2z_xor_byte, Z.lxor_assoc. Qed.

Lemma xor_byte_0 s : xor_byte s (z2b 0) = s.
Proof. apply b2z_inj. rewrite b2z_xor_byte. apply Z.lxor_0_r. Qed.

Lemma xor_at_alter k d i c s :
  xor_at k d (alter (fun x => xor_byte x c) i s) = alter (fun x => xor_byte x c) i (xor_at k d s).
Proof.
  revert k s. induction d as [|e d IH]; intros k s; cbn [xor_at]; [done|].
  rewrite <-IH. f_equal. apply alter_alter_comm. intros x. apply xor_byte_swap.
Qed.

Lemma xor_at_comm k d j e s : xor_at k d (xor_at j e s) = xor_at j e (xor_at k d s).
Proof.
  revert j s. induction e as [|c e IH]; intros j s; cbn [xor_at]; [done|].
  by rewrite IH, xor_at_alter.
Qed.

Lemma xor_at_zeros k n s : xor_at k (replicate n (z2b 0)) s = s.
Proof.
  revert k s. induction n as [|n IH]; intros k s; cbn [xor_at replicate]; [done|].
  rewrite IH. apply list_alter_id. intros x. apply xor_byte_0.
Qed.

(** ** Lemmas on absorbing *)
Lemma lane_position i : (i / 8 * 8 + i mod 8)%nat = i.
Proof. pose proof (Nat.div_mod i 8). lia. Qed.

Lemma absorb_chunk r d st i :
  (i < r)%nat -> (i + length d <= r)%nat ->
  foldl (absorb_byte r) (st, i) d = end_block r (xor_at i d st) (i + length d).
Proof.
  revert st i. induction d as [|c d IH]; intros st i Hi Hd; cbn [length] in *.
  - unfold end_block. destruct (Nat.eqb_spec (i + 0) r); [lia|]. by rewrite Nat.add_0_r.
  - cbn [foldl]. unfold absorb_byte at 2. cbn [fst snd xor_at].
    destruct (Nat.eqb_spec (S i) r) as [E|E].
    + destruct d; cbn [length] in *; [|lia]. unfold end_block.
      destruct (Nat.eqb_spec (i + 1) r); [done|lia].
    + rewrite IH by lia. by rewrite Nat.add_succ_r.
Qed.

Lemma absorb_index r d st i :
  (i < r)%nat -> (foldl (absorb_byte r) (st, i) d).2 = ((i + length d) mod r)%nat.
Proof.
  revert st i. induction d as [|c d IH]; intros st i Hi; cbn [length foldl].
  - rewrite Nat.add_0_r. symmetry. by apply Nat.mod_small.
  - unfold absorb_byte at 2. cbn [fst snd]. destruct (Nat.eqb_spec (S i) r) as [E|E].
    + rewrite IH by lia. replace (i + S (length d))%nat with (length d + 1 * r)%nat by lia.
      by rewrite Nat.Div0.mod_add.
    + rewrite IH by lia. f_equal. lia.
Qed.

Lemma absorb_index_lt r d st i :
  (i < r)%nat -> ((foldl (absorb_byte r) (st, i) d).2 < r)%nat.
Proof. intros H. rewrite absorb_index by done. apply Nat.mod_upper_bound. lia. Qed.

Lemma absorb_lanes_spec fuel p st idx d :
  (p < fuel)%nat -> (p <= length d)%nat ->
  absorb_lanes fuel p st idx d = Some (xor_at idx (take p d) st, (idx + p)%nat, drop p d).
Proof.
  revert p st idx d. induction fuel as [|fuel IH]; intros p st idx d Hf Hp; [lia|].
  cbn [absorb_lanes]. destruct (Nat.eqb_spec p 0) as [->|E].
  - by rewrite Nat.add_0_r.
  - set (n := Nat.min (8 - idx mod 8) p).
    assert (1 <= n <= p)%nat as Hn by (unfold n; pose proof (Nat.mod_upper_bound idx 8); lia).
    rewrite IH by (rewrite ?length_drop; lia). unfold StateXORBytesInLane.
    rewrite lane_position, drop_drop. replace (n + (p - n))%nat with p by lia.
    replace (idx + n + (p - n))%nat with (idx + p)%nat by lia. do 3 f_equal.
    replace p with (n + (p - n))%nat at 2 by lia.
    rewrite <-take_take_drop, xor_at_app, length_take. do 2 f_equal; lia.
Qed.

(** Lanes first, then the bytes that are left. *)
Lemma absorb_partial_spec r st idx d :
  (idx < r)%nat -> let p := partial_block r idx (length d) in (p <= length d)%nat ->
  absorb_partial r st idx d =
    Some (end_block r (xor_at idx (take p d) st) (idx + p), drop p d).
Proof.
  cbn zeta. intros Hi Hp. unfold absorb_partial. set (p := partial_block r idx (length d)) in *.
  assert ((if (idx =? 0)%nat && (8 <=? p)%nat
    then absorb_lanes (S p) (p - p / 8 * 8) (StateXORLanes d (p / 8) st) (idx + p / 8 * 8)
           (drop (p / 8 * 8) d)
    else absorb_lanes (S p) p st idx d) = Some (xor_at idx (take p d) st, (idx + p)%nat, drop p d)) as ->.
  - destruct (Nat.eqb_spec idx 0) as [->|]; cbn [andb]; [|apply absorb_lanes_spec; lia].
    destruct (Nat.leb_spec 8 p); [|apply absorb_lanes_spec; lia].
    pose proof (lane_position p) as E. set (n := (p / 8 * 8)%nat) in *. unfold StateXORLanes. fold n.
    rewrite absorb_lanes_spec by (rewrite ?length_drop; lia). rewrite drop_drop.
    replace (n + (p - n))%nat with p by lia. do 3 f_equal; [|lia].
    replace p with (n + (p - n))%nat at 2 by lia.
    rewrite <-take_take_drop, xor_at_app, length_take. do 2 f_equal; lia.
  - cbn. unfold end_block. by destruct (idx + p =? r)%nat.
Qed.

Lemma partial_block_spec r idx n :
  (idx < r <= 200)%nat -> Z.of_nat n + 200 <= 2 ^ 32 ->
  partial_block r idx n = Nat.min n (r - idx).
Proof.
  intros Hr Hn. unfold partial_block.
  rewrite (wrap_small 32 (Z.of_nat n)), wrap_small by (unfold fits; lia).
  destruct (Z.ltb_spec (Z.of_nat r) (Z.of_nat n + Z.of_nat idx)); lia.
Qed.

Lemma absorb_blocks_spec fuel r st d :
  (0 < r)%nat -> (length d < fuel)%nat ->
  exists st' rest, absorb_blocks fuel r st d = Some (st', rest) /\
    (length rest <= length d)%nat /\ (length rest < r)%nat /\
    foldl (absorb_byte r) (st, 0%nat) d = foldl (absorb_byte r) (st', 0%nat) rest.
Proof.
  intros Hr. revert st d. induction fuel as [|fuel IH]; intros st d Hf; [lia|].
  cbn [absorb_blocks]. destruct (Nat.leb_spec r (length d)) as [H|H]; [|by exists st, d].
  set (st1 := if (0 <? r mod 8)%nat then _ else st). cbn [StateXORPermuteExtract].
  set (st2 := StatePermute _).
  destruct (IH st2 (drop r d)) as (st'&rest&->&Hl&Hlt&E); [rewrite length_drop; lia|].
  rewrite length_drop in Hl. exists st', rest. split_and!; [done|lia|done|]. rewrite <-E.
  rewrite <-(take_drop r d) at 1. rewrite foldl_app. f_equal.
  rewrite absorb_chunk by (rewrite ?length_take; lia). rewrite length_take.
  replace (Nat.min r (length d)) with r by lia. unfold end_block. rewrite Nat.eqb_refl.
  unfold st2. do 2 f_equal. unfold StateXORLanes, st1. clear -H.
  pose proof (lane_position r) as E. set (n := (r / 8 * 8)%nat) in *.
  assert (take r d = take n d ++ take (r mod 8) (drop n d)) as ->
    by (rewrite take_take_drop; f_equal; lia).
  rewrite xor_at_app, length_take. replace (0 + Nat.min n (length d))%nat with n by lia.
  destruct (Nat.ltb_spec 0 (r mod 8)) as [Hm|Hm].
  - unfold StateXORBytesInLane. rewrite Nat.add_0_r. apply xor_at_comm.
  - by replace (r mod 8)%nat with 0%nat by lia.
Qed.

Lemma absorb_part r st idx d p :
  (idx < r)%nat -> (p <= length d)%nat -> (idx + p <= r)%nat ->
  foldl (absorb_byte r) (st, idx) d =
    foldl (absorb_byte r) (end_block r (xor_at idx (take p d) st) (idx + p)) (drop p d).
Proof.
  intros ???. rewrite <-(take_drop p d) at 1. rewrite foldl_app. f_equal.
  rewrite absorb_chunk; rewrite ?length_take; [f_equal| |]; lia.
Qed.

Lemma end_block_cases r st i :
  (0 < i <= r)%nat -> exists st' i', end_block r st i = (st', i') /\ (i' < r)%nat.
Proof.
  intros ?. unfold end_block. destruct (Nat.eqb_spec i r); eexists _, _; split; eauto; lia.
Qed.

Lemma absorb_loop_spec fuel r st idx d :
  (idx < r <= 200)%nat -> (length d < fuel)%nat -> Z.of_nat (length d) + 200 <= 2 ^ 32 ->
  absorb_loop fuel r st idx d = Some (foldl (absorb_byte r) (st, idx) d).
Proof.
  revert st idx d. induction fuel as [|fuel IH]; intros st idx d Hr Hf Hd; [lia|].
  cbn [absorb_loop]. destruct d as [|c d']; [done|]. set (d := c :: d') in *.
  assert (0 < length d)%nat by (cbn; lia).
  destruct ((idx =? 0)%nat && (r <=? length d)%nat) eqn:E.
  - apply andb_true_iff in E as [->%Nat.eqb_eq ?%Nat.leb_le].
    destruct (absorb_blocks_spec (S (length d)) r st d) as (st'&rest&->&?&?&->); [lia..|].
    cbn. apply IH; lia.
  - assert (0 < idx \/ length d < r)%nat by (apply andb_false_iff in E as [E%Nat.eqb_neq|E%Nat.leb_gt]; lia).
    pose proof (partial_block_spec r idx (length d) Hr Hd) as Ep.
    rewrite absorb_partial_spec, Ep by lia.
    rewrite (absorb_part r st idx d (Nat.min (length d) (r - idx))) by lia.
    set (p := Nat.min _ _).
    destruct (end_block_cases r (xor_at idx (take p d) st) (idx + p)) as (st'&i'&->&Hi'); [lia|].
    cbn [mbind option_bind]. apply IH; rewrite ?length_drop; lia.
Qed.

(** ** Lemmas on squeezing *)
Lemma squeeze_split a b r si :
  squeeze_bytes (a + b) r si =
    let '(o1, si1) := squeeze_bytes a r si in
    let '(o2, si2) := squeeze_bytes b r si1 in (o1 ++ o2, si2).
Proof.
  revert si. induction a as [|a IH]; intros si; cbn [squeeze_bytes Nat.add].
  - by destruct (squeeze_bytes b r si).
  - rewrite IH. destruct (squeeze_bytes a r _) as [o1 si1].
    by destruct (squeeze_bytes b r si1) as [o2 si2].
Qed.

Lemma squeeze_chunk n r st i :
  length st = 200%nat -> (r <= 200)%nat -> (i + n <= r)%nat ->
  squeeze_bytes n r (st, i) = (take n (drop i st), (st, (i + n)%nat)).
Proof.
  intros Hst Hr. revert i. induction n as [|n IH]; intros i Hi; cbn [squeeze_bytes fst snd].
  - by rewrite Nat.add_0_r.
  - destruct (Nat.eqb_spec i r); [lia|]. cbn [fst snd]. rewrite IH by lia.
    destruct (lookup_lt_is_Some_2 st i) as [c Hc]; [lia|]. rewrite Hc.
    rewrite (drop_S st c i Hc). cbn. by rewrite Nat.add_succ_r.
Qed.

(** At the end of a block the state is permuted before the next byte. *)
Lemma squeeze_next n r st :
  (0 < n)%nat -> (0 < r)%nat ->
  squeeze_bytes n r (st, r) = squeeze_bytes n r (StatePermute st, 0%nat).
Proof.
  destruct n as [|n]; [lia|]. intros _ Hr. cbn [squeeze_bytes fst snd]. rewrite Nat.eqb_refl.
  by destruct (Nat.eqb_spec 0 r); [lia|].
Qed.

Lemma squeeze_lanes_spec fuel p st idx data :
  (p < fuel)%nat ->
  squeeze_lanes fuel p st idx data = Some ((idx + p)%nat, data ++ take p (drop idx st)).
Proof.
  revert p idx data. induction fuel as [|fuel IH]; intros p idx data Hf; [lia|].
  cbn [squeeze_lanes]. destruct (Nat.eqb_spec p 0) as [->|E].
  - by rewrite Nat.add_0_r, app_nil_r.
  - set (n := Nat.min (8 - idx mod 8) p).
    assert (1 <= n <= p)%nat as Hn by (unfold n; pose proof (Nat.mod_upper_bound idx 8); lia).
    rewrite IH by lia. unfold StateExtractBytesInLane. rewrite lane_position, <-app_assoc.
    do 2 f_equal; [lia|]. f_equal. rewrite <-drop_drop, take_take_drop. f_equal. lia.
Qed.

(** What is left of a block: whole lanes at its beginning, then the bytes. *)
Lemma squeeze_partial_spec p st idx data :
  (if (idx =? 0)%nat && (8 <=? p)%nat
   then squeeze_lanes (S p) (p - p / 8 * 8) st (idx + p / 8 * 8) (data ++ StateExtractLanes st (p / 8))
   else squeeze_lanes (S p) p st idx data) = Some ((idx + p)%nat, data ++ take p (drop idx st)).
Proof.
  destruct (Nat.eqb_spec idx 0) as [->|]; cbn [andb]; [|apply squeeze_lanes_spec; lia].
  destruct (Nat.leb_spec 8 p); [|apply squeeze_lanes_spec; lia].
  pose proof (lane_position p) as E. set (n := (p / 8 * 8)%nat) in *.
  rewrite squeeze_lanes_spec by lia. unfold StateExtractLanes. fold n.
  rewrite <-app_assoc. do 2 f_equal; [lia|]. f_equal. rewrite drop_0.
  replace (0 + n)%nat with n by lia. rewrite take_take_drop. f_equal. lia.
Qed.

Lemma squeeze_blocks_spec fuel r n st data :
  (0 < r <= 200)%nat -> (n < fuel)%nat -> length st = 200%nat ->
  exists st' m, (m <= n)%nat /\ (m < r)%nat /\ length st' = 200%nat /\
    squeeze_blocks fuel r n st data = Some (st', data ++ (squeeze_bytes (n - m) r (st, r)).1, m) /\
    (squeeze_bytes (n - m) r (st, r)).2 = (st', r).
Proof.
  intros Hr. revert n st data. induction fuel as [|fuel IH]; intros n st data Hf Hst; [lia|].
  cbn [squeeze_blocks]. destruct (Nat.leb_spec r n) as [H|H].
  - cbn [StateXORPermuteExtract]. change (StateXORLanes [] 0 st) with st.
    set (st1 := StatePermute st). assert (length st1 = 200%nat) as H1 by apply length_permute.
    assert ((if (0 <? r mod 8)%nat
      then StateExtractLanes st1 (r / 8) ++ StateExtractBytesInLane st1 (r / 8) 0 (r mod 8)
      else StateExtractLanes st1 (r / 8)) = take r st1) as ->.
    { pose proof (lane_position r) as E. unfold StateExtractLanes, StateExtractBytesInLane.
      set (k := (r / 8 * 8)%nat) in *. rewrite Nat.add_0_r.
      destruct (Nat.ltb_spec 0 (r mod 8)); [rewrite take_take_drop|]; f_equal; lia. }
    destruct (IH (n - r)%nat st1 (data ++ take r st1)) as (st'&m&?&?&?&->&E); [lia|done|].
    exists st', m. split_and!; [lia|done..| |].
    all: replace (n - m)%nat with (r + (n - r - m))%nat by lia.
    all: rewrite squeeze_split, (squeeze_next r r st) by lia; fold st1.
    all: rewrite (squeeze_chunk r r st1 0 H1) by lia; cbn [Nat.add]; rewrite drop_0.
    all: destruct (squeeze_bytes (n - r - m) r (st1, r)) as [o si].
    + by rewrite <-app_assoc.
    + exact E.
  - exists st, n. rewrite Nat.sub_diag. cbn. rewrite app_nil_r. by split_and!; try lia.
Qed.

Lemma squeeze_loop_spec fuel r n st idx data :
  (0 < r <= 200)%nat -> (idx <= r)%nat -> (n < fuel)%nat -> length st = 200%nat ->
  Z.of_nat n + 200 <= 2 ^ 32 ->
  squeeze_loop fuel r n st idx data =
    let '(out, (st', idx')) := squeeze_bytes n r (st, idx) in Some (st', idx', data ++ out).
Proof.
  intros Hr. revert n st idx data. induction fuel as [|fuel IH]; intros n st idx data Hi Hf Hst Hn; [lia|].
  cbn [squeeze_loop]. destruct (Nat.eqb_spec n 0) as [->|E0]; [cbn; by rewrite app_nil_r|].
  destruct ((idx =? r)%nat && (r <=? n)%nat) eqn:E.
  - apply andb_true_iff in E as [->%Nat.eqb_eq ?%Nat.leb_le].
    destruct (squeeze_blocks_spec (S n) r n st data) as (st'&m&?&?&?&->&E); [lia..|done|].
    cbn [mbind option_bind]. rewrite IH by (done || lia).
    assert (squeeze_bytes n r (st, r) = squeeze_bytes (n - m + m) r (st, r)) as -> by (f_equal; lia).
    rewrite squeeze_split.
    destruct (squeeze_bytes (n - m) r (st, r)) as [o1 si1]. cbn [snd fst] in *. subst si1.
    destruct (squeeze_bytes m r (st', r)) as [o2 [st2 i2]]. by rewrite app_assoc.
  - destruct (if (idx =? r)%nat then _ else _) as [st1 i1] eqn:E1.
    assert (length st1 = 200%nat /\ (i1 < r)%nat /\
      squeeze_bytes n r (st, idx) = squeeze_bytes n r (st1, i1)) as (H1&H2&->).
    { destruct (Nat.eqb_spec idx r) as [->|]; apply pair_equal_spec in E1 as [<- <-].
      - split; [apply length_permute|]. split; [lia|].
        apply squeeze_next; lia.
      - split_and!; [done|lia|done]. }
    rewrite partial_block_spec by lia. set (p := Nat.min n (r - i1)).
    rewrite squeeze_partial_spec. cbn [mbind option_bind]. rewrite IH by (done || lia).
    assert (squeeze_bytes n r (st1, i1) = squeeze_bytes (p + (n - p)) r (st1, i1)) as -> by (f_equal; lia).
    rewrite squeeze_split, (squeeze_chunk p r st1 i1 H1) by lia.
    destruct (squeeze_bytes (n - p) r (st1, (i1 + p)%nat)) as [o2 [st2 i2]]. by rewrite app_assoc.
Qed.

(** ** Lemmas on the padding *)
Lemma one_bit k : (k < 8)%nat ->
  le64 (1 ≪ (8 * Z.of_nat k + 7)) = replicate k (z2b 0) ++ [z2b 128] ++ replicate (7 - k) (z2b 0).
Proof. intros H. do 8 (destruct k as [|k]; [by vm_compute|]). lia. Qed.

Lemma complement_last_bit r st :
  (0 < r)%nat -> StateComplementBit (r * 8 - 1) st = xor_at (r - 1) [z2b 128] st.
Proof.
  intros Hr. unfold StateComplementBit. set (k := ((r - 1) mod 8)%nat).
  assert (k < 8)%nat as Hk by (apply Nat.mod_upper_bound; lia).
  pose proof (lane_position (r - 1)) as E. fold k in E. set (q := ((r - 1) / 8)%nat) in *.
  assert ((r * 8 - 1) / 64 = q)%nat as ->.
  { symmetry. apply (Nat.div_unique _ _ _ (8 * k + 7)); lia. }
  assert (Z.of_nat (r * 8 - 1) `mod` 64 = 8 * Z.of_nat k + 7) as ->.
  { symmetry. apply (Z.mod_unique_pos _ _ (Z.of_nat q)); lia. }
  rewrite one_bit, !xor_at_app, !xor_at_zeros, length_replicate by done. f_equal. done.
Qed.

Lemma top_bit s : 0 <= s < 128 -> Z.lxor s 128 = Z.lor s 128 /\ fits 8 (Z.lor s 128).
Proof.
  intros Hs. split; [|apply lor_fits; unfold fits; lia].
  apply Z.lxor_lor, Z.bits_inj'. intros i Hi.
  rewrite Z.land_spec, Z.bits_0, (Z.pow2_bits_eqb 7) by done.
  destruct (Z.eqb_spec 7 i) as [<-|]; [|apply andb_false_r].
  by rewrite (proj1 (fits_bits 7 s ltac:(done) ltac:(lia))) by (unfold fits; lia).
Qed.

(** The two bits of the padding need a block more. *)
Definition spills (r : nat) (suffix : Z) (m : nat) : bool :=
  (r - m mod r =? 1)%nat && (128 <=? suffix).

Lemma xor_at_pad r idx suffix st :
  0 < suffix < 256 -> (idx < r)%nat -> spills r suffix idx = false ->
  xor_at (r - 1) [z2b 128] (xor_at idx [z2b suffix] st) =
    xor_at idx (FIPS202_sponge.pad r suffix idx) st.
Proof.
  intros Hs Hi Hsp. unfold spills in Hsp. unfold FIPS202_sponge.pad. rewrite Nat.mod_small in * by done.
  destruct (Nat.eqb_spec (r - idx) 1) as [E|E].
  - cbn [andb] in Hsp. apply Z.leb_gt in Hsp. rewrite (proj2 (Z.ltb_lt _ _)) by done.
    replace (r - 1)%nat with idx by lia. cbn [xor_at]. rewrite list_alter_alter_eq.
    apply list_alter_ext; [|done]. intros x _. cbn. rewrite xor_byte_assoc. f_equal.
    destruct (top_bit suffix) as [H1 H2]; [lia|].
    apply b2z_inj. rewrite b2z_xor_byte, !b2z_z2b. rewrite !(wrap_small 8) by (done || unfold fits; lia).
    done.
  - change (z2b suffix :: ?l) with ([z2b suffix] ++ l). rewrite !xor_at_app, xor_at_zeros.
    rewrite length_replicate. f_equal. cbn. lia.
Qed.

Lemma small_suffix_fits r suffix m : suffix < 128 -> spills r suffix m = false.
Proof. intros Hs. unfold spills. rewrite (proj2 (Z.leb_gt _ _)) by done. apply andb_false_r. Qed.

Lemma length_pad_gen r suffix m :
  (0 < r)%nat ->
  length (FIPS202_sponge.pad r suffix m) = (r - m mod r + (if spills r suffix m then r else 0))%nat.
Proof.
  intros Hr. unfold FIPS202_sponge.pad, spills. pose proof (Nat.mod_upper_bound m r).
  destruct (Nat.eqb_spec (r - m mod r) 1) as [E|E]; cbn [andb].
  - destruct (Z.ltb_spec suffix 128), (Z.leb_spec 128 suffix); try lia; [cbn; lia|].
    cbn. rewrite length_app, length_replicate. cbn. lia.
  - cbn. rewrite length_app, length_replicate. cbn. lia.
Qed.

Lemma length_pad r suffix m :
  (0 < r)%nat -> suffix < 128 -> length (FIPS202_sponge.pad r suffix m) = (r - m mod r)%nat.
Proof.
  intros Hr Hs. rewrite length_pad_gen, small_suffix_fits by done. lia.
Qed.

(** The last bits and the padding are what is left of the last block, and the block after it when
    they spill. *)
Lemma last_bits_spec r suffix s :
  rateInBytes s = r -> (byteIOIndex s < r)%nat -> squeezing s = false -> 0 < suffix < 256 ->
  SpongeAbsorbLastFewBits suffix s =
    (0, mk_sponge
          (foldl (absorb_byte r) (state s, byteIOIndex s) (FIPS202_sponge.pad r suffix (byteIOIndex s))).1
          (rate s) 0 true).
Proof.
  intros Hr Hi Hsq Hs. unfold SpongeAbsorbLastFewBits. rewrite Hr, Hsq.
  destruct (Z.eqb_spec suffix 0); [lia|]. unfold StateXORBytesInLane.
  rewrite lane_position, complement_last_bit by lia.
  assert (Hcond : (128 <=? suffix) && (byteIOIndex s =? r - 1)%nat = spills r suffix (byteIOIndex s)).
  { unfold spills. rewrite Nat.mod_small, andb_comm by done. f_equal.
    destruct (Nat.eqb_spec (byteIOIndex s) (r - 1)), (Nat.eqb_spec (r - byteIOIndex s) 1); (done || lia). }
  rewrite Hcond. destruct (spills r suffix (byteIOIndex s)) eqn:Hsp.
  - unfold spills in Hsp. unfold FIPS202_sponge.pad. rewrite Nat.mod_small in * by done.
    apply andb_true_iff in Hsp as [Hq Hbig%Z.leb_le]. rewrite Hq, (proj2 (Z.ltb_ge _ _)) by done.
    apply Nat.eqb_eq in Hq. cbn [foldl]. unfold absorb_byte at 2. cbn [fst snd].
    destruct (Nat.eqb_spec (S (byteIOIndex s)) r); [|lia].
    rewrite absorb_chunk by (rewrite ?length_app, ?length_replicate; cbn; lia).
    rewrite length_app, length_replicate, xor_at_app, xor_at_zeros, length_replicate. cbn [length].
    unfold end_block. destruct (Nat.eqb_spec (0 + (r - 1 + 1)) r); [done|lia].
  - rewrite xor_at_pad by done. pose proof (length_pad_gen r suffix (byteIOIndex s)) as Hl.
    rewrite Hsp, Nat.mod_small in Hl by done.
    rewrite absorb_chunk, Hl by lia. unfold end_block.
    by destruct (Nat.eqb_spec (byteIOIndex s + (r - byteIOIndex s + 0)) r); [|lia].
Qed.

(** ** The blocks of the standard *)
Lemma absorb_block r P st :
  (0 < r <= length P)%nat ->
  foldl (absorb_byte r) (st, 0%nat) P =
    foldl (absorb_byte r) (StatePermute (xor_at 0 (take r P) st), 0%nat) (drop r P).
Proof.
  intros H. rewrite (absorb_part r st 0 P r) by lia. unfold end_block. 
  by rewrite Nat.eqb_refl.
Qed.

Lemma absorb_next f n r P st :
  FIPS202_sponge.absorb f (S n) r P st =
    FIPS202_sponge.absorb f n r (drop r P) (f (xor_at 0 (take r P) st)).
Proof. reflexivity. Qed.

Lemma squeeze_S f n r st :
  FIPS202_sponge.squeeze f (S n) r st = take r st ++ FIPS202_sponge.squeeze f n r (f st).
Proof. reflexivity. Qed.

Lemma absorb_blockwise n r P st :
  (0 < r)%nat -> length P = (n * r)%nat ->
  foldl (absorb_byte r) (st, 0%nat) P = (FIPS202_sponge.absorb StatePermute n r P st, 0%nat).
Proof.
  intros Hr. revert P st. induction n as [|n IH]; intros P st HP.
  - by destruct P.
  - rewrite absorb_next, absorb_block by lia. apply IH. rewrite length_drop. lia.
Qed.

Lemma squeeze_blockwise n r d st :
  (0 < r <= 200)%nat -> length st = 200%nat -> (d <= n * r)%nat ->
  take d (FIPS202_sponge.squeeze StatePermute n r st) = (squeeze_bytes d r (st, 0%nat)).1.
Proof.
  intros Hr. revert d st. induction n as [|n IH]; intros d st Hst Hd.
  - by replace d with 0%nat by lia.
  - rewrite squeeze_S. destruct (decide (d <= r)%nat).
    + rewrite (squeeze_chunk d r st 0 Hst) by lia.
      rewrite take_app_le by (rewrite length_take; lia). rewrite take_take.
      cbn. f_equal. lia.
    + replace d with (r + (d - r))%nat by lia.
      rewrite squeeze_split, (squeeze_chunk r r st 0 Hst) by lia.
      change (0 + r)%nat with r. rewrite (squeeze_next (d - r) r st) by lia.
      pose proof (IH (d - r)%nat (StatePermute st) (length_permute st) ltac:(lia)) as E.
      rewrite take_app_add' by (rewrite length_take; lia). rewrite E.
      by destruct (squeeze_bytes (d - r) r _).
Qed.

Lemma absorb_ext f g n r P st :
  (forall x, f x = g x) -> FIPS202_sponge.absorb f n r P st = FIPS202_sponge.absorb g n r P st.
Proof. intros H. revert P st. induction n as [|n IH]; intros P st; cbn; [done|]. by rewrite H, IH. Qed.

Lemma squeeze_ext f g n r st :
  (forall x, f x = g x) -> FIPS202_sponge.squeeze f n r st = FIPS202_sponge.squeeze g n r st.
Proof. intros H. revert st. induction n as [|n IH]; intros st; cbn; [done|]. by rewrite H, IH. Qed.

Lemma sponge_ext f g r suffix M d :
  (forall x, f x = g x) -> FIPS202_sponge.sponge f r suffix M d = FIPS202_sponge.sponge g r suffix M d.
Proof.
  intros H. unfold FIPS202_sponge.sponge. by rewrite (absorb_ext f g), (squeeze_ext f g).
Qed.

Lemma FIPS202_hash_permute r suffix M d :
  FIPS202_hash r suffix M d = FIPS202_sponge.sponge StatePermute r suffix M d.
Proof. symmetry. apply (sponge_ext StatePermute keccak_f_bytes). exact permute_standard. Qed.

(** ** Lemmas on the instance *)
Lemma absorb_spec data s :
  wf_sponge s -> squeezing s = false -> Z.of_nat (length data) + 200 <= 2 ^ 32 ->
  SpongeAbsorb data s =
    let '(st, i) := foldl (absorb_byte (rateInBytes s)) (state s, byteIOIndex s) data in
    Some (0, set_io st i s).
Proof.
  intros (_&Hr&Hi) Hs Hd. unfold SpongeAbsorb. rewrite Hs in *.
  rewrite absorb_loop_spec by lia. by destruct (foldl _ _ data).
Qed.

Lemma length_absorb r data st i :
  length st = 200%nat -> length (foldl (absorb_byte r) (st, i) data).1 = 200%nat.
Proof.
  revert st i. induction data as [|c data IH]; intros st i Hst; cbn [foldl]; [done|].
  unfold absorb_byte at 2. cbn [fst snd]. destruct (S i =? r)%nat; apply IH.
  - apply length_permute.
  - by rewrite length_xor_at.
Qed.

Lemma wf_absorb s data :
  wf_sponge s -> squeezing s = false ->
  let '(st, i) := foldl (absorb_byte (rateInBytes s)) (state s, byteIOIndex s) data in
  wf_sponge (set_io st i s).
Proof.
  intros (Hl&Hr&Hi) Hs. rewrite Hs in Hi.
  pose proof (length_absorb (rateInBytes s) data (state s) (byteIOIndex s) Hl).
  pose proof (absorb_index_lt (rateInBytes s) data (state s) (byteIOIndex s) ltac:(lia)).
  destruct (foldl _ _ data) as [st i]. cbn [fst snd] in *. unfold wf_sponge, rateInBytes in *.
  cbn. rewrite Hs. split_and!; [done|lia..].
Qed.

Lemma squeeze_spec n s :
  wf_sponge s -> squeezing s = true -> Z.of_nat n + 200 <= 2 ^ 32 ->
  SpongeSqueeze n s =
    let '(out, (st, i)) := squeeze_bytes n (rateInBytes s) (state s, byteIOIndex s) in
    Some (out, set_io st i s).
Proof.
  intros (Hl&Hr&Hi) Hs Hn. unfold SpongeSqueeze. rewrite Hs in *.
  rewrite squeeze_loop_spec by (done || lia). by destruct (squeeze_bytes _ _ _) as [? [? ?]].
Qed.

Lemma length_squeeze_bytes n r si : length (squeeze_bytes n r si).1 = n.
Proof.
  revert si. induction n as [|n IH]; intros si; cbn [squeeze_bytes]; [done|].
  set (si1 := if (si.2 =? r)%nat then _ else si). specialize (IH (si1.1, S si1.2)).
  destruct (squeeze_bytes n r _). cbn in *. by rewrite IH.
Qed.

Lemma wf_squeeze_bytes n r st i :
  length st = 200%nat -> (0 < r)%nat -> (i <= r)%nat ->
  length (squeeze_bytes n r (st, i)).2.1 = 200%nat /\ ((squeeze_bytes n r (st, i)).2.2 <= r)%nat.
Proof.
  intros Hst Hr. revert st i Hst. induction n as [|n IH]; intros st i Hst Hi; cbn [squeeze_bytes]; [done|].
  cbn [fst snd]. set (si1 := if (i =? r)%nat then _ else (st, i)).
  assert (length si1.1 = 200%nat /\ (si1.2 < r)%nat) as [H1 H2].
  { unfold si1. destruct (Nat.eqb_spec i r); cbn [fst snd].
    - split; [apply length_permute|lia].
    - split; [exact Hst|lia]. }
  specialize (IH si1.1 (S si1.2) H1 ltac:(lia)). by destruct (squeeze_bytes n r _).
Qed.

Lemma wf_squeeze n s :
  wf_sponge s -> squeezing s = true ->
  let '(_, (st, i)) := squeeze_bytes n (rateInBytes s) (state s, byteIOIndex s) in
  wf_sponge (set_io st i s).
Proof.
  intros (Hl&Hr&Hi) Hs. rewrite Hs in Hi.
  pose proof (wf_squeeze_bytes n (rateInBytes s) (state s) (byteIOIndex s) Hl ltac:(lia) ltac:(lia))
    as [??].
  destruct (squeeze_bytes n _ _) as [? [st i]]. cbn [fst snd] in *. unfold wf_sponge, rateInBytes in *.
  cbn. rewrite Hs. split_and!; [done|lia..].
Qed.

(** The squeezed bytes do not depend on the parts they are taken in. *)
Lemma squeeze_parts n m s :
  wf_sponge s -> squeezing s = true -> Z.of_nat (n + m) + 200 <= 2 ^ 32 ->
  exists o1 s1 o2 s2, SpongeSqueeze n s = Some (o1, s1) /\ SpongeSqueeze m s1 = Some (o2, s2) /\
    SpongeSqueeze (n + m) s = Some (o1 ++ o2, s2) /\ length o1 = n /\ length o2 = m /\ wf_sponge s2.
Proof.
  intros Hwf Hs Hn. rewrite !(squeeze_spec _ s) by (done || lia). rewrite squeeze_split.
  pose proof (wf_squeeze n s Hwf Hs) as Hw.
  pose proof (length_squeeze_bytes n (rateInBytes s) (state s, byteIOIndex s)) as L1.
  destruct (squeeze_bytes n _ _) as [o1 [st1 i1]]. set (s1 := set_io st1 i1 s) in *.
  change (squeeze_bytes m (rateInBytes s) (st1, i1)) with
    (squeeze_bytes m (rateInBytes s1) (state s1, byteIOIndex s1)).
  pose proof (squeeze_spec m s1 Hw Hs ltac:(lia)) as E.
  pose proof (wf_squeeze m s1 Hw Hs) as Hw2.
  pose proof (length_squeeze_bytes m (rateInBytes s1) (state s1, byteIOIndex s1)) as L2.
  destruct (squeeze_bytes m _ _) as [o2 [st2 i2]]. exists o1, s1, o2, (set_io st2 i2 s1).
  split_and!; done.
Qed.

Lemma absorb_parts a b s :
  wf_sponge s -> squeezing s = false -> Z.of_nat (length (a ++ b)) + 200 <= 2 ^ 32 ->
  exists s1 s2, SpongeAbsorb a s = Some (0, s1) /\ SpongeAbsorb b s1 = Some (0, s2) /\
    SpongeAbsorb (a ++ b) s = Some (0, s2) /\ wf_sponge s2.
Proof.
  intros Hwf Hs Hn. rewrite length_app in Hn.
  rewrite !(absorb_spec _ s) by (rewrite ?length_app; done || lia). rewrite foldl_app.
  pose proof (wf_absorb s a Hwf Hs) as Hw. destruct (foldl _ _ a) as [st1 i1].
  set (s1 := set_io st1 i1 s) in *. exists s1.
  change (foldl (absorb_byte (rateInBytes s)) (st1, i1) b) with
    (foldl (absorb_byte (rateInBytes s1)) (state s1, byteIOIndex s1) b).
  pose proof (absorb_spec b s1 Hw Hs ltac:(lia)) as E.
  pose proof (wf_absorb s1 b Hw Hs) as Hw2. destruct (foldl _ _ b) as [st2 i2].
  exists (set_io st2 i2 s1). split_and!; done.
Qed.

Lemma initialize_spec rate capacity s :
  rate + capacity = 1600 -> 0 < rate -> 0 <= capacity -> rate `mod` 8 = 0 ->
  SpongeInitialize rate capacity s = (0, mk_sponge StateInitialize rate 0 false) /\
  wf_sponge (mk_sponge StateInitialize rate 0 false).
Proof.
  intros H ?? Hm. unfold SpongeInitialize. rewrite H, Hm. cbn -[Z.ltb Z.leb].
  destruct (Z.leb_spec rate 0); [lia|]. destruct (Z.ltb_spec 1600 rate); [lia|]. split; [done|].
  unfold wf_sponge, rateInBytes. cbn. split; [done|]. zlia.
Qed.

Lemma pad_mod r suffix m : FIPS202_sponge.pad r suffix (m mod r) = FIPS202_sponge.pad r suffix m.
Proof. unfold FIPS202_sponge.pad. by rewrite Nat.Div0.mod_mod. Qed.

(** Byte by byte, then the padding: the blocks of the padded message. *)
Lemma sponge_blocks r suffix M d st i :
  (0 < r <= 200)%nat -> foldl (absorb_byte r) (StateInitialize, 0%nat) M = (st, i) ->
  (squeeze_bytes d r ((foldl (absorb_byte r) (st, i) (FIPS202_sponge.pad r suffix i)).1, 0%nat)).1 =
    FIPS202_hash r suffix M d.
Proof.
  intros Hr HM. rewrite FIPS202_hash_permute. unfold FIPS202_sponge.sponge.
  pose proof (absorb_index r M StateInitialize 0 ltac:(lia)) as Hi. rewrite HM in Hi.
  cbn [snd] in Hi. change (0 + length M)%nat with (length M) in Hi. subst i. rewrite pad_mod.
  set (P := M ++ FIPS202_sponge.pad r suffix (length M)).
  assert (exists k, length P = k * r)%nat as [k HP].
  { exists (length M / r + 1 + if spills r suffix (length M) then 1 else 0)%nat.
    unfold P. rewrite length_app, length_pad_gen by lia. pose proof (Nat.div_mod (length M) r).
    pose proof (Nat.mod_upper_bound (length M) r). destruct (spills _ _ _); nia. }
  assert (length P = length P / r * r)%nat as HP'.
  { rewrite HP at 2. rewrite Nat.div_mul by lia. exact HP. }
  rewrite <-HM, <-foldl_app. fold P. rewrite (absorb_blockwise _ r P _ ltac:(lia) HP'). cbn [fst].
  symmetry. apply squeeze_blockwise; [lia| |].
  - rewrite <-(length_absorb r P StateInitialize 0 eq_refl).
    by rewrite (absorb_blockwise _ r P _ ltac:(lia) HP').
  - pose proof (Nat.div_mod d r). pose proof (Nat.mod_upper_bound d r). nia.
Qed.

(** The message [M] absorbed, the last bits and the output. *)
Lemma final_spec suffix n st i M rt :
  let s := mk_sponge st rt i false in
  wf_sponge s -> 0 < suffix < 256 -> Z.of_nat (Z.to_nat (n / 8)) + 200 <= 2 ^ 32 ->
  foldl (absorb_byte (rateInBytes s)) (StateInitialize, 0%nat) M = (st, i) ->
  exists h', HashFinal (mk_hash s n suffix) =
    Some (SUCCESS, FIPS202_hash (rateInBytes s) suffix M (Z.to_nat (n / 8)), h').
Proof.
  intros s (Hl&Hr&Hi) Hs Hn HM. cbn in Hi. rewrite Nat.add_0_r in Hi.
  unfold HashFinal. cbn [delimitedSuffix sponge fixedOutputLength].
  rewrite (last_bits_spec (rateInBytes s) suffix s eq_refl Hi eq_refl Hs). cbn [as_return Z.eqb].
  rewrite <-(sponge_blocks _ _ M (Z.to_nat (n / 8)) st i Hr HM).
  change (rate s) with rt. change (state s) with st. change (byteIOIndex s) with i.
  set (st' := (foldl _ _ _).1). assert (length st' = 200%nat) as Hl' by (by apply length_absorb).
  assert (wf_sponge (mk_sponge st' rt 0 true)) as Hwf
    by (split; [exact Hl'|split; [exact Hr|cbn; lia]]).
  rewrite (squeeze_spec (Z.to_nat (n / 8)) (mk_sponge st' rt 0 true) Hwf eq_refl Hn).
  change (rateInBytes (mk_sponge st' rt 0 true)) with (rateInBytes s). cbn [state byteIOIndex].
  destruct (squeeze_bytes _ (rateInBytes s) (st', 0%nat)) as [out [st2 i2]]. cbn. by eexists.
Qed.

(** ** Properties *)

(** C34: input may come in parts and output be taken in parts.  Absorbing [a] and
    then [b] leaves the instance as absorbing [a ++ b] does, and squeezing [n] bytes and then [m]
    gives the [n + m] bytes of one call, whatever the position in the block: the loops over whole
    blocks, lanes and single bytes agree.  Both end, and keep the instance well formed. *)
Theorem sponge_incremental s :
  wf_sponge s ->
  (squeezing s = false ->
   forall a b, Z.of_nat (length (a ++ b)) + 200 <= 2 ^ 32 ->
   exists s1 s2, SpongeAbsorb a s = Some (0, s1) /\ SpongeAbsorb b s1 = Some (0, s2) /\
     SpongeAbsorb (a ++ b) s = Some (0, s2) /\ wf_sponge s2) /\
  (squeezing s = true ->
   forall n m, Z.of_nat (n + m) + 200 <= 2 ^ 32 ->
   exists o1 s1 o2 s2, SpongeSqueeze n s = Some (o1, s1) /\ SpongeSqueeze m s1 = Some (o2, s2) /\
     SpongeSqueeze (n + m) s = Some (o1 ++ o2, s2) /\ length o1 = n /\ length o2 = m /\ wf_sponge s2).
Proof. intros Hwf. split; intros Hs; intros; [by apply absorb_parts|by apply squeeze_parts]. Qed.

Lemma sponge_incremental_witness :
  wf_sponge (mk_sponge StateInitialize 1088 0 false) /\
  exists s1 s2, SpongeAbsorb [z2b 1; z2b 2] (mk_sponge StateInitialize 1088 0 false) = Some (0, s1) /\
    SpongeAbsorb [z2b 3] s1 = Some (0, s2).
Proof.
  split; [vm_compute; repeat split; lia|].
  destruct (proj1 (sponge_incremental (mk_sponge StateInitialize 1088 0 false)
    ltac:(vm_compute; repeat split; lia)) eq_refl [z2b 1; z2b 2] [z2b 3] ltac:(vm_compute; discriminate))
    as (s1&s2&H1&H2&_). by exists s1, s2.
Defined.

(** C17: the hash of a message is that of FIPS 202: the sponge over Keccak-f[1600]
    with the message padded by the suffix and the bits 10*1, block by block, and the first
    [hashbitlen] bits of the output.  It is always computed, for any rate of whole bytes and any
    suffix but 0, of at most seven bits with its delimiter; one of seven bits whose message ends a
    byte before a block takes another block for the last bit.  Messages are shorter than 4 GiB. *)
Theorem hash_standard rate capacity hashbitlen suffix data h :
  rate + capacity = 1600 -> 0 < rate -> 0 <= capacity -> rate `mod` 8 = 0 ->
  0 < suffix < 256 -> 0 <= hashbitlen < 2 ^ 32 -> Z.of_nat (length data) + 200 <= 2 ^ 32 ->
  Keccak_hash rate capacity hashbitlen suffix data h =
    Some (FIPS202_hash (Z.to_nat (rate / 8)) suffix data (Z.to_nat (hashbitlen / 8))).
Proof.
  intros H1 H2 H3 H4 Hs Hh Hd. unfold Keccak_hash, HashInitialize.
  destruct (Z.eqb_spec suffix 0); [lia|].
  destruct (initialize_spec rate capacity (sponge h) H1 H2 H3 H4) as [-> Hwf].
  set (s0 := mk_sponge StateInitialize rate 0 false) in *. cbn [as_return Z.eqb].
  unfold HashUpdate. replace (8 * Z.of_nat (length data)) with (Z.of_nat (length data) * 8) by lia.
  rewrite Z.div_mul, Z_mod_mult, Nat2Z.id, bool_decide_eq_false_2, take_ge by lia.
  cbn [sponge]. rewrite (absorb_spec data s0 Hwf eq_refl Hd).
  pose proof (wf_absorb s0 data Hwf eq_refl) as Hw.
  destruct (foldl _ _ data) as [st i] eqn:HM. cbn [mbind option_bind as_return Z.eqb].
  unfold with_sponge. cbn [fixedOutputLength delimitedSuffix].
  destruct (final_spec suffix hashbitlen st i data rate Hw Hs) as [h' E]; [zlia|exact HM|].
  change (set_io st i s0) with (mk_sponge st rate i false). by rewrite E.
Qed.

(** A suffix of seven bits, and a message that leaves it the last byte of the block. *)
Lemma hash_standard_witness :
  Keccak_hash 1088 512 256 0x8B (replicate 135 (z2b 97)) (mk_hash (mk_sponge [] 0 0 false) 0 0) =
    Some (FIPS202_hash 136 0x8B (replicate 135 (z2b 97)) 32).
Proof.
  apply (hash_standard 1088 512 256 0x8B (replicate 135 (z2b 97)));
    repeat split; vm_compute; (reflexivity || discriminate).
Defined.
