(* ===== verification/Duplex.v ===== *)
(** * The Keccak duplex: [src/src/hash/KeccakDuplex.cpp]

    A duplex object takes a string of less than a block and gives up to a block at every call.
    The theorem is the one its construction rests on: each answer is the hash of all the strings
    so far, each but the last padded to a block.  [None] is an access outside the state, which
    lengths of 2^29 bytes and more reach, as the product of the guard wraps around. *)
From S2P Require Import Prelude Bytes Keccak Sponge.

Record Keccak_DuplexInstance := mk_duplex {
  state : bytes;
  rate : Z;
}.

Definition DuplexInitialize (rate capacity : Z) (instance_ : Keccak_DuplexInstance)
  : Z * Keccak_DuplexInstance :=
  if negb (u32 (rate + capacity) =? 1600) then (1, instance_) else
  if (rate <=? 2) || (1600 <? rate) then (1, instance_) else
  (0, mk_duplex StateInitialize rate).

(** [Z[ZByteLen-1] &= mask] *)
Definition mask_last (n : nat) (mask : Z) (out : bytes) : bytes :=
  alter (fun c => z2b (Z.land (b2z c) mask)) (n - 1)%nat out.

Definition Duplexing (sigmaBegin : bytes) (ZByteLen : nat) (delimitedSigmaEnd : Z)
  (instance_ : Keccak_DuplexInstance) : option (Z * bytes * Keccak_DuplexInstance) :=
  let n := length sigmaBegin in
  let bits := u32 (Z.of_nat n * 8) in
  let rho_max := u32 (rate instance_ - 2) in
  let refused := Some (1, [], instance_) in
  if delimitedSigmaEnd =? 0 then refused else
  if rho_max <? bits then refused else
  if (rho_max - bits <? 7) && (1 ≪ (rho_max - bits + 1) <=? delimitedSigmaEnd) then refused else
  if u32 (rate instance_ + 7) / 8 <? Z.of_nat ZByteLen then refused else
  if (200 <=? n)%nat then None else
  let st := if (0 <? n mod 8)%nat
    then StateXORBytesInLane (n / 8) (take (n mod 8) (drop (n / 8 * 8) sigmaBegin)) 0 (state instance_)
    else state instance_ in
  let st := StateXORBytesInLane (n / 8) [z2b delimitedSigmaEnd] (n mod 8) st in
  let st := StateComplementBit (Z.to_nat (rate instance_ - 1)) st in
  let '(st, out) := StateXORPermuteExtract sigmaBegin (n / 8) (ZByteLen / 8) st in
  let out := if (0 <? ZByteLen mod 8)%nat
    then out ++ StateExtractBytesInLane st (ZByteLen / 8) 0 (ZByteLen mod 8) else out in
  let out := if rate instance_ <? Z.of_nat ZByteLen * 8
    then mask_last ZByteLen (2 ^ (rate instance_ mod 8) - 1) out else out in
  Some (0, out, mk_duplex st (rate instance_)).

(** ** A sequence of calls *)
Fixpoint duplex_calls (calls : list (bytes * Z * nat)) (d : Keccak_DuplexInstance)
  : option Keccak_DuplexInstance :=
  match calls with
  | [] => Some d
  | (sigma, suffix, n) :: calls' => '(_, _, d) ← Duplexing sigma n suffix d; duplex_calls calls' d
  end.

(** A string that fits a block of [r] bytes with its padding. *)
Definition fits_block (r : nat) (call : bytes * Z * nat) : Prop :=
  let '(sigma, suffix, n) := call in (length sigma < r)%nat /\ 0 < suffix < 128 /\ (n <= r)%nat.

#[export] Instance fits_block_dec r call : Decision (fits_block r call).
Proof. destruct call as [[??]?]. unfold fits_block. apply _. Defined.

(** The block of a call. *)
Definition block_of (r : nat) (call : bytes * Z * nat) : bytes :=
  let '(sigma, suffix, _) := call in sigma ++ FIPS202_sponge.pad r suffix (length sigma).

#[local] Opaque StatePermute.

(** ** Lemmas *)
(** The whole lanes and the bytes after them are the string. *)
Lemma xor_string sigma st :
  let n := length sigma in
  StateXORLanes sigma (n / 8)
    (if (0 <? n mod 8)%nat
     then StateXORBytesInLane (n / 8) (take (n mod 8) (drop (n / 8 * 8) sigma)) 0 st else st) =
    xor_at 0 sigma st.
Proof.
  cbn zeta. set (n := length sigma). pose proof (lane_position n) as Hn. fold n in Hn.
  assert (length (take (n / 8 * 8) sigma) = n / 8 * 8)%nat as Hl by (rewrite length_take; lia).
  rewrite <-(take_drop (n / 8 * 8) sigma) at 3. rewrite xor_at_app, Hl.
  unfold StateXORLanes, StateXORBytesInLane. rewrite Nat.add_0_r.
  destruct (Nat.ltb_spec 0 (n mod 8)) as [H|H].
  - rewrite (take_ge (drop _ _)) by (rewrite length_drop; lia). apply xor_at_comm.
  - rewrite (drop_ge sigma) by lia. done.
Qed.

(** The string, its last bits and the padding are the block of the call. *)
Lemma absorb_string r sigma suffix n st :
  fits_block r (sigma, suffix, n) ->
  let k := length sigma in
  StateXORLanes sigma (k / 8)
    (StateComplementBit (r * 8 - 1)
      (StateXORBytesInLane (k / 8) [z2b suffix] (k mod 8)
        (if (0 <? k mod 8)%nat
         then StateXORBytesInLane (k / 8) (take (k mod 8) (drop (k / 8 * 8) sigma)) 0 st else st))) =
    xor_at 0 (block_of r (sigma, suffix, n)) st.
Proof.
  intros (Hs&Hd&_). cbn zeta. rewrite complement_last_bit by lia. unfold StateXORBytesInLane at 1.
  rewrite lane_position, xor_at_pad by (done || lia || (apply small_suffix_fits; lia)). unfold StateXORLanes. rewrite xor_at_comm.
  change (xor_at 0 (take (?k * 8) sigma) ?x) with (StateXORLanes sigma k x).
  rewrite xor_string. unfold block_of. by rewrite xor_at_app.
Qed.

Lemma extract_output n st :
  length st = 200%nat -> (n <= 200)%nat ->
  (if (0 <? n mod 8)%nat then StateExtractLanes st (n / 8) ++ StateExtractBytesInLane st (n / 8) 0 (n mod 8)
   else StateExtractLanes st (n / 8)) = take n st.
Proof.
  intros Hl Hn. pose proof (lane_position n) as E. unfold StateExtractLanes, StateExtractBytesInLane.
  rewrite Nat.add_0_r. destruct (Nat.ltb_spec 0 (n mod 8)).
  - rewrite <-E at 4. by rewrite take_take_drop.
  - f_equal. lia.
Qed.

Lemma duplexing_spec r sigma suffix n st :
  (0 < r <= 200)%nat -> fits_block r (sigma, suffix, n) ->
  let st' := StatePermute (xor_at 0 (block_of r (sigma, suffix, n)) st) in
  Duplexing sigma n suffix (mk_duplex st (Z.of_nat (r * 8))) =
    Some (0, take n st', mk_duplex st' (Z.of_nat (r * 8))).
Proof.
  intros Hr (Hs&Hd&Hn). cbn zeta. unfold Duplexing. cbn [rate state].
  rewrite !(wrap_small 32) by (unfold fits; lia).
  destruct (Z.eqb_spec suffix 0); [lia|]. destruct (Z.ltb_spec (Z.of_nat (r * 8) - 2) (Z.of_nat (length sigma) * 8)); [lia|].
  assert ((Z.of_nat (r * 8) - 2 - Z.of_nat (length sigma) * 8 <? 7) &&
          (1 ≪ (Z.of_nat (r * 8) - 2 - Z.of_nat (length sigma) * 8 + 1) <=? suffix) = false) as ->.
  { destruct (Z.ltb_spec (Z.of_nat (r * 8) - 2 - Z.of_nat (length sigma) * 8) 7); [|done].
    replace (_ - _ - _ + 1) with 7 by lia. apply Z.leb_gt. change (1 ≪ 7) with 128. lia. }
  destruct (Z.ltb_spec ((Z.of_nat (r * 8) + 7) / 8) (Z.of_nat n)); [zlia|].
  destruct (Nat.leb_spec 200 (length sigma)); [lia|].
  unfold StateXORPermuteExtract.
  replace (Z.to_nat (Z.of_nat (r * 8) - 1)) with (r * 8 - 1)%nat by lia.
  rewrite (absorb_string r _ _ n) by done.
  rewrite extract_output by first [apply length_permute|lia].
  destruct (Z.ltb_spec (Z.of_nat (r * 8)) (Z.of_nat n * 8)); [lia|done].
Qed.

(** The state and position after some calls, a byte at a time. *)
Definition duplexed r (calls : list (bytes * Z * nat)) st : bytes * nat :=
  foldl (absorb_byte r) (st, 0%nat) (concat (block_of r <$> calls)).

Lemma absorb_call r call st :
  fits_block r call ->
  foldl (absorb_byte r) (st, 0%nat) (block_of r call) = (StatePermute (xor_at 0 (block_of r call) st), 0%nat).
Proof.
  destruct call as [[sigma suffix] n]. intros (Hs&Hd&_). cbn [block_of].
  assert (length (sigma ++ FIPS202_sponge.pad r suffix (length sigma)) = r) as Hl.
  { rewrite length_app, length_pad, Nat.mod_small by lia. lia. }
  rewrite absorb_chunk by lia. unfold end_block. rewrite Hl. cbn [Nat.add]. by rewrite Nat.eqb_refl.
Qed.

Lemma duplex_calls_spec r calls st :
  (0 < r <= 200)%nat -> Forall (fits_block r) calls ->
  exists st', duplexed r calls st = (st', 0%nat) /\
    duplex_calls calls (mk_duplex st (Z.of_nat (r * 8))) = Some (mk_duplex st' (Z.of_nat (r * 8))).
Proof.
  intros Hr Hc. revert st. induction Hc as [|[[sigma suffix] n] calls Hcall Hc IH]; intros st; [by eexists|].
  destruct (IH (StatePermute (xor_at 0 (block_of r (sigma, suffix, n)) st))) as (st'&Hd&Hst').
  exists st'. split.
  - unfold duplexed. rewrite fmap_cons. cbn [concat]. by rewrite foldl_app, absorb_call.
  - cbn [duplex_calls]. by rewrite (duplexing_spec r) by done.
Qed.

(** ** Properties *)

(** Each answer of a duplex object is the hash of the blocks before it and the string of the
    call. *)
Theorem duplexing_sponge r capacity d calls sigma suffix n :
  (0 < r <= 200)%nat -> Z.of_nat (r * 8) + capacity = 1600 ->
  Forall (fits_block r) calls -> fits_block r (sigma, suffix, n) ->
  exists d1 d2,
    duplex_calls calls (DuplexInitialize (Z.of_nat (r * 8)) capacity d).2 = Some d1 /\
    Duplexing sigma n suffix d1 =
      Some (0, FIPS202_hash r suffix (concat (block_of r <$> calls) ++ sigma) n, d2).
Proof.
  intros Hr Hc Hcalls Hcall. unfold DuplexInitialize. rewrite Hc. cbn [negb Z.eqb].
  change (negb (u32 1600 =? 1600)) with false. cbn beta iota.
  destruct (Z.leb_spec (Z.of_nat (r * 8)) 2); [lia|].
  destruct (Z.ltb_spec 1600 (Z.of_nat (r * 8))); [lia|]. cbn [orb snd].
  destruct (duplex_calls_spec r calls StateInitialize Hr Hcalls) as (st&Hst&->).
  eexists _, _. split; [done|]. rewrite (duplexing_spec r) by done. do 3 f_equal.
  destruct Hcall as (Hs&Hd&Hn). unfold duplexed in Hst.
  rewrite <-(sponge_blocks r suffix _ n (xor_at 0 sigma st) (length sigma) Hr).
  - pose proof (length_pad r suffix (length sigma) ltac:(lia) ltac:(lia)) as Hp. rewrite Nat.mod_small in Hp by done.
    rewrite (absorb_chunk r (FIPS202_sponge.pad _ _ _)), Hp by lia. unfold end_block.
    destruct (Nat.eqb_spec (length sigma + (r - length sigma)) r); [|lia].
    cbn [fst block_of]. rewrite xor_at_app, squeeze_chunk by (apply length_permute || lia). done.
  - rewrite foldl_app, Hst, absorb_chunk by lia. unfold end_block. cbn [Nat.add].
    by destruct (Nat.eqb_spec (length sigma) r); [lia|].
Qed.
