(* ===== verification/Threefish.v ===== *)
(** * The block functions of Skein: [src/src/hash/skein_block.cpp]

    One block is the 64-bit words [w]; the chaining variables are its key, and the tweak is two
    words.  The three functions of the source differ in the number of words, in the tables of
    [skein.h], and in how they keep the key schedule: for 256 and 512 bits the rounds are unrolled
    and index [ks] and [ts] modulo 5 or 9 and modulo 3; for 1024 bits they are a loop, which lets
    [ks] and [ts] grow through one array [kw] where they overlap.  A [variant] is the tables;
    [Threefish] is the cipher as its designers define it. *)
From S2P Require Import Prelude Bytes.

Abbreviation words := (list Z).

(** ** [skein_port.h], [skein.h] *)
Definition RotL_64 (x N : Z) : Z := Z.lor (u64 (x ≪ N)) (x ≫ (64 - N)).
Definition SKEIN_MK_64 (hi32 lo32 : Z) : Z := u64 (lo32 + hi32 ≪ 32).
Definition SKEIN_KS_PARITY : Z := SKEIN_MK_64 0x55555555 0x55555555.
Definition SKEIN_T1_FLAG_FIRST : Z := 1 ≪ 62.
Definition SKEIN_T1_FLAG_FINAL : Z := 1 ≪ 63.

(** [unrolled] says how the rounds are compiled ([SKEIN_LOOP] is 001). *)
Record variant := mk_variant {
  STATE_WORDS : nat;
  ROUNDS_TOTAL : nat;
  unrolled : bool;
  Round_words : list (list nat);
  R_ : list (list Z);
}.

Definition BLOCK_BYTES (v : variant) : nat := 8 * STATE_WORDS v.
Definition RCNT (v : variant) : nat := ROUNDS_TOTAL v / 8.

Definition Skein_256 : variant := mk_variant 4 72 true
  [[0; 1; 2; 3]; [0; 3; 2; 1]; [0; 1; 2; 3]; [0; 3; 2; 1]]%nat
  [[5; 56]; [36; 28]; [13; 46]; [58; 44]; [26; 20]; [53; 35]; [11; 42]; [59; 50]].

Definition Skein_512 : variant := mk_variant 8 72 true
  [[0; 1; 2; 3; 4; 5; 6; 7]; [2; 1; 4; 7; 6; 5; 0; 3];
   [4; 1; 6; 3; 0; 5; 2; 7]; [6; 1; 0; 7; 2; 5; 4; 3]]%nat
  [[38; 30; 50; 53]; [48; 20; 43; 31]; [34; 14; 15; 27]; [26; 12; 58; 7];
   [33; 49; 8; 42]; [39; 27; 41; 14]; [29; 26; 11; 9]; [33; 51; 39; 35]].

Definition Skein1024 : variant := mk_variant 16 80 false
  [[0; 1; 2; 3; 4; 5; 6; 7; 8; 9; 10; 11; 12; 13; 14; 15];
   [0; 9; 2; 13; 6; 11; 4; 15; 10; 7; 12; 3; 14; 5; 8; 1];
   [0; 7; 2; 5; 4; 3; 6; 1; 12; 15; 14; 13; 8; 11; 10; 9];
   [0; 15; 2; 11; 6; 13; 4; 9; 14; 1; 8; 5; 10; 3; 12; 7]]%nat
  [[55; 43; 37; 40; 16; 22; 38; 12]; [25; 25; 46; 13; 14; 13; 52; 57];
   [33; 8; 18; 57; 21; 12; 32; 54]; [34; 43; 25; 60; 44; 9; 59; 34];
   [28; 7; 47; 48; 51; 9; 35; 41]; [17; 6; 18; 25; 43; 42; 40; 15];
   [58; 7; 32; 45; 19; 18; 2; 56]; [47; 49; 27; 58; 37; 48; 53; 56]].

(** ** Rounds *)
Definition word (X : words) (i : nat) : Z := nth i X 0.

(** [X##p0 += X##p1; X##p1 = RotL_64(X##p1,ROT); X##p1 ^= X##p0;] *)
Definition mix (p0 p1 : nat) (ROT : Z) (X : words) : words :=
  let X := alter (fun x => u64 (x + word X p1)) p0 X in
  let X := alter (fun x => RotL_64 x ROT) p1 X in
  alter (fun x => Z.lxor x (word X p0)) p1 X.

Fixpoint Round (p : list nat) (ROT : list Z) (X : words) : words :=
  match p, ROT with
  | p0 :: p1 :: p', r :: ROT' => Round p' ROT' (mix p0 p1 r X)
  | _, _ => X
  end.

(** Four rounds, with the rotations from [k]. *)
Definition four_rounds (v : variant) (k : nat) (X : words) : words :=
  foldl (fun X j => Round (nth j (Round_words v) []) (nth (k + j) (R_ v) []) X) X (seq 0 4).

(** ** Key injection *)
(** [X[i] += key i], with the tweak words [t0] and [t1] in the two words before the last, and the
    number [c] in the last. *)
Definition inject (v : variant) (key : nat -> Z) (t0 t1 c : Z) (X : words) : words :=
  imap (fun i x =>
    u64 (x + (if (i =? STATE_WORDS v - 3)%nat then u64 (key i + t0)
              else if (i =? STATE_WORDS v - 2)%nat then u64 (key i + t1)
              else if (i =? STATE_WORDS v - 1)%nat then u64 (key i + c)
              else key i))) X.

(** [ks[WCNT]] and [ts[2]] from the chaining variables and the tweak. *)
Definition key_schedule (X : words) : words := X ++ [Z.lxor (foldl Z.lxor 0 X) SKEIN_KS_PARITY].
Definition tweaks (T0 T1 : Z) : words := [T0; T1; Z.lxor T0 T1].

(** [w[i] + ks[i]], two of them with a word of the tweak more. *)
Definition inject_first (v : variant) (ks ts w : words) : words :=
  imap (fun i x =>
    let x := u64 (x + word ks i) in
    if (i =? STATE_WORDS v - 3)%nat then u64 (x + word ts 0)
    else if (i =? STATE_WORDS v - 2)%nat then u64 (x + word ts 1)
    else x) w.

(** [I256(R)], [I512(R)]: the indices are reduced by the compiler. *)
Definition I_unrolled (v : variant) (ks ts : words) (R : nat) (X : words) : words :=
  inject v (fun i => word ks ((R + 1 + i) mod (STATE_WORDS v + 1)))
    (word ts ((R + 1) mod 3)) (word ts ((R + 2) mod 3)) (Z.of_nat (R + 1)) X.

Definition rounds_8 (v : variant) (ks ts : words) (X : words) (R : nat) : words :=
  let X := I_unrolled v ks ts (2 * R) (four_rounds v 0 X) in
  I_unrolled v ks ts (2 * R + 1) (four_rounds v 4 X).

(** The array [kw], up to the last word written so far: [ts] begins it and [ks] is three words in. *)
Definition KW_KEY_BASE : nat := 3.
Definition store (i : nat) (x : Z) (kw : words) : words :=
  <[i := x]> (kw ++ replicate (S i - length kw) 0).

(** [I1024(R)] of the loop, with [s = r + R]. *)
Definition I_loop (v : variant) (s : nat) (st : words * words) : words * words :=
  let '(kw, X) := st in
  let ks i := word kw (KW_KEY_BASE + i) in
  let X := inject v (fun i => ks (s + i)%nat) (word kw s) (word kw (s + 1)) (Z.of_nat s) X in
  let kw := store (KW_KEY_BASE + (s + STATE_WORDS v)) (ks (s - 1)%nat) kw in
  let kw := store (s + 2) (word kw (s - 1)) kw in
  (kw, X).

(** The body of the loop on [r]. *)
Definition rounds_8_loop (v : variant) (st : words * words) (r : nat) : words * words :=
  let st := I_loop v r (st.1, four_rounds v 0 st.2) in
  I_loop v (r + 1) (st.1, four_rounds v 4 st.2).

(** ** A block *)
Definition all_rounds (v : variant) (ks ts X : words) : words :=
  if unrolled v then foldl (rounds_8 v ks ts) X (seq 0 (RCNT v))
  else (foldl (rounds_8_loop v) (ts ++ ks, X) ((fun n => 2 * n + 1)%nat <$> seq 0 (RCNT v))).2.

(** The body of the loop: the new chaining variables. *)
Definition process_one (v : variant) (T0 T1 : Z) (w X : words) : words :=
  let ks := key_schedule X in
  let ts := tweaks T0 T1 in
  zip_with Z.lxor (all_rounds v ks ts (inject_first v ks ts w)) w.

(** [do ... while (--blkCnt)] on the tweak and the chaining variables. *)
Fixpoint process_blocks (v : variant) (blkCnt : nat) (blkPtr : bytes) (byteCntAdd : Z)
  (st : Z * Z * words) : Z * Z * words :=
  match blkCnt with
  | O => st
  | S blkCnt' =>
      let '(T0, T1, X) := st in
      let T0 := u64 (T0 + byteCntAdd) in
      let X := process_one v T0 T1 (words64 (STATE_WORDS v) blkPtr) X in
      let T1 := Z.land T1 (u64 (Z.lnot SKEIN_T1_FLAG_FIRST)) in
      process_blocks v blkCnt' (drop (BLOCK_BYTES v) blkPtr) byteCntAdd (T0, T1, X)
  end.

(** ** The tweakable cipher of the designers *)
Module Threefish.
(** [pi] of a variant: where the word [i] of the next round comes from. *)
Definition permutation (Nw : nat) : list nat :=
  match Nw with
  | 4 => [0; 3; 2; 1]
  | 8 => [2; 1; 4; 7; 6; 5; 0; 3]
  | _ => [0; 9; 2; 13; 6; 11; 4; 15; 10; 7; 12; 3; 14; 5; 8; 1]
  end%nat.

(** The word [i] of the subkey [s]. *)
Definition subkey (Nw : nat) (k t : words) (s i : nat) : Z :=
  u64 (word k ((s + i) mod (Nw + 1)) +
    (if (i =? Nw - 3)%nat then word t (s mod 3)
     else if (i =? Nw - 2)%nat then word t ((s + 1) mod 3)
     else if (i =? Nw - 1)%nat then Z.of_nat s else 0)).

Definition add_subkey (Nw : nat) (k t : words) (s : nat) (x : words) : words :=
  imap (fun i x => u64 (x + subkey Nw k t s i)) x.

(** [MIX] on neighbouring words. *)
Fixpoint mixes (R : list Z) (x : words) : words :=
  match x, R with
  | x0 :: x1 :: x', r :: R' =>
      let y0 := u64 (x0 + x1) in y0 :: Z.lxor (RotL_64 x1 r) y0 :: mixes R' x'
  | _, _ => []
  end.

Definition permute (Nw : nat) (x : words) : words := word x <$> permutation Nw.

(** Round [d], for the subkeys from 0. *)
Definition round (v : variant) (k t : words) (x : words) (d : nat) : words :=
  let Nw := STATE_WORDS v in
  let x := if (d mod 4 =? 0)%nat then add_subkey Nw k t (d / 4) x else x in
  permute Nw (mixes (nth (d mod 8) (R_ v) []) x).

Definition encrypt (v : variant) (key : words) (T0 T1 : Z) (x : words) : words :=
  let k := key_schedule key in
  let t := tweaks T0 T1 in
  add_subkey (STATE_WORDS v) k t (ROUNDS_TOTAL v / 4)
    (foldl (round v k t) x (seq 0 (ROUNDS_TOTAL v))).
End Threefish.

Inductive is_variant : variant -> Prop :=
  | is_256 : is_variant Skein_256
  | is_512 : is_variant Skein_512
  | is_1024 : is_variant Skein1024.

(** The subkeys and the groups of four rounds, alternately. *)
Fixpoint groups (v : variant) (k t : words) (n : nat) (x : words) : words :=
  match n with
  | O => Threefish.add_subkey (STATE_WORDS v) k t 0 x
  | S n' => Threefish.add_subkey (STATE_WORDS v) k t n
              (four_rounds v (4 * (n' mod 2)) (groups v k t n' x))
  end.

(** ** Lemmas on lengths *)
Lemma length_mix p0 p1 r X : length (mix p0 p1 r X) = length X.
Proof. unfold mix. by rewrite !length_alter. Qed.

Lemma length_Round p ROT X : length (Round p ROT X) = length X.
Proof.
  revert p ROT X. fix IH 1. intros [|p0 [|p1 p]] [|r ROT] X; try reflexivity.
  cbn [Round]. rewrite IH. apply length_mix.
Qed.

Lemma length_four_rounds v k X : length (four_rounds v k X) = length X.
Proof. unfold four_rounds. cbn [seq foldl]. by rewrite !length_Round. Qed.

Lemma length_add_subkey Nw k t s x : length (Threefish.add_subkey Nw k t s x) = length x.
Proof. apply length_imap. Qed.

Lemma length_groups v k t n x : length (groups v k t n x) = length x.
Proof.
  induction n as [|n IH]; cbn [groups]; rewrite length_add_subkey; [done|].
  by rewrite length_four_rounds.
Qed.

(** ** The rounds *)
Lemma word_alter_eq f i (X : words) : (i < length X)%nat -> word (alter f i X) i = f (word X i).
Proof.
  intros Hi. unfold word. apply lookup_lt_is_Some in Hi as [x Hx].
  rewrite (nth_lookup_Some _ _ _ _ Hx). apply nth_lookup_Some. by rewrite list_lookup_alter_eq, Hx.
Qed.

Lemma word_alter_ne f i j (X : words) : i <> j -> word (alter f i X) j = word X j.
Proof. intros Hi. unfold word. by rewrite !nth_lookup, list_lookup_alter_ne. Qed.

Lemma word_mix_other p0 p1 r X i : i <> p0 -> i <> p1 -> word (mix p0 p1 r X) i = word X i.
Proof. intros H0 H1. unfold mix. by rewrite !word_alter_ne by congruence. Qed.

Lemma word_mix p0 p1 r X :
  p0 <> p1 -> (p0 < length X)%nat -> (p1 < length X)%nat ->
  word (mix p0 p1 r X) p0 = u64 (word X p0 + word X p1) /\
  word (mix p0 p1 r X) p1 =
    Z.lxor (RotL_64 (word X p1) r) (u64 (word X p0 + word X p1)).
Proof.
  intros Hne H0 H1. unfold mix. split.
  - by rewrite !word_alter_ne, word_alter_eq by congruence.
  - rewrite word_alter_eq by (by rewrite !length_alter).
    rewrite word_alter_eq by (by rewrite !length_alter).
    by rewrite !(word_alter_ne _ p1 p0), (word_alter_ne _ p0 p1), word_alter_eq by congruence.
Qed.

Lemma word_Round_other : forall p R X i, i ∉ p -> word (Round p R X) i = word X i.
Proof.
  fix IH 1. intros [|p0 [|p1 p]] [|r R] X i Hi; try reflexivity. cbn [Round].
  rewrite !not_elem_of_cons in Hi. destruct Hi as (?&?&?).
  rewrite IH by done. by apply word_mix_other.
Qed.

(** Mixing neighbours is a round on the words in their order. *)
Lemma mixes_Round : forall p R X,
  NoDup p -> Forall (fun i => (i < length X)%nat) p -> length p = (2 * length R)%nat ->
  Threefish.mixes R (word X <$> p) = word (Round p R X) <$> p.
Proof.
  fix IH 1. intros [|p0 [|p1 p]] [|r R] X Hp HX Hl; try (cbn in Hl; lia); [done|].
  apply NoDup_cons in Hp as [H0 Hp]. apply NoDup_cons in Hp as [H1 Hp].
  apply not_elem_of_cons in H0 as [Hne H0].
  apply Forall_cons in HX as [L0 HX]. apply Forall_cons in HX as [L1 HX].
  destruct (word_mix p0 p1 r X Hne L0 L1) as [E0 E1].
  cbn [Round fmap list_fmap Threefish.mixes].
  rewrite !(word_Round_other p R _ _) by done. rewrite E0, E1. do 2 f_equal.
  rewrite <-(IH p R (mix p0 p1 r X) Hp).
  - f_equal. apply list_fmap_ext. intros j i Hj. apply list_elem_of_lookup_2 in Hj.
    rewrite word_mix_other; [done|congruence..].
  - by rewrite length_mix.
  - cbn in Hl. lia.
Qed.

(** The words in an order, moved by the permutation, are the words in another order. *)
Lemma permute_order Nw p X :
  Threefish.permute Nw (word X <$> p) =
    (fun i => match p !! i with Some j => word X j | None => 0 end) <$> Threefish.permutation Nw.
Proof.
  apply list_fmap_ext. intros _ i _. unfold word at 1. rewrite nth_lookup, list_lookup_fmap.
  by destruct (p !! i).
Qed.

Lemma words_in_order X : word X <$> seq 0 (length X) = X.
Proof.
  apply list_eq. intros i. rewrite list_lookup_fmap. destruct (decide (i < length X)%nat).
  - rewrite lookup_seq_lt by done. cbn. destruct (X !! i) eqn:E.
    + f_equal. unfold word. by apply nth_lookup_Some.
    + apply lookup_ge_None in E. lia.
  - rewrite lookup_seq_ge by lia. symmetry. apply lookup_ge_None. lia.
Qed.

(** A round of the cipher without its subkey. *)
Definition move (v : variant) (x : words) (n : nat) : words :=
  Threefish.permute (STATE_WORDS v) (Threefish.mixes (nth n (R_ v) []) x).

Lemma move_step v n p p' X :
  NoDup p -> Forall (fun i => (i < length X)%nat) p -> length p = (2 * length (nth n (R_ v) []))%nat ->
  ((fun i => default 0%nat (p !! i)) <$> Threefish.permutation (STATE_WORDS v)) = p' ->
  Forall (fun i => is_Some (p !! i)) (Threefish.permutation (STATE_WORDS v)) ->
  move v (word X <$> p) n = word (Round p (nth n (R_ v) []) X) <$> p'.
Proof.
  intros Hp HX Hl <- HS. unfold move. rewrite mixes_Round, permute_order, <-list_fmap_compose by done.
  apply list_fmap_ext. intros j i Hi. apply list_elem_of_lookup_2 in Hi.
  rewrite Forall_forall in HS. destruct (HS i Hi) as [m E]. cbn. by rewrite E.
Qed.

(** The tables of a variant: the words of each round are a permutation, moved by [pi] from one round to the next. *)
Definition order_ok (v : variant) (j : nat) : bool :=
  let p := nth j (Round_words v) [] in
  bool_decide (NoDup p) && forallb (fun i => i <? STATE_WORDS v)%nat p &&
  forallb (fun n => length p =? 2 * length (nth n (R_ v) []))%nat [j; 4 + j]%nat &&
  forallb (fun i => bool_decide (is_Some (p !! i))) (Threefish.permutation (STATE_WORDS v)) &&
  bool_decide (((fun i => default 0%nat (p !! i)) <$> Threefish.permutation (STATE_WORDS v)) =
    nth (S j mod 4) (Round_words v) []).

Lemma tables_ok v :
  is_variant v ->
  forallb (order_ok v) (seq 0 4) = true /\ nth 0 (Round_words v) [] = seq 0 (STATE_WORDS v).
Proof. intros []; split; vm_compute; reflexivity. Qed.

Lemma move_Round v j b X :
  is_variant v -> (j < 4)%nat -> (b < 2)%nat -> length X = STATE_WORDS v ->
  move v (word X <$> nth j (Round_words v) []) (4 * b + j) =
    word (Round (nth j (Round_words v) []) (nth (4 * b + j) (R_ v) []) X)
      <$> nth (S j mod 4) (Round_words v) [].
Proof.
  intros Hv Hj Hb HX. destruct (tables_ok v Hv) as [H _]. rewrite forallb_forall in H.
  specialize (H j ltac:(apply in_seq; lia)). unfold order_ok in H. bools.
  repeat match goal with H : forallb _ _ = true |- _ => rewrite forallb_forall in H end.
  apply move_step; try done.
  - rewrite Forall_forall. intros i Hi%list_elem_of_In. rewrite HX. apply Nat.ltb_lt. auto.
  - apply Nat.eqb_eq. destruct b as [|[|]]; [| |lia]; cbn in *; auto.
  - rewrite Forall_forall. intros i Hi%list_elem_of_In. eapply bool_decide_eq_true_1. auto.
Qed.

Lemma moves_some v b n X :
  is_variant v -> (b < 2)%nat -> (n <= 4)%nat -> length X = STATE_WORDS v ->
  let Y := foldl (fun X j => Round (nth j (Round_words v) []) (nth (4 * b + j) (R_ v) []) X) X (seq 0 n) in
  length Y = STATE_WORDS v /\
  foldl (move v) X (seq (4 * b) n) = word Y <$> nth (n mod 4) (Round_words v) [].
Proof.
  intros Hv Hb Hn HX. induction n as [|n IH]; cbn zeta.
  - destruct (tables_ok v Hv) as [_ H0]. split; [done|]. cbn [seq foldl Nat.modulo Nat.divmod snd Nat.sub].
    rewrite H0, <-HX. symmetry. apply words_in_order.
  - destruct (IH ltac:(lia)) as [L E]. rewrite !seq_S, !foldl_app, E. cbn [foldl Nat.add].
    split; [by rewrite length_Round|]. rewrite (Nat.mod_small n) by lia. apply move_Round; done || lia.
Qed.

Lemma moves_four v b X :
  is_variant v -> (b < 2)%nat -> length X = STATE_WORDS v ->
  foldl (move v) X (seq (4 * b) 4) = four_rounds v (4 * b) X.
Proof.
  intros Hv Hb HX. destruct (moves_some v b 4 X Hv Hb (le_n 4) HX) as [L ->].
  destruct (tables_ok v Hv) as [_ H0]. change (4 mod 4)%nat with 0%nat. rewrite H0, <-L.
  apply words_in_order.
Qed.

(** ** The rounds of the cipher by groups of four *)
Lemma rounds_group v k t g x :
  is_variant v -> length x = STATE_WORDS v ->
  foldl (Threefish.round v k t) x (seq (4 * g) 4) =
    four_rounds v (4 * (g mod 2)) (Threefish.add_subkey (STATE_WORDS v) k t g x).
Proof.
  intros Hv Hx. rewrite <-moves_four by (done || by rewrite length_add_subkey ||
    (apply Nat.mod_upper_bound; lia)).
  cbn [seq foldl]. unfold Threefish.round.
  assert (forall i, (i < 4)%nat -> (4 * g + i) mod 4 = i /\ (4 * g + i) mod 8 = 4 * (g mod 2) + i)%nat as H.
  { intros i Hi. pose proof (Nat.div_mod g 2). pose proof (Nat.mod_upper_bound g 2). split.
    - symmetry. apply (Nat.mod_unique _ _ g); lia.
    - symmetry. apply (Nat.mod_unique _ _ (g / 2)); lia. }
  destruct (H 0%nat) as [A0 B0], (H 1%nat) as [A1 B1], (H 2%nat) as [A2 B2], (H 3%nat) as [A3 B3]; try lia.
  replace (4 * g)%nat with (4 * g + 0)%nat by lia.
  replace (S (4 * g + 0)) with (4 * g + 1)%nat by lia. replace (S (4 * g + 1)) with (4 * g + 2)%nat by lia.
  replace (S (4 * g + 2)) with (4 * g + 3)%nat by lia. rewrite A0, A1, A2, A3, B0, B1, B2, B3.
  cbn [Nat.eqb]. replace ((4 * g + 0) / 4)%nat with g by (apply (Nat.div_unique _ _ _ 0); lia).
  unfold move. by rewrite !Nat.add_succ_r, !Nat.add_0_r.
Qed.

Lemma rounds_groups v k t n x :
  is_variant v -> length x = STATE_WORDS v ->
  Threefish.add_subkey (STATE_WORDS v) k t n (foldl (Threefish.round v k t) x (seq 0 (4 * n))) =
    groups v k t n x.
Proof.
  intros Hv Hx. enough (foldl (Threefish.round v k t) x (seq 0 (4 * n)) =
    match n with O => x | S n' => four_rounds v (4 * (n' mod 2)) (groups v k t n' x) end) as ->
    by (by destruct n).
  induction n as [|n IH]; [done|]. replace (4 * S n)%nat with (4 * n + 4)%nat by lia.
  rewrite seq_app, foldl_app, IH. cbn [Nat.add]. rewrite rounds_group; [|done|].
  - do 2 f_equal. by destruct n.
  - destruct n; [done|]. by rewrite length_four_rounds, length_groups.
Qed.

Lemma encrypt_groups v key T0 T1 x :
  is_variant v -> length x = STATE_WORDS v ->
  Threefish.encrypt v key T0 T1 x =
    groups v (key_schedule key) (tweaks T0 T1) (2 * RCNT v) x.
Proof.
  intros Hv Hx. unfold Threefish.encrypt. rewrite <-rounds_groups by done.
  by destruct Hv.
Qed.

(** ** Key injection *)
Lemma inject_spec v k t s i0 X :
  (forall i, (i < length X)%nat -> i0 i = word k ((s + i) mod (STATE_WORDS v + 1))) ->
  inject v i0 (word t (s mod 3)) (word t ((s + 1) mod 3)) (Z.of_nat s) X =
    Threefish.add_subkey (STATE_WORDS v) k t s X.
Proof.
  intros H. apply imap_ext. intros i x Hi. apply lookup_lt_Some in Hi. rewrite H by done.
  unfold Threefish.subkey. rewrite wrap_add_r. split_cases; rewrite ?wrap_add_r; [done..|].
  by rewrite Z.add_0_r.
Qed.

Lemma I_unrolled_spec v k t R X :
  I_unrolled v k t R X = Threefish.add_subkey (STATE_WORDS v) k t (S R) X.
Proof.
  unfold I_unrolled. replace (R + 1)%nat with (S R) by lia. replace (R + 2)%nat with (S R + 1)%nat by lia.
  by apply inject_spec.
Qed.

Lemma inject_first_spec v k t w :
  (length w <= STATE_WORDS v)%nat ->
  inject_first v k t w = Threefish.add_subkey (STATE_WORDS v) k t 0 w.
Proof.
  intros Hw. apply imap_ext. intros i x Hi. apply lookup_lt_Some in Hi. unfold Threefish.subkey.
  rewrite Nat.mod_small by lia. cbn [Nat.add]. rewrite wrap_add_r.
  change (0 mod 3)%nat with 0%nat. change (1 mod 3)%nat with 1%nat. change (Z.of_nat 0) with 0.
  split_cases; rewrite ?wrap_add_l; f_equal; lia.
Qed.

(** ** The unrolled rounds *)
Lemma rounds_8_spec v k t R x :
  rounds_8 v k t (groups v k t (2 * R) x) R = groups v k t (2 * S R) x.
Proof.
  unfold rounds_8. rewrite !I_unrolled_spec. replace (2 * S R)%nat with (S (S (2 * R))) by lia.
  assert (2 * R mod 2 = 0 /\ S (2 * R) mod 2 = 1)%nat as [E0 E1].
  { split; symmetry; [apply (Nat.mod_unique _ _ R)|apply (Nat.mod_unique _ _ R)]; lia. }
  cbn [groups]. rewrite E0, E1. by replace (2 * R + 1)%nat with (S (2 * R)) by lia.
Qed.

Lemma unrolled_spec v k t n x :
  foldl (rounds_8 v k t) (groups v k t 0 x) (seq 0 n) = groups v k t (2 * n) x.
Proof.
  induction n as [|n IH]; [done|]. rewrite seq_S, foldl_app, IH. apply rounds_8_spec.
Qed.

(** ** The loop *)
Lemma word_store i x kw j : word (store i x kw) j = if decide (j = i) then x else word kw j.
Proof.
  unfold word, store. rewrite !nth_lookup. case_decide as E; [subst j|].
  - rewrite list_lookup_insert_eq; [done|]. rewrite length_app, length_replicate. lia.
  - rewrite list_lookup_insert_ne by done. rewrite lookup_app.
    destruct (kw !! j) eqn:E'; [done|]. by destruct (replicate _ _ !! _) eqn:E2;
      [apply lookup_replicate in E2 as [-> _]|].
Qed.

(** Before the injection [s] the array holds, from [s - 1] on, three words of the tweak and then
    the [WCNT + 1] words of the key: [ts] has overwritten what [ks] does not need any more. *)
Definition window (v : variant) (k t : words) (s : nat) (kw : words) : Prop :=
  (forall j, (j < 3)%nat -> word kw (s - 1 + j) = word t ((s - 1 + j) mod 3)) /\
  (forall j, (j <= STATE_WORDS v)%nat ->
     word kw (s + 2 + j) = word k ((s - 1 + j) mod (STATE_WORDS v + 1))).

Lemma I_loop_spec v k t s kw X :
  (1 <= s)%nat -> length X = STATE_WORDS v -> window v k t s kw ->
  exists kw', I_loop v s (kw, X) = (kw', Threefish.add_subkey (STATE_WORDS v) k t s X) /\
    window v k t (S s) kw'.
Proof.
  intros Hs HX [Ht Hk]. eexists. split; [unfold I_loop; f_equal|].
  - assert (word kw s = word t (s mod 3)) as ->.
    { replace s with (s - 1 + 1)%nat by lia. apply Ht. lia. }
    assert (word kw (s + 1) = word t ((s + 1) mod 3)) as ->.
    { replace (s + 1)%nat with (s - 1 + 2)%nat by lia. apply Ht. lia. }
    apply inject_spec. intros i Hi. unfold KW_KEY_BASE.
    replace (3 + (s + i))%nat with (s + 2 + S i)%nat by lia. rewrite Hk by lia. do 2 f_equal. lia.
  - unfold KW_KEY_BASE. split; intros j Hj; rewrite !word_store.
    + destruct (decide (S s - 1 + j = s + 2)%nat) as [E|E].
      * rewrite decide_False by lia. rewrite <-(Nat.add_0_r (s - 1)), Ht by lia. f_equal.
        rewrite E. replace (s + 2)%nat with (s - 1 + 0 + 1 * 3)%nat by lia.
        by rewrite Nat.Div0.mod_add.
      * rewrite decide_False by lia. replace (S s - 1 + j)%nat with (s - 1 + S j)%nat by lia.
        apply Ht. lia.
    + rewrite (decide_False (P := (S s + 2 + j = s + 2)%nat)) by lia.
      destruct (decide (S s + 2 + j = 3 + (s + STATE_WORDS v))%nat) as [E|E].
      * replace (3 + (s - 1))%nat with (s + 2 + 0)%nat by lia. rewrite Hk by lia. f_equal.
        replace (S s - 1 + j)%nat with (s - 1 + 0 + 1 * (STATE_WORDS v + 1))%nat by lia.
        by rewrite Nat.Div0.mod_add.
      * replace (S s + 2 + j)%nat with (s + 2 + S j)%nat by lia. rewrite Hk by lia. do 2 f_equal. lia.
Qed.

Lemma rounds_8_loop_spec v k t n kw x :
  length x = STATE_WORDS v -> window v k t (2 * n + 1) kw ->
  exists kw', rounds_8_loop v (kw, groups v k t (2 * n) x) (2 * n + 1) = (kw', groups v k t (2 * S n) x) /\
    window v k t (2 * S n + 1) kw'.
Proof.
  intros Hx Hw. unfold rounds_8_loop. cbn [fst snd].
  destruct (I_loop_spec v k t (2 * n + 1) kw (four_rounds v 0 (groups v k t (2 * n) x)))
    as (kw1&->&H1); [lia|by rewrite length_four_rounds, length_groups|done|]. cbn [fst snd].
  replace (2 * n + 1 + 1)%nat with (S (2 * n + 1)) by lia.
  edestruct (I_loop_spec v k t (S (2 * n + 1)) kw1) as (kw2&->&H2); [lia| |done|].
  { by rewrite length_four_rounds, length_add_subkey, length_four_rounds, length_groups. }
  exists kw2. replace (2 * S n + 1)%nat with (S (S (2 * n + 1))) by lia. split; [|done]. f_equal.
  replace (2 * S n)%nat with (S (S (2 * n))) by lia. cbn [groups].
  assert (2 * n mod 2 = 0 /\ S (2 * n) mod 2 = 1)%nat as [-> ->].
  { split; symmetry; [apply (Nat.mod_unique _ _ n)|apply (Nat.mod_unique _ _ n)]; lia. }
  by replace (2 * n + 1)%nat with (S (2 * n)) by lia.
Qed.

Lemma window_start v k T0 T1 : window v k (tweaks T0 T1) 1 (tweaks T0 T1 ++ k).
Proof.
  split; intros j Hj; cbn [Nat.sub Nat.add].
  - by destruct j as [|[|[|]]]; [..|lia].
  - rewrite Nat.mod_small by lia. done.
Qed.

Lemma loop_spec v k T0 T1 n x :
  length x = STATE_WORDS v ->
  exists kw, foldl (rounds_8_loop v) (tweaks T0 T1 ++ k, groups v k (tweaks T0 T1) 0 x)
      ((fun n => 2 * n + 1)%nat <$> seq 0 n) = (kw, groups v k (tweaks T0 T1) (2 * n) x) /\
    window v k (tweaks T0 T1) (2 * n + 1) kw.
Proof.
  intros Hx. induction n as [|n (kw&E&H)].
  - eexists. split; [done|]. apply window_start.
  - destruct (rounds_8_loop_spec v k (tweaks T0 T1) n kw x Hx H) as (kw'&E'&H').
    exists kw'. split; [|done]. by rewrite seq_S, fmap_app, foldl_app, E.
Qed.

(** Both ways of keeping the key schedule. *)
Lemma process_one_spec v T0 T1 w X :
  is_variant v -> length w = STATE_WORDS v ->
  process_one v T0 T1 w X = zip_with Z.lxor (Threefish.encrypt v X T0 T1 w) w.
Proof.
  intros Hv Hw. unfold process_one. f_equal. rewrite encrypt_groups, inject_first_spec by (done || lia).
  unfold all_rounds. destruct (unrolled v); [apply unrolled_spec|].
  by destruct (loop_spec v (key_schedule X) T0 T1 (RCNT v) w Hw) as (kw&E&_);
    cbn [groups] in E; rewrite E.
Qed.

Lemma length_process_one v T0 T1 w X :
  is_variant v -> length w = STATE_WORDS v -> length (process_one v T0 T1 w X) = STATE_WORDS v.
Proof.
  intros Hv Hw. rewrite process_one_spec, length_zip_with, encrypt_groups by done.
  rewrite length_groups. lia.
Qed.

(** ** Properties *)

(** A block function computes the Threefish cipher of the block under the chaining
    variables and the tweak, and adds the block to it: with subkeys indexed by the round, mixing
    of neighbouring words and the permutation of the words.  The code renames words and does not
    move them, and neither the unrolled key schedule nor the loop in which [ts] overwrites [ks] in
    one array reads a word that is not the subkey's. *)
Theorem block_standard v T0 T1 w X :
  is_variant v -> length w = STATE_WORDS v ->
  process_one v T0 T1 w X = zip_with Z.lxor (Threefish.encrypt v X T0 T1 w) w /\
  length (process_one v T0 T1 w X) = STATE_WORDS v.
Proof. intros Hv Hw. split; [by apply process_one_spec|by apply length_process_one]. Qed.

Lemma block_standard_witness :
  process_one Skein1024 32 0 (replicate 16 7) (replicate 16 9) =
    zip_with Z.lxor (Threefish.encrypt Skein1024 (replicate 16 9) 32 0 (replicate 16 7)) (replicate 16 7).
Proof. exact (proj1 (block_standard Skein1024 32 0 (replicate 16 7) (replicate 16 9) is_1024 eq_refl)). Defined.
