(* ===== verification/Skein.v ===== *)
(** * The Skein hash functions: [src/src/hash/skein.cpp], [skein_iv.h]

    A context is the length of the hash, the bytes waiting in the buffer [b], the tweak and the
    chaining variables.  [Init], [Update], [Final] and the others are the operations of a
    [variant]; the functions of the source are their three instances.  Sizes are those of arrays
    in memory, whose sums do not wrap in a [size_t].  [UBI] is the mode of operation as the
    designers of Skein define it. *)
From S2P Require Import Prelude Bytes Threefish.

(** ** The initial values *)
Definition SKEIN_256_IV_128 : words :=
  [SKEIN_MK_64 0x302F7EA2 0x3D7FE2E1; SKEIN_MK_64 0xADE4683A 0x6913752B;
   SKEIN_MK_64 0x975CFABE 0xF208AB0A; SKEIN_MK_64 0x2AF4BA95 0xF831F55B].
Definition SKEIN_256_IV_160 : words :=
  [SKEIN_MK_64 0xA38A0D80 0xA3687723; SKEIN_MK_64 0xB73CDB6A 0x5963FFC9;
   SKEIN_MK_64 0x9633E8EA 0x07A1B447; SKEIN_MK_64 0xCA0ED09E 0xC9529C22].
Definition SKEIN_256_IV_224 : words :=
  [SKEIN_MK_64 0xB8092969 0x9AE0F431; SKEIN_MK_64 0xD340DC14 0xA06929DC;
   SKEIN_MK_64 0xAE866594 0xBDE4DC5A; SKEIN_MK_64 0x339767C2 0x5A60EA1D].
Definition SKEIN_256_IV_256 : words :=
  [SKEIN_MK_64 0x38851268 0x0E660046; SKEIN_MK_64 0x4B72D5DE 0xC5A8FF01;
   SKEIN_MK_64 0x281A9298 0xCA5EB3A5; SKEIN_MK_64 0x54CA5249 0xF46070C4].
Definition SKEIN_512_IV_128 : words :=
  [SKEIN_MK_64 0x477DF9EF 0xAFC4F08A; SKEIN_MK_64 0x7A64D342 0x33660E14;
   SKEIN_MK_64 0x71653C44 0xCEBC89C5; SKEIN_MK_64 0x63D2A36D 0x65B0AB91;
   SKEIN_MK_64 0x52B93FB0 0x9782EA89; SKEIN_MK_64 0x20F36980 0x8B960829;
   SKEIN_MK_64 0xE8DF80FB 0x30303B9B; SKEIN_MK_64 0xB89D3902 0x1A476D1F].
Definition SKEIN_512_IV_160 : words :=
  [SKEIN_MK_64 0x0045FA2C 0xAD913A2C; SKEIN_MK_64 0xF45C9A76 0xBF75CE81;
   SKEIN_MK_64 0x0ED758A9 0x3D1F266B; SKEIN_MK_64 0xC0E65E85 0x1EDCD67A;
   SKEIN_MK_64 0x1E024D51 0xF5E7583E; SKEIN_MK_64 0xA271F855 0x4E52B0E1;
   SKEIN_MK_64 0x5292867D 0x8AC674F9; SKEIN_MK_64 0xADA325FA 0x60C3B226].
Definition SKEIN_512_IV_224 : words :=
  [SKEIN_MK_64 0xF2DAA169 0x8216CC98; SKEIN_MK_64 0x00E06A48 0x8983AE05;
   SKEIN_MK_64 0xC080CEA9 0x5948958F; SKEIN_MK_64 0x2A8F314B 0x57F4ADD1;
   SKEIN_MK_64 0xBCD06591 0x360A405A; SKEIN_MK_64 0xF81A11A1 0x02D91F70;
   SKEIN_MK_64 0x85C6FFA5 0x4810A739; SKEIN_MK_64 0x1E07AFE0 0x1802CE74].
Definition SKEIN_512_IV_256 : words :=
  [SKEIN_MK_64 0x88C07F38 0xD4F95AD4; SKEIN_MK_64 0x3DF0D33A 0x8610E240;
   SKEIN_MK_64 0x3E243F6E 0xDB6FAC74; SKEIN_MK_64 0xBAC4F4CD 0xD7A90A24;
   SKEIN_MK_64 0xDF90FD1F 0xDEEEBA04; SKEIN_MK_64 0xA4F5796B 0xDB7FDDA8;
   SKEIN_MK_64 0xDA182FD2 0x964BC923; SKEIN_MK_64 0x55F76677 0xEF6961F9].
Definition SKEIN_512_IV_384 : words :=
  [SKEIN_MK_64 0xE5BF4D02 0xBA62494C; SKEIN_MK_64 0x7AA1EABC 0xC3E6FC68;
   SKEIN_MK_64 0xBBE5FC26 0xE1038C5A; SKEIN_MK_64 0x53C9903E 0x8F88E9FA;
   SKEIN_MK_64 0xF30D8DDD 0xFB940C83; SKEIN_MK_64 0x500FDA3C 0x4865ABEC;
   SKEIN_MK_64 0x2226C67F 0x745BC5E7; SKEIN_MK_64 0x015DA800 0x77C639F7].
Definition SKEIN_512_IV_512 : words :=
  [SKEIN_MK_64 0xA8D47980 0x544A6E32; SKEIN_MK_64 0x84751153 0x3E9B1A8A;
   SKEIN_MK_64 0x6FAEE870 0xD8E81A00; SKEIN_MK_64 0x58B0D9D6 0xCB557F92;
   SKEIN_MK_64 0x9BBC0051 0xDAC1D4E9; SKEIN_MK_64 0xB744E2B1 0xD189E7CA;
   SKEIN_MK_64 0x979350FA 0x709C5EF3; SKEIN_MK_64 0x0350125A 0x92067BCD].
Definition SKEIN1024_IV_384 : words :=
  [SKEIN_MK_64 0x7600B2E3 0x9FC73E48; SKEIN_MK_64 0x7A4543BB 0xECCD60E4;
   SKEIN_MK_64 0x8AB879D6 0x2F53E192; SKEIN_MK_64 0x14847919 0xA7F0AC6E;
   SKEIN_MK_64 0x4F774735 0xAA99CB7F; SKEIN_MK_64 0x607CF3C2 0x41760EE1;
   SKEIN_MK_64 0xC0BF6D7B 0xFF9F27DB; SKEIN_MK_64 0x7D321485 0x99342254;
   SKEIN_MK_64 0xE7231BB0 0xCDF9DD49; SKEIN_MK_64 0x641DE8E6 0x464DB3F4;
   SKEIN_MK_64 0x05613046 0xA01CF005; SKEIN_MK_64 0x7347EE0B 0xB09E8BCC;
   SKEIN_MK_64 0x5103A256 0x161A26FF; SKEIN_MK_64 0x8161EAC4 0x3A1176C2;
   SKEIN_MK_64 0xB9607373 0xCF92C2CC; SKEIN_MK_64 0xFDE8D4AD 0xD376300D].
Definition SKEIN1024_IV_512 : words :=
  [SKEIN_MK_64 0x8CF63BE5 0xE1EDF4B7; SKEIN_MK_64 0x256FD425 0xCBDE61EB;
   SKEIN_MK_64 0x497B412D 0xEBA3EF9D; SKEIN_MK_64 0x3CBD412A 0xD8293FBA;
   SKEIN_MK_64 0xD5AE34D6 0xF26F646E; SKEIN_MK_64 0x72879C01 0x0DA17B79;
   SKEIN_MK_64 0x61BD8F18 0x05AFF621; SKEIN_MK_64 0x75CB3C94 0x9CE0E463;
   SKEIN_MK_64 0xAF27329D 0x2CD71E37; SKEIN_MK_64 0x7DB5EC5E 0x1141CE9F;
   SKEIN_MK_64 0x76484C13 0x20CAB67B; SKEIN_MK_64 0x57EB52A6 0x561BE8C5;
   SKEIN_MK_64 0x51161125 0xE681412D; SKEIN_MK_64 0xF510D937 0x5439A9BC;
   SKEIN_MK_64 0xD18AF77C 0xFC425E3C; SKEIN_MK_64 0xEB05160C 0x3FEBB037].
Definition SKEIN1024_IV_1024 : words :=
  [SKEIN_MK_64 0x5A4352BE 0x62092156; SKEIN_MK_64 0x5F6E8B1A 0x72F001CA;
   SKEIN_MK_64 0xFFCBFE9C 0xA1A2CE26; SKEIN_MK_64 0x6C23C396 0x67038BCA;
   SKEIN_MK_64 0x583A8BFC 0xCE34EB6C; SKEIN_MK_64 0x3FDBFB11 0xD4A46A3E;
   SKEIN_MK_64 0x3304ACFC 0xA8300998; SKEIN_MK_64 0xB2F6675F 0xA17F0FD2;
   SKEIN_MK_64 0x9D259973 0x0EF7AB6B; SKEIN_MK_64 0x0914A20D 0x3DFEA9E4;
   SKEIN_MK_64 0xCC1A9CAF 0xA494DBD3; SKEIN_MK_64 0x9828030D 0xA0A6388C;
   SKEIN_MK_64 0x0D339D5D 0xAADEE3DC; SKEIN_MK_64 0xFC46DE35 0xC4E2A086;
   SKEIN_MK_64 0x53D6E4F5 0x2E19A6D1; SKEIN_MK_64 0x5663952F 0x715D1DDD].

(** The [switch] of each [Init]. *)
Definition IV_256 (hashBitLen : Z) : option words :=
  if hashBitLen =? 256 then Some SKEIN_256_IV_256 else
  if hashBitLen =? 224 then Some SKEIN_256_IV_224 else
  if hashBitLen =? 160 then Some SKEIN_256_IV_160 else
  if hashBitLen =? 128 then Some SKEIN_256_IV_128 else None.
Definition IV_512 (hashBitLen : Z) : option words :=
  if hashBitLen =? 512 then Some SKEIN_512_IV_512 else
  if hashBitLen =? 384 then Some SKEIN_512_IV_384 else
  if hashBitLen =? 256 then Some SKEIN_512_IV_256 else
  if hashBitLen =? 224 then Some SKEIN_512_IV_224 else None.
Definition IV_1024 (hashBitLen : Z) : option words :=
  if hashBitLen =? 512 then Some SKEIN1024_IV_512 else
  if hashBitLen =? 384 then Some SKEIN1024_IV_384 else
  if hashBitLen =? 1024 then Some SKEIN1024_IV_1024 else None.

(** ** Types of blocks and the context *)
Definition SKEIN_T1_BLK_TYPE (T : Z) : Z := T ≪ 56.
Definition BLK_TYPE_KEY : Z := SKEIN_T1_BLK_TYPE 0.
Definition BLK_TYPE_CFG : Z := SKEIN_T1_BLK_TYPE 4.
Definition BLK_TYPE_MSG : Z := SKEIN_T1_BLK_TYPE 48.
Definition BLK_TYPE_OUT : Z := SKEIN_T1_BLK_TYPE 63.
Definition BLK_TYPE_CFG_FINAL : Z := Z.lor BLK_TYPE_CFG SKEIN_T1_FLAG_FINAL.
Definition BLK_TYPE_OUT_FINAL : Z := Z.lor BLK_TYPE_OUT SKEIN_T1_FLAG_FINAL.
Definition SKEIN_SCHEMA_VER : Z := SKEIN_MK_64 1 0x33414853.
Definition SKEIN_CFG_STR_LEN : Z := 4 * 8.

Record Skein_Ctxt := mk_ctx {
  hashBitLen : Z;
  bCnt : nat;
  T0 : Z;
  T1 : Z;
  X : words;
  b : bytes;
}.

Definition set_hashBitLen n c := mk_ctx n (bCnt c) (T0 c) (T1 c) (X c) (b c).
Definition set_bCnt n c := mk_ctx (hashBitLen c) n (T0 c) (T1 c) (X c) (b c).
Definition set_T1 t c := mk_ctx (hashBitLen c) (bCnt c) (T0 c) t (X c) (b c).
Definition set_X x c := mk_ctx (hashBitLen c) (bCnt c) (T0 c) (T1 c) x (b c).
Definition set_b d c := mk_ctx (hashBitLen c) (bCnt c) (T0 c) (T1 c) (X c) d.

Definition Skein_Start_New_Type (BLK_TYPE : Z) (c : Skein_Ctxt) : Skein_Ctxt :=
  mk_ctx (hashBitLen c) 0 0 (Z.lor SKEIN_T1_FLAG_FIRST BLK_TYPE) (X c) (b c).

(** [memcpy(&b[off], data, n)] *)
Definition copy_at (off : nat) (data b : bytes) : bytes :=
  take off b ++ data ++ drop (off + length data) b.
Definition zeros (n : nat) : bytes := replicate n (z2b 0).

(** [Skein_Put64_LSB_First] *)
Definition Put64 (src64 : words) (bCnt : nat) : bytes := take bCnt (bytes64 src64).

(** ** The operations of a variant *)
Definition Process_Block (v : variant) (blkPtr : bytes) (blkCnt : nat) (byteCntAdd : Z)
  (c : Skein_Ctxt) : Skein_Ctxt :=
  let '(T0, T1, X) := process_blocks v blkCnt blkPtr byteCntAdd (T0 c, T1 c, X c) in
  mk_ctx (hashBitLen c) (bCnt c) T0 T1 X (b c).

(** [cfg.b] *)
Definition config_block (v : variant) (hashBitLen treeInfo : Z) : bytes :=
  bytes64 ([SKEIN_SCHEMA_VER; hashBitLen; treeInfo] ++ replicate (STATE_WORDS v - 3) 0).

Definition zero_words (v : variant) : words := replicate (STATE_WORDS v) 0.

Definition Init (v : variant) (IV : Z -> option words) (hashBitLen : Z) (c : Skein_Ctxt) : Skein_Ctxt :=
  let c := set_hashBitLen hashBitLen c in
  let c := match IV hashBitLen with
    | Some iv => set_X iv c
    | None =>
        let c := set_X (zero_words v) (Skein_Start_New_Type BLK_TYPE_CFG_FINAL c) in
        Process_Block v (config_block v hashBitLen 0) 1 SKEIN_CFG_STR_LEN c
    end in
  Skein_Start_New_Type BLK_TYPE_MSG c.

(** What is in the buffer, up to its end, as a block. *)
Definition finish_buffer (v : variant) (c : Skein_Ctxt) (msg : bytes) : Skein_Ctxt * bytes :=
  if (bCnt c =? 0)%nat then (c, msg) else
  let n := (BLOCK_BYTES v - bCnt c)%nat in
  let '(c, msg) :=
    if (n =? 0)%nat then (c, msg)
    else (set_bCnt (bCnt c + n) (set_b (copy_at (bCnt c) (take n msg) (b c)) c), drop n msg) in
  (set_bCnt 0 (Process_Block v (b c) 1 (Z.of_nat (BLOCK_BYTES v)) c), msg).

Definition Update (v : variant) (msg : bytes) (c : Skein_Ctxt) : Skein_Ctxt :=
  let '(c, msg) :=
    if (BLOCK_BYTES v <? length msg + bCnt c)%nat then
      let '(c, msg) := finish_buffer v c msg in
      if (BLOCK_BYTES v <? length msg)%nat then
        let n := ((length msg - 1) / BLOCK_BYTES v)%nat in
        (Process_Block v msg n (Z.of_nat (BLOCK_BYTES v)) c, drop (n * BLOCK_BYTES v) msg)
      else (c, msg)
    else (c, msg) in
  if (length msg =? 0)%nat then c
  else set_bCnt (bCnt c + length msg) (set_b (copy_at (bCnt c) msg (b c)) c).

(** The final block: tagged, and padded with zeros. *)
Definition final_block (v : variant) (c : Skein_Ctxt) : Skein_Ctxt :=
  let c := set_T1 (Z.lor (T1 c) SKEIN_T1_FLAG_FINAL) c in
  let c := if (bCnt c <? BLOCK_BYTES v)%nat
    then set_b (copy_at (bCnt c) (zeros (BLOCK_BYTES v - bCnt c)) (b c)) c else c in
  Process_Block v (b c) 1 (Z.of_nat (bCnt c)) c.

(** [for (i = 0; i * BLOCK_BYTES < byteCnt; i++)]; [None] when the fuel ends before the loop. *)
Fixpoint output_loop (fuel : nat) (v : variant) (key : words) (byteCnt i : nat) (c : Skein_Ctxt)
  : option (bytes * Skein_Ctxt) :=
  match fuel with
  | O => None
  | S fuel' =>
      if (i * BLOCK_BYTES v <? byteCnt)%nat then
        let c := set_b (copy_at 0 (le64 (Z.of_nat i)) (b c)) c in
        let c := Skein_Start_New_Type BLK_TYPE_OUT_FINAL c in
        let c := Process_Block v (b c) 1 8 c in
        let n := Nat.min (byteCnt - i * BLOCK_BYTES v) (BLOCK_BYTES v) in
        let out := Put64 (X c) n in
        '(rest, c) ← output_loop fuel' v key byteCnt (S i) (set_X key c);
        Some (out ++ rest, c)
      else Some ([], c)
  end.

Definition byteCnt (c : Skein_Ctxt) : nat := Z.to_nat (u64 (hashBitLen c + 7) ≫ 3).

Definition Output (v : variant) (c : Skein_Ctxt) : option (bytes * Skein_Ctxt) :=
  output_loop (S (byteCnt c)) v (X c) (byteCnt c) 0 (set_b (zeros (BLOCK_BYTES v)) c).

Definition Final (v : variant) (c : Skein_Ctxt) : option (bytes * Skein_Ctxt) :=
  Output v (final_block v c).

Definition Final_Pad (v : variant) (c : Skein_Ctxt) : bytes * Skein_Ctxt :=
  let c := final_block v c in (Put64 (X c) (BLOCK_BYTES v), c).

Definition InitExt (v : variant) (hashBitLen treeInfo : Z) (key : bytes) (c : Skein_Ctxt) : Skein_Ctxt :=
  let c :=
    if (length key =? 0)%nat then set_X (zero_words v) c else
    let c := set_hashBitLen (8 * Z.of_nat (BLOCK_BYTES v)) c in
    let c := set_X (zero_words v) (Skein_Start_New_Type BLK_TYPE_KEY c) in
    let '(cfg, c) := Final_Pad v (Update v key c) in
    set_X (words64 (STATE_WORDS v) cfg) c in
  let c := Skein_Start_New_Type BLK_TYPE_CFG_FINAL (set_hashBitLen hashBitLen c) in
  let c := Process_Block v (config_block v hashBitLen treeInfo) 1 SKEIN_CFG_STR_LEN c in
  Skein_Start_New_Type BLK_TYPE_MSG (set_bCnt 0 c).

(** ** The functions of the source *)
Definition Skein_256_Init := Init Skein_256 IV_256.
Definition Skein_512_Init := Init Skein_512 IV_512.
Definition Skein1024_Init := Init Skein1024 IV_1024.
Definition Skein_256_InitExt := InitExt Skein_256.
Definition Skein_512_InitExt := InitExt Skein_512.
Definition Skein1024_InitExt := InitExt Skein1024.
Definition Skein_256_Process_Block := Process_Block Skein_256.
Definition Skein_512_Process_Block := Process_Block Skein_512.
Definition Skein1024_Process_Block := Process_Block Skein1024.
Definition Skein_256_Update := Update Skein_256.
Definition Skein_512_Update := Update Skein_512.
Definition Skein1024_Update := Update Skein1024.
Definition Skein_256_Final := Final Skein_256.
Definition Skein_512_Final := Final Skein_512.
Definition Skein1024_Final := Final Skein1024.
Definition Skein_256_Final_Pad := Final_Pad Skein_256.
Definition Skein_512_Final_Pad := Final_Pad Skein_512.
Definition Skein1024_Final_Pad := Final_Pad Skein1024.
Definition Skein_256_Output := Output Skein_256.
Definition Skein_512_Output := Output Skein_512.
Definition Skein1024_Output := Output Skein1024.

Inductive is_Skein : variant -> (Z -> option words) -> Prop :=
  | Skein_of_256 : is_Skein Skein_256 IV_256
  | Skein_of_512 : is_Skein Skein_512 IV_512
  | Skein_of_1024 : is_Skein Skein1024 IV_1024.

(** ** The mode of operation of the designers *)
Module UBI.
(** The second word of the tweak. *)
Definition tweak (typ : Z) (first final : bool) : Z :=
  Z.lor (Z.lor typ (if first then SKEIN_T1_FLAG_FIRST else 0))
    (if final then SKEIN_T1_FLAG_FINAL else 0).

(** The chaining value after a block [M] of at most [BLOCK_BYTES], padded with zeros; [pos] bytes
    of the input have been processed with it. *)
Definition block (v : variant) (typ : Z) (first final : bool) (pos : nat) (M : bytes) (G : words) : words :=
  let w := words64 (STATE_WORDS v) (M ++ zeros (BLOCK_BYTES v - length M)) in
  zip_with Z.lxor (Threefish.encrypt v G (Z.of_nat pos) (tweak typ first final) w) w.

(** [UBI(G, M, typ)] from the position [pos], for a message of at most [n + 1] blocks. *)
Fixpoint ubi_from (v : variant) (typ : Z) (n : nat) (pos : nat) (M : bytes) (G : words) : words :=
  let first := (pos =? 0)%nat in
  let B := BLOCK_BYTES v in
  match n with
  | S n' =>
      if (B <? length M)%nat
      then ubi_from v typ n' (pos + B) (drop B M) (block v typ first false (pos + B) (take B M) G)
      else block v typ first true (pos + length M) M G
  | O => block v typ first true (pos + length M) M G
  end.

Definition ubi (v : variant) (typ : Z) (M : bytes) (G : words) : words :=
  ubi_from v typ (length M) 0 M G.

(** The configuration string of 32 bytes. *)
Definition config (hashBitLen treeInfo : Z) : bytes := bytes64 [SKEIN_SCHEMA_VER; hashBitLen; treeInfo; 0].

(** The first [n] bytes of the blocks of output from [i] on. *)
Fixpoint output (v : variant) (blocks i : nat) (G : words) : bytes :=
  match blocks with
  | O => []
  | S m => bytes64 (ubi v BLK_TYPE_OUT (le64 (Z.of_nat i)) G) ++ output v m (S i) G
  end.

(** The hash of [M] with a key, which may be empty. *)
Definition chain (v : variant) (hashBitLen treeInfo : Z) (key : bytes) : words :=
  let G := if (length key =? 0)%nat then zero_words v else ubi v BLK_TYPE_KEY key (zero_words v) in
  ubi v BLK_TYPE_CFG (config hashBitLen treeInfo) G.

Definition Skein (v : variant) (hashBitLen treeInfo : Z) (key M : bytes) : bytes :=
  let n := Z.to_nat ((hashBitLen + 7) / 8) in
  take n (output v (S (n / BLOCK_BYTES v)) 0
    (ubi v BLK_TYPE_MSG M (chain v hashBitLen treeInfo key))).
End UBI.

(** ** Representation *)
(** The tweak word of an unfinished input after [k] blocks. *)
Definition running (typ : Z) (k : nat) : Z :=
  if (k =? 0)%nat then Z.lor SKEIN_T1_FLAG_FIRST typ else typ.

Definition is_type (typ : Z) : Prop :=
  Z.land (Z.lor SKEIN_T1_FLAG_FIRST typ) (u64 (Z.lnot SKEIN_T1_FLAG_FIRST)) = typ /\
  Z.land typ (u64 (Z.lnot SKEIN_T1_FLAG_FIRST)) = typ.

(** [head], of [k] blocks, has been processed from the chaining value [G]. *)
Definition processed (v : variant) (typ : Z) (G : words) (k : nat) (head : bytes) (c : Skein_Ctxt) : Prop :=
  length head = (k * BLOCK_BYTES v)%nat /\ length (b c) = BLOCK_BYTES v /\
  process_blocks v k head (Z.of_nat (BLOCK_BYTES v)) (0, running typ 0, G) = (T0 c, T1 c, X c).

(** The context after the input [M]: some blocks processed and the rest, not empty after a block, in
    the buffer. *)
Definition absorbed (v : variant) (typ : Z) (G : words) (M : bytes) (c : Skein_Ctxt) : Prop :=
  exists k head tail, M = head ++ tail /\ processed v typ G k head c /\ (k = 0%nat \/ tail <> []) /\
    (length tail <= BLOCK_BYTES v)%nat /\ bCnt c = length tail /\ take (length tail) (b c) = tail.

(** ** Lemmas on blocks *)
Lemma block_bytes v : is_variant v -> (32 <= BLOCK_BYTES v <= 128)%nat.
Proof. intros []; vm_compute; lia. Qed.

Lemma process_blocks_S v n p add T0 T1 X :
  process_blocks v (S n) p add (T0, T1, X) =
    process_blocks v n (drop (BLOCK_BYTES v) p) add
      (u64 (T0 + add), Z.land T1 (u64 (Z.lnot SKEIN_T1_FLAG_FIRST)),
       process_one v (u64 (T0 + add)) T1 (words64 (STATE_WORDS v) p) X).
Proof. done. Qed.

Lemma words64_app n p q : (8 * n <= length p)%nat -> words64 n (p ++ q) = words64 n p.
Proof.
  revert p. induction n as [|n IH]; intros p Hp; cbn [words64]; [done|].
  rewrite take_app_le by lia. rewrite drop_app_le by lia. rewrite IH; [done|].
  rewrite length_drop. lia.
Qed.

Lemma process_blocks_app v m n p q add st :
  length p = (m * BLOCK_BYTES v)%nat ->
  process_blocks v (m + n) (p ++ q) add st =
    process_blocks v n q add (process_blocks v m p add st).
Proof.
  revert p st. induction m as [|m IH]; intros p [[T0 T1] X] Hp.
  - destruct p; [reflexivity|cbn in Hp; lia].
  - cbn [Nat.add]. rewrite !process_blocks_S. rewrite words64_app by (unfold BLOCK_BYTES in *; lia).
    rewrite drop_app_le by lia. apply IH. rewrite length_drop. lia.
Qed.

Lemma process_blocks_prefix v n p q add st :
  length p = (n * BLOCK_BYTES v)%nat ->
  process_blocks v n (p ++ q) add st = process_blocks v n p add st.
Proof. intros Hp. replace n with (n + 0)%nat at 1 by lia. by rewrite process_blocks_app. Qed.


(** A processed block of the chain is a block of [UBI]. *)
Lemma block_spec v typ first final pos M G :
  is_variant v ->
  UBI.block v typ first final pos M G =
    process_one v (Z.of_nat pos) (UBI.tweak typ first final)
      (words64 (STATE_WORDS v) (M ++ zeros (BLOCK_BYTES v - length M))) G.
Proof. intros Hv. unfold UBI.block. by rewrite process_one_spec by (try apply length_words64; done). Qed.

Lemma tweak_running typ k final :
  UBI.tweak typ (k =? 0)%nat final =
    (if final then Z.lor (running typ k) SKEIN_T1_FLAG_FINAL else running typ k).
Proof.
  unfold UBI.tweak, running. rewrite (Z.lor_comm typ).
  destruct (k =? 0)%nat, final; by rewrite ?Z.lor_0_r, ?Z.lor_0_l.
Qed.

Lemma running_next typ k :
  is_type typ -> Z.land (running typ k) (u64 (Z.lnot SKEIN_T1_FLAG_FIRST)) = running typ (S k).
Proof. intros [H1 H2]. unfold running at 1. by destruct (k =? 0)%nat. Qed.

Lemma ubi_blocks v typ k : is_variant v -> is_type typ ->
  forall n j head tail G T0 T1 X,
  length head = (k * BLOCK_BYTES v)%nat -> k = 0%nat \/ tail <> [] ->
  (length tail <= BLOCK_BYTES v)%nat -> (k <= n)%nat ->
  Z.of_nat (j * BLOCK_BYTES v + length head + length tail) < 2 ^ 64 ->
  process_blocks v k head (Z.of_nat (BLOCK_BYTES v)) (Z.of_nat (j * BLOCK_BYTES v), running typ j, G) =
    (T0, T1, X) ->
  T0 = Z.of_nat ((j + k) * BLOCK_BYTES v) /\ T1 = running typ (j + k) /\
  UBI.ubi_from v typ n (j * BLOCK_BYTES v) (head ++ tail) G =
    process_one v (u64 (T0 + Z.of_nat (length tail))) (Z.lor T1 SKEIN_T1_FLAG_FINAL)
      (words64 (STATE_WORDS v) (tail ++ zeros (BLOCK_BYTES v - length tail))) X.
Proof.
  intros Hv Ht. pose proof (block_bytes v Hv) as HB. set (B := BLOCK_BYTES v) in *.
  assert (forall j, (j * B =? 0)%nat = (j =? 0)%nat) as Hz.
  { intros j. destruct (Nat.eqb_spec (j * B) 0), (Nat.eqb_spec j 0); nia. }
  induction k as [|k IH]; intros n j head tail G T0 T1 X Hh Hne Htl Hn Hs Hp.
  - destruct head; [|cbn in Hh; lia]. cbn [process_blocks] in Hp.
    apply pair_equal_spec in Hp as [Hp <-]. apply pair_equal_spec in Hp as [<- <-].
    rewrite Nat.add_0_r. split_and!; [done..|]. cbn [app length] in *. rewrite wrap_small by (unfold fits; lia).
    rewrite <-Nat2Z.inj_add. destruct n as [|n]; cbn [UBI.ubi_from]; fold B;
      [|destruct (Nat.ltb_spec B (length tail)); [lia|]].
    all: by rewrite block_spec, Hz, tweak_running by done.
  - rewrite process_blocks_S in Hp. fold B in Hp. rewrite running_next in Hp by done.
    rewrite wrap_small in Hp by (unfold fits; lia). rewrite <-Nat2Z.inj_add in Hp.
    replace (j * B + B)%nat with (S j * B)%nat in Hp by lia.
    destruct n as [|n]; [lia|].
    set (G' := process_one _ _ _ _ _) in Hp.
    destruct (IH n (S j) (drop B head) tail G' T0 T1 X) as (E0&E1&E);
      [rewrite length_drop; lia|destruct Hne; [lia|by right]|done|lia|rewrite length_drop; lia|done|].
    replace (S j + k)%nat with (j + S k)%nat in * by lia. split_and!; [done..|]. rewrite <-E.
    cbn [UBI.ubi_from]. fold B.
    assert (0 < length tail)%nat as Htl0 by (destruct Hne; [lia|destruct tail; [done|cbn; lia]]).
    destruct (Nat.ltb_spec B (length (head ++ tail))) as [_|Hf]; [|rewrite length_app in Hf; lia].
    replace (j * B + B)%nat with (S j * B)%nat by lia.
    rewrite drop_app_le, take_app_le by lia. f_equal.
    rewrite block_spec, Hz, tweak_running by done. fold B. f_equal.
    rewrite length_take, Nat.min_l, Nat.sub_diag, app_nil_r by lia.
    rewrite <-(take_drop B head) at 2. symmetry. apply words64_app.
    rewrite length_take. unfold B, BLOCK_BYTES in *. lia.
Qed.

Lemma process_one_tail v T0 T1 p q X :
  (BLOCK_BYTES v <= length p)%nat ->
  process_one v T0 T1 (words64 (STATE_WORDS v) (p ++ q)) X = process_one v T0 T1 (words64 (STATE_WORDS v) p) X.
Proof. intros H. by rewrite words64_app by (unfold BLOCK_BYTES in H; lia). Qed.

(** ** Lemmas on the buffer *)
Lemma length_copy_at off d l :
  (off + length d <= length l)%nat -> length (copy_at off d l) = length l.
Proof. intros H. unfold copy_at. rewrite !length_app, length_take, length_drop. lia. Qed.

Lemma take_copy_at off d l :
  (off + length d <= length l)%nat -> take (off + length d) (copy_at off d l) = take off l ++ d.
Proof.
  intros H. unfold copy_at. rewrite app_assoc. apply take_app_length'.
  rewrite length_app, length_take. lia.
Qed.

(** The block that ends the input. *)
Lemma final_block_spec v typ G M c :
  is_variant v -> is_type typ -> absorbed v typ G M c -> Z.of_nat (length M) < 2 ^ 64 ->
  X (final_block v c) = UBI.ubi v typ M G /\ hashBitLen (final_block v c) = hashBitLen c.
Proof.
  intros Hv Ht (k&head&tail&->&(Hh&Hb&Hp)&Hne&Htl&Hc&Htail) HM. rewrite length_app in HM.
  pose proof (block_bytes v Hv) as HB.
  destruct (ubi_blocks v typ k Hv Ht (length (head ++ tail)) 0 head tail G (T0 c) (T1 c) (X c))
    as (E0&E1&E); [done..|rewrite length_app; nia|lia|done|]. unfold UBI.ubi.
  change (0 * BLOCK_BYTES v)%nat with 0%nat in E. rewrite E.
  unfold final_block, Process_Block. cbn [bCnt set_T1]. rewrite Hc.
  set (c' := if (length tail <? BLOCK_BYTES v)%nat then _ else _).
  assert (T0 c' = T0 c /\ T1 c' = Z.lor (T1 c) SKEIN_T1_FLAG_FINAL /\ X c' = X c /\ bCnt c' = length tail /\
    hashBitLen c' = hashBitLen c /\ b c' = tail ++ zeros (BLOCK_BYTES v - length tail))
    as (-> & -> & -> & -> & -> & ->).
  { unfold c'. destruct (Nat.ltb_spec (length tail) (BLOCK_BYTES v)); cbn [T0 T1 X bCnt hashBitLen b set_b set_T1].
    - split_and!; [done..|]. unfold copy_at, zeros. rewrite length_replicate, Htail.
      by rewrite drop_ge, app_nil_r by lia.
    - split_and!; [done..|]. replace (BLOCK_BYTES v - length tail)%nat with 0%nat by lia.
      rewrite app_nil_r, <-Htail. symmetry. apply take_ge. lia. }
  rewrite process_blocks_S. cbn [process_blocks]. by cbn.
Qed.

(** More blocks from an array that has them. *)
Lemma processed_more v typ G k head c n p :
  processed v typ G k head c -> (n * BLOCK_BYTES v <= length p)%nat ->
  processed v typ G (k + n) (head ++ take (n * BLOCK_BYTES v) p)
    (Process_Block v p n (Z.of_nat (BLOCK_BYTES v)) c).
Proof.
  intros (Hh&Hb&Hp) Hn. unfold Process_Block.
  assert (process_blocks v n p (Z.of_nat (BLOCK_BYTES v)) (T0 c, T1 c, X c) =
    process_blocks v n (take (n * BLOCK_BYTES v) p) (Z.of_nat (BLOCK_BYTES v)) (T0 c, T1 c, X c)) as ->.
  { rewrite <-(take_drop (n * BLOCK_BYTES v) p) at 1. apply process_blocks_prefix.
    rewrite length_take. lia. }
  destruct (process_blocks v n _ _ _) as [[t0 t1] x] eqn:E. split_and!; cbn [T0 T1 X b].
  - rewrite length_app, length_take. lia.
  - done.
  - by rewrite process_blocks_app, Hp.
Qed.

Lemma finish_buffer_spec v typ G M c msg :
  is_variant v -> absorbed v typ G M c -> (BLOCK_BYTES v < length msg + bCnt c)%nat ->
  exists k head c' msg', finish_buffer v c msg = (c', msg') /\ M ++ msg = head ++ msg' /\
    processed v typ G k head c' /\ bCnt c' = 0%nat /\ msg' <> [] /\ hashBitLen c' = hashBitLen c.
Proof.
  intros Hv (k&head&tail&->&Hpr&Hne&Htl&Hc&Htail) Hlen. rewrite Hc in Hlen. unfold finish_buffer.
  rewrite Hc. destruct (Nat.eqb_spec (length tail) 0) as [E|E].
  { destruct tail; [|done]. exists k, head, c, msg. rewrite app_nil_r. split_and!; try done.
    intros ->. cbn in Hlen. lia. }
  set (n := (BLOCK_BYTES v - length tail)%nat). set (B := BLOCK_BYTES v) in *.
  assert (exists c1, (if (n =? 0)%nat then (c, msg)
      else (set_bCnt (length tail + n) (set_b (copy_at (length tail) (take n msg) (b c)) c), drop n msg)) =
    (c1, drop n msg) /\ b c1 = tail ++ take n msg /\ processed v typ G k head c1 /\
    hashBitLen c1 = hashBitLen c) as (c1&->&Hb1&Hp1&Hh1).
  { pose proof (proj1 (proj2 Hpr)) as Hb. fold B in Hb. destruct (Nat.eqb_spec n 0) as [E0|E0].
    - exists c. rewrite E0, drop_0, take_0, app_nil_r. split_and!; [done| |done..].
      rewrite <-Htail. symmetry. apply take_ge. lia.
    - eexists. split; [done|]. cbn [b set_b set_bCnt hashBitLen].
      assert (length tail + length (take n msg) = B)%nat as EB by (rewrite length_take; lia).
      assert (copy_at (length tail) (take n msg) (b c) = tail ++ take n msg) as ->.
      { transitivity (take (length tail) (b c) ++ take n msg); [|by rewrite Htail].
        rewrite <-take_copy_at by lia. symmetry. apply take_ge. rewrite length_copy_at; lia. }
      split_and!; [done| |done]. destruct Hpr as (Hh&_&Hp). split_and!; [done| |done].
      cbn [b set_b set_bCnt]. rewrite length_app. exact EB. }
  exists (k + 1)%nat, (head ++ (tail ++ take n msg)), (set_bCnt 0 (Process_Block v (b c1) 1 (Z.of_nat B) c1)), (drop n msg).
  split_and!; [done| | |done| |].
  - by rewrite <-!app_assoc, take_drop.
  - rewrite <-Hb1. pose proof (proj1 (proj2 Hp1)) as EL. fold B in EL.
    pose proof (processed_more v typ G k head c1 1 (b c1) Hp1) as H. fold B in H.
    rewrite Nat.mul_1_l, EL in H. specialize (H (le_n B)). rewrite take_ge in H by lia. exact H.
  - intros H%(f_equal length). rewrite length_drop in H. cbn [length] in H. lia.
  - unfold Process_Block. by destruct (process_blocks _ _ _ _ _) as [[? ?] ?].
Qed.

(** The rest of the input, behind what the buffer has. *)
Definition append_buffer (m : bytes) (c : Skein_Ctxt) : Skein_Ctxt :=
  if (length m =? 0)%nat then c
  else set_bCnt (bCnt c + length m) (set_b (copy_at (bCnt c) m (b c)) c).

Lemma append_absorbed v typ G M k head tail c m :
  M = head ++ tail ++ m -> processed v typ G k head c -> k = 0%nat \/ tail ++ m <> [] ->
  (length tail + length m <= BLOCK_BYTES v)%nat -> bCnt c = length tail ->
  take (length tail) (b c) = tail ->
  absorbed v typ G M (append_buffer m c) /\ hashBitLen (append_buffer m c) = hashBitLen c.
Proof.
  intros -> Hp Hne Hl Hc Ht. unfold append_buffer. destruct (Nat.eqb_spec (length m) 0) as [E|E].
  - destruct m; [|done]. rewrite app_nil_r in *. cbn [length] in Hl. split; [|done].
    exists k, head, tail. split_and!; try done. lia.
  - split; [|done]. destruct Hp as (Hh1&Hb1&Hp1). exists k, head, (tail ++ m).
    cbn [bCnt b set_b set_bCnt]. rewrite length_app, Hc.
    split_and!; [done| |done|lia|done|rewrite take_copy_at by lia; by rewrite Ht].
    split_and!; [done| |done]. cbn [b set_b set_bCnt]. rewrite length_copy_at; lia.
Qed.

Lemma hashBitLen_Process_Block v p n add c : hashBitLen (Process_Block v p n add c) = hashBitLen c.
Proof. unfold Process_Block. by destruct (process_blocks _ _ _ _ _) as [[? ?] ?]. Qed.

Lemma bCnt_Process_Block v p n add c : bCnt (Process_Block v p n add c) = bCnt c.
Proof. unfold Process_Block. by destruct (process_blocks _ _ _ _ _) as [[? ?] ?]. Qed.

Lemma b_Process_Block v p n add c : b (Process_Block v p n add c) = b c.
Proof. unfold Process_Block. by destruct (process_blocks _ _ _ _ _) as [[? ?] ?]. Qed.

(** [Update] absorbs its input, in whatever parts it comes. *)
Lemma Update_absorbed v typ G M c msg :
  is_variant v -> absorbed v typ G M c ->
  absorbed v typ G (M ++ msg) (Update v msg c) /\ hashBitLen (Update v msg c) = hashBitLen c.
Proof.
  intros Hv Habs. pose proof (block_bytes v Hv) as HB. unfold Update.
  destruct (Nat.ltb_spec (BLOCK_BYTES v) (length msg + bCnt c)) as [Hlt|Hge].
  - destruct (finish_buffer_spec v typ G M c msg Hv Habs Hlt) as (k&head&c'&msg'&->&E&Hp&Hc&Hne&Hh).
    destruct (Nat.ltb_spec (BLOCK_BYTES v) (length msg')) as [Hl|Hl]; rewrite <-Hh.
    + set (n := ((length msg' - 1) / BLOCK_BYTES v)%nat).
      assert (n * BLOCK_BYTES v < length msg' <= n * BLOCK_BYTES v + BLOCK_BYTES v)%nat as Hn.
      { unfold n. pose proof (Nat.div_mod (length msg' - 1) (BLOCK_BYTES v)).
        pose proof (Nat.mod_upper_bound (length msg' - 1) (BLOCK_BYTES v)). nia. }
      rewrite <-(hashBitLen_Process_Block v msg' n (Z.of_nat (BLOCK_BYTES v)) c').
      apply (append_absorbed v typ G (M ++ msg) (k + n) (head ++ take (n * BLOCK_BYTES v) msg') []).
      * rewrite E, <-app_assoc. cbn [app]. by rewrite take_drop.
      * apply processed_more; [done|lia].
      * right. cbn [app]. intros H%(f_equal length). rewrite length_drop in H. cbn [length] in H. lia.
      * cbn [length]. rewrite length_drop. lia.
      * by rewrite bCnt_Process_Block.
      * done.
    + apply (append_absorbed v typ G (M ++ msg) k head []); auto.
  - destruct Habs as (k&head&tail&->&Hp&Hne&Htl&Hc&Ht).
    apply (append_absorbed v typ G _ k head tail); auto; [by rewrite <-app_assoc| |lia].
    destruct Hne as [|Hne]; [by left|]. right. by destruct tail.
Qed.

(** ** Lemmas on the output *)
Lemma ubi_short v typ M G :
  (length M <= BLOCK_BYTES v)%nat -> UBI.ubi v typ M G = UBI.block v typ true true (length M) M G.
Proof.
  intros H. unfold UBI.ubi. generalize (length M) at 1. intros [|n]; cbn [UBI.ubi_from]; [done|].
  by destruct (Nat.ltb_spec (BLOCK_BYTES v) (length M)); [lia|].
Qed.

(** One block that is all of its input. *)
Lemma single_block v typ final M n c :
  is_variant v -> length M = BLOCK_BYTES v -> (n <= BLOCK_BYTES v)%nat ->
  M = take n M ++ zeros (BLOCK_BYTES v - n) -> T0 c = 0 ->
  T1 c = UBI.tweak typ true true -> final = Z.of_nat n ->
  X (Process_Block v M 1 final c) = UBI.ubi v typ (take n M) (X c).
Proof.
  intros Hv HM Hn HE H0 H1 ->. pose proof (block_bytes v Hv).
  rewrite ubi_short by (rewrite length_take; lia). rewrite block_spec by done.
  rewrite length_take, Nat.min_l by lia. rewrite <-HE. unfold Process_Block.
  rewrite process_blocks_S. cbn [process_blocks X]. rewrite H0, H1. cbn [Z.add].
  rewrite wrap_small; [done|]. unfold fits. lia.
Qed.

Lemma out_tweak : Z.lor SKEIN_T1_FLAG_FIRST BLK_TYPE_OUT_FINAL = UBI.tweak BLK_TYPE_OUT true true.
Proof. vm_compute. reflexivity. Qed.
Lemma cfg_tweak : Z.lor SKEIN_T1_FLAG_FIRST BLK_TYPE_CFG_FINAL = UBI.tweak BLK_TYPE_CFG true true.
Proof. vm_compute. reflexivity. Qed.
Lemma msg_type : is_type BLK_TYPE_MSG.
Proof. split; vm_compute; reflexivity. Qed.
Lemma key_type : is_type BLK_TYPE_KEY.
Proof. split; vm_compute; reflexivity. Qed.

Lemma length_Put v X n :
  length X = STATE_WORDS v -> (n <= BLOCK_BYTES v)%nat -> length (Put64 X n) = n.
Proof. intros HX Hn. unfold Put64. rewrite length_take, length_bytes64, HX. unfold BLOCK_BYTES in Hn. lia. Qed.

Lemma length_ubi v typ M G : is_variant v -> length (UBI.ubi v typ M G) = STATE_WORDS v.
Proof.
  intros Hv. unfold UBI.ubi. generalize (length M). intros n. generalize 0%nat. revert M G.
  assert (forall f fi pos M G, length (UBI.block v typ f fi pos M G) = STATE_WORDS v) as Hb.
  { intros. rewrite block_spec by done. apply length_process_one; [done|apply length_words64]. }
  induction n as [|n IH]; intros M G pos; cbn [UBI.ubi_from]; [apply Hb|].
  destruct (BLOCK_BYTES v <? length M)%nat; [apply IH|apply Hb].
Qed.

(** The loop gives the bytes of the output from its block on. *)
Lemma output_loop_spec fuel v key n i c blocks :
  is_variant v -> length (b c) = BLOCK_BYTES v ->
  drop 8 (b c) = zeros (BLOCK_BYTES v - 8) -> X c = key ->
  (n - i * BLOCK_BYTES v < fuel)%nat -> (n <= (i + blocks) * BLOCK_BYTES v)%nat ->
  exists c', output_loop fuel v key n i c =
    Some (take (n - i * BLOCK_BYTES v) (UBI.output v blocks i key), c').
Proof.
  intros Hv. pose proof (block_bytes v Hv) as HB. revert i c blocks.
  induction fuel as [|fuel IH]; intros i c blocks Hb Hz Hx Hf Hn; [lia|]. cbn [output_loop].
  destruct (Nat.ltb_spec (i * BLOCK_BYTES v) n) as [Hi|Hi].
  - destruct blocks as [|m]; [lia|]. cbn [UBI.output].
    set (c1 := Skein_Start_New_Type _ _). set (c2 := Process_Block _ _ _ _ _).
    assert (b c1 = le64 (Z.of_nat i) ++ zeros (BLOCK_BYTES v - 8)) as Hb1.
    { unfold c1. cbn [b Skein_Start_New_Type set_b]. unfold copy_at.
      rewrite length_le64. change (0 + 8)%nat with 8%nat. by rewrite Hz. }
    assert (length (b c1) = BLOCK_BYTES v) as Hl1.
    { rewrite Hb1, length_app, length_le64. unfold zeros. rewrite length_replicate. lia. }
    assert (take 8 (b c1) = le64 (Z.of_nat i)) as Ht1 by (rewrite Hb1; by apply take_app_length').
    assert (X c2 = UBI.ubi v BLK_TYPE_OUT (le64 (Z.of_nat i)) key) as HX.
    { rewrite <-Ht1, <-Hx. apply (single_block v BLK_TYPE_OUT 8 (b c1) 8 c1); try done; solve [lia|by rewrite Ht1]. }
    set (B := BLOCK_BYTES v) in *. set (p := Nat.min (n - i * B) B).
    assert (b c2 = b c1) as Hb2 by (unfold c2, Process_Block; by destruct (process_blocks _ _ _ _ _) as [[? ?] ?]).
    destruct (IH (S i) (set_X key c2) m) as [c' ->]; cbn [b X set_X]; rewrite ?Hb2;
      [done|by rewrite Hb1, drop_app_length' by done|done|lia|lia|].
    exists c'. cbn [mbind option_bind]. do 2 f_equal. rewrite HX. unfold Put64.
    pose proof (length_ubi v BLK_TYPE_OUT (le64 (Z.of_nat i)) key Hv) as HU.
    set (U := UBI.ubi v BLK_TYPE_OUT _ key) in *.
    assert (length (bytes64 U) = B) as HB64 by (rewrite length_bytes64, HU; done).
    rewrite take_app. rewrite HB64. f_equal.
    + unfold p. destruct (Nat.min_spec (n - i * B) B) as [[? ->]|[? ->]]; [done|].
      rewrite !take_ge by lia. done.
    + f_equal. lia.
  - exists c. replace (n - i * BLOCK_BYTES v)%nat with 0%nat by lia. done.
Qed.

Lemma Output_spec v c :
  is_variant v -> 0 <= hashBitLen c < 2 ^ 64 - 8 ->
  let n := Z.to_nat ((hashBitLen c + 7) / 8) in
  exists c', Output v c =
    Some (take n (UBI.output v (S (n / BLOCK_BYTES v)) 0 (X c)), c').
Proof.
  intros Hv Hh n. pose proof (block_bytes v Hv) as HB. unfold Output.
  assert (byteCnt c = n) as ->.
  { unfold byteCnt, n. rewrite wrap_small by (unfold fits; lia). by rewrite Z.shiftr_div_pow2. }
  pose proof (output_loop_spec (S n) v (X c) n 0 (set_b (zeros (BLOCK_BYTES v)) c)
    (S (n / BLOCK_BYTES v)) Hv) as H.
  change (0 * BLOCK_BYTES v)%nat with 0%nat in H. rewrite Nat.sub_0_r in H. apply H; try done.
  - cbn [b set_b]. apply length_replicate.
  - cbn [b set_b]. apply drop_replicate.
  - lia.
  - pose proof (Nat.div_mod n (BLOCK_BYTES v)). pose proof (Nat.mod_upper_bound n (BLOCK_BYTES v)). nia.
Qed.

(** ** Lemmas on the chaining value of a configuration *)
Lemma config_take v bits tree :
  is_variant v -> take 32 (config_block v bits tree) = UBI.config bits tree.
Proof. intros []; reflexivity. Qed.

Lemma config_zeros v bits tree :
  is_variant v ->
  config_block v bits tree = take 32 (config_block v bits tree) ++ zeros (BLOCK_BYTES v - 32).
Proof. intros []; reflexivity. Qed.

Lemma length_config v bits tree : is_variant v -> length (config_block v bits tree) = BLOCK_BYTES v.
Proof. intros []; reflexivity. Qed.

Lemma process_config v bits tree G c :
  is_variant v -> X c = G ->
  X (Process_Block v (config_block v bits tree) 1 SKEIN_CFG_STR_LEN
       (Skein_Start_New_Type BLK_TYPE_CFG_FINAL c)) = UBI.ubi v BLK_TYPE_CFG (UBI.config bits tree) G.
Proof.
  intros Hv <-. rewrite <-(config_take v) by done. pose proof (block_bytes v Hv).
  apply (single_block v BLK_TYPE_CFG SKEIN_CFG_STR_LEN _ 32 (Skein_Start_New_Type BLK_TYPE_CFG_FINAL c) Hv);
    [by apply length_config|lia|by apply config_zeros|done|apply cfg_tweak|done].
Qed.

(** The precomputed values are those of the configuration. *)
Definition iv_ok (v : variant) (IV : Z -> option words) (bits : Z) : bool :=
  match IV bits with
  | Some iv => bool_decide (iv = process_one v 32 (UBI.tweak BLK_TYPE_CFG true true)
      (words64 (STATE_WORDS v) (config_block v bits 0)) (zero_words v))
  | None => false
  end.

Lemma ivs_ok :
  forallb (iv_ok Skein_256 IV_256) [128; 160; 224; 256] = true /\
  forallb (iv_ok Skein_512 IV_512) [224; 256; 384; 512] = true /\
  forallb (iv_ok Skein1024 IV_1024) [384; 512; 1024] = true.
Proof. vm_compute. auto. Qed.

Lemma iv_standard v IV bits iv :
  is_Skein v IV -> IV bits = Some iv -> iv = UBI.chain v bits 0 [].
Proof.
  intros Hs Hiv. assert (is_variant v) as Hv by (destruct Hs; constructor).
  unfold UBI.chain. cbn [length Nat.eqb]. pose proof (block_bytes v Hv).
  rewrite ubi_short by (rewrite <-(config_take v), length_take by done; lia).
  rewrite block_spec by done. change (length (UBI.config bits 0)) with 32%nat.
  rewrite <-(config_take v), <-config_zeros by done.
  enough (iv_ok v IV bits = true) as Hok by (unfold iv_ok in Hok; rewrite Hiv in Hok; by bools).
  destruct ivs_ok as (H1&H2&H3). rewrite forallb_forall in H1, H2, H3.
  destruct Hs.
  - unfold IV_256 in Hiv. split_cases; try done; bools; subst bits; apply H1; cbn; auto 10.
  - unfold IV_512 in Hiv. split_cases; try done; bools; subst bits; apply H2; cbn; auto 10.
  - unfold IV_1024 in Hiv. split_cases; try done; bools; subst bits; apply H3; cbn; auto 10.
Qed.

(** A context that begins a new input. *)
Lemma start_absorbed v typ c :
  length (b c) = BLOCK_BYTES v -> is_variant v ->
  absorbed v typ (X c) [] (Skein_Start_New_Type typ c).
Proof.
  intros Hb Hv. exists 0%nat, [], []. split_and!; try done; [by left|cbn; lia].
Qed.

Lemma Init_spec v IV bits c :
  is_Skein v IV -> length (b c) = BLOCK_BYTES v ->
  absorbed v BLK_TYPE_MSG (UBI.chain v bits 0 []) [] (Init v IV bits c) /\
  hashBitLen (Init v IV bits c) = bits.
Proof.
  intros Hs Hb. assert (is_variant v) as Hv by (destruct Hs; constructor). unfold Init.
  destruct (IV bits) as [iv|] eqn:E.
  - split; [|done]. rewrite <-(iv_standard v IV bits iv Hs E).
    by apply (start_absorbed v BLK_TYPE_MSG (set_X iv (set_hashBitLen bits c))).
  - set (c1 := set_X (zero_words v) (set_hashBitLen bits c)).
    change (set_X (zero_words v) (Skein_Start_New_Type BLK_TYPE_CFG_FINAL (set_hashBitLen bits c)))
      with (Skein_Start_New_Type BLK_TYPE_CFG_FINAL c1).
    change (UBI.chain v bits 0 []) with (UBI.ubi v BLK_TYPE_CFG (UBI.config bits 0) (zero_words v)).
    rewrite <-(process_config v bits 0 (zero_words v) c1 Hv eq_refl).
    split; [apply start_absorbed; [|done]|exact (hashBitLen_Process_Block _ _ _ _ _)].
    by rewrite b_Process_Block.
Qed.

Lemma Updates_absorbed v typ G M c parts :
  is_variant v -> absorbed v typ G M c ->
  let c' := foldl (fun c m => Update v m c) c parts in
  absorbed v typ G (M ++ concat parts) c' /\ hashBitLen c' = hashBitLen c.
Proof.
  intros Hv. revert M c. induction parts as [|m parts IH]; intros M c H; cbn [foldl concat].
  - by rewrite app_nil_r.
  - destruct (Update_absorbed v typ G M c m Hv H) as [H1 H2]. cbn zeta.
    destruct (IH _ _ H1) as [H3 H4]. rewrite app_assoc. split; [done|]. by rewrite H4.
Qed.

(** [Final] after a message, from a context that has begun one. *)
Lemma Final_spec v G M c :
  is_variant v -> absorbed v BLK_TYPE_MSG G M c -> 0 <= hashBitLen c < 2 ^ 64 - 8 ->
  Z.of_nat (length M) < 2 ^ 64 ->
  let n := Z.to_nat ((hashBitLen c + 7) / 8) in
  exists c', Final v c =
    Some (take n (UBI.output v (S (n / BLOCK_BYTES v)) 0 (UBI.ubi v BLK_TYPE_MSG M G)), c').
Proof.
  intros Hv H Hh HM n. destruct (final_block_spec v _ G M c Hv msg_type H HM) as [HX HB].
  unfold Final. destruct (Output_spec v (final_block v c) Hv) as [c' E]; [by rewrite HB|].
  exists c'. rewrite E, HX, HB. done.
Qed.

Lemma length_b_final_block v typ G M c :
  absorbed v typ G M c -> length (b (final_block v c)) = BLOCK_BYTES v.
Proof.
  intros (k&head&tail&_&(_&Hb&_)&_&Htl&Hc&_). unfold final_block. rewrite b_Process_Block.
  cbn [bCnt set_T1]. rewrite Hc. destruct (Nat.ltb_spec (length tail) (BLOCK_BYTES v)); cbn [b set_b set_T1]; [|done].
  unfold zeros. rewrite length_copy_at; rewrite ?length_replicate; lia.
Qed.

Lemma Forall_zip_with_fits w (f : Z -> Z -> Z) l k :
  (forall x y, fits w x -> fits w y -> fits w (f x y)) -> Forall (fits w) l -> Forall (fits w) k ->
  Forall (fits w) (zip_with f l k).
Proof.
  intros Hf Hl. revert k. induction Hl as [|x l Hx Hl IH]; intros k [|y k' Hy Hk]; cbn; auto.
Qed.

Lemma ubi_fits v typ M G : is_variant v -> Forall (fits 64) (UBI.ubi v typ M G).
Proof.
  intros Hv. unfold UBI.ubi. generalize (length M). intros n. generalize 0%nat. revert M G.
  assert (forall f fi pos M G, Forall (fits 64) (UBI.block v typ f fi pos M G)) as Hb.
  { intros. unfold UBI.block. apply Forall_zip_with_fits; [auto with width| |apply words64_fits].
    unfold Threefish.encrypt, Threefish.add_subkey. apply Forall_lookup. intros i x.
    rewrite list_lookup_imap. intros (y&_&->)%fmap_Some. auto with width. }
  induction n as [|n IH]; intros M G pos; cbn [UBI.ubi_from]; [apply Hb|].
  destruct (BLOCK_BYTES v <? length M)%nat; [apply IH|apply Hb].
Qed.

Lemma InitExt_spec v bits tree key c :
  is_variant v -> length (b c) = BLOCK_BYTES v -> Z.of_nat (length key) < 2 ^ 64 ->
  absorbed v BLK_TYPE_MSG (UBI.chain v bits tree key) [] (InitExt v bits tree key c) /\
  hashBitLen (InitExt v bits tree key c) = bits.
Proof.
  intros Hv Hb Hk. unfold InitExt.
  set (c1 := if (length key =? 0)%nat then _ else _).
  assert (length (b c1) = BLOCK_BYTES v /\ X c1 = (if (length key =? 0)%nat then zero_words v
    else UBI.ubi v BLK_TYPE_KEY key (zero_words v))) as [Hb1 HX1].
  { unfold c1. destruct (Nat.eqb_spec (length key) 0) as [_|_]; [done|]. unfold Final_Pad.
    set (c2 := set_X (zero_words v) (set_hashBitLen (8 * Z.of_nat (BLOCK_BYTES v)) c)).
    change (set_X (zero_words v) (Skein_Start_New_Type BLK_TYPE_KEY (set_hashBitLen
      (8 * Z.of_nat (BLOCK_BYTES v)) c))) with (Skein_Start_New_Type BLK_TYPE_KEY c2).
    destruct (Update_absorbed v BLK_TYPE_KEY (zero_words v) [] (Skein_Start_New_Type BLK_TYPE_KEY c2) key Hv)
      as [Ha _]; [by apply (start_absorbed v BLK_TYPE_KEY c2)|]. cbn [app] in Ha.
    destruct (final_block_spec _ _ _ _ _ Hv key_type Ha Hk) as [HX _]. split.
    - cbn [b set_X]. by apply (length_b_final_block _ _ _ _ _ Ha).
    - cbn [X set_X]. rewrite HX. set (U := UBI.ubi _ _ _ _).
      assert (length U = STATE_WORDS v) as HU by (by apply length_ubi). unfold Put64.
      rewrite take_ge by (rewrite length_bytes64, HU; unfold BLOCK_BYTES; lia).
      rewrite <-HU. apply words64_bytes64. by apply ubi_fits. }
  set (c3 := Process_Block _ _ _ _ _).
  assert (X c3 = UBI.chain v bits tree key) as <-.
  { unfold c3, UBI.chain. rewrite <-HX1. by apply (process_config v bits tree (X c1) (set_hashBitLen bits c1)). }
  split; [|exact (hashBitLen_Process_Block _ _ _ _ _)].
  apply (start_absorbed v BLK_TYPE_MSG (set_bCnt 0 c3)); [|done].
  unfold c3. cbn [b set_bCnt]. by rewrite b_Process_Block.
Qed.

(** ** Properties *)

(** C16: the three Skein functions compute the hash of their designers.  From any
    context whose buffer has the size of a block, [Init] for a length, or [InitExt] with a key and
    a tree configuration, then [Update] with the parts of a message, and [Final], end and give the
    first bytes of the output of the message under the chaining value of the configuration.  The
    precomputed initial values, the lazy buffer and the split of the message do not show. *)
Theorem skein_standard v IV bits tree key parts c :
  is_Skein v IV -> length (b c) = BLOCK_BYTES v -> 0 <= bits < 2 ^ 64 - 8 ->
  Z.of_nat (length key) < 2 ^ 64 -> Z.of_nat (length (concat parts)) < 2 ^ 64 ->
  let hash c := fst <$> Final v (foldl (fun c m => Update v m c) c parts) in
  hash (Init v IV bits c) = Some (UBI.Skein v bits 0 [] (concat parts)) /\
  hash (InitExt v bits tree key c) = Some (UBI.Skein v bits tree key (concat parts)).
Proof.
  intros Hs Hb Hbits Hk HM hash. assert (is_variant v) as Hv by (destruct Hs; constructor).
  assert (forall G c, absorbed v BLK_TYPE_MSG G [] c /\ hashBitLen c = bits ->
    let n := Z.to_nat ((bits + 7) / 8) in hash c = Some (take n (UBI.output v (S (n / BLOCK_BYTES v)) 0
      (UBI.ubi v BLK_TYPE_MSG (concat parts) G)))) as H.
  { intros G c0 [Ha Hh]. destruct (Updates_absorbed v _ G [] c0 parts Hv Ha) as [Ha' Hh'].
    destruct (Final_spec v G (concat parts) _ Hv Ha') as [c' E]; [by rewrite Hh', Hh|done|].
    unfold hash. rewrite E, Hh', Hh. done. }
  split; apply H; [by apply Init_spec|by apply InitExt_spec].
Qed.

Lemma skein_standard_witness :
  fst <$> Final Skein1024 (foldl (fun c m => Update Skein1024 m c)
    (Init Skein1024 IV_1024 1024 (mk_ctx 0 0 0 0 [] (zeros 128))) [zeros 100; zeros 50]) =
  Some (UBI.Skein Skein1024 1024 0 [] (concat [zeros 100; zeros 50])).
Proof.
  apply (skein_standard Skein1024 IV_1024 1024 0 [] [zeros 100; zeros 50] (mk_ctx 0 0 0 0 [] (zeros 128))
    Skein_of_1024); vm_compute; intuition discriminate.
Defined.
