(* ===== verification/Packet.v ===== *)
(** * Packets of the two protocols: [packet.hpp], [daemon_packet.hpp], [daemon_packet.cpp]

    Module [Packet] is the protocol between the pool and its miners, Module [Daemon_packet] the
    one between the pool and the wallet daemon.  Both frame a packet as a header byte and, for a
    data packet (header below 128), a 32-bit length and the data.  [parse] returns [None] where
    the constructor reads outside the received buffer. *)
From S2P Require Import Prelude Bytes Uint.

(** [m_data] is a shared pointer, [None] when null. *)
Record packet := mk_packet {
  m_header : Z;
  m_length : Z;
  m_data : option bytes;
}.

#[export] Instance packet_eq_dec : EqDecision packet.
Proof. solve_decision. Defined.

(** The part of the two constructors that reads length and data: [buffer->size() > 1]. *)
Definition read_payload (header : Z) (buffer : bytes) : option packet :=
  match buffer with
  | [] | [_] => Some (mk_packet header 0 None)
  | _ :: b1 :: b2 :: b3 :: b4 :: data => Some (mk_packet header (be32 b1 b2 b3 b4) (Some data))
  | _ => None
  end.

(** [get_bytes], the same text in both classes; a data packet with a null [m_data] is undefined. *)
Definition get_bytes (p : packet) : option bytes :=
  if m_header p <? 128 then
    data ← m_data p;
    Some (z2b (m_header p) :: z2b (m_length p ≫ 24) :: z2b (m_length p ≫ 16) ::
            z2b (m_length p ≫ 8) :: z2b (m_length p) :: data)
  else Some [z2b (m_header p)].

(** ** The protocol with the miners *)
Module Packet.

Definition BLOCK_DATA := 0.
Definition SUBMIT_SHARE := 1.
Definition BLOCK_HEIGHT := 2.
Definition ACCOUNT_BALANCE := 3.
Definition PENDING_PAYOUT := 4.
Definition SUBMIT_PPS := 5.
Definition LOGIN := 8.
Definition GET_BLOCK := 129.
Definition NEW_BLOCK := 130.
Definition GET_BALANCE := 131.
Definition GET_PAYOUT := 132.
Definition LOGIN_SKMINER_SUCCESS := 134.
Definition LOGIN_SKMINER_FAIL := 135.
Definition ACCEPT := 200.
Definition REJECT := 201.
Definition BLOCK := 202.
Definition STALE := 203.
Definition PING := 253.
Definition CLOSE := 254.

Definition default : packet := mk_packet 255 0 None.

(** The constructor from a received buffer: an empty one gives header 255. *)
Definition parse (buffer : bytes) : option packet :=
  read_payload (match buffer with [] => 255 | b :: _ => b2z b end) buffer.

Definition is_valid (p : packet) : bool :=
  (m_header p =? 0) && (m_length p =? 0)
  || (m_header p <? 128) && (0 <? m_length p)
  || (128 <=? m_header p) && (m_header p <? 255) && (m_length p =? 0).

Definition get_packet (header : Z) : packet := mk_packet (u8 header) 0 None.

Definition get_height (height : Z) : packet := mk_packet NEW_BLOCK 4 (Some (uint2bytes height)).

End Packet.

(** ** The protocol with the daemon *)
Module Daemon_packet.

Definition BLOCK_DATA := 0.
Definition SUBMIT_BLOCK := 1.
Definition BLOCK_HEIGHT := 2.
Definition SET_CHANNEL := 3.
Definition BLOCK_REWARD := 4.
Definition SET_COINBASE := 5.
Definition GOOD_BLOCK := 6.
Definition ORPHAN_BLOCK := 7.
Definition CHECK_BLOCK := 64.
Definition GET_BLOCK := 129.
Definition GET_HEIGHT := 130.
Definition GET_REWARD := 131.
Definition CLEAR_MAP := 132.
Definition GET_ROUND := 133.
Definition GOOD := 200.
Definition FAIL := 201.
Definition COINBASE_SET := 202.
Definition COINBASE_FAIL := 203.
Definition NEW_ROUND := 204.
Definition OLD_ROUND := 205.
Definition PING := 253.
Definition CLOSE := 254.

(** The constructor from a received buffer reads the first byte of an empty one too. *)
Definition parse (buffer : bytes) : option packet :=
  match buffer with [] => None | b :: _ => read_payload (b2z b) buffer end.

Definition is_valid (p : packet) : bool :=
  (m_header p <? 128) && (0 <? m_length p)
  || (128 <=? m_header p) && (m_header p <? 255) && (m_length p =? 0).

(** The requests of the pool. *)
Definition get_block : packet := mk_packet GET_BLOCK 0 None.
Definition get_height : packet := mk_packet GET_HEIGHT 0 None.
Definition get_reward : packet := mk_packet GET_REWARD 0 None.
Definition get_round : packet := mk_packet GET_ROUND 0 None.
Definition clear_maps : packet := mk_packet CLEAR_MAP 0 None.
Definition ping : packet := mk_packet PING 0 None.

Definition set_channel (channel : Z) : packet := mk_packet SET_CHANNEL 4 (Some (uint2bytes channel)).

Definition set_coinbase (coinbase : bytes) : packet :=
  mk_packet SET_COINBASE (u32 (Z.of_nat (length coinbase))) (Some coinbase).

Definition check_block (hash_block : words) : packet :=
  let data := GetBytes hash_block in
  mk_packet CHECK_BLOCK (u32 (Z.of_nat (length data))) (Some data).

Definition submit_block (hash_merkle_root : words) (nonce : Z) : packet :=
  mk_packet SUBMIT_BLOCK 72 (Some (GetBytes hash_merkle_root ++ uint2bytes64 nonce)).

End Daemon_packet.

(** ** Lemmas *)
Lemma read_payload_None h buffer :
  read_payload h buffer = None <-> (2 <= length buffer <= 4)%nat.
Proof.
  destruct buffer as [|? [|? [|? [|? [|? ?]]]]]; cbn; split; try done; try lia.
Qed.

(** A packet as the sender means it: the length counts the data, a request has none. *)
Definition well_framed (p : packet) : Prop :=
  match m_data p with
  | Some data => fits 7 (m_header p) /\ m_length p = Z.of_nat (length data) /\ fits 32 (m_length p)
  | None => 128 <= m_header p < 255 /\ m_length p = 0
  end.

Lemma z2b_header h w : fits w h -> w <= 8 -> b2z (z2b h) = h.
Proof. intros Hh Hw. rewrite b2z_z2b. apply wrap_small. by eapply fits_mono. Qed.

Lemma read_get_bytes p buffer :
  well_framed p -> get_bytes p = Some buffer ->
  read_payload (m_header p) buffer = Some p /\ exists rest, buffer = z2b (m_header p) :: rest.
Proof.
  destruct p as [h l [data|]]; unfold well_framed, get_bytes; cbn.
  - intros (Hh&->&Hl). rewrite (proj2 (Z.ltb_lt h 128)) by (unfold fits in Hh; lia).
    intros [= <-]. split; [|by eexists]. cbn -[z2b be32].
    by rewrite be32_uint2bytes, wrap_small.
  - intros (Hh&->). rewrite (proj2 (Z.ltb_ge h 128)) by lia. intros [= <-]. by split; [|eexists].
Qed.

Lemma well_framed_header p : well_framed p -> fits 8 (m_header p).
Proof. unfold well_framed, fits. destruct (m_data p); lia. Qed.

Lemma well_framed_get_bytes p : well_framed p -> exists buffer, get_bytes p = Some buffer.
Proof.
  unfold well_framed, get_bytes. destruct (m_data p) as [data|].
  - intros _. by destruct (_ <? _); eexists.
  - intros [H _]. rewrite (proj2 (Z.ltb_ge (m_header p) 128)) by lia. by eexists.
Qed.

(** ** Properties *)

(** A well framed packet survives the wire in both protocols: the bytes
    [get_bytes] sends are read back by either constructor as the same header, length and data. *)
Theorem frame_roundtrip p :
  well_framed p ->
  exists buffer, get_bytes p = Some buffer /\
    Packet.parse buffer = Some p /\ Daemon_packet.parse buffer = Some p.
Proof.
  intros Hp. destruct (well_framed_get_bytes p Hp) as [buffer Hb]. exists buffer. split; [done|].
  destruct (read_get_bytes p buffer Hp Hb) as [Hr [rest ->]].
  pose proof (z2b_header _ 8 (well_framed_header p Hp) ltac:(lia)) as Hh.
  unfold Packet.parse, Daemon_packet.parse. by rewrite Hh.
Qed.

Lemma frame_roundtrip_witness :
  exists buffer, get_bytes (Daemon_packet.set_coinbase [Byte.x01; Byte.x02]) = Some buffer /\
    Packet.parse buffer = Some (Daemon_packet.set_coinbase [Byte.x01; Byte.x02]) /\
    Daemon_packet.parse buffer = Some (Daemon_packet.set_coinbase [Byte.x01; Byte.x02]).
Proof. apply frame_roundtrip. repeat split; vm_compute; congruence. Defined.

(** What a received buffer makes of the two constructors: the miners' one reads
    outside the buffer exactly when it has 2, 3 or 4 bytes, the daemon's one also when it is
    empty; every other buffer gives a packet whose header and length are in range, and an empty
    buffer from a miner gives a packet that is not valid. *)
Theorem parse_defined buffer :
  (Packet.parse buffer = None <-> (2 <= length buffer <= 4)%nat) /\
  (Daemon_packet.parse buffer = None <-> (length buffer = 0 \/ 2 <= length buffer <= 4)%nat) /\
  (forall p, Packet.parse buffer = Some p -> fits 8 (m_header p) /\ fits 32 (m_length p)) /\
  (buffer = [] -> exists p, Packet.parse buffer = Some p /\ Packet.is_valid p = false).
Proof.
  split; [apply read_payload_None|]. split.
  { unfold Daemon_packet.parse. destruct buffer as [|b buffer]; [split; [by left|done]|].
    rewrite read_payload_None. split; [by right|]. intros [H|H]; [done|done]. }
  split; [|intros ->; by eexists].
  intros p. unfold Packet.parse.
  destruct buffer as [|b0 [|b1 [|b2 [|b3 [|b4 ?]]]]]; cbn -[be32]; intros [= <-];
    cbn -[be32]; auto with width; done.
Qed.

(** the notice of a new height never carries the height.  [get_height]
    puts 4 bytes of data under the header [NEW_BLOCK], which is a request header: [get_bytes]
    sends the header byte alone, whatever the height, and the packet is not even valid. *)
Theorem height_notice_empty height :
  get_bytes (Packet.get_height height) = Some [z2b Packet.NEW_BLOCK] /\
  Packet.is_valid (Packet.get_height height) = false /\
  Packet.parse [z2b Packet.NEW_BLOCK] = Some (Packet.get_packet Packet.NEW_BLOCK).
Proof. by split_and!. Qed.
