(* ===== verification/Coinbase.v ===== *)
(** * The payout coinbase and the credits: [src/src/coinbase.hpp]

    [Coinbase] collects the outputs of the transaction that pays the miners, [Credits] what each
    account earns in a round; both have the same serialized form for their map.  [Coinbase_mt]
    forwards to a [Coinbase] under a mutex: the connections share the one object it refers to,
    so its operations are the operations here, applied to the shared state one at a time
    ([Coinbase_threads]). *)
From S2P Require Import Prelude Bytes StdMap.

(** ** The entries of a map on the wire

    The loops of the two [Serialize]: a byte for the length of the address, the address, and the
    value in eight bytes. *)
Fixpoint serialize_entries (m : smap bytes Z) : bytes :=
  match m with
  | [] => []
  | (address, value) :: m' =>
      z2b (Z.of_nat (length (string2bytes address))) ::
        string2bytes address ++ uint2bytes64 value ++ serialize_entries m'
  end.

(** One round of the two [Deserialize]: the entry at [nIterator] and the place of the next one.
    An index or a range outside the vector is undefined. *)
Definition read_entry `{Platform} (vData : bytes) (nIterator : nat) : option (bytes * Z * nat) :=
  b ← vData !! nIterator;
  let nLength := Z.to_nat (b2z b) in
  vAddress ← slice (nIterator + 1) nLength vData;
  strAddress ← bytes2string vAddress 0;
  vValue ← slice (nIterator + 1 + nLength) 8 vData;
  Some (strAddress, bytes2uint64 vValue 0, (nIterator + (nLength + 9))%nat).

(** The loop of [Deserialize]: [add] is what its body does with the entry. *)
Fixpoint read_entries `{Platform} {S} (add : bytes -> Z -> S -> S) (nSize : nat) (vData : bytes)
    (nIterator : nat) (s : S) : option S :=
  match nSize with
  | O => Some s
  | S n =>
      '(strAddress, nValue, nIterator') ← read_entry vData nIterator;
      read_entries add n vData nIterator' (add strAddress nValue s)
  end.

(** The [+=] of both classes: [mapOutputs[nAddress]] starts at 0. *)
Definition add_to (nAddress : bytes) (nValue : Z) (m : smap bytes Z) : smap bytes Z :=
  let m := if map_count nAddress m then m else map_insert nAddress 0 m in
  map_insert nAddress (u64 (default 0 (map_find nAddress m) + nValue)) m.

(** ** [Coinbase] *)
Module Coinbase.

Record t := mk {
  mapOutputs : smap bytes Z;
  nCurrentValue : Z;
  nMaxValue : Z;
  nPoolFee : Z;
}.

(** [Coinbase()] and [Coinbase(uint64_t nReward)] *)
Definition new : t := mk [] 0 0 0.
Definition with_reward (nReward : Z) : t := mk [] 0 nReward 0.

Definition AddOutput (nAddress : bytes) (nValue : Z) (c : t) : t :=
  mk (add_to nAddress nValue (mapOutputs c)) (u64 (nCurrentValue c + nValue)) (nMaxValue c)
    (nPoolFee c).

(** Returns what is left, or a negative number, as [uint64_t], when the value does not fit. *)
Definition AddTransaction (nAddress : bytes) (nValue : Z) (c : t) : Z * t :=
  if nMaxValue c <? u64 (nValue + nCurrentValue c)
  then (u64 (nMaxValue c - u64 (nValue + nCurrentValue c)), c)
  else let c := AddOutput nAddress nValue c in (u64 (nMaxValue c - nCurrentValue c), c).

Definition GetRemainder (c : t) : Z := u64 (nMaxValue c - nCurrentValue c).
Definition IsComplete (c : t) : bool := nCurrentValue c =? nMaxValue c.
Definition IsEmpty (c : t) : bool := nCurrentValue c =? 0.

Definition Serialize (c : t) : bytes :=
  z2b (Z.of_nat (length (mapOutputs c))) ::
    uint2bytes64 (nPoolFee c) ++ serialize_entries (mapOutputs c).

(** The map is not cleared first. *)
Definition Deserialize `{Platform} (vData : bytes) (nValue : Z) (c : t) : option t :=
  b ← vData !! 0%nat;
  let fee := bytes2uint64 vData 1 in
  read_entries
    (fun a v c => mk (map_insert a v (mapOutputs c)) (u64 (nCurrentValue c + v)) (nMaxValue c)
                    (nPoolFee c))
    (Z.to_nat (b2z b)) vData 9 (mk (mapOutputs c) fee nValue fee).

(** The pool fee is kept. *)
Definition Reset (nMax : Z) (c : t) : t := mk [] 0 nMax (nPoolFee c).

(** [Coinbase_mt] *)
Definition find_address (nxs_address : bytes) (c : t) : bool := map_count nxs_address (mapOutputs c).
(** [operator[]] inserts a missing address. *)
Definition get_map_outputs (nxs_address : bytes) (c : t) : Z * t :=
  match map_find nxs_address (mapOutputs c) with
  | Some v => (v, c)
  | None => (0, mk (map_insert nxs_address 0 (mapOutputs c)) (nCurrentValue c) (nMaxValue c)
                  (nPoolFee c))
  end.
(** The assignment through the reference [get_pool_fee] returns. *)
Definition set_pool_fee (fee : Z) (c : t) : t :=
  mk (mapOutputs c) (nCurrentValue c) (nMaxValue c) fee.

End Coinbase.

(** ** [Credits] *)
Module Credits.

Abbreviation t := (smap bytes Z).

Definition AddCredit (nAddress : bytes) (nValue : Z) (mapCredits : t) : t :=
  add_to nAddress nValue mapCredits.

Definition Serialize (mapCredits : t) : bytes :=
  z2b (Z.of_nat (length mapCredits)) :: serialize_entries mapCredits.

Definition Deserialize `{Platform} (vData : bytes) (mapCredits : t) : option t :=
  b ← vData !! 0%nat;
  read_entries map_insert (Z.to_nat (b2z b)) vData 1 mapCredits.

End Credits.

(** ** Lemmas on the entries *)
Definition values (m : smap bytes Z) : Z := total (fun v => v) m.

(** What survives the byte form: a one-byte length, a 32-bit value (see [Bytes.bytes2uint64]). *)
Definition entry_ok (e : bytes * Z) : Prop := (length e.1 <= 255)%nat /\ fits 32 e.2.

#[export] Instance entry_ok_dec e : Decision (entry_ok e).
Proof. unfold entry_ok. apply _. Defined.

Section entries.
Context `{Platform} (Hzero : shl32_by_32 0 = 0).

Lemma read_entry_at pre a v post :
  entry_ok (a, v) ->
  read_entry (pre ++ z2b (Z.of_nat (length a)) :: a ++ uint2bytes64 v ++ post) (length pre) =
    Some (a, v, (length pre + (length a + 9))%nat).
Proof.
  intros [Ha Hv]. cbn in Ha, Hv. unfold read_entry. set (z := z2b _).
  rewrite lookup_app_r, Nat.sub_diag by lia. cbn [lookup list_lookup mbind option_bind].
  assert (b2z z = Z.of_nat (length a)) as ->.
  { unfold z. rewrite b2z_z2b. apply wrap_small. unfold fits. lia. }
  rewrite Nat2Z.id.
  assert (slice (length pre + 1) (length a) (pre ++ z :: a ++ uint2bytes64 v ++ post) = Some a)
    as ->.
  { rewrite (cons_middle z), (app_assoc pre [z]). apply slice_app; [|done]. by rewrite length_app. }
  assert (slice (length pre + 1 + length a) 8 (pre ++ z :: a ++ uint2bytes64 v ++ post) =
    Some (uint2bytes64 v)) as ->.
  { rewrite (cons_middle z), (app_assoc pre [z]), (app_assoc _ a).
    apply slice_app; [|done]. rewrite !length_app. cbn. lia. }
  cbn [mbind option_bind].
  assert (bytes2string a 0 = Some a) as -> by exact (bytes2string_app [] a).
  cbn [mbind option_bind]. assert (bytes2uint64 (uint2bytes64 v) 0 = v) as ->; [|done].
  rewrite <-(app_nil_r (uint2bytes64 v)). by apply (bytes2uint64_small [] v [] 0).
Qed.

Lemma read_entries_all {S} (add : bytes -> Z -> S -> S) m pre post s :
  Forall entry_ok m ->
  read_entries add (length m) (pre ++ serialize_entries m ++ post) (length pre) s =
    Some (foldl (fun s e => add e.1 e.2 s) s m).
Proof.
  intros Hm. revert pre s. induction Hm as [|[a v] m He _ IH]; intros pre s; [done|].
  cbn [length serialize_entries read_entries foldl]. unfold string2bytes.
  rewrite <-app_comm_cons, <-!app_assoc, read_entry_at by done. cbn [mbind option_bind].
  specialize (IH (pre ++ z2b (Z.of_nat (length a)) :: a ++ uint2bytes64 v) (add a v s)).
  etransitivity; [|exact IH]. f_equal.
  - by rewrite <-app_assoc, <-app_comm_cons, <-app_assoc.
  - rewrite !length_app. cbn [length]. rewrite length_app, length_uint2bytes64. lia.
Qed.
End entries.

Lemma insert_all m1 m2 :
  map_sorted (m1 ++ m2) -> foldl (fun (m : smap bytes Z) e => map_insert e.1 e.2 m) m1 m2 = m1 ++ m2.
Proof.
  revert m1. induction m2 as [|[a v] m2 IH]; intros m1 Hs; [by rewrite app_nil_r|].
  cbn [foldl fst snd]. rewrite cons_middle, app_assoc in Hs.
  rewrite insert_last by (by eapply map_sorted_app_l).
  rewrite IH by done. by rewrite <-app_assoc.
Qed.

Lemma length_serialize_entries m :
  (length (serialize_entries m) = 9 * length m + length (concat m.*1))%nat.
Proof.
  induction m as [|[a v] m IH]; [done|]. cbn [serialize_entries length].
  rewrite !length_app, IH, length_uint2bytes64. cbn. rewrite length_app. unfold string2bytes. lia.
Qed.

(** ** Adding to an entry *)
Lemma add_to_sorted a v m : map_sorted m -> map_sorted (add_to a v m).
Proof. intros Hs. unfold add_to. destruct (map_count a m); auto. Qed.

Lemma add_to_eq a v m :
  map_sorted m -> add_to a v m = map_insert a (u64 (default 0 (map_find a m) + v)) m.
Proof.
  intros Hs. unfold add_to, map_count. destruct (map_find a m) as [w|] eqn:E; [by rewrite E|].
  rewrite find_insert_eq. apply smap_eq; auto. intros k.
  rewrite !find_insert by auto. by case_decide.
Qed.

Lemma find_add_to a b v m :
  map_sorted m -> map_find b (add_to a v m) =
    if decide (b = a) then Some (u64 (default 0 (map_find a m) + v)) else map_find b m.
Proof. intros Hs. rewrite add_to_eq, find_insert by done. repeat case_decide; congruence. Qed.

Lemma values_add_to a v m :
  map_sorted m -> fits 64 (default 0 (map_find a m) + v) ->
  values (add_to a v m) = values m + v.
Proof.
  intros Hs Hv. unfold values. rewrite add_to_eq, total_insert, wrap_small by done.
  destruct (map_find a m); cbn; lia.
Qed.

(** ** The invariant of a coinbase that is being filled *)
Definition accounted (c : Coinbase.t) : Prop :=
  map_sorted (Coinbase.mapOutputs c) /\
  (forall a v, (a, v) ∈ Coinbase.mapOutputs c -> 0 <= v) /\
  Coinbase.nCurrentValue c = values (Coinbase.mapOutputs c) /\
  0 <= Coinbase.nCurrentValue c <= Coinbase.nMaxValue c /\ Coinbase.nMaxValue c < 2 ^ 64.

Lemma Reset_accounted nMax c : fits 64 nMax -> accounted (Coinbase.Reset nMax c).
Proof.
  unfold fits. intros H. repeat split; cbn; try done; try lia.
  intros a v Hin. by apply not_elem_of_nil in Hin.
Qed.

Lemma output_le c a :
  accounted c -> 0 <= default 0 (map_find a (Coinbase.mapOutputs c)) <= Coinbase.nCurrentValue c.
Proof.
  intros (Hs&Hv&->&_&_). unfold values.
  destruct (map_find a _) as [v|] eqn:E; cbn [default].
  - split; [|by apply (total_find_le (fun v => v) a)]. apply (Hv a). by apply find_Some.
  - pose proof (total_nonneg (fun v => v) _ Hv). lia.
Qed.

Lemma AddOutput_accounted a v c :
  accounted c -> 0 <= v -> v + Coinbase.nCurrentValue c <= Coinbase.nMaxValue c ->
  accounted (Coinbase.AddOutput a v c) /\
  Coinbase.nCurrentValue (Coinbase.AddOutput a v c) = Coinbase.nCurrentValue c + v.
Proof.
  intros Hc Hv Hle. pose proof (output_le c a Hc) as Ha.
  destruct Hc as (Hs&Hpos&Hcur&Hle'&Hmax). unfold accounted. cbn.
  rewrite (wrap_small 64 (_ + v)) by (unfold fits; lia).
  split; [|done]. split; [by apply add_to_sorted|]. split; [|].
  - intros b w Hin%find_Some; [|by apply add_to_sorted].
    rewrite find_add_to in Hin by done. case_decide.
    + injection Hin as <-. pose proof (wrap_fits 64 (default 0 (map_find a (Coinbase.mapOutputs c)) + v) ltac:(lia)) as Hf. unfold fits in Hf. lia.
    + apply find_Some in Hin; [eauto|done].
  - rewrite values_add_to by (done || (unfold fits; lia)). lia.
Qed.

Lemma AddTransaction_accounted a v c :
  accounted c -> 0 <= v -> v + Coinbase.nCurrentValue c < 2 ^ 64 ->
  accounted (Coinbase.AddTransaction a v c).2.
Proof.
  intros Hc Hv Ho. unfold Coinbase.AddTransaction. pose proof Hc as (_&_&_&?&_).
  rewrite wrap_small by (unfold fits; lia).
  destruct (Z.ltb_spec (Coinbase.nMaxValue c) (v + Coinbase.nCurrentValue c)); [done|].
  by apply AddOutput_accounted.
Qed.

(** A sequence of transactions, as the callers make. *)
Definition add_all (l : list (bytes * Z)) (c : Coinbase.t) : Coinbase.t :=
  foldl (fun c e => (Coinbase.AddTransaction e.1 e.2 c).2) c l.

Lemma Deserialize_coinbase `{Platform} c c0 nValue post :
  shl32_by_32 0 = 0 -> map_sorted (Coinbase.mapOutputs c) ->
  (length (Coinbase.mapOutputs c) <= 255)%nat -> Forall entry_ok (Coinbase.mapOutputs c) ->
  fits 32 (Coinbase.nPoolFee c) -> Coinbase.mapOutputs c0 = [] ->
  Coinbase.Deserialize (Coinbase.Serialize c ++ post) nValue c0 =
    Some (Coinbase.mk (Coinbase.mapOutputs c)
            (u64 (Coinbase.nPoolFee c + values (Coinbase.mapOutputs c))) nValue
            (Coinbase.nPoolFee c)).
Proof.
  destruct c as [m cur mx fee]. cbn [Coinbase.mapOutputs Coinbase.nPoolFee].
  intros H0 Hs Hlen Hm Hfee Hc0.
  unfold Coinbase.Deserialize, Coinbase.Serialize. cbn [Coinbase.mapOutputs Coinbase.nPoolFee].
  set (z := z2b _).
  assert (Z.to_nat (b2z z) = length m) as Hz.
  { unfold z. rewrite b2z_z2b, wrap_small by (unfold fits; lia). apply Nat2Z.id. }
  rewrite <-app_comm_cons, <-app_assoc. cbn [lookup list_lookup mbind option_bind].
  rewrite Hz, (bytes2uint64_small [z] fee _ 1 H0 eq_refl Hfee : bytes2uint64 (z :: _) 1 = fee).
  pose proof (read_entries_all H0 (fun a v c => Coinbase.mk (map_insert a v (Coinbase.mapOutputs c))
    (u64 (Coinbase.nCurrentValue c + v)) (Coinbase.nMaxValue c) (Coinbase.nPoolFee c))
    m (z :: uint2bytes64 fee) post (Coinbase.mk [] fee nValue fee) Hm) as Hr.
  rewrite Hc0. etransitivity; [exact Hr|]. f_equal.
  assert (Hgen : forall m2 m1 c1, map_sorted (m1 ++ m2) -> Coinbase.mapOutputs c1 = m1 ->
    foldl (fun c e => Coinbase.mk (map_insert e.1 e.2 (Coinbase.mapOutputs c))
      (u64 (Coinbase.nCurrentValue c + e.2)) (Coinbase.nMaxValue c) (Coinbase.nPoolFee c)) c1 m2 =
    Coinbase.mk (m1 ++ m2)
      (match m2 with [] => Coinbase.nCurrentValue c1
       | _ => u64 (Coinbase.nCurrentValue c1 + values m2) end)
      (Coinbase.nMaxValue c1) (Coinbase.nPoolFee c1)).
  { induction m2 as [|[a v] m2 IH]; intros m1 [? cur1 mx1 fee1] Hs1 <-; cbn in Hs1 |- *.
    - by rewrite app_nil_r.
    - rewrite cons_middle, app_assoc in Hs1 |- *.
      rewrite insert_last by (by eapply map_sorted_app_l). rewrite (IH _ _ Hs1) by done. cbn.
      unfold values. cbn [total]. f_equal. destruct m2 as [|e m2]; [by rewrite Z.add_0_r|].
      rewrite wrap_add_l. f_equal. lia. }
  rewrite (Hgen m []) by done. cbn [app Coinbase.nCurrentValue Coinbase.nMaxValue Coinbase.nPoolFee].
  f_equal. destruct m; [|done]. cbn. rewrite Z.add_0_r. symmetry. apply wrap_small.
  unfold fits in *. lia.
Qed.

Lemma Deserialize_credits `{Platform} m post :
  shl32_by_32 0 = 0 -> map_sorted m -> (length m <= 255)%nat -> Forall entry_ok m ->
  Credits.Deserialize (Credits.Serialize m ++ post) [] = Some m.
Proof.
  intros H0 Hs Hlen Hm. unfold Credits.Deserialize, Credits.Serialize. set (z := z2b _).
  assert (Z.to_nat (b2z z) = length m) as Hz.
  { unfold z. rewrite b2z_z2b, wrap_small by (unfold fits; lia). apply Nat2Z.id. }
  cbn [app lookup list_lookup mbind option_bind]. rewrite Hz.
  pose proof (read_entries_all H0 map_insert m [z] post []) as Hr. cbn [app length] in Hr.
  rewrite Hr by done. f_equal. by rewrite (insert_all []).
Qed.

(** ** Properties *)

(** [AddTransaction] on a coinbase that is being filled, for a value that does
    not overflow the sum: it is accepted exactly when it fits under the maximum; then its address
    and no other gains the value, the current value stays the sum of the outputs and at most the
    maximum, and the remainder is returned.  Otherwise nothing changes and the result is the
    missing amount as a negative 64-bit number. *)
Theorem add_transaction a v c r c' :
  accounted c -> 0 <= v -> v + Coinbase.nCurrentValue c < 2 ^ 64 ->
  Coinbase.AddTransaction a v c = (r, c') ->
  accounted c' /\
  Coinbase.nMaxValue c' = Coinbase.nMaxValue c /\ Coinbase.nPoolFee c' = Coinbase.nPoolFee c /\
  if v + Coinbase.nCurrentValue c <=? Coinbase.nMaxValue c then
    r = Coinbase.nMaxValue c' - Coinbase.nCurrentValue c' /\
    Coinbase.nCurrentValue c' = Coinbase.nCurrentValue c + v /\
    forall b, map_find b (Coinbase.mapOutputs c') =
      if decide (b = a) then Some (default 0 (map_find a (Coinbase.mapOutputs c)) + v)
      else map_find b (Coinbase.mapOutputs c)
  else
    c' = c /\
    r = 2 ^ 64 - (v + Coinbase.nCurrentValue c - Coinbase.nMaxValue c).
Proof.
  intros Hc Hv Ho. pose proof Hc as (Hs&_&_&Hle&Hmax). pose proof (output_le c a Hc).
  unfold Coinbase.AddTransaction. rewrite (wrap_small 64 (v + _)) by (unfold fits; lia).
  rewrite Z.ltb_antisym. destruct (Z.leb_spec (v + Coinbase.nCurrentValue c) (Coinbase.nMaxValue c));
    cbn [negb]; intros [= <- <-].
  - destruct (AddOutput_accounted a v c Hc Hv ltac:(lia)) as [Hc' Hcur].
    split; [done|]. split; [done|]. split; [done|]. split; [|split; [done|]].
    + apply wrap_small. destruct Hc' as (_&_&_&?&?). unfold fits. lia.
    + intros b. cbn. rewrite find_add_to by done. case_decide; [|done].
      by rewrite wrap_small by (unfold fits; lia).
  - split; [done|]. split; [done|]. split; [done|]. split; [done|].
    symmetry. unfold wrap. zlia.
Qed.

Lemma add_transaction_witness :
  let c := Coinbase.with_reward 100 in
  accounted c /\ accounted (Coinbase.AddTransaction [Byte.x41] 70 c).2.
Proof.
  assert (Hc : accounted (Coinbase.with_reward 100)) by (by apply (Reset_accounted 100 Coinbase.new)).
  split; [exact Hc|].
  exact (proj1 (add_transaction [Byte.x41] 70 _ _ _ Hc ltac:(done) ltac:(done) eq_refl)).
Defined.

(** without that bound the guard is no protection: a value close
    enough to [2^64] wraps the sum below the maximum, is accepted, and its output alone exceeds
    the maximum while the current value goes down. *)
Theorem add_transaction_overflow a d c :
  accounted c -> map_find a (Coinbase.mapOutputs c) = None ->
  0 < d <= Coinbase.nCurrentValue c ->
  let c' := (Coinbase.AddTransaction a (2 ^ 64 - d) c).2 in
  map_find a (Coinbase.mapOutputs c') = Some (2 ^ 64 - d) /\
  Coinbase.nCurrentValue c' = Coinbase.nCurrentValue c - d /\
  Coinbase.nMaxValue c' <= 2 ^ 64 - 1.
Proof.
  intros (Hs&_&_&Hle&Hmax) Ha Hd. unfold Coinbase.AddTransaction.
  assert (u64 (2 ^ 64 - d + Coinbase.nCurrentValue c) = Coinbase.nCurrentValue c - d) as ->.
  { unfold wrap. zlia. }
  rewrite (proj2 (Z.ltb_ge (Coinbase.nMaxValue c) _)) by lia. cbn zeta. cbn [snd].
  split; [|split; [|cbn; lia]].
  - cbn [Coinbase.AddOutput Coinbase.mapOutputs]. rewrite find_add_to, decide_True, Ha by done.
    cbn [default]. by rewrite wrap_small by (unfold fits; lia).
  - cbn. unfold wrap. zlia.
Qed.

Lemma add_transaction_overflow_witness :
  let c := (Coinbase.AddTransaction [Byte.x41] 70 (Coinbase.with_reward 100)).2 in
  Coinbase.nCurrentValue (Coinbase.AddTransaction [Byte.x42] (2 ^ 64 - 5) c).2 = 65.
Proof.
  pose (c := (Coinbase.AddTransaction [Byte.x41] 70 (Coinbase.with_reward 100)).2).
  assert (Hc : accounted c).
  { apply AddTransaction_accounted; [by apply (Reset_accounted 100 Coinbase.new)|done|done]. }
  assert (Hd : 0 < 5 <= Coinbase.nCurrentValue c) by (split; vm_compute; congruence).
  exact (proj1 (proj2 (add_transaction_overflow [Byte.x42] 5 c Hc eq_refl Hd))).
Defined.

(** A coinbase with at most 255 outputs, addresses of at most 255 bytes and
    32-bit amounts survives its byte form, whatever follows it: the outputs and the fee are read
    back, the maximum is the value given, and the current value is the fee plus the outputs.  So a
    coinbase whose outputs and fee make up the reward is read back complete. *)
Theorem coinbase_roundtrip `{Platform} c post nValue :
  shl32_by_32 0 = 0 -> map_sorted (Coinbase.mapOutputs c) ->
  (length (Coinbase.mapOutputs c) <= 255)%nat -> Forall entry_ok (Coinbase.mapOutputs c) ->
  fits 32 (Coinbase.nPoolFee c) ->
  exists c', Coinbase.Deserialize (Coinbase.Serialize c ++ post) nValue Coinbase.new = Some c' /\
    Coinbase.mapOutputs c' = Coinbase.mapOutputs c /\
    Coinbase.nPoolFee c' = Coinbase.nPoolFee c /\ Coinbase.nMaxValue c' = nValue /\
    (fits 64 nValue -> Coinbase.nPoolFee c + values (Coinbase.mapOutputs c) = nValue ->
     Coinbase.IsComplete c' = true).
Proof.
  intros H0 Hs Hlen Hm Hfee. eexists. split; [by apply Deserialize_coinbase|].
  split; [done|]. split; [done|]. split; [done|]. intros Hv Hsum. cbn.
  rewrite Hsum. apply Z.eqb_eq. by apply wrap_small.
Qed.

Lemma coinbase_roundtrip_witness :
  let c := Coinbase.mk [([Byte.x41], 70); ([Byte.x42; Byte.x43], 25)] 95 100 5 in
  exists c', Coinbase.Deserialize (H := zero_platform) (Coinbase.Serialize c ++ []) 100
      Coinbase.new = Some c' /\
    Coinbase.mapOutputs c' = Coinbase.mapOutputs c.
Proof.
  cbv zeta. destruct (coinbase_roundtrip (H := zero_platform)
    (Coinbase.mk [([Byte.x41], 70); ([Byte.x42; Byte.x43], 25)] 95 100 5) [] 100)
    as (c'&H1&H2&_).
  - reflexivity.
  - repeat constructor.
  - vm_compute. lia.
  - repeat constructor; vm_compute; congruence.
  - split; vm_compute; congruence.
  - exists c'. exact (conj H1 H2).
Defined.
