(* ===== verification/LLD.v ===== *)
(** * The record database: [src/src/LLD/database.h] and [src/src/LLD/record.h]

    [Database<KeyType, RecordType>] keeps its records in a [std::map] under a mutex and copies
    them to and from a file.  [LLD_record] is what it needs of a record type, [LLD_record_laws]
    what a record type promises it; [Account] and [Block] are the two instances.  Each operation
    is one critical section, a function on the map; the file is its bytes. *)
From S2P Require Import Prelude Bytes StdMap Uint Coinbase.

(** ** The interface between the database and its records *)
Class LLD_record (K R : Type) := {
  cKey : R -> K;
  blank : R;
  Serialize : R -> bytes;
  Deserialize : bytes -> option R;
}.

(** [reload r] is the record read back for [r]; [storable] what the byte form can hold. *)
Class LLD_record_laws (K R : Type) `{LLD_record K R} := {
  storable : R -> Prop;
  reload : R -> R;
  Deserialize_Serialize : forall r, storable r -> Deserialize (Serialize r) = Some (reload r);
  Serialize_size : forall r, storable r -> fits 32 (Z.of_nat (length (Serialize r)));
  cKey_reload : forall r, cKey (reload r) = cKey r;
  Deserialize_nil : Deserialize [] = None;
}.

(** ** [Database] *)
Module Database.
Section Database.
Context {K R : Type} `{KeyOrder K} `{LLD_record K R}.

Abbreviation t := (smap K R).
Implicit Types (mapRecords : t).

Definition GetKeys mapRecords : list K := map_keys mapRecords.
Definition HasKey (k : K) mapRecords : bool := map_count k mapRecords.
Definition EraseRecord (k : K) mapRecords : t := map_erase k mapRecords.

(** [mapRecords[cKey]] inserts a blank record under a missing key. *)
Definition GetRecord (k : K) mapRecords : R * t :=
  match map_find k mapRecords with
  | Some r => (r, mapRecords)
  | None => (blank, map_insert k blank mapRecords)
  end.

(** The key is the record's own. *)
Definition UpdateRecord (cRecord : R) mapRecords : t := map_insert (cKey cRecord) cRecord mapRecords.

(** The bytes written: each record after its size. *)
Fixpoint WriteToDisk mapRecords : bytes :=
  match mapRecords with
  | [] => []
  | (_, r) :: m' =>
      let vData := Serialize r in
      uint2bytes (u32 (Z.of_nat (length vData))) ++ vData ++ WriteToDisk m'
  end.

(** The loop of [ReadIntoMemory].  A read that is cut short leaves the stream failed: [tellg()]
    is then -1, below the length, and the next round builds a record from an empty vector, which
    is undefined for both record types. *)
Fixpoint read_records (fuel : nat) (file : bytes) mapRecords : option t :=
  match fuel with
  | O => None
  | S fuel' =>
      match file with
      | [] => Some mapRecords
      | _ =>
          vSize ← slice 0 4 file;
          let nSize := Z.to_nat (bytes2uint vSize 0) in
          vData ← slice 4 nSize file;
          cRecord ← Deserialize vData;
          read_records fuel' (drop (4 + nSize) file) (map_insert (cKey cRecord) cRecord mapRecords)
      end
  end.

(** [None] is a file that cannot be opened: the memory is left empty. *)
Definition ReadIntoMemory (file : option bytes) : option t :=
  match file with
  | None => Some []
  | Some f => read_records (S (length f)) f []
  end.

End Database.
End Database.

(** ** [Account] *)
Module Account.

Record t := mk {
  key : bytes;
  nAccountBalance : Z;
  nRoundShares : Z;
  nBlocksFound : Z;
}.

Definition new (strKey : bytes) : t := mk strKey 0 0 0.

Definition Serialize (a : t) : bytes :=
  uint2bytes64 (nAccountBalance a) ++ uint2bytes64 (nRoundShares a) ++
    uint2bytes (nBlocksFound a) ++ string2bytes (key a).

Definition Deserialize `{Platform} (vInputData : bytes) : option t :=
  k ← bytes2string vInputData 20;
  Some (mk k (bytes2uint64 vInputData 0) (bytes2uint64 vInputData 8) (bytes2uint vInputData 16)).

Definition set_balance (b : Z) (a : t) : t := mk (key a) b (nRoundShares a) (nBlocksFound a).
Definition set_shares (s : Z) (a : t) : t := mk (key a) (nAccountBalance a) s (nBlocksFound a).

End Account.

(** ** [Block]: the key, a [uint1024], is its value *)
Module Block.

Record t := mk {
  key : Z;
  nCoinbaseValue : Z;
  cCoinbase : Coinbase.t;
  cCredits : Credits.t;
  nRound : Z;
}.

Definition new (nKey : Z) : t := mk nKey 0 Coinbase.new [] 0.

Definition Serialize (b : t) : bytes :=
  let vCoinbase := Coinbase.Serialize (cCoinbase b) in
  uint2bytes64 (nCoinbaseValue b) ++ uint2bytes (u32 (Z.of_nat (length vCoinbase))) ++
    vCoinbase ++ Credits.Serialize (cCredits b) ++ uint2bytes (nRound b) ++
    GetBytes (of_val WIDTH1024 (key b)).

(** The ranges are counted from both ends of the vector: [end() - 132] and [end() - 128] of too
    short a vector, and a first range longer than the rest, are undefined. *)
Definition Deserialize `{Platform} (vInputData : bytes) : option t :=
  let size := length vInputData in
  let value := bytes2uint64 vInputData 0 in
  let nBytes := Z.to_nat (bytes2uint vInputData 8) in
  if bool_decide (nBytes + 12 + 132 <= size)%nat then
    vCoinbase ← slice 12 nBytes vInputData;
    coinbase ← Coinbase.Deserialize vCoinbase value Coinbase.new;
    vCredits ← slice (nBytes + 12) (size - 132 - (nBytes + 12)) vInputData;
    credits ← Credits.Deserialize vCredits [];
    vRound ← slice (size - 132) 4 vInputData;
    vKey ← slice (size - 128) 128 vInputData;
    pn ← SetBytes WIDTH1024 vKey;
    Some (mk (val pn) value coinbase credits (bytes2uint vRound 0))
  else None.

Definition set_value (v : Z) (b : t) : t := mk (key b) v (cCoinbase b) (cCredits b) (nRound b).

End Block.

#[export] Instance Account_record `{Platform} : LLD_record bytes Account.t := {|
  cKey := Account.key;
  blank := Account.new [];
  Serialize := Account.Serialize;
  Deserialize := Account.Deserialize;
|}.

#[export] Instance Block_record `{Platform} : LLD_record Z Block.t := {|
  cKey := Block.key;
  blank := Block.new 0;
  Serialize := Block.Serialize;
  Deserialize := Block.Deserialize;
|}.

(** ** The records satisfy the laws *)
Definition account_ok (a : Account.t) : Prop :=
  fits 32 (Account.nAccountBalance a) /\ fits 32 (Account.nRoundShares a) /\
  fits 32 (Account.nBlocksFound a) /\ fits 31 (Z.of_nat (length (Account.key a))).

Definition map_ok (m : smap bytes Z) : Prop :=
  map_sorted m /\ (length m <= 255)%nat /\ Forall entry_ok m.

Definition block_ok (b : Block.t) : Prop :=
  fits 1024 (Block.key b) /\ fits 32 (Block.nCoinbaseValue b) /\ fits 32 (Block.nRound b) /\
  map_ok (Coinbase.mapOutputs (Block.cCoinbase b)) /\
  fits 32 (Coinbase.nPoolFee (Block.cCoinbase b)) /\ map_ok (Block.cCredits b).

(** A block read back: the maximum of its coinbase is the coinbase value of the record, and the
    current value counts the pool fee. *)
Definition reload_coinbase (nValue : Z) (c : Coinbase.t) : Coinbase.t :=
  Coinbase.mk (Coinbase.mapOutputs c)
    (u64 (Coinbase.nPoolFee c + values (Coinbase.mapOutputs c))) nValue (Coinbase.nPoolFee c).
Definition reload_block (b : Block.t) : Block.t :=
  Block.mk (Block.key b) (Block.nCoinbaseValue b)
    (reload_coinbase (Block.nCoinbaseValue b) (Block.cCoinbase b)) (Block.cCredits b)
    (Block.nRound b).

Lemma entries_size m :
  (length m <= 255)%nat -> Forall entry_ok m -> (length (serialize_entries m) <= 264 * 255)%nat.
Proof.
  intros Hl Hm. transitivity (264 * length m)%nat; [|lia]. clear Hl.
  induction Hm as [|[a v] m [Ha _] _ IH]; [done|]. cbn in Ha. cbn [serialize_entries length].
  unfold string2bytes. rewrite !length_app, length_uint2bytes64. lia.
Qed.

Section records.
Context `{Platform} (Hzero : shl32_by_32 0 = 0).

Lemma Account_roundtrip a : account_ok a -> Account.Deserialize (Account.Serialize a) = Some a.
Proof.
  destruct a as [k b s n]. intros (Hb&Hs&Hn&_). cbn in Hb, Hs, Hn.
  unfold Account.Deserialize, Account.Serialize. cbn [Account.key Account.nAccountBalance
    Account.nRoundShares Account.nBlocksFound]. unfold string2bytes.
  assert (bytes2string (uint2bytes64 b ++ uint2bytes64 s ++ uint2bytes n ++ k) 20 = Some k) as ->.
  { rewrite !app_assoc.
    exact (bytes2string_app ((uint2bytes64 b ++ uint2bytes64 s) ++ uint2bytes n) k). }
  cbn [mbind option_bind]. do 2 f_equal.
  - by apply (bytes2uint64_small []).
  - by apply bytes2uint64_small.
  - rewrite app_assoc, bytes2uint_uint2bytes by done. by apply wrap_small.
Qed.

Lemma Account_size a : account_ok a -> fits 32 (Z.of_nat (length (Account.Serialize a))).
Proof.
  intros (_&_&_&Hk). unfold Account.Serialize, string2bytes.
  rewrite !length_app, !length_uint2bytes64, length_uint2bytes. unfold fits in *. lia.
Qed.

Lemma Block_size b : block_ok b -> fits 32 (Z.of_nat (length (Block.Serialize b))).
Proof.
  intros (_&_&_&(_&Hlo&Ho)&_&(_&Hlc&Hc)).
  pose proof (entries_size _ Hlo Ho). pose proof (entries_size _ Hlc Hc).
  unfold Block.Serialize, Coinbase.Serialize, Credits.Serialize.
  repeat (rewrite ?length_app, ?length_uint2bytes64, ?length_uint2bytes, ?length_GetBytes;
    cbn [length]).
  destruct (of_val_wf WIDTH1024 (Block.key b)) as [-> _]. unfold fits, WIDTH1024. lia.
Qed.

(** Where the parts of a block record are. *)
Lemma block_slices (vV vL vC vR vN vK : bytes) :
  length vV = 8%nat -> length vL = 4%nat -> length vN = 4%nat -> length vK = 128%nat ->
  let l := vV ++ vL ++ vC ++ vR ++ vN ++ vK in
  length l = (12 + length vC + length vR + 4 + 128)%nat /\
  slice 12 (length vC) l = Some vC /\
  slice (length vC + 12) (length l - 132 - (length vC + 12)) l = Some vR /\
  slice (length l - 132) 4 l = Some vN /\
  slice (length l - 128) 128 l = Some vK.
Proof.
  intros HV HL HN HK l.
  assert (Hl : length l = (12 + length vC + length vR + 4 + 128)%nat).
  { unfold l. rewrite !length_app, HV, HL, HN, HK. lia. }
  rewrite Hl. split; [done|]. unfold l. rewrite (app_assoc vV vL).
  split; [apply slice_app; [rewrite length_app|]; lia|]. rewrite (app_assoc _ vC).
  split; [apply slice_app; rewrite ?length_app; lia|]. rewrite (app_assoc _ vR).
  split; [apply slice_app; rewrite ?length_app; lia|]. rewrite (app_assoc _ vN).
  rewrite <-(app_nil_r vK) at 1. apply slice_app; rewrite ?length_app; lia.
Qed.

Lemma Block_roundtrip b :
  block_ok b -> Block.Deserialize (Block.Serialize b) = Some (reload_block b).
Proof.
  destruct b as [k v c cr n]. intros (Hk&Hv&Hn&(Hso&Hlo&Ho)&Hfee&(Hsc&Hlc&Hc)).
  cbn in Hk, Hv, Hn, Hso, Hlo, Ho, Hfee, Hsc, Hlc, Hc.
  unfold Block.Deserialize, Block.Serialize, reload_block.
  cbn [Block.key Block.nCoinbaseValue Block.cCoinbase Block.cCredits Block.nRound].
  set (vC := Coinbase.Serialize c). set (vR := Credits.Serialize cr).
  set (vK := GetBytes (of_val WIDTH1024 k)).
  assert (HC : fits 32 (Z.of_nat (length vC))).
  { pose proof (entries_size _ Hlo Ho). unfold vC, Coinbase.Serialize. cbn [length].
    rewrite length_app, length_uint2bytes64. unfold fits. lia. }
  assert (HK : length vK = 128%nat).
  { unfold vK. rewrite length_GetBytes. by destruct (of_val_wf WIDTH1024 k) as [-> _]. }
  set (vL := uint2bytes (u32 (Z.of_nat (length vC)))).
  destruct (block_slices (uint2bytes64 v) vL vC vR (uint2bytes n) vK) as (Hl&HsC&HsR&HsN&HsK); [done..|].
  set (l := uint2bytes64 v ++ _) in *.
  assert (bytes2uint64 l 0 = v) as -> by (by apply (bytes2uint64_small [])).
  assert (bytes2uint l 8 = Z.of_nat (length vC)) as ->.
  { unfold l, vL. rewrite bytes2uint_uint2bytes, wrap_wrap by done. by apply wrap_small. }
  rewrite Nat2Z.id, bool_decide_eq_true_2, HsC by lia. cbn [mbind option_bind].
  assert (Coinbase.Deserialize vC v Coinbase.new = Some (reload_coinbase v c)) as ->.
  { rewrite <-(app_nil_r vC). by apply Deserialize_coinbase. }
  cbn [mbind option_bind]. rewrite HsR. cbn [mbind option_bind].
  assert (Credits.Deserialize vR [] = Some cr) as ->.
  { rewrite <-(app_nil_r vR). by apply Deserialize_credits. }
  cbn [mbind option_bind]. rewrite HsN. cbn [mbind option_bind]. rewrite HsK. cbn [mbind option_bind].
  assert (SetBytes WIDTH1024 vK = Some (of_val WIDTH1024 k)) as ->.
  { destruct (of_val_wf WIDTH1024 k) as [HW HF]. rewrite <-(app_nil_r vK).
    rewrite <-HW at 1. by apply SetBytes_GetBytes. }
  cbn [mbind option_bind]. rewrite val_of_val, bytes2uint_uint2bytes_nil.
  by rewrite (wrap_small 32 n), wrap_small.
Qed.

#[local] Instance Account_laws : LLD_record_laws bytes Account.t.
Proof.
  refine {| storable := account_ok; reload a := a |};
    [apply Account_roundtrip|apply Account_size|done|done].
Defined.

#[local] Instance Block_laws : LLD_record_laws Z Block.t.
Proof.
  refine {| storable := block_ok; reload := reload_block |};
    [apply Block_roundtrip|apply Block_size|done|done].
Defined.
End records.

(** ** The database *)
Section database.
Context {K R : Type} `{KeyOrder K} `{LLD_record_laws K R}.
Implicit Types (db : smap K R).

(** Every record is filed under its own key. *)
Definition consistent db : Prop :=
  map_sorted db /\ Forall (fun e => cKey e.2 = e.1) db.

Definition reloaded db : smap K R := (fun e => (e.1, reload e.2)) <$> db.

Lemma reloaded_below k db : below k db -> below k (reloaded db).
Proof. intros Hb. unfold below, reloaded. by apply Forall_fmap. Qed.

Lemma reloaded_sorted db : map_sorted db -> map_sorted (reloaded db).
Proof.
  induction db as [|[k r] db IH]; [done|]. cbn. intros [Hb Hs].
  split; [by apply reloaded_below|by apply IH].
Qed.

Lemma consistent_insert r db : consistent db -> consistent (Database.UpdateRecord r db).
Proof.
  intros [Hs Hc]. unfold Database.UpdateRecord. split; [by apply insert_sorted|].
  clear Hs. induction Hc as [|[k' r'] db Hk Hc IH]; cbn; [by repeat constructor|].
  split_cases; constructor; try done. by constructor.
Qed.

Lemma consistent_erase k db : consistent db -> consistent (Database.EraseRecord k db).
Proof.
  intros [Hs Hc]. unfold Database.EraseRecord. split; [by apply erase_sorted|].
  clear Hs. induction Hc as [|[k' r'] db Hk Hc IH]; cbn; [by constructor|].
  split_cases; try done; by constructor.
Qed.

Lemma consistent_find k r db : consistent db -> map_find k db = Some r -> cKey r = k.
Proof.
  intros [Hs Hc] Hf. apply find_Some in Hf; [|done].
  rewrite Forall_forall in Hc. by apply (Hc (k, r)).
Qed.

Lemma length_WriteToDisk_cons k r db :
  length (Database.WriteToDisk ((k, r) :: db)) =
    (4 + length (Serialize r) + length (Database.WriteToDisk db))%nat.
Proof. cbn [Database.WriteToDisk]. by rewrite !length_app, length_uint2bytes, Nat.add_assoc. Qed.

(** One round of the loop reads the record at the front of the file. *)
Lemma read_records_front fuel sz v r post m :
  length sz = 4%nat -> Z.to_nat (bytes2uint sz 0) = length v -> Deserialize v = Some r ->
  Database.read_records (S fuel) (sz ++ v ++ post) m =
    Database.read_records fuel post (map_insert (cKey r) r m).
Proof.
  intros Hsz Hn Hd. cbn [Database.read_records].
  destruct (sz ++ v ++ post) as [|b rest] eqn:E; [by destruct sz|]. rewrite <-E.
  assert (slice 0 4 (sz ++ v ++ post) = Some sz) as -> by (by apply (slice_app [])).
  cbn [mbind option_bind]. rewrite Hn.
  rewrite slice_app by done. cbn [mbind option_bind]. rewrite Hd. cbn [mbind option_bind].
  rewrite app_assoc, drop_app_length' by (rewrite length_app; lia). done.
Qed.

Lemma read_records_cons fuel r post m :
  storable r ->
  Database.read_records (S fuel)
      (uint2bytes (u32 (Z.of_nat (length (Serialize r)))) ++ Serialize r ++ post) m =
    Database.read_records fuel post (map_insert (cKey r) (reload r) m).
Proof.
  intros Hr. pose proof (Serialize_size r Hr) as Hsz. rewrite <-(cKey_reload r).
  apply read_records_front; [done| |by apply Deserialize_Serialize].
  by rewrite bytes2uint_uint2bytes_nil, wrap_wrap, wrap_small, Nat2Z.id.
Qed.

Lemma read_records_all fuel db m :
  map_sorted (m ++ reloaded db) -> Forall (fun e => cKey e.2 = e.1) db ->
  Forall (fun e => storable e.2) db -> (length (Database.WriteToDisk db) < fuel)%nat ->
  Database.read_records fuel (Database.WriteToDisk db) m = Some (m ++ reloaded db).
Proof.
  revert fuel m. induction db as [|[k r] db IH]; intros fuel m Hs Hk Hr Hf.
  { destruct fuel as [|fuel]; [lia|]. cbn. by rewrite app_nil_r. }
  apply Forall_cons in Hk as [Hk Hk'], Hr as [Hr Hr']. cbn in Hk, Hr.
  rewrite length_WriteToDisk_cons in Hf. destruct fuel as [|fuel]; [lia|].
  cbn [Database.WriteToDisk]. rewrite read_records_cons, Hk by done.
  change (reloaded ((k, r) :: db)) with ((k, reload r) :: reloaded db) in *.
  rewrite cons_middle, app_assoc in Hs |- *.
  rewrite insert_last by (by eapply map_sorted_app_l). apply IH; [done..|lia].
Qed.
End database.

(** ** Properties *)

Lemma read_back {K R} `{LLD_record_laws K R} `{!KeyOrder K} (db : smap K R) :
  consistent db -> Forall (fun e => storable e.2) db ->
  Database.ReadIntoMemory (Some (Database.WriteToDisk db)) = Some (reloaded db).
Proof.
  intros [Hs Hk] Hr. unfold Database.ReadIntoMemory.
  rewrite (read_records_all _ db []); [done|by apply reloaded_sorted|done|done|lia].
Qed.

(** No 64-bit number of [2^32] or more is read back, whatever the shift gives. *)
Lemma big_balance_lost `{Platform} a :
  2 ^ 32 <= Account.nAccountBalance a -> Account.Deserialize (Account.Serialize a) <> Some a.
Proof.
  intros Hb. unfold Account.Deserialize. set (l := Account.Serialize a).
  destruct (bytes2string l 20) as [k|]; [|done]. cbn [mbind option_bind]. intros [= Ha].
  pose proof (bytes2uint64_fits l 0) as Hf. apply (f_equal Account.nAccountBalance) in Ha. cbn [Account.nAccountBalance] in Ha.
  unfold fits in Hf. lia.
Qed.



(** the operations on a database whose records are filed under their own keys.
    An update files the record under its key, changes no other and keeps the database
    consistent, as does an erase; reading a present key changes nothing and returns the record of
    that key; reading a missing key returns the blank record and files it, so that the key is
    present afterwards. *)
Theorem db_operations {K R} `{LLD_record K R} `{!KeyOrder K} (db : smap K R) r k :
  consistent db ->
  consistent (Database.UpdateRecord r db) /\
  map_find (cKey r) (Database.UpdateRecord r db) = Some r /\
  (k <> cKey r -> map_find k (Database.UpdateRecord r db) = map_find k db) /\
  consistent (Database.EraseRecord k db) /\ Database.HasKey k (Database.EraseRecord k db) = false /\
  (forall r' db', Database.GetRecord k db = (r', db') ->
    Database.HasKey k db' = true /\
    if Database.HasKey k db then db' = db /\ cKey r' = k else r' = blank).
Proof.
  intros Hc. pose proof Hc as [Hs _]. split; [by apply consistent_insert|].
  split; [apply find_insert_eq|]. split; [intros; by apply find_insert_ne|].
  split; [by apply consistent_erase|].
  unfold Database.HasKey, Database.EraseRecord, map_count. rewrite find_erase_eq by done.
  split; [done|]. intros r' db'. unfold Database.GetRecord.
  destruct (map_find k db) as [r0|] eqn:E; intros [= <- <-].
  - rewrite E. split; [done|]. split; [done|]. by apply (consistent_find k r0 db).
  - by rewrite find_insert_eq.
Qed.

Lemma db_operations_witness :
  let _ := zero_platform in
  consistent (Database.UpdateRecord (Account.new [Byte.x41]) []).
Proof.
  pose (P := zero_platform).
  apply (db_operations [] (Account.new [Byte.x41]) [Byte.x41]). by repeat constructor.
Defined.

(** Reading an account that is not in the database files the blank
    account, whose own key is empty, under the name asked for: the database no longer has every
    record under its own key.  What the caller then credits to the record it got goes to the
    account of the empty name, and the account of the name asked for stays at 0. *)
Theorem missing_account_lost `{Platform} name (db : smap bytes Account.t) r db' b :
  consistent db -> name <> [] -> map_find name db = None ->
  Database.GetRecord name db = (r, db') ->
  map_find name (Database.UpdateRecord (Account.set_balance b r) db') = Some (Account.new []) /\
  map_find [] (Database.UpdateRecord (Account.set_balance b r) db') =
    Some (Account.set_balance b (Account.new [])) /\
  ~ consistent db'.
Proof.
  intros Hc Hne Hname. unfold Database.GetRecord. rewrite Hname. intros [= <- <-].
  pose proof Hc as [Hs _]. unfold Database.UpdateRecord. cbn [cKey Account_record Account.set_balance
    Account.key Account.new blank Account.nRoundShares Account.nBlocksFound].
  assert (map_sorted (map_insert name (Account.new []) db)) by auto.
  split; [|split].
  - rewrite find_insert_ne by done. apply find_insert_eq.
  - apply find_insert_eq.
  - intros Hcons. apply Hne. symmetry.
    exact (consistent_find name (Account.new []) _ Hcons (find_insert_eq _ _ _)).
Qed.

Lemma missing_account_lost_witness :
  let _ := zero_platform in
  let db := Database.UpdateRecord (Account.mk [Byte.x41] 5 0 0) [] in
  let '(r, db') := Database.GetRecord [Byte.x42] db in
  map_find [] (Database.UpdateRecord (Account.set_balance 70 r) db') =
    Some (Account.mk [] 70 0 0).
Proof.
  pose (P := zero_platform). pose (db := [([Byte.x41], Account.mk [Byte.x41] 5 0 0)]).
  assert (Hc : consistent db) by (by repeat constructor).
  exact (proj1 (proj2 (missing_account_lost [Byte.x42] db _ _ 70 Hc ltac:(done) eq_refl eq_refl))).
Defined.

(** A block record whose numbers fit the byte form is read back with its key,
    its round, its credits, the outputs and the pool fee of its coinbase.  When the record was
    made the way [update_balances] makes it, with the coinbase value as the maximum plus the fee
    and the outputs summing up to the current value, the coinbase read back is complete exactly
    when the one written was. *)
Theorem block_roundtrip `{Platform} b :
  shl32_by_32 0 = 0 -> block_ok b ->
  exists b', Block.Deserialize (Block.Serialize b) = Some b' /\
    Block.key b' = Block.key b /\ Block.nRound b' = Block.nRound b /\
    Block.nCoinbaseValue b' = Block.nCoinbaseValue b /\ Block.cCredits b' = Block.cCredits b /\
    Coinbase.mapOutputs (Block.cCoinbase b') = Coinbase.mapOutputs (Block.cCoinbase b) /\
    Coinbase.nPoolFee (Block.cCoinbase b') = Coinbase.nPoolFee (Block.cCoinbase b) /\
    (let c := Block.cCoinbase b in
     Block.nCoinbaseValue b = Coinbase.nMaxValue c + Coinbase.nPoolFee c ->
     accounted c ->
     Coinbase.IsComplete (Block.cCoinbase b') = Coinbase.IsComplete c).
Proof.
  intros H0 Hb. exists (reload_block b). split; [by apply Block_roundtrip|].
  do 6 (split; [done|]). cbv zeta. intros Hval (_&_&Hcur&Hle&_).
  destruct Hb as (_&Hv&_&_&Hf&_). unfold Coinbase.IsComplete, reload_block, reload_coinbase.
  cbn [Block.cCoinbase Coinbase.nCurrentValue Coinbase.nMaxValue].
  rewrite wrap_small by (unfold fits in *; lia).
  destruct (Z.eqb_spec (Coinbase.nPoolFee (Block.cCoinbase b) +
    values (Coinbase.mapOutputs (Block.cCoinbase b))) (Block.nCoinbaseValue b)),
    (Z.eqb_spec (Coinbase.nCurrentValue (Block.cCoinbase b))
      (Coinbase.nMaxValue (Block.cCoinbase b))); lia.
Qed.

Lemma block_roundtrip_witness :
  let _ := zero_platform in
  let b := Block.mk 12345 105 (Coinbase.mk [([Byte.x41], 100)] 100 100 5) [([Byte.x41], 40)] 3 in
  exists b', Block.Deserialize (Block.Serialize b) = Some b' /\ Block.key b' = 12345.
Proof.
  pose (P := zero_platform).
  pose (b := Block.mk 12345 105 (Coinbase.mk [([Byte.x41], 100)] 100 100 5) [([Byte.x41], 40)] 3).
  destruct (block_roundtrip b) as (b'&H1&H2&_).
  - reflexivity.
  - repeat constructor; vm_compute; congruence || lia.
  - exists b'. exact (conj H1 H2).
Defined.
