(* ===== verification/CBlock.v ===== *)
(** * Block headers: [src/src/LLP/block.h], with their byte forms

    [CBlock] is the header the daemon sends and a miner works on.  [GetHash] hashes the memory of
    the object from [nVersion] to the end of [nBits]; [Block_hash] is what the pool needs of that
    hash.  [deserialize_block] is from [daemon_connection.cpp], [serialize_block] from
    [packet.hpp].  The wide integers are their values. *)
From S2P Require Import Prelude Bytes Uint.

(** [SK1024] of [hash/templates.h] on a range of bytes. *)
Class Block_hash := {
  SK1024 : bytes -> Z;
  SK1024_fits : forall l, fits 1024 (SK1024 l);
}.

#[refine] Definition zero_hash : Block_hash := {| SK1024 _ := 0 |}.
Proof. by vm_compute. Defined.

Record CBlock := mk_block {
  nVersion : Z;
  hashPrevBlock : Z;
  hashMerkleRoot : Z;
  nChannel : Z;
  nHeight : Z;
  nBits : Z;
  nNonce : Z;
}.

#[export] Instance CBlock_eq_dec : EqDecision CBlock.
Proof. solve_decision. Defined.

(** [CBlock()] *)
Definition empty_block : CBlock := mk_block 0 0 0 0 0 0 0.

Definition set_nNonce (n : Z) (b : CBlock) : CBlock :=
  mk_block (nVersion b) (hashPrevBlock b) (hashMerkleRoot b) (nChannel b) (nHeight b) (nBits b) n.

(** The memory from [BEGIN(nVersion)] to [END(nBits)]: no padding, little-endian words. *)
Definition header_image (b : CBlock) : bytes :=
  le32 (nVersion b) ++ memory (of_val WIDTH1024 (hashPrevBlock b)) ++
  memory (of_val WIDTH512 (hashMerkleRoot b)) ++ le32 (nChannel b) ++ le32 (nHeight b) ++
  le32 (nBits b).

Section hash.
Context `{Block_hash}.

Definition GetHash (b : CBlock) : Z := SK1024 (header_image b).

(** [GetHash() + nNonce], a [uint1024] sum. *)
Definition GetPrime (b : CBlock) : Z :=
  val (add64 (of_val WIDTH1024 (GetHash b)) (nNonce b)).

(** [Packet::serialize_block] *)
Definition serialize_block (block : CBlock) (min_share : Z) : bytes :=
  GetBytes (of_val WIDTH1024 (GetHash block)) ++ uint2bytes min_share ++
  uint2bytes (nBits block) ++ uint2bytes (nHeight block).
End hash.

(** [Daemon_connection::deserialize_block].  Ranges from both ends of the data; the range of the
    merkle root takes what is between, and [SetBytes] reads its first 64 bytes. *)
Definition deserialize_block `{Platform} (data : bytes) : option CBlock :=
  let size := length data in
  if bool_decide (132 + 20 <= size)%nat then
    vVersion ← slice 0 4 data;
    vPrev ← slice 4 128 data;
    prev ← SetBytes WIDTH1024 vPrev;
    vRoot ← slice 132 (size - 20 - 132) data;
    root ← SetBytes WIDTH512 vRoot;
    vChannel ← slice (size - 20) 4 data;
    vHeight ← slice (size - 16) 4 data;
    vBits ← slice (size - 12) 4 data;
    vNonce ← slice (size - 8) 8 data;
    Some (mk_block (bytes2uint vVersion 0) (val prev) (val root) (bytes2uint vChannel 0)
            (bytes2uint vHeight 0) (bytes2uint vBits 0) (bytes2uint64 vNonce 0))
  else None.

(** ** Lemmas *)
Definition block_fits (b : CBlock) : Prop :=
  fits 32 (nVersion b) /\ fits 1024 (hashPrevBlock b) /\ fits 512 (hashMerkleRoot b) /\
  fits 32 (nChannel b) /\ fits 32 (nHeight b) /\ fits 32 (nBits b) /\ fits 64 (nNonce b).

(** The form the daemon sends: the fields in order, most significant byte first; [extra] stands
    for what may follow the merkle root. *)
Definition daemon_form (b : CBlock) (extra : bytes) : bytes :=
  uint2bytes (nVersion b) ++ GetBytes (of_val WIDTH1024 (hashPrevBlock b)) ++
  (GetBytes (of_val WIDTH512 (hashMerkleRoot b)) ++ extra) ++
  uint2bytes (nChannel b) ++ uint2bytes (nHeight b) ++ uint2bytes (nBits b) ++
  uint2bytes64 (nNonce b).

Lemma length_of_val n z : length (of_val n z) = n.
Proof. by destruct (of_val_wf n z). Qed.

Lemma length_GetBytes_of_val n z : length (GetBytes (of_val n z)) = (4 * n)%nat.
Proof. by rewrite length_GetBytes, length_of_val. Qed.

Lemma length_memory_of_val n z : length (memory (of_val n z)) = (4 * n)%nat.
Proof. by rewrite length_memory, length_of_val. Qed.

Lemma SetBytes_of_val n z post :
  fits (32 * Z.of_nat n) z ->
  exists pn, SetBytes n (GetBytes (of_val n z) ++ post) = Some pn /\ val pn = z.
Proof.
  intros Hz. destruct (of_val_wf n z) as [Hl HF]. exists (of_val n z). split.
  - rewrite <-Hl at 1. by apply SetBytes_GetBytes.
  - rewrite val_of_val. by apply wrap_small.
Qed.

(** A part of a concatenation, at its place. *)
Lemma slice_at {A} (pre l post : list A) data off n :
  data = pre ++ l ++ post -> off = length pre -> n = length l -> slice off n data = Some l.
Proof. intros -> Hoff Hn. by apply slice_app. Qed.

Lemma SetBytes_short n DATA : (length DATA < 4 * n)%nat -> SetBytes n DATA = None.
Proof.
  revert DATA. induction n as [|n IH]; intros [|b0 [|b1 [|b2 [|b3 DATA]]]] Hl; cbn in Hl |- *;
    try done; try lia.
  rewrite IH; [done|lia].
Qed.

(** Reads the part [l] of the data, between [pre] and [post]. *)
Ltac part off n pre l post :=
  rewrite (slice_at pre l post _ off n) by
    (rewrite ?length_app, <-?app_assoc, ?app_nil_r; (reflexivity || (cbn; lia)));
  cbn [mbind option_bind].

(** [deserialize_block] on data given as its parts. *)
Lemma deserialize_parts `{Platform} V P R C Hh B N pn rn :
  length V = 4%nat -> length P = 128%nat -> length C = 4%nat -> length Hh = 4%nat ->
  length B = 4%nat -> length N = 8%nat ->
  SetBytes WIDTH1024 P = Some pn -> SetBytes WIDTH512 R = Some rn ->
  deserialize_block (V ++ P ++ R ++ C ++ Hh ++ B ++ N) =
    Some (mk_block (bytes2uint V 0) (val pn) (val rn) (bytes2uint C 0) (bytes2uint Hh 0)
            (bytes2uint B 0) (bytes2uint64 N 0)).
Proof.
  intros HV HP HC HH HB HN Hpn Hrn. unfold deserialize_block. cbv zeta.
  assert (Hsz : (length (V ++ P ++ R ++ C ++ Hh ++ B ++ N) = 152 + length R)%nat)
    by (rewrite !length_app; lia).
  rewrite Hsz, bool_decide_eq_true_2 by lia.
  replace (152 + length R - 20 - 132)%nat with (length R) by lia.
  part 0%nat 4%nat (@nil byte) V (P ++ R ++ C ++ Hh ++ B ++ N).
  part 4%nat 128%nat V P (R ++ C ++ Hh ++ B ++ N). rewrite Hpn. cbn [mbind option_bind].
  part 132%nat (length R) (V ++ P) R (C ++ Hh ++ B ++ N). rewrite Hrn. cbn [mbind option_bind].
  part (152 + length R - 20)%nat 4%nat (V ++ P ++ R) C (Hh ++ B ++ N).
  part (152 + length R - 16)%nat 4%nat (V ++ P ++ R ++ C) Hh (B ++ N).
  part (152 + length R - 12)%nat 4%nat (V ++ P ++ R ++ C ++ Hh) B N.
  part (152 + length R - 8)%nat 8%nat (V ++ P ++ R ++ C ++ Hh ++ B) N (@nil byte).
  done.
Qed.

Lemma deserialize_short `{Platform} data :
  (length data < 216)%nat -> deserialize_block data = None.
Proof.
  intros Hl. unfold deserialize_block. case_bool_decide; [|done].
  destruct (slice 0 4 data); [|done]. destruct (slice 4 128 data) as [vP|]; [|done].
  cbn [mbind option_bind]. destruct (SetBytes WIDTH1024 vP); [|done].
  destruct (slice 132 _ data) as [vR|] eqn:E; [|done]. cbn [mbind option_bind].
  rewrite SetBytes_short; [done|]. apply slice_Some in E as [_ ->].
  rewrite length_take, length_drop. unfold WIDTH512. lia.
Qed.

Lemma le32_inj v w : fits 32 v -> fits 32 w -> le32 v = le32 w -> v = w.
Proof.
  intros Hv Hw [= H0 H1 H2 H3].
  rewrite <-(wrap_small 32 v), <-(wrap_small 32 w), <-!be32_uint2bytes by done. by rewrite H0, H1, H2, H3.
Qed.

Lemma memory_inj n v w :
  fits (32 * Z.of_nat n) v -> fits (32 * Z.of_nat n) w ->
  memory (of_val n v) = memory (of_val n w) -> v = w.
Proof.
  intros Hv Hw Heq. rewrite <-(wrap_small _ v Hv), <-(wrap_small _ w Hw), <-!val_of_val.
  destruct (of_val_wf n v) as [Hl1 HF1], (of_val_wf n w) as [Hl2 HF2].
  rewrite <-(of_memory_memory (of_val n v)), <-(of_memory_memory (of_val n w)) by done.
  by rewrite Heq, Hl1, Hl2.
Qed.

(** ** Properties *)

(** [deserialize_block] on any data from the daemon: with fewer than 216
    bytes it reads outside the data; from the form of a header, with or without more bytes after
    the merkle root, it returns every field of the header, the nonce when it is below [2^32]. *)
Theorem deserialize_block_spec `{Platform} data b extra :
  shl32_by_32 0 = 0 -> block_fits b -> fits 32 (nNonce b) ->
  ((length data < 216)%nat -> deserialize_block data = None) /\
  deserialize_block (daemon_form b extra) = Some b.
Proof.
  intros H0 (Hv&Hp&Hm&Hc&Hh&Hb&_) Hn. split; [apply deserialize_short|].
  destruct (SetBytes_of_val WIDTH1024 _ [] Hp) as (pn&Hpn&Hpv).
  destruct (SetBytes_of_val WIDTH512 _ extra Hm) as (rn&Hrn&Hrv).
  rewrite app_nil_r in Hpn. unfold daemon_form.
  rewrite (deserialize_parts _ _ _ _ _ _ _ pn rn) by (done || apply length_GetBytes_of_val).
  rewrite !bytes2uint_uint2bytes_nil, Hpv, Hrv, !(wrap_small 32) by done.
  replace (bytes2uint64 (uint2bytes64 (nNonce b)) 0) with (nNonce b); [by destruct b|].
  rewrite <-(app_nil_r (uint2bytes64 _)). symmetry. by apply (bytes2uint64_small []).
Qed.

Lemma deserialize_block_spec_witness :
  let _ := zero_platform in
  deserialize_block (daemon_form (mk_block 3 77 (2 ^ 300) 1 9 8 7) []) =
    Some (mk_block 3 77 (2 ^ 300) 1 9 8 7).
Proof.
  pose (P := zero_platform).
  refine (proj2 (deserialize_block_spec [] (mk_block 3 77 (2 ^ 300) 1 9 8 7) [] _ _ _)).
  - reflexivity.
  - repeat split; vm_compute; congruence.
  - split; vm_compute; congruence.
Defined.

(** the 208 bytes that are hashed determine the header but its nonce: two headers in
    range with the same image have the same version, previous block, merkle root, channel, height
    and bits, and headers that differ in the nonce alone have the same image, so the same
    [GetHash]. *)
Theorem hash_input b c :
  block_fits b -> block_fits c ->
  length (header_image b) = 208%nat /\
  (header_image b = header_image c <-> set_nNonce 0 b = set_nNonce 0 c).
Proof.
  intros (Hv&Hp&Hm&Hc&Hh&Hb&_) (Hv'&Hp'&Hm'&Hc'&Hh'&Hb'&_). split.
  { unfold header_image. rewrite !length_app, !length_memory_of_val. done. }
  destruct b as [v p m ch h bi n], c as [v' p' m' ch' h' bi' n']. unfold header_image, set_nNonce.
  cbn [nVersion hashPrevBlock hashMerkleRoot nChannel nHeight nBits] in *.
  split; [|by intros [= -> -> -> -> -> ->]]. intros H.
  apply app_inj_1 in H as [H1 H]; [|done].
  apply app_inj_1 in H as [H2 H]; [|by rewrite !length_memory_of_val].
  apply app_inj_1 in H as [H3 H]; [|by rewrite !length_memory_of_val].
  apply app_inj_1 in H as [H4 H]; [|done]. apply app_inj_1 in H as [H5 H6]; [|done].
  apply le32_inj in H1, H4, H5, H6; [|done..].
  apply memory_inj in H2, H3; [|done..]. by subst.
Qed.

Lemma hash_input_witness :
  length (header_image empty_block) = 208%nat.
Proof.
  assert (H : block_fits empty_block) by (repeat split; vm_compute; congruence).
  exact (proj1 (hash_input empty_block empty_block H H)).
Defined.

(** [GetPrime] is the sum of the hash and the nonce modulo [2^1024]. *)
Lemma GetPrime_val `{Block_hash} b :
  fits 64 (nNonce b) -> GetPrime b = wrap 1024 (GetHash b + nNonce b).
Proof.
  intros Hn. unfold GetPrime.
  destruct (represents_add64 WIDTH1024 (of_val WIDTH1024 (GetHash b)) (GetHash b) (nNonce b))
    as [_ ->]; [unfold WIDTH1024; lia| |done|done].
  apply represents_of_val, SK1024_fits.
Qed.
