(* ===== verification/Ddos.v ===== *)
(** * The DDOS filter: [src/src/LLP/timer.hpp] and [src/src/LLP/ddos.hpp]

    A [Timer] reads the clock, here an argument [now] in nanoseconds; a [DDOS_Score] is a moving
    average with a slot per second; a [DDOS_Filter] bans an address for a time.  The slots and their
    sum are [int]: an operation that leaves the range of [int] is undefined.  Ban counts and times
    are [unsigned int]. *)
From S2P Require Import Prelude.

(** ** [Timer] *)
Record Timer := mk_timer { start_time : Z; end_time : Z; fStopped : bool }.

(** The default constructor leaves both time points at the epoch of the clock. *)
Definition new_timer : Timer := mk_timer 0 0 false.

Definition Start (now : Z) (t : Timer) : Timer := mk_timer now (end_time t) false.
Definition Reset_timer (now : Z) (t : Timer) : Timer := Start now t.
Definition Stop (now : Z) (t : Timer) : Timer := mk_timer (start_time t) now true.

(** [duration_cast] truncates; the count is returned as [uint64_t]. *)
Definition elapsed_in (unit_ns now : Z) (t : Timer) : Z :=
  u64 (Z.quot ((if fStopped t then end_time t else now) - start_time t) unit_ns).
Definition Elapsed : Z -> Timer -> Z := elapsed_in 1000000000.
Definition ElapsedMilliseconds : Z -> Timer -> Z := elapsed_in 1000000.
Definition ElapsedMicroseconds : Z -> Timer -> Z := elapsed_in 1000.

(** ** [DDOS_Score] *)
Record DDOS_Score := mk_score {
  SCORE : list (bool * Z);
  TIMER : Timer;
  nIterator : Z;
}.

Definition new_score (nTimespan : nat) (now : Z) : DDOS_Score :=
  mk_score (replicate nTimespan (true, 0)) (Start now new_timer) 0.

Definition Reset (now : Z) (s : DDOS_Score) : DDOS_Score :=
  mk_score ((fun e => (false, e.2)) <$> SCORE s) (Reset_timer now (TIMER s)) 0.

Definition Flush (now : Z) (s : DDOS_Score) : DDOS_Score :=
  let s := Reset now s in
  mk_score ((fun e => (e.1, 0)) <$> SCORE s) (TIMER s) (nIterator s).

(** The value of a sum of two [int]s; an overflow is undefined. *)
Definition cint (z : Z) : option Z := if (- 2 ^ 31 <=? z) && (z <? 2 ^ 31) then Some z else None.

(** The loop of [nMovingAverage]. *)
Fixpoint add_slots (nMovingAverage : Z) (slots : list (bool * Z)) : option Z :=
  match slots with
  | [] => Some nMovingAverage
  | e :: slots => n ← cint (nMovingAverage + e.2); add_slots n slots
  end.

(** Division by the number of slots, which is undefined for none. *)
Definition Score (s : DDOS_Score) : option Z :=
  n ← add_slots 0 (SCORE s);
  if bool_decide (SCORE s = []) then None else Some (Z.quot n (Z.of_nat (length (SCORE s)))).

(** The loop from [nIterator] to [nTime]: a slot not yet visited in this lap is emptied. *)
Definition visit (slots : list (bool * Z)) (first last : Z) : list (bool * Z) :=
  imap (fun i e =>
    if (first <=? Z.of_nat i) && (Z.of_nat i <=? last) && negb e.1 then (true, 0) else e) slots.

(** [operator+=] *)
Definition add_score (nScore now : Z) (s : DDOS_Score) : option DDOS_Score :=
  let nTime := Elapsed now (TIMER s) in
  let size := Z.of_nat (length (SCORE s)) in
  let s1 := if size <=? nTime then Reset now s else s in
  let lap := if size <=? nTime then nTime mod size else nTime in
  if size =? 0 then None else
  let slots := visit (SCORE s1) (nIterator s1) lap in
  e ← slots !! Z.to_nat lap;
  v ← cint (e.2 + nScore);
  Some (mk_score (<[Z.to_nat lap := (e.1, v)]> slots) (TIMER s1) lap).

(** ** [DDOS_Filter] *)
Record DDOS_Filter := mk_filter {
  filter_TIMER : Timer;
  BANTIME : Z;
  TOTALBANS : Z;
  rSCORE : DDOS_Score;
  cSCORE : DDOS_Score;
  IPADDRESS : bytes;
}.

Definition new_filter (nTimespan : nat) (strIPAddress : bytes) (now : Z) : DDOS_Filter :=
  mk_filter new_timer 0 0 (new_score nTimespan now) (new_score nTimespan now) strIPAddress.

Definition Banned (now : Z) (f : DDOS_Filter) : bool := Elapsed now (filter_TIMER f) <? BANTIME f.

(** [Score() + 1] is an [int]; the product with the count is computed in [unsigned int]. *)
Definition Ban (now : Z) (f : DDOS_Filter) : option DDOS_Filter :=
  if Banned now f then Some f else
  let bans := u32 (TOTALBANS f + 1) in
  r ← Score (rSCORE f);
  r1 ← cint (r + 1);
  c ← Score (cSCORE f);
  c1 ← cint (c + 1);
  Some (mk_filter (Start now (filter_TIMER f))
          (Z.max (u32 (u32 (bans * u32 r1) * u32 c1)) (u32 (bans * 1200))) bans
          (Flush now (rSCORE f)) (Flush now (cSCORE f)) (IPADDRESS f)).

(** [m_ddos->rSCORE += n] *)
Definition add_rSCORE (n now : Z) (f : DDOS_Filter) : option DDOS_Filter :=
  r ← add_score n now (rSCORE f);
  Some (mk_filter (filter_TIMER f) (BANTIME f) (TOTALBANS f) r (cSCORE f) (IPADDRESS f)).

(** ** Lemmas *)
(** Slots, an iterator inside them, and no negative score. *)
Definition score_ok (s : DDOS_Score) : Prop :=
  SCORE s <> [] /\ 0 <= nIterator s < Z.of_nat (length (SCORE s)) /\
  Forall (fun e => 0 <= e.2) (SCORE s).

Definition filter_ok (f : DDOS_Filter) : Prop :=
  score_ok (rSCORE f) /\ score_ok (cSCORE f) /\ fits 32 (TOTALBANS f) /\ fits 32 (BANTIME f).

(** The total of the slots. *)
Definition slots_total (slots : list (bool * Z)) : Z := foldr (fun e acc => e.2 + acc) 0 slots.
Definition score_sum (s : DDOS_Score) : Z := slots_total (SCORE s).

(** There is room for another [k] below the largest [int]. *)
Definition room (k : Z) (f : DDOS_Filter) : Prop :=
  score_sum (rSCORE f) + k < 2 ^ 31 - 1 /\ score_sum (cSCORE f) < 2 ^ 31 - 1.

Lemma cint_small z : 0 <= z < 2 ^ 31 -> cint z = Some z.
Proof. intros Hz. unfold cint. rewrite (proj2 (Z.leb_le _ _)), (proj2 (Z.ltb_lt _ _)) by lia. done. Qed.

Lemma cint_inv z z' : cint z = Some z' -> z' = z /\ - 2 ^ 31 <= z < 2 ^ 31.
Proof.
  unfold cint. destruct (_ && _) eqn:E; [|done]. intros [= <-].
  apply andb_true_iff in E as [?%Z.leb_le ?%Z.ltb_lt]. done.
Qed.

Lemma Elapsed_nonneg now t : 0 <= Elapsed now t.
Proof. unfold Elapsed, elapsed_in. pose proof (wrap_fits 64 (Z.quot ((if fStopped t then end_time t else now) - start_time t) 1000000000)). unfold fits in *. lia. Qed.

Lemma Elapsed_Start now d t :
  0 <= d < 2 ^ 64 -> Elapsed (now + d * 1000000000) (Start now t) = d.
Proof.
  intros Hd. unfold Elapsed, elapsed_in. cbn [fStopped start_time Start].
  replace (now + d * 1000000000 - now) with (d * 1000000000) by lia.
  rewrite Z.quot_mul by lia. by apply wrap_small.
Qed.

(** *** Totals *)
Lemma slots_total_cons e l : slots_total (e :: l) = e.2 + slots_total l.
Proof. done. Qed.

Lemma slots_total_nonneg l : Forall (fun e => 0 <= e.2) l -> 0 <= slots_total l.
Proof. induction 1; [done|]. rewrite slots_total_cons. lia. Qed.

Lemma slot_le_total l i e : Forall (fun e => 0 <= e.2) l -> l !! i = Some e -> 0 <= e.2 <= slots_total l.
Proof.
  intros Hl. revert i. induction Hl as [|e0 l He0 Hl IH]; intros i Hi; [done|].
  pose proof (slots_total_nonneg l Hl). rewrite slots_total_cons. destruct i as [|i]; cbn in Hi.
  - injection Hi as ->. lia.
  - specialize (IH i Hi). lia.
Qed.

Lemma add_slots_total acc l :
  Forall (fun e => 0 <= e.2) l -> 0 <= acc -> acc + slots_total l < 2 ^ 31 ->
  add_slots acc l = Some (acc + slots_total l).
Proof.
  intros Hl. revert acc. induction Hl as [|e l He Hl IH]; intros acc Hacc Hlt.
  - cbn. f_equal. lia.
  - rewrite slots_total_cons in *. cbn [add_slots]. pose proof (slots_total_nonneg l Hl). rewrite cint_small by lia. cbn. rewrite IH by lia. f_equal. lia.
Qed.

Lemma slots_total_insert (l : list (bool * Z)) i e n :
  l !! i = Some e -> slots_total (<[i := (e.1, e.2 + n)]> l) = slots_total l + n.
Proof.
  revert i. induction l as [|e0 l IH]; intros [|i] Hi; [done|done|..].
  - injection Hi as ->. change (slots_total ((e.1, (e.2 + n)%Z) :: l) = slots_total (e :: l) + n).
    rewrite !slots_total_cons. cbn. lia.
  - change (slots_total (e0 :: <[i := (e.1, e.2 + n)]> l) = slots_total (e0 :: l) + n).
    rewrite !slots_total_cons, (IH i Hi). lia.
Qed.

Lemma visit_length l a b : length (visit l a b) = length l.
Proof. apply length_imap. Qed.

Lemma visit_nonneg l a b :
  Forall (fun e => 0 <= e.2) l -> Forall (fun e => 0 <= e.2) (visit l a b).
Proof.
  intros Hl. apply Forall_lookup. intros i e. unfold visit. rewrite list_lookup_imap.
  destruct (l !! i) as [e0|] eqn:E; [|done]. cbn. intros [= <-].
  destruct (_ && _); [done|]. by apply (Forall_lookup_1 _ _ _ _ Hl E).
Qed.

Lemma slots_total_visit_le (l : list (bool * Z)) a b :
  Forall (fun e => 0 <= e.2) l -> slots_total (visit l a b) <= slots_total l.
Proof.
  intros Hl. unfold visit. revert a b. induction Hl as [|e l He _ IH]; intros a b; [done|].
  cbn [imap]. specialize (IH (a - 1) (b - 1)).
  assert (Hshift : imap (fun i e => if (a <=? Z.of_nat (S i)) && (Z.of_nat (S i) <=? b) && negb e.1
      then (true, 0) else e) l =
    imap (fun i e => if (a - 1 <=? Z.of_nat i) && (Z.of_nat i <=? b - 1) && negb e.1
      then (true, 0) else e) l).
  { apply imap_ext. intros i x _.
    replace (a <=? Z.of_nat (S i)) with (a - 1 <=? Z.of_nat i)
      by (destruct (Z.leb_spec (a - 1) (Z.of_nat i)), (Z.leb_spec a (Z.of_nat (S i))); lia).
    by replace (Z.of_nat (S i) <=? b) with (Z.of_nat i <=? b - 1)
      by (destruct (Z.leb_spec (Z.of_nat i) (b - 1)), (Z.leb_spec (Z.of_nat (S i)) b); lia). }
  unfold compose. rewrite Hshift, !slots_total_cons. cbn [snd] in *. destruct (_ && _); cbn [snd]; lia.
Qed.

(** *** Each operation *)
Lemma new_score_ok n now : (0 < n)%nat -> score_ok (new_score n now).
Proof.
  intros Hn. unfold score_ok, new_score. cbn. rewrite length_replicate.
  split; [by destruct n; [lia|]|]. split; [lia|]. by apply Forall_replicate.
Qed.

Lemma new_score_sum n now : score_sum (new_score n now) = 0.
Proof. unfold score_sum, new_score. cbn. by induction n. Qed.

Lemma Reset_ok now s : score_ok s -> score_ok (Reset now s) /\ score_sum (Reset now s) = score_sum s.
Proof.
  intros (Hne&Hi&Hs). split.
  - unfold score_ok. cbn. rewrite length_fmap.
    split; [by destruct (SCORE s)|]. split; [lia|].
    apply Forall_fmap. eapply Forall_impl; [exact Hs|]. done.
  - unfold score_sum. cbn. clear. induction (SCORE s) as [|e l IH]; [done|]. cbn. by rewrite IH.
Qed.

Lemma Score_small s : score_ok s -> score_sum s < 2 ^ 31 ->
  Score s = Some (Z.quot (score_sum s) (Z.of_nat (length (SCORE s)))).
Proof.
  intros (Hne&_&Hs) Hlt. unfold Score. rewrite (add_slots_total 0) by done. cbn.
  by rewrite bool_decide_eq_false_2.
Qed.

Lemma Score_ok s : score_ok s -> score_sum s < 2 ^ 31 - 1 ->
  exists z, Score s = Some z /\ cint (z + 1) = Some (z + 1).
Proof.
  intros Hs Hlt. rewrite Score_small by (done || lia). eexists. split; [done|]. apply cint_small.
  destruct Hs as (Hne&Hi&Hpos). pose proof (slots_total_nonneg _ Hpos) as Hnn. fold (score_sum s) in Hnn.
  set (n := Z.of_nat _) in *. pose proof (Z.quot_pos (score_sum s) n Hnn ltac:(lia)).
  pose proof (Z.quot_le_upper_bound (score_sum s) n (score_sum s) ltac:(lia) ltac:(nia)). lia.
Qed.

Lemma Flush_ok now s :
  score_ok s -> score_ok (Flush now s) /\ score_sum (Flush now s) = 0 /\ Score (Flush now s) = Some 0.
Proof.
  intros Hs. assert (Hf : score_ok (Flush now s)).
  { unfold score_ok. cbn. rewrite !length_fmap. destruct Hs as (Hne&Hi&_).
    split; [by destruct (SCORE s)|]. split; [lia|]. by apply Forall_fmap, Forall_fmap, Forall_true. }
  assert (Hz : score_sum (Flush now s) = 0).
  { unfold score_sum. cbn. clear. induction (SCORE s) as [|e l IH]; [done|exact IH]. }
  split; [done|]. split; [done|]. rewrite Score_small by (done || rewrite Hz; lia).
  rewrite Hz. by rewrite Z.quot_0_l by (destruct Hf; lia).
Qed.

(** The slot that [+=] adds to, after the visit of the slots before it. *)
Lemma add_score_inv n now s s' :
  score_ok s -> 0 <= n -> add_score n now s = Some s' ->
  score_ok s' /\ score_sum s' <= score_sum s + n.
Proof.
  intros Hs Hn. unfold add_score. set (size := Z.of_nat _). set (nTime := Elapsed _ _).
  pose proof (Elapsed_nonneg now (TIMER s)) as Ht. fold nTime in Ht.
  set (s1 := if size <=? nTime then Reset now s else s).
  assert (Hs1 : score_ok s1 /\ score_sum s1 = score_sum s)
    by (unfold s1; destruct (size <=? nTime); auto using Reset_ok).
  set (lap := if size <=? nTime then nTime mod size else nTime).
  destruct (Z.eqb_spec size 0) as [|Hsize]; [done|].
  assert (Hl1 : Z.of_nat (length (SCORE s1)) = size).
  { unfold s1. destruct (size <=? nTime); [|done]. cbn. by rewrite length_fmap. }
  intros (e&He&H)%bind_Some. apply bind_Some in H as (v&[-> _]%cint_inv&[= <-]).
  destruct Hs1 as ((Hne&_&Hpos)&Hsum). pose proof (visit_nonneg _ (nIterator s1) lap Hpos) as Hv.
  pose proof (slot_le_total _ _ _ Hv He) as Hle. apply lookup_lt_Some in He as Hlt.
  unfold score_ok, score_sum. cbn. rewrite length_insert. split.
  - split; [|split].
    + intros H. apply (f_equal length) in H. rewrite length_insert in H. cbn in H. lia.
    + rewrite visit_length, Hl1. unfold lap.
      destruct (Z.leb_spec size nTime); [apply Z.mod_pos_bound; lia|lia].
    + apply Forall_insert; [done|cbn; lia].
  - rewrite slots_total_insert by done. pose proof (slots_total_visit_le _ (nIterator s1) lap Hpos).
    unfold score_sum in Hsum. lia.
Qed.

Lemma add_score_some n now s :
  score_ok s -> 0 <= n -> score_sum s + n < 2 ^ 31 -> exists s', add_score n now s = Some s'.
Proof.
  intros Hs Hn Hroom. unfold add_score. set (size := Z.of_nat _). set (nTime := Elapsed _ _).
  pose proof (Elapsed_nonneg now (TIMER s)) as Ht. fold nTime in Ht.
  assert (Hsize : 0 < size). { destruct Hs as (Hne&_). unfold size. destruct (SCORE s); [done|cbn; lia]. }
  set (s1 := if size <=? nTime then Reset now s else s).
  assert (Hs1 : score_ok s1 /\ score_sum s1 = score_sum s)
    by (unfold s1; destruct (size <=? nTime); auto using Reset_ok).
  assert (Hl1 : Z.of_nat (length (SCORE s1)) = size).
  { unfold s1. destruct (size <=? nTime); [|done]. cbn. by rewrite length_fmap. }
  set (lap := if size <=? nTime then nTime mod size else nTime).
  assert (Hlap : 0 <= lap < size).
  { unfold lap. destruct (Z.leb_spec size nTime); [apply Z.mod_pos_bound|]; lia. }
  destruct (Z.eqb_spec size 0) as [|_]; [lia|]. destruct Hs1 as ((Hne&_&Hpos)&Hsum).
  destruct (lookup_lt_is_Some_2 (visit (SCORE s1) (nIterator s1) lap) (Z.to_nat lap)) as [e He].
  { rewrite visit_length. lia. }
  pose proof (slot_le_total _ _ _ (visit_nonneg _ (nIterator s1) lap Hpos) He).
  pose proof (slots_total_visit_le _ (nIterator s1) lap Hpos). unfold score_sum in *.
  rewrite He. cbn. rewrite cint_small by lia. by eexists.
Qed.

(** *** The filter *)

(** A ban, when it is defined, keeps the filter in order and leaves no score or the scores of before. *)
Lemma Ban_inv now f f' :
  filter_ok f -> Ban now f = Some f' ->
  filter_ok f' /\ score_sum (rSCORE f') <= score_sum (rSCORE f) /\
  score_sum (cSCORE f') <= score_sum (cSCORE f).
Proof.
  intros (Hr&Hc&Ht&Hb). unfold Ban. destruct (Banned now f); [by intros [= <-]|].
  intros H. do 4 (apply bind_Some in H as (?&_&H)). injection H as <-.
  unfold filter_ok. cbn [rSCORE cSCORE TOTALBANS BANTIME].
  destruct (Flush_ok now _ Hr) as (?&->&_), (Flush_ok now _ Hc) as (?&->&_).
  destruct Hr as (_&_&Hr%slots_total_nonneg), Hc as (_&_&Hc%slots_total_nonneg). split; [|done].
  split; [done|]. split; [done|]. split; [auto with width|]. apply Z.max_case; auto with width.
Qed.

Lemma Ban_ok now f :
  filter_ok f -> room 0 f ->
  exists f', Ban now f = Some f' /\ filter_ok f' /\ forall k, 0 <= k -> room k f -> room k f'.
Proof.
  intros Hf Hroom. enough (exists f', Ban now f = Some f') as [f' Hb].
  { exists f'. destruct (Ban_inv _ _ _ Hf Hb) as (?&?&?). split; [done|]. split; [done|].
    intros k _ [? ?]. unfold room. lia. }
  destruct Hf as (Hr&Hc&_), Hroom as [Hlr Hlc]. unfold Ban. destruct (Banned now f); [by eexists|].
  destruct (Score_ok _ Hr ltac:(lia)) as (r&->&Hr1), (Score_ok _ Hc ltac:(lia)) as (c&->&Hc1).
  cbn [mbind option_bind]. rewrite Hr1. cbn [mbind option_bind]. rewrite Hc1. by eexists.
Qed.

Lemma add_rSCORE_inv n now f f' :
  filter_ok f -> 0 <= n -> add_rSCORE n now f = Some f' ->
  filter_ok f' /\ score_sum (rSCORE f') <= score_sum (rSCORE f) + n /\
  score_sum (cSCORE f') = score_sum (cSCORE f).
Proof.
  intros (Hr&Hc&Ht&Hb) Hn. unfold add_rSCORE. intros (r&Hadd&[= <-])%bind_Some.
  destruct (add_score_inv _ _ _ _ Hr Hn Hadd) as [Hr' Hle].
  exact (conj (conj Hr' (conj Hc (conj Ht Hb))) (conj Hle eq_refl)).
Qed.

Lemma add_rSCORE_ok n now f :
  filter_ok f -> 0 <= n -> room n f -> exists f', add_rSCORE n now f = Some f' /\ filter_ok f'.
Proof.
  intros Hf Hn [Hroom _]. destruct (add_score_some n now (rSCORE f)) as [r Hr]; [apply Hf|done|lia|].
  unfold add_rSCORE. rewrite Hr. eexists. split; [done|].
  by eapply (add_rSCORE_inv n now f); [done..|unfold add_rSCORE; rewrite Hr].
Qed.

Lemma new_filter_ok n ip now : (0 < n)%nat -> filter_ok (new_filter n ip now).
Proof.
  intros Hn. pose proof (new_score_ok n now Hn) as Hs. by split; [|split; [|split]].
Qed.

Lemma new_filter_room n ip now k : k < 2 ^ 31 - 1 -> room k (new_filter n ip now).
Proof. intros Hk. unfold room, new_filter. cbn [rSCORE cSCORE]. rewrite new_score_sum. lia. Qed.

(** ** Properties *)

(** One request on a filter in order: as long as its score stays within an [int], scoring the
    request and banning are defined whatever the clock says, keep the iterator inside the slots,
    the scores non-negative and the counters in 32 bits; a request adds at most its own score to
    the total. *)
Theorem filter_invariant f n now :
  filter_ok f -> 0 <= n -> room n f ->
  (exists f', Ban now f = Some f' /\ filter_ok f') /\
  (exists f', add_rSCORE n now f = Some f' /\ filter_ok f' /\
    score_sum (rSCORE f') <= score_sum (rSCORE f) + n).
Proof.
  intros Hf Hn Hroom. split.
  - destruct (Ban_ok now f Hf) as (f'&?&?&_); [|by exists f']. destruct Hroom. split; lia.
  - destruct (add_rSCORE_ok n now f Hf Hn Hroom) as (f'&Hadd&Hok). exists f'. split; [done|].
    split; [done|]. by apply (add_rSCORE_inv _ _ _ _ Hf Hn Hadd).
Qed.

Lemma filter_invariant_witness :
  exists f', add_rSCORE 10 5000000000 (new_filter 30 [] 0) = Some f' /\ filter_ok f'.
Proof.
  destruct (filter_invariant (new_filter 30 [] 0) 10 5000000000) as [_ (f'&H1&H2&_)].
  - by apply new_filter_ok; lia.
  - lia.
  - by apply new_filter_room.
  - exists f'. exact (conj H1 H2).
Defined.

(** C40: a ban.  While an address is banned another ban changes nothing, not even the time
    left.  Otherwise the count of bans goes up, the address is banned for at least 1200 seconds
    per ban so far (while the count stays under [2^32 / 1200]) and at most [BANTIME] seconds, and
    both scores are 0 again. *)
Theorem ban_spec f now f' :
  filter_ok f -> TOTALBANS f < 3579138 -> Ban now f = Some f' ->
  if Banned now f then f' = f else
  TOTALBANS f' = TOTALBANS f + 1 /\ 1200 * TOTALBANS f' <= BANTIME f' /\
  (forall d, 0 <= d < 2 ^ 64 -> Banned (now + d * 1000000000) f' = (d <? BANTIME f')) /\
  Score (rSCORE f') = Some 0 /\ Score (cSCORE f') = Some 0.
Proof.
  intros (Hr&Hc&Ht&Hb) Hlt. unfold Ban. destruct (Banned now f) eqn:E; [by intros [= <-]|].
  intros H. do 4 (apply bind_Some in H as (?&_&H)). injection H as <-. cbn [TOTALBANS BANTIME rSCORE cSCORE].
  unfold fits in Ht. assert (u32 (TOTALBANS f + 1) = TOTALBANS f + 1) as ->
    by (apply wrap_small; unfold fits; lia).
  split; [done|]. split; [|split; [|split; by apply Flush_ok]].
  - etransitivity; [|apply Z.le_max_r]. rewrite wrap_small; [lia|]. unfold fits. lia.
  - intros d Hd. unfold Banned at 1. cbn [filter_TIMER BANTIME]. by rewrite Elapsed_Start.
Qed.

Lemma ban_spec_witness :
  exists f', Ban 2000000000000000000 (new_filter 30 [] 2000000000000000000) = Some f' /\
    TOTALBANS f' = 1 /\ Banned (2000000000000000000 + 1199 * 1000000000) f' = true.
Proof.
  pose (f := new_filter 30 [] 2000000000000000000).
  destruct (Ban 2000000000000000000 f) as [f'|] eqn:E; [|discriminate E].
  assert (Hf : filter_ok f) by (apply new_filter_ok; lia).
  destruct (ban_spec f 2000000000000000000 f' Hf ltac:(done) E) as (H1&H2&H3&_).
  exists f'. split; [exact E|]. split; [exact H1|]. rewrite H3 by (split; [lia|done]).
  rewrite H1 in H2. cbn [TOTALBANS] in H2. apply Z.ltb_lt. cbn in H2. lia.
Defined.
