(* ===== verification/Banned.v ===== *)
(** * Banned accounts and addresses: [src/src/banned_users.hpp]

    [Banned_users] keeps two sets of strings, each under its mutex, and hands them to a persister
    that copies a set to a text file and back, one entry a line.  A file is [None] when it does
    not exist. *)
From S2P Require Import Prelude.
From stdpp Require Import fin_sets.

Abbreviation BannedUsersType := (gset bytes).

(** ** [Banned_persister_file] *)
Definition newline : byte := Byte.x0a.

(** An [unordered_set] has an iteration order of its own, here the order of [elements]. *)
Definition write_lines (entries : list bytes) : bytes :=
  concat ((fun e => e ++ [newline]) <$> entries).

(** [save]: an empty set leaves the file as it is. *)
Definition save (target_file : option bytes) (banned_list : BannedUsersType) : option bytes :=
  if bool_decide (banned_list = ∅) then target_file
  else Some (write_lines (elements banned_list)).

(** [std::getline]: the text before each newline, and the rest when it is not empty. *)
Fixpoint lines (text : bytes) (line : bytes) : list bytes :=
  match text with
  | [] => match line with [] => [] | _ => [rev line] end
  | c :: text' => if decide (c = newline) then rev line :: lines text' [] else lines text' (c :: line)
  end.

(** [load] fills its own copy of the set: the parameter is passed by value.  The result here is
    that copy, which the call drops. *)
Definition load (source_file : option bytes) (banned_list : BannedUsersType) : BannedUsersType :=
  if bool_decide (banned_list = ∅) then
    match source_file with
    | Some text => foldl (fun s line => {[ line ]} ∪ s) banned_list (lines text [])
    | None => banned_list
    end
  else banned_list.

(** ** [Banned_users] *)
Record Banned_users := mk_banned {
  m_banned_accounts : BannedUsersType;
  m_banned_ip_addresses : BannedUsersType;
}.

Definition new_banned : Banned_users := mk_banned ∅ ∅.

(** The files of the accounts and of the addresses. *)
Abbreviation ban_files := (option bytes * option bytes)%type.

Definition load_banned_users (files : ban_files) (b : Banned_users) : Banned_users :=
  let _ := load files.1 (m_banned_accounts b) in
  let _ := load files.2 (m_banned_ip_addresses b) in
  b.

Definition save_banned_users (files : ban_files) (b : Banned_users) : ban_files :=
  (save files.1 (m_banned_accounts b), save files.2 (m_banned_ip_addresses b)).

Definition add_banned_account (account : bytes) (b : Banned_users) : Banned_users :=
  mk_banned ({[ account ]} ∪ m_banned_accounts b) (m_banned_ip_addresses b).
Definition add_banned_ip_address (ip_address : bytes) (b : Banned_users) : Banned_users :=
  mk_banned (m_banned_accounts b) ({[ ip_address ]} ∪ m_banned_ip_addresses b).

Definition is_ip_address_banned (ip_address : bytes) (b : Banned_users) : bool :=
  bool_decide (ip_address ∈ m_banned_ip_addresses b).
Definition is_account_banned (account : bytes) (b : Banned_users) : bool :=
  bool_decide (account ∈ m_banned_accounts b).

(** ** Lemmas *)
Lemma lines_entry e text acc :
  newline ∉ e -> lines (e ++ newline :: text) acc = (rev acc ++ e) :: lines text [].
Proof.
  revert acc. induction e as [|c e IH]; intros acc Hn; cbn.
  - by rewrite app_nil_r.
  - apply not_elem_of_cons in Hn as [Hc He]. rewrite decide_False by done.
    rewrite IH by done. cbn. by rewrite <-app_assoc.
Qed.

Lemma lines_write (entries : list bytes) :
  Forall (fun e => newline ∉ e) entries -> lines (write_lines entries) [] = entries.
Proof.
  induction 1 as [|e entries He _ IH]; [done|]. unfold write_lines in *. cbn [fmap list_fmap concat].
  rewrite <-app_assoc. cbn [app]. rewrite lines_entry by done. cbn [rev app]. by rewrite IH.
Qed.

Lemma load_set (entries : list bytes) (s : BannedUsersType) :
  foldl (fun s line => {[ line ]} ∪ s) s entries = list_to_set entries ∪ s.
Proof.
  revert s. induction entries as [|e entries IH]; intros s; cbn; [set_solver|].
  rewrite IH. set_solver.
Qed.

(** The file holds the set: what [load] puts into its copy is what [save] was given. *)
Lemma load_save (f : option bytes) (s : BannedUsersType) :
  s <> ∅ -> (forall e, e ∈ s -> newline ∉ e) -> load (save f s) ∅ = s.
Proof.
  intros Hs Hn. unfold save, load. rewrite (bool_decide_eq_false_2 (s = ∅)) by done.
  rewrite (bool_decide_eq_true_2 (∅ = ∅)) by done. rewrite lines_write, load_set.
  - rewrite (right_id_L ∅ (∪)). apply list_to_set_elements_L.
  - apply Forall_forall. intros e He. apply Hn. by apply elem_of_elements.
Qed.

(** ** Properties *)

(** No ban survives a restart.  The file is right: the copy [load] fills
    from what [save] wrote is the saved set (entries hold no newline).  But the copy is
    dropped: a server that starts from the files of the last run has no banned account and no
    banned address, whatever they hold. *)
Theorem bans_lost_on_restart b files :
  m_banned_accounts b <> ∅ -> (forall e, e ∈ m_banned_accounts b -> newline ∉ e) ->
  load (save_banned_users files b).1 ∅ = m_banned_accounts b /\
  forall x, is_account_banned x (load_banned_users (save_banned_users files b) new_banned) = false /\
    is_ip_address_banned x (load_banned_users (save_banned_users files b) new_banned) = false.
Proof.
  intros Hne Hn. split; [by apply load_save|]. intros x. split;
    apply bool_decide_eq_false_2, not_elem_of_empty.
Qed.

Lemma bans_lost_on_restart_witness :
  let b := add_banned_account [Byte.x41] new_banned in
  is_account_banned [Byte.x41] b = true /\
  is_account_banned [Byte.x41] (load_banned_users (save_banned_users (None, None) b) new_banned) = false.
Proof.
  split; [reflexivity|]. pose (b := add_banned_account [Byte.x41] new_banned).
  assert (Hne : m_banned_accounts b <> ∅) by (cbn; set_solver).
  assert (Hn : forall e, e ∈ m_banned_accounts b -> newline ∉ e).
  { intros e He. cbn in He. assert (e = [Byte.x41]) as -> by set_solver.
    by intros [?|?]%elem_of_cons; [|by eapply not_elem_of_nil]. }
  exact (proj1 (proj2 (bans_lost_on_restart b (None, None) Hne Hn) [Byte.x41])).
Defined.

(** the sets in memory: adding an account or an address bans it, keeps every earlier
    ban, and touches no other set. *)
Theorem ban_sets b x y :
  is_account_banned y (add_banned_account x b) = bool_decide (y = x) || is_account_banned y b /\
  is_ip_address_banned y (add_banned_account x b) = is_ip_address_banned y b /\
  is_ip_address_banned y (add_banned_ip_address x b) = bool_decide (y = x) || is_ip_address_banned y b /\
  is_account_banned y (add_banned_ip_address x b) = is_account_banned y b.
Proof.
  unfold is_account_banned, is_ip_address_banned. cbn.
  rewrite <-!bool_decide_or. split_and!; try done; apply bool_decide_ext; set_solver.
Qed.
