(* ===== verification/Base58.v ===== *)
(** * Addresses: [src/src/base58.h]

    Base-58 encoding and decoding with their byte-by-byte long multiplication, the checksummed
    form, and [NexusAddress], which decides whether a login is accepted.  [None] is a failed
    [assert], a vector of a negative size, or undefined: the counts are [int], and the overload for
    vectors takes the address of the first byte.  The theorems show that there is none of these
    for strings of less than 2 GiB.  [Address_hash] is the checksum hash. *)
From S2P Require Import Prelude Bytes StdMap Uint.

(** [SK256] of [hash/templates.h], as a [uint256] value. *)
Class Address_hash := { SK256 : bytes -> Z; SK256_fits : forall l, fits 256 (SK256 l) }.

Definition ascii (z : Z) : byte := z2b z.

(** [pszBase58], as the character codes of its digits, and the table [mapBase58]. *)
Definition pszBase58 : list Z :=
  [49; 50; 51; 52; 53; 54; 55; 56; 57;
   65; 66; 67; 68; 69; 70; 71; 72; 74; 75; 76; 77; 78; 80; 81; 82; 83; 84; 85; 86; 87; 88; 89; 90;
   97; 98; 99; 100; 101; 102; 103; 104; 105; 106; 107; 109; 110; 111; 112; 113; 114; 115; 116; 117;
   118; 119; 120; 121; 122].

Definition mapBase58 : list Z :=
  replicate 48 (-1) ++
  [-1; 0; 1; 2; 3; 4; 5; 6; 7; 8; -1; -1; -1; -1; -1; -1;
   -1; 9; 10; 11; 12; 13; 14; 15; 16; -1; 17; 18; 19; 20; 21; -1;
   22; 23; 24; 25; 26; 27; 28; 29; 30; 31; 32; -1; -1; -1; -1; -1;
   -1; 33; 34; 35; 36; 37; 38; 39; 40; 41; 42; 43; -1; 44; 45; 46;
   47; 48; 49; 50; 51; 52; 53; 54; 55; 56; 57; -1; -1; -1; -1; -1] ++ replicate 128 (-1).

Definition IsSpace (c : byte) : bool :=
  let z := b2z c in
  (z =? 32) || (z =? 12) || (z =? 10) || (z =? 13) || (z =? 9) || (z =? 11).

(** ** The inner loop of both directions

    [digits] is the vector from its end, least significant digit first: multiply by [base], add
    [carry], stop when the carry is gone and [length] digits have been visited.  The result is
    the carry left, the count [i] of digits visited, and the vector. *)
Fixpoint mul_add (base radix carry : Z) (i length : nat) (digits : list Z) : Z * nat * list Z :=
  match digits with
  | [] => (carry, i, [])
  | d :: digits' =>
      if negb (carry =? 0) || bool_decide (i < length)%nat then
        let c := carry + base * d in
        let '(carry', i', ds) := mul_add base radix (c / radix) (S i) length digits' in
        (carry', i', c mod radix :: ds)
      else (carry, i, digits)
  end.

(** One round of the outer loop, with its [assert (carry == 0)]. *)
Definition digit_step (base radix digit : Z) (st : nat * list Z) : option (nat * list Z) :=
  let '(length, digits) := st in
  let '(carry, i, digits') := mul_add base radix digit 0 length digits in
  if carry =? 0 then Some (i, digits') else None.

Fixpoint digit_steps (base radix : Z) (input : list Z) (st : nat * list Z) : option (nat * list Z) :=
  match input with
  | [] => Some st
  | d :: input' => st ← digit_step base radix d st; digit_steps base radix input' st
  end.

(** Skip the zeroes from [size - length] on. *)
Fixpoint skip_zeroes (l : list Z) : list Z :=
  match l with 0 :: l' => skip_zeroes l' | _ => l end.
Definition significant (st : nat * list Z) : list Z := skip_zeroes (rev (take st.1 st.2)).

Fixpoint count_prefix (c : byte) (l : bytes) : nat :=
  match l with b :: l' => if decide (b = c) then S (count_prefix c l') else O | [] => O end.

(** [int size] keeps 32 bits of the number; the vector's constructor throws when it is negative. *)
Definition int_size (z : Z) : option nat := let size := i32 z in if size <? 0 then None else Some (Z.to_nat size).

(** [zeroes++] on an [int], which must not overflow. *)
Definition int_count (n : nat) : option nat := if Z.of_nat n <? 2 ^ 31 then Some n else None.

(** ** [EncodeBase58] and [DecodeBase58] *)
(** The bytes from [pbegin] to [pend].  The product is a [ptrdiff_t]. *)
Definition EncodeBase58 (vch : bytes) : option bytes :=
  zeroes ← int_count (count_prefix (ascii 0) vch);
  let rest := drop zeroes vch in
  let product := Z.of_nat (length rest) * 138 in
  if 2 ^ 63 <=? product then None else
  size ← int_size (product / 100 + 1);
  st ← digit_steps 256 58 (b2z <$> rest) (O, replicate size 0);
  Some (replicate zeroes (ascii 49) ++
        ((fun d => ascii (nth (Z.to_nat d) pszBase58 0)) <$> significant st)).

(** The overload for a vector takes [&vch[0]]. *)
Definition EncodeBase58_vector (vch : bytes) : option bytes :=
  match vch with [] => None | _ => EncodeBase58 vch end.

(** [c_str()]: the characters before the first NUL. *)
Definition c_str (s : bytes) : bytes := take_while (fun c => negb (b2z c =? 0)) s.

(** The characters up to a space; [None] when one is not a base-58 digit. *)
Fixpoint base58_digits (psz : bytes) : option (list Z) :=
  match psz with
  | [] => Some []
  | c :: psz' =>
      if IsSpace c then Some []
      else let d := nth (Z.to_nat (b2z c)) mapBase58 (-1) in
           if d =? -1 then None else ds ← base58_digits psz'; Some (d :: ds)
  end.

(** The outer [option] is a failed [assert], the inner one the [bool] result with the vector.
    Digits are processed before an invalid one is met, but the vector is then not written.  The
    size is computed in [size_t]. *)
Definition DecodeBase58 (str : bytes) : option (option bytes) :=
  let psz := drop_while IsSpace (c_str str) in
  zeroes ← int_count (count_prefix (ascii 49) psz);
  let psz := drop zeroes psz in
  size ← int_size (u64 (u64 (Z.of_nat (length psz) * 733) / 1000 + 1));
  match base58_digits psz with
  | None => Some None
  | Some ds =>
      st ← digit_steps 58 256 ds (O, replicate size 0);
      match drop_while IsSpace (drop (length ds) psz) with
      | [] => Some (Some (replicate zeroes (ascii 0) ++ (ascii <$> significant st)))
      | _ => Some None
      end
  end.

(** ** The checksummed form *)
Section check.
Context `{Address_hash}.

(** The first four bytes of the [uint256] in memory. *)
Definition checksum (v : bytes) : bytes := take 4 (memory (of_val WIDTH256 (SK256 v))).

Definition EncodeBase58Check (vchIn : bytes) : option bytes :=
  EncodeBase58_vector (vchIn ++ checksum vchIn).

Definition DecodeBase58Check (str : bytes) : option (option bytes) :=
  r ← DecodeBase58 str;
  match r with
  | None => Some None
  | Some vch =>
      if bool_decide (length vch < 4)%nat then Some None
      else
        let v := take (length vch - 4) vch in
        if bool_decide (checksum v = drop (length vch - 4) vch) then Some (Some v) else Some None
  end.
End check.

(** ** [CBase58Data] and [NexusAddress] *)
Record NexusAddress := mk_address { address_version : Z; vchData : bytes }.

Definition PUBKEY_ADDRESS := 42.
Definition SCRIPT_ADDRESS := 104.

Definition empty_address : NexusAddress := mk_address 0 [].

(** [SetData] *)
Definition SetData (nVersionIn : Z) (pdata : bytes) : NexusAddress := mk_address (u8 nVersionIn) pdata.

Definition SetHash256 (hash256 : Z) : NexusAddress :=
  SetData PUBKEY_ADDRESS (memory (of_val WIDTH256 hash256)).
Definition SetScriptHash256 (hash256 : Z) : NexusAddress :=
  SetData SCRIPT_ADDRESS (memory (of_val WIDTH256 hash256)).

Definition IsValid (a : NexusAddress) : bool :=
  if (address_version a =? PUBKEY_ADDRESS) || (address_version a =? SCRIPT_ADDRESS)
  then bool_decide (length (vchData a) = 32)%nat else false.
Definition IsScript (a : NexusAddress) : bool :=
  if negb (IsValid a) then false else address_version a =? SCRIPT_ADDRESS.

(** [assert(vchData.size() == 32)] *)
Definition GetHash256 (a : NexusAddress) : option Z :=
  if bool_decide (length (vchData a) = 32)%nat then Some (val (of_memory WIDTH256 (vchData a)))
  else None.

Section address.
Context `{Address_hash}.

Definition SetPubKey (vchPubKey : bytes) : NexusAddress := SetHash256 (SK256 vchPubKey).

(** [SetString] looks at the vector, not at the result of [DecodeBase58Check]. *)
Definition SetString (str : bytes) : option (bool * NexusAddress) :=
  r ← DecodeBase58Check str;
  match default [] r with
  | [] => Some (false, empty_address)
  | v :: data => Some (true, mk_address (b2z v) data)
  end.

Definition ToString (a : NexusAddress) : option bytes :=
  EncodeBase58Check (z2b (address_version a) :: vchData a).

(** [NexusAddress(str).IsValid()], the test of a login. *)
Definition valid_address (str : bytes) : option bool := '(_, a) ← SetString str; Some (IsValid a).
End address.

(** [CompareTo] *)
Definition CompareTo (a b : NexusAddress) : Z :=
  if address_version a <? address_version b then -1
  else if address_version b <? address_version a then 1
  else
    if bytes_lt (vchData a) (vchData b) then -1
    else if bytes_lt (vchData b) (vchData a) then 1 else 0.

(** ** Numbers in a radix *)
(** Least and most significant digit first. *)
Fixpoint le_val (radix : Z) (l : list Z) : Z :=
  match l with [] => 0 | d :: l' => d + radix * le_val radix l' end.
Definition be_val (radix : Z) (l : list Z) : Z := foldl (fun a d => a * radix + d) 0 l.

Definition digit_of (radix d : Z) : Prop := 0 <= d < radix.
Abbreviation digits_of radix := (Forall (digit_of radix)).

Section radix.
Context (radix : Z) (Hradix : 1 < radix).

Lemma le_val_app l m : le_val radix (l ++ m) = le_val radix l + radix ^ Z.of_nat (length l) * le_val radix m.
Proof.
  induction l as [|d l IH]; cbn [le_val app length]; [lia|].
  rewrite IH, Nat2Z.inj_succ, Z.pow_succ_r by lia. lia.
Qed.

Lemma le_val_zeroes l : Forall (eq 0) l -> le_val radix l = 0.
Proof. induction 1 as [|? l <- _ IH]; cbn; lia. Qed.

Lemma le_val_bound l : digits_of radix l -> 0 <= le_val radix l < radix ^ Z.of_nat (length l).
Proof.
  induction 1 as [|d l Hd _ IH]; [done|]. cbn [le_val length].
  rewrite Nat2Z.inj_succ, Z.pow_succ_r by lia. unfold digit_of in Hd. nia.
Qed.

Lemma be_val_acc l a : foldl (fun a d => a * radix + d) a l = a * radix ^ Z.of_nat (length l) + be_val radix l.
Proof.
  unfold be_val. revert a. induction l as [|d l IH]; intros a; cbn [foldl length]; [lia|].
  rewrite IH, (IH (0 * radix + d)), Nat2Z.inj_succ, Z.pow_succ_r by lia. lia.
Qed.

Lemma be_val_rev l : be_val radix (rev l) = le_val radix l.
Proof.
  induction l as [|d l IH]; [done|]. cbn [rev le_val]. unfold be_val in *.
  rewrite foldl_app, IH. cbn. lia.
Qed.

Lemma be_val_bound l : digits_of radix l -> 0 <= be_val radix l < radix ^ Z.of_nat (length l).
Proof.
  intros Hl%Forall_rev. apply le_val_bound in Hl.
  by rewrite <-be_val_rev, rev_involutive, length_rev in Hl.
Qed.

Lemma be_val_cons d l : be_val radix (d :: l) = d * radix ^ Z.of_nat (length l) + be_val radix l.
Proof. unfold be_val at 1. cbn [foldl]. rewrite be_val_acc. f_equal. Qed.

(** No leading zero. *)
Definition normal (l : list Z) : Prop := match l with 0 :: _ => False | _ => True end.

Lemma normal_pos d l : digits_of radix (d :: l) -> normal (d :: l) -> 1 <= d.
Proof.
  intros [Hd _]%Forall_cons Hn. unfold digit_of in Hd. destruct d; [done|lia|lia].
Qed.

Lemma be_val_length l m :
  digits_of radix l -> digits_of radix m -> normal l -> be_val radix l = be_val radix m ->
  (length l <= length m)%nat.
Proof.
  intros Hl Hm Hn Heq. destruct l as [|d l]; [cbn; lia|].
  pose proof (normal_pos d l Hl Hn). pose proof (be_val_bound m Hm) as [_ Hlt].
  apply Forall_cons in Hl as [_ Hl]. pose proof (be_val_bound l Hl) as [Hnn _].
  rewrite <-Heq, be_val_cons in Hlt. apply Nat.nlt_ge. intros Hlen. cbn in Hlen.
  assert (radix ^ Z.of_nat (length m) <= radix ^ Z.of_nat (length l)) by (apply Z.pow_le_mono_r; lia).
  pose proof (Z.pow_pos_nonneg radix (Z.of_nat (length l))). nia.
Qed.

(** A number has one form without leading zeroes. *)
Lemma be_val_inj l m :
  digits_of radix l -> digits_of radix m -> length l = length m ->
  be_val radix l = be_val radix m -> l = m.
Proof.
  intros Hl. revert m. induction Hl as [|d l Hd Hl IH]; intros [|e m] Hm Hlen Heq; try done.
  apply Forall_cons in Hm as [He Hm]. injection Hlen as Hlen.
  rewrite !be_val_cons, Hlen in Heq. pose proof (be_val_bound l Hl) as Hbl.
  pose proof (be_val_bound m Hm) as Hbm. rewrite Hlen in Hbl.
  assert (d = e) as -> by nia. f_equal. apply IH; [done|done|lia].
Qed.

Lemma normal_unique l m :
  digits_of radix l -> digits_of radix m -> normal l -> normal m ->
  be_val radix l = be_val radix m -> l = m.
Proof.
  intros Hl Hm Hnl Hnm Heq. apply be_val_inj; try done.
  pose proof (be_val_length l m Hl Hm Hnl Heq).
  pose proof (be_val_length m l Hm Hl Hnm (eq_sym Heq)). lia.
Qed.

Lemma skip_zeroes_spec l :
  digits_of radix l ->
  digits_of radix (skip_zeroes l) /\ normal (skip_zeroes l) /\
  be_val radix (skip_zeroes l) = be_val radix l.
Proof.
  induction 1 as [|d l Hd Hl IH]; [done|]. destruct d as [|p|p]; cbn [skip_zeroes].
  - destruct IH as (?&?&->). split; [done|]. split; [done|]. rewrite be_val_cons. lia.
  - split; [by constructor|done].
  - unfold digit_of in Hd. lia.
Qed.
End radix.

(** ** The long multiplication *)
Section mul_add.
Context (base radix : Z) (Hbase : 1 < base) (Hradix : 1 < radix).

(** Digits in range, zero from [length] on. *)
Definition settled (length : nat) (digits : list Z) : Prop :=
  digits_of radix digits /\ Forall (eq 0) (drop length digits).

Lemma settled_0 digits : settled 0 digits -> le_val radix digits = 0.
Proof. intros [_ H]. by apply le_val_zeroes. Qed.

Lemma mul_add_spec digits carry i len :
  0 <= carry -> settled (len - i) digits ->
  let '(carry', i', ds) := mul_add base radix carry i len digits in
  length ds = length digits /\ 0 <= carry' /\ (i <= i')%nat /\ (i' - i <= length digits)%nat /\
  settled (i' - i) ds /\
  le_val radix ds + radix ^ Z.of_nat (length digits) * carry' =
    base * le_val radix digits + carry.
Proof.
  revert carry i. induction digits as [|d digits IH]; intros carry i Hc Hs; cbn [mul_add].
  { cbn. replace (i - i)%nat with 0%nat by lia. repeat split; try lia; by constructor. }
  destruct (negb (carry =? 0) || bool_decide (i < len)%nat) eqn:E.
  - destruct Hs as [Hr Hz]. apply Forall_cons in Hr as [Hd Hr]. unfold digit_of in Hd.
    assert (Hnext : 0 <= (carry + base * d) / radix) by (apply Z.div_pos; nia).
    specialize (IH _ (S i) Hnext). destruct (mul_add _ _ _ (S i) len digits) as [[c' i'] ds].
    destruct IH as (Hl&Hc'&Hi&Hi'&[Hr' Hz']&Hv).
    { split; [done|]. destruct (len - i)%nat as [|n] eqn:En.
      - replace (len - S i)%nat with 0%nat by lia. cbn in Hz. by apply Forall_cons in Hz as [_ Hz].
      - replace (len - S i)%nat with n by lia. done. }
    assert (Hmod : digit_of radix ((carry + base * d) mod radix)) by (apply Z.mod_pos_bound; lia).
    cbn [length le_val]. repeat split; [lia|done|lia|lia|by constructor| |].
    + replace (i' - i)%nat with (S (i' - S i)) by lia. done.
    + rewrite Nat2Z.inj_succ, Z.pow_succ_r by lia.
      pose proof (Z.div_mod (carry + base * d) radix ltac:(lia)). nia.
  - apply orb_false_iff in E as [E1 E2]. bools. subst carry.
    replace (len - i)%nat with 0%nat in Hs by lia. replace (i - i)%nat with 0%nat by lia.
    rewrite (settled_0 _ Hs). repeat split; try lia; by destruct Hs.
Qed.

(** A round succeeds while the number fits the vector. *)
Lemma digit_step_spec d len digits :
  digit_of base d -> settled len digits -> (len <= length digits)%nat ->
  base * le_val radix digits + d < radix ^ Z.of_nat (length digits) ->
  exists len' ds, digit_step base radix d (len, digits) = Some (len', ds) /\
    settled len' ds /\ (len' <= length ds)%nat /\ length ds = length digits /\
    le_val radix ds = base * le_val radix digits + d.
Proof.
  intros Hd Hs Hlen Hfit. unfold digit_step.
  pose proof (mul_add_spec digits d 0 len) as H. rewrite Nat.sub_0_r in H.
  destruct (mul_add _ _ _ _ _ _) as [[c i] ds].
  destruct H as (Hl&Hc&_&Hi&Hs'&Hv); [unfold digit_of in Hd; lia|done|].
  rewrite Nat.sub_0_r in Hs', Hi. pose proof Hs' as [Hr _]. pose proof Hs as [Hr0 _].
  pose proof (le_val_bound radix Hradix ds Hr) as Hb. rewrite Hl in Hb.
  assert (c = 0) as -> by nia. cbn. exists i, ds. repeat split; try done; try lia; by destruct Hs'.
Qed.

Lemma digit_steps_spec input len digits :
  digits_of base input -> settled len digits -> (len <= length digits)%nat ->
  le_val radix digits * base ^ Z.of_nat (length input) + be_val base input <
    radix ^ Z.of_nat (length digits) ->
  exists len' ds, digit_steps base radix input (len, digits) = Some (len', ds) /\
    settled len' ds /\
    le_val radix ds = le_val radix digits * base ^ Z.of_nat (length input) + be_val base input.
Proof.
  intros Hin. revert len digits.
  induction Hin as [|d input Hd Hin IH]; intros len digits Hs Hlen Hfit.
  { exists len, digits. cbn. split; [done|]. split; [done|]. lia. }
  pose proof (be_val_bound base Hbase input Hin) as Hb.
  pose proof (Z.pow_pos_nonneg base (Z.of_nat (length input)) ltac:(lia) ltac:(lia)) as Hp.
  pose proof Hs as [Hr _]. pose proof (le_val_bound radix Hradix digits Hr) as Hd0.
  rewrite (be_val_cons base) in Hfit |- *.
  cbn [length] in Hfit |- *. rewrite Nat2Z.inj_succ, Z.pow_succ_r in Hfit |- * by lia.
  destruct (digit_step_spec d len digits Hd Hs Hlen) as (len1&ds1&H1&Hs1&Hlen1&Hl1&Hv1); [nia|].
  destruct (IH len1 ds1 Hs1 Hlen1) as (len2&ds2&H2&Hs2&Hv2).
  { rewrite Hv1, Hl1. nia. }
  exists len2, ds2. cbn [digit_steps]. rewrite H1. cbn [mbind option_bind].
  split; [done|]. split; [done|]. rewrite Hv2, Hv1. nia.
Qed.

(** The whole conversion, from a vector of zeroes that is large enough. *)
Lemma convert_spec input size :
  digits_of base input -> base ^ Z.of_nat (length input) <= radix ^ Z.of_nat size ->
  exists st, digit_steps base radix input (O, replicate size 0) = Some st /\
    digits_of radix (significant st) /\ normal (significant st) /\
    be_val radix (significant st) = be_val base input.
Proof.
  intros Hin Hsize.
  assert (H0 : le_val radix (replicate size 0) = 0) by (apply le_val_zeroes; by apply Forall_replicate).
  destruct (digit_steps_spec input 0 (replicate size 0)) as (len&ds&H1&[Hr Hz]&Hv).
  - done.
  - split; [apply Forall_replicate; split; lia|by apply Forall_replicate].
  - lia.
  - rewrite H0, length_replicate. pose proof (be_val_bound base Hbase input Hin). lia.
  - exists (len, ds). split; [done|]. unfold significant. cbn [fst snd].
    destruct (skip_zeroes_spec radix (rev (take len ds))) as (Hr'&Hn&Hv').
    { apply Forall_rev. by apply Forall_take. }
    split; [done|]. split; [done|]. rewrite Hv', be_val_rev by done.
    rewrite <-(take_drop len ds), le_val_app, (le_val_zeroes radix (drop len ds)) in Hv by done.
    lia.
Qed.
End mul_add.

(** ** The size estimates: [138 / 100] is above [log 256 / log 58], [733 / 1000] above its inverse *)
Lemma pow_estimate a b p q n :
  1 < a -> 1 < b -> 0 <= p -> 0 < q -> a ^ q <= b ^ p -> 0 <= n ->
  a ^ n <= b ^ (n * p / q + 1).
Proof.
  intros Ha Hb Hp Hq Hab Hn. set (k := n * p / q + 1).
  assert (Hk : n * p <= k * q) by (unfold k; zlia).
  assert (0 <= k) by (unfold k; pose proof (Z.div_pos (n * p) q ltac:(nia) Hq); lia).
  clearbody k.
  apply Z.nlt_ge. intros Hlt.
  assert ((b ^ k) ^ q < (a ^ n) ^ q) as Hpow.
  { apply Z.pow_lt_mono_l; [lia|]. split; [apply Z.pow_nonneg; lia|done]. }
  rewrite <-(Z.pow_mul_r b k q), <-(Z.pow_mul_r a n q), (Z.mul_comm n q) in Hpow by lia.
  assert (Hpq : (a ^ q) ^ n <= (b ^ p) ^ n).
  { apply Z.pow_le_mono_l. split; [apply Z.pow_nonneg; lia|done]. }
  rewrite <-(Z.pow_mul_r a q n), <-(Z.pow_mul_r b p n) in Hpq by lia.
  assert (b ^ (p * n) <= b ^ (k * q)) by (apply Z.pow_le_mono_r; lia). lia.
Qed.

Lemma encode_size n :
  256 ^ Z.of_nat n <= 58 ^ Z.of_nat (n * 138 / 100 + 1).
Proof.
  rewrite Nat2Z.inj_add, Nat2Z.inj_div, Nat2Z.inj_mul.
  apply (pow_estimate 256 58 138 100); lia.
Qed.

Lemma decode_size n :
  58 ^ Z.of_nat n <= 256 ^ Z.of_nat (n * 733 / 1000 + 1).
Proof.
  rewrite Nat2Z.inj_add, Nat2Z.inj_div, Nat2Z.inj_mul.
  apply (pow_estimate 58 256 733 1000); lia.
Qed.

(** ** The tables *)
Definition b58_char (d : Z) : byte := ascii (nth (Z.to_nat d) pszBase58 0).

Lemma tables d : digit_of 58 d ->
  nth (Z.to_nat (b2z (b58_char d))) mapBase58 (-1) = d /\ IsSpace (b58_char d) = false /\
  b2z (b58_char d) <> 0 /\ (b58_char d = ascii 49 <-> d = 0).
Proof.
  intros Hd.
  assert (Hall : forallb (fun n =>
    let d := Z.of_nat n in let c := b58_char d in
    (nth (Z.to_nat (b2z c)) mapBase58 (-1) =? d) && negb (IsSpace c) && negb (b2z c =? 0) &&
    Bool.eqb (bool_decide (c = ascii 49)) (d =? 0)) (seq 0 58) = true) by (by vm_compute).
  rewrite forallb_forall in Hall. unfold digit_of in Hd.
  assert (Hin : In (Z.to_nat d) (seq 0 58)) by (apply in_seq; lia).
  specialize (Hall _ Hin). cbv zeta in Hall. rewrite Z2Nat.id in Hall by lia.
  apply andb_true_iff in Hall as [Hall H4]. bools.
  apply Bool.eqb_prop in H4. split; [done|]. split; [done|]. split; [done|].
  destruct (Z.eqb_spec d 0) as [Hz|Hz];
    [apply bool_decide_eq_true_1 in H4|apply bool_decide_eq_false_1 in H4]; by split.
Qed.

Lemma map_digit c : nth (Z.to_nat (b2z c)) mapBase58 (-1) <> -1 ->
  digit_of 58 (nth (Z.to_nat (b2z c)) mapBase58 (-1)).
Proof.
  assert (Hall : forallb (fun z => (z =? -1) || (0 <=? z) && (z <? 58)) mapBase58 = true) by done.
  rewrite forallb_forall in Hall. intros Hne.
  destruct (nth_in_or_default (Z.to_nat (b2z c)) mapBase58 (-1)) as [Hin|]; [|done].
  apply Hall in Hin. apply orb_prop in Hin as [Hin|Hin]; [by apply Z.eqb_eq in Hin|].
  bools. unfold digit_of. lia.
Qed.

Lemma base58_digits_range psz ds :
  base58_digits psz = Some ds -> digits_of 58 ds /\ (length ds <= length psz)%nat.
Proof.
  revert ds. induction psz as [|c psz IH]; intros ds; cbn [base58_digits]; [intros [= <-]; by split; [constructor|cbn]|].
  destruct (IsSpace c); [intros [= <-]; split; [constructor|cbn; lia]|].
  destruct (Z.eqb_spec (nth (Z.to_nat (b2z c)) mapBase58 (-1)) (-1)) as [|Hne]; [done|].
  intros H. apply bind_Some in H as (ds'&Hds&[= <-]). destruct (IH _ Hds) as [Hr Hl].
  split; [constructor; [by apply map_digit|done]|cbn; lia].
Qed.

Lemma base58_digits_chars ds :
  digits_of 58 ds -> base58_digits (b58_char <$> ds) = Some ds.
Proof.
  induction 1 as [|d ds Hd _ IH]; [done|]. cbn [fmap list_fmap base58_digits].
  destruct (tables d Hd) as (Ht&Hs&_). rewrite Hs, Ht.
  destruct (Z.eqb_spec d (-1)); [unfold digit_of in Hd; lia|].
  change (list_fmap Z byte b58_char ds) with (b58_char <$> ds). by rewrite IH.
Qed.

Lemma bytes_digits (l : bytes) : digits_of 256 (b2z <$> l).
Proof. apply Forall_fmap, Forall_true. intros b. exact (b2z_fits b). Qed.

Lemma ascii_b2z (l : bytes) : ascii <$> (b2z <$> l) = l.
Proof.
  rewrite <-list_fmap_compose. rewrite <-(list_fmap_id l) at 2. apply list_fmap_ext.
  intros _ b _. apply z2b_b2z.
Qed.

Lemma count_prefix_split c l :
  l = replicate (count_prefix c l) c ++ drop (count_prefix c l) l /\
  match drop (count_prefix c l) l with b :: _ => b <> c | [] => True end.
Proof.
  induction l as [|b l IH]; [done|]. cbn [count_prefix]. case_decide as E; [|done].
  subst b. cbn [replicate drop app]. destruct IH as [IH1 IH2]. split; [by f_equal|done].
Qed.

Lemma count_prefix_replicate n c l :
  match l with b :: _ => b <> c | [] => True end -> count_prefix c (replicate n c ++ l) = n.
Proof.
  intros Hl. induction n as [|n IH]; cbn [replicate app count_prefix].
  - destruct l as [|b l]; [done|]. cbn. by rewrite decide_False.
  - by rewrite decide_True, IH.
Qed.

Lemma take_while_Forall p (l : bytes) : Forall (fun c => p c = true) l -> take_while p l = l.
Proof. induction 1 as [|c l Hc _ IH]; [done|]. cbn. by rewrite Hc, IH. Qed.

Lemma count_prefix_le c l : (count_prefix c l <= length l)%nat.
Proof. induction l as [|b l IH]; cbn; [lia|]. case_decide; lia. Qed.

Lemma take_while_le p (l : bytes) : (length (take_while p l) <= length l)%nat.
Proof. induction l as [|c l IH]; cbn; [lia|]. destruct (p c); cbn; lia. Qed.

Lemma drop_while_le p (l : bytes) : (length (drop_while p l) <= length l)%nat.
Proof. induction l as [|c l IH]; cbn; [lia|]. destruct (p c); cbn; lia. Qed.

Lemma int_count_small n : Z.of_nat n < 2 ^ 31 -> int_count n = Some n.
Proof. intros Hn. unfold int_count. by rewrite (proj2 (Z.ltb_lt _ _)). Qed.

Lemma int_size_small n : Z.of_nat n < 2 ^ 31 -> int_size (Z.of_nat n) = Some n.
Proof.
  intros Hn. unfold int_size. assert (i32 (Z.of_nat n) = Z.of_nat n) as ->.
  { unfold sgn. rewrite Z.mod_small by lia. lia. }
  rewrite (proj2 (Z.ltb_ge _ _)) by lia. by rewrite Nat2Z.id.
Qed.

Lemma encode_int_size n :
  Z.of_nat n < 2 ^ 30 ->
  (2 ^ 63 <=? Z.of_nat n * 138) = false /\
  int_size (Z.of_nat n * 138 / 100 + 1) = Some (n * 138 / 100 + 1)%nat.
Proof.
  intros Hn. split; [apply Z.leb_gt; lia|].
  replace (Z.of_nat n * 138 / 100 + 1) with (Z.of_nat (n * 138 / 100 + 1)).
  - apply int_size_small. rewrite Nat2Z.inj_add, Nat2Z.inj_div, Nat2Z.inj_mul. zlia.
  - rewrite Nat2Z.inj_add, Nat2Z.inj_div, Nat2Z.inj_mul. lia.
Qed.

Lemma decode_int_size n :
  Z.of_nat n < 2 ^ 31 ->
  int_size (u64 (u64 (Z.of_nat n * 733) / 1000 + 1)) = Some (n * 733 / 1000 + 1)%nat.
Proof.
  intros Hn. rewrite (wrap_small 64 (Z.of_nat n * 733)) by (unfold fits; lia).
  rewrite wrap_small by (unfold fits; zlia).
  replace (Z.of_nat n * 733 / 1000 + 1) with (Z.of_nat (n * 733 / 1000 + 1)).
  - apply int_size_small. rewrite Nat2Z.inj_add, Nat2Z.inj_div, Nat2Z.inj_mul. zlia.
  - rewrite Nat2Z.inj_add, Nat2Z.inj_div, Nat2Z.inj_mul. lia.
Qed.

(** ** Encoding then decoding *)
(** The digits of a number below [256 ^ n] without leading zeroes. *)
Lemma normal_length n ds :
  digits_of 58 ds -> normal ds -> be_val 58 ds < 256 ^ Z.of_nat n ->
  (length ds <= n * 138 / 100 + 1)%nat.
Proof.
  intros Hr Hn Hlt. destruct ds as [|d ds]; [cbn; lia|].
  pose proof (normal_pos 58 d ds Hr Hn) as Hd. apply Forall_cons in Hr as [_ Hr].
  pose proof (be_val_bound 58 ltac:(lia) ds Hr) as [Hb _]. rewrite be_val_cons in Hlt by lia.
  pose proof (encode_size n) as He. apply Nat.nlt_ge. cbn [length]. intros Hlen.
  assert (58 ^ Z.of_nat (n * 138 / 100 + 1) <= 58 ^ Z.of_nat (length ds)) by (apply Z.pow_le_mono_r; lia).
  pose proof (Z.pow_pos_nonneg 58 (Z.of_nat (length ds))). nia.
Qed.

Lemma encode_spec vch :
  Z.of_nat (length vch) < 2 ^ 30 -> exists ds, EncodeBase58 vch =
      Some (replicate (count_prefix (ascii 0) vch) (ascii 49) ++ (b58_char <$> ds)) /\
    digits_of 58 ds /\ normal ds /\
    be_val 58 ds = be_val 256 (b2z <$> drop (count_prefix (ascii 0) vch) vch).
Proof.
  intros Hlen. unfold EncodeBase58. pose proof (count_prefix_le (ascii 0) vch).
  rewrite int_count_small by lia. cbn [mbind option_bind]. set (rest := drop _ _).
  assert (Hrest : Z.of_nat (length rest) < 2 ^ 30) by (unfold rest; rewrite length_drop; lia).
  destruct (encode_int_size (length rest) Hrest) as [-> ->]. cbn [mbind option_bind].
  destruct (convert_spec 256 58 ltac:(lia) ltac:(lia) (b2z <$> rest)
    (length rest * 138 / 100 + 1)%nat) as (st&Hst&Hr&Hn&Hv).
  - apply bytes_digits.
  - rewrite length_fmap. apply encode_size.
  - exists (significant st). rewrite Hst. by split.
Qed.

Lemma decode_chars zeroes ds :
  digits_of 58 ds -> normal ds -> Z.of_nat zeroes < 2 ^ 31 -> Z.of_nat (length ds) < 2 ^ 31 ->
  exists out, DecodeBase58 (replicate zeroes (ascii 49) ++ (b58_char <$> ds)) =
      Some (Some (replicate zeroes (ascii 0) ++ (ascii <$> out))) /\
    digits_of 256 out /\ normal out /\ be_val 256 out = be_val 58 ds.
Proof.
  intros Hds Hn Hz Hlen. unfold DecodeBase58.
  set (s := replicate zeroes (ascii 49) ++ (b58_char <$> ds)).
  assert (Hchars : Forall (fun c => b2z c <> 0 /\ IsSpace c = false) s).
  { apply Forall_app. split; [by apply Forall_replicate|].
    apply Forall_fmap. eapply Forall_impl; [exact Hds|]. intros d Hd. cbn.
    by destruct (tables d Hd) as (_&?&?&_). }
  assert (c_str s = s) as ->.
  { apply take_while_Forall. eapply Forall_impl; [exact Hchars|]. intros c [Hc _].
    by apply Z.eqb_neq in Hc; rewrite Hc. }
  assert (drop_while IsSpace s = s) as ->.
  { destruct Hchars as [|c l [_ Hc] _]; [done|]. cbn. by rewrite Hc. }
  assert (count_prefix (ascii 49) s = zeroes) as ->.
  { apply count_prefix_replicate. destruct Hds as [|d ds Hd Hds]; [done|]. cbn.
    destruct (tables d Hd) as (_&_&_&Hone). rewrite Hone. by intros ->. }
  rewrite int_count_small by done. cbn [mbind option_bind].
  unfold s. rewrite drop_app_length' by (by rewrite length_replicate).
  rewrite decode_int_size by (by rewrite length_fmap). cbn [mbind option_bind].
  rewrite base58_digits_chars by done.
  destruct (convert_spec 58 256 ltac:(lia) ltac:(lia) ds
    (length (b58_char <$> ds) * 733 / 1000 + 1)%nat) as (st&Hst&Hr&Hn'&Hv); [done| |].
  { rewrite length_fmap. apply decode_size. }
  exists (significant st). rewrite Hst. cbn [mbind option_bind].
  rewrite drop_ge by (by rewrite length_fmap). cbn [drop_while]. by split.
Qed.

Lemma decode_encode vch :
  Z.of_nat (length vch) < 2 ^ 30 ->
  exists s, EncodeBase58 vch = Some s /\ DecodeBase58 s = Some (Some vch).
Proof.
  intros Hlen. destruct (encode_spec vch Hlen) as (ds&He&Hr&Hn&Hv). eexists. split; [exact He|].
  pose proof (count_prefix_le (ascii 0) vch) as Hc.
  destruct (decode_chars (count_prefix (ascii 0) vch) ds Hr Hn) as (out&Hd&Hr'&Hn'&Hv'); [lia| |].
  { assert (Hds : (length ds <= length vch * 138 / 100 + 1)%nat).
    { apply normal_length; [done..|]. rewrite Hv. set (rest := drop _ _).
      pose proof (be_val_bound 256 ltac:(lia) (b2z <$> rest) (bytes_digits rest)) as [_ Hb].
      rewrite length_fmap in Hb. eapply Z.lt_le_trans; [exact Hb|]. apply Z.pow_le_mono_r; [lia|].
      unfold rest. rewrite length_drop. lia. }
    apply Nat2Z.inj_le in Hds. rewrite Nat2Z.inj_add, Nat2Z.inj_div, Nat2Z.inj_mul in Hds. zlia. }
  rewrite Hd. do 2 f_equal. destruct (count_prefix_split (ascii 0) vch) as [Hsplit Hhead].
  set (z := count_prefix _ _) in *.
  etransitivity; [|symmetry; exact Hsplit]. f_equal.
  assert (out = b2z <$> drop z vch) as ->; [|apply ascii_b2z].
  apply (normal_unique 256); try done; [apply bytes_digits| |congruence].
  destruct (drop z vch) as [|b l]; [done|]. cbn. destruct (b2z b) eqn:E; try done.
  apply Hhead. apply b2z_inj. by rewrite E.
Qed.

(** No [assert] of the decoder fails, on any input that the counts can hold. *)
Lemma decode_total str : Z.of_nat (length str) < 2 ^ 31 -> exists r, DecodeBase58 str = Some r.
Proof.
  intros Hlen. unfold DecodeBase58. pose proof (take_while_le (fun c => negb (b2z c =? 0)) str) as H1.
  fold (c_str str) in H1. pose proof (drop_while_le IsSpace (c_str str)) as H2.
  set (psz0 := drop_while IsSpace (c_str str)) in *. pose proof (count_prefix_le (ascii 49) psz0).
  rewrite int_count_small by lia. cbn [mbind option_bind]. set (psz := drop _ _).
  rewrite decode_int_size by (unfold psz; rewrite length_drop; lia). cbn [mbind option_bind]. destruct (base58_digits psz) as [ds|] eqn:E; [|by eexists].
  destruct (base58_digits_range _ _ E) as [Hds Hl].
  destruct (convert_spec 58 256 ltac:(lia) ltac:(lia) ds (length psz * 733 / 1000 + 1)%nat)
    as (st&->&_); [done| |].
  - etransitivity; [|apply decode_size]. apply Z.pow_le_mono_r; lia.
  - cbn [mbind option_bind]. case_match; by eexists.
Qed.

(** ** The checksummed form *)
Section check_lemmas.
Context `{Address_hash}.

Lemma length_checksum v : length (checksum v) = 4%nat.
Proof.
  unfold checksum. rewrite length_take, length_memory. by destruct (of_val_wf WIDTH256 (SK256 v)) as [-> _].
Qed.

Lemma check_roundtrip v :
  Z.of_nat (length v) < 2 ^ 29 -> exists s, EncodeBase58Check v = Some s /\ DecodeBase58Check s = Some (Some v).
Proof.
  intros Hlen. destruct (decode_encode (v ++ checksum v)) as (s&He&Hd).
  { rewrite length_app, length_checksum. lia. }
  exists s. split; [|].
  { unfold EncodeBase58Check, EncodeBase58_vector. destruct (v ++ checksum v) eqn:E; [|done].
    apply (f_equal length) in E. rewrite length_app, length_checksum in E. cbn in E. lia. }
  unfold DecodeBase58Check. rewrite Hd. cbn [mbind option_bind].
  rewrite length_app, length_checksum, Nat.add_sub, take_app_length, drop_app_length.
  rewrite bool_decide_eq_false_2 by lia. by rewrite bool_decide_eq_true_2.
Qed.

Lemma decode_check_total str :
  Z.of_nat (length str) < 2 ^ 31 -> exists r, DecodeBase58Check str = Some r.
Proof.
  intros Hlen. unfold DecodeBase58Check. destruct (decode_total str Hlen) as (r&->). cbn [mbind option_bind].
  destruct r; repeat case_match; by eexists.
Qed.

Lemma decode_check_sound str v :
  DecodeBase58Check str = Some (Some v) -> DecodeBase58 str = Some (Some (v ++ checksum v)).
Proof.
  unfold DecodeBase58Check. destruct (DecodeBase58 str) as [[vch|]|]; cbn [mbind option_bind]; try done.
  case_bool_decide; [done|]. case_bool_decide as Hc; [|done]. intros [= <-].
  rewrite Hc. by rewrite take_drop.
Qed.
End check_lemmas.

(** ** Properties *)

(** C35: base-58 decoding inverts encoding on every sequence of less than 1 GiB of bytes, leading
    zeroes included, and so does it for the overload that encodes a vector, unless the vector is
    empty: then the address of its first byte is undefined.  Neither the [assert] of the encoder
    nor, on any string of less than 2 GiB, the one of the decoder can fail, because the estimates
    of the size of the result are large enough and fit an [int]. *)
Theorem base58_roundtrip vch str :
  (Z.of_nat (length vch) < 2 ^ 30 ->
   exists s, EncodeBase58 vch = Some s /\ DecodeBase58 s = Some (Some vch) /\
     EncodeBase58_vector vch = if decide (vch = []) then None else Some s) /\
  (Z.of_nat (length str) < 2 ^ 31 -> exists r, DecodeBase58 str = Some r).
Proof.
  split; [|apply decode_total]. intros Hlen. destruct (decode_encode vch Hlen) as (s&He&Hd).
  exists s. split; [done|]. split; [done|]. by destruct vch.
Qed.

Lemma base58_roundtrip_witness :
  exists s, EncodeBase58_vector [z2b 0; z2b 1; z2b 255] = Some s /\
    DecodeBase58 s = Some (Some [z2b 0; z2b 1; z2b 255]).
Proof.
  destruct (proj1 (base58_roundtrip [z2b 0; z2b 1; z2b 255] []) ltac:(done)) as (s&_&Hd&He).
  exists s. exact (conj He Hd).
Defined.

(** C36: the test of a login address.  It is defined for every string of less than 2 GiB; it
    accepts exactly the strings that decode to a version byte 42 or 104, 32 bytes, and the right four
    bytes of checksum; and it accepts what [ToString] prints for any address of that version and
    size, which [SetString] reads back unchanged. *)
Theorem login_address `{Address_hash} str a :
  (Z.of_nat (length str) < 2 ^ 31 -> exists b, valid_address str = Some b) /\
  (valid_address str = Some true <->
    exists version data,
      DecodeBase58 str = Some (Some ((version :: data) ++ checksum (version :: data))) /\
      length data = 32%nat /\ (b2z version = PUBKEY_ADDRESS \/ b2z version = SCRIPT_ADDRESS)) /\
  (fits 8 (address_version a) -> IsValid a = true ->
    exists s, ToString a = Some s /\ SetString s = Some (true, a) /\ valid_address s = Some true).
Proof.
  split; [|split].
  - intros Hlen. unfold valid_address, SetString. destruct (decode_check_total str Hlen) as (r&->).
    cbn [mbind option_bind]. destruct (default [] r); by eexists.
  - unfold valid_address, SetString. split.
    + destruct (DecodeBase58Check str) as [[[|v data]|]|] eqn:E; cbn [mbind option_bind default];
        try done. intros [= Hv]. exists v, data. split; [by apply decode_check_sound|].
      unfold IsValid in Hv. cbn [address_version vchData] in Hv.
      destruct ((b2z v =? PUBKEY_ADDRESS) || (b2z v =? SCRIPT_ADDRESS)) eqn:Ev; [|done].
      bools. split; [done|]. apply orb_prop in Ev as [Ev|Ev]; apply Z.eqb_eq in Ev; auto.
    + intros (v&data&Hd&Hl&Hv). unfold DecodeBase58Check. rewrite Hd. cbn [mbind option_bind].
      rewrite length_app, length_checksum, Nat.add_sub, take_app_length, drop_app_length.
      rewrite bool_decide_eq_false_2 by lia. rewrite (bool_decide_eq_true_2 (_ = checksum _)) by done.
      cbn [default id mbind option_bind]. f_equal. unfold IsValid. cbn [address_version vchData].
            rewrite bool_decide_eq_true_2 by done.
      destruct Hv as [-> | ->]; [by rewrite Z.eqb_refl|by rewrite Z.eqb_refl, orb_true_r].
  - intros Hf Hv. destruct a as [version data]. cbn [address_version] in Hf.
    unfold ToString. cbn [address_version vchData].
    destruct (check_roundtrip (z2b version :: data)) as (s&He&Hd).
    { unfold IsValid in Hv. cbn [address_version vchData] in Hv. destruct (_ || _); [|done].
      apply bool_decide_eq_true_1 in Hv. cbn [length]. lia. }
    exists s. split; [done|].
    unfold valid_address, SetString. rewrite Hd. cbn [mbind option_bind default id].
    rewrite b2z_z2b, wrap_small by done. split; [done|]. by rewrite Hv.
Qed.

(** A hash to evaluate the checks with: the sum of the bytes. *)
#[refine] Definition sum_hash : Address_hash :=
  {| SK256 l := wrap 256 (foldr (fun b a => b2z b + a) 0 l) |}.
Proof. intros l. by apply wrap_fits. Defined.

Lemma login_address_witness :
  let _ := sum_hash in
  exists s, ToString (SetHash256 12345) = Some s /\ valid_address s = Some true.
Proof.
  pose (P := sum_hash).
  destruct (proj2 (proj2 (login_address [] (SetHash256 12345)))) as (s&H1&_&H3).
  - split; vm_compute; congruence.
  - vm_compute. reflexivity.
  - exists s. exact (conj H1 H3).
Defined.
