(* ===== verification/Hash.v ===== *)
(** * The hash templates: [src/src/hash/templates.h]

    Each template hashes the bytes of its ranges with a Skein function and the result with a
    Keccak function, both objects being on the stack and not initialised: [Stack] is what they
    hold.  [reference] is the composition of the hashes of the two designs, and the instances of
    [Block_hash] and [Address_hash] at the end are the functions that blocks and addresses use. *)
From Stdlib Require Import Strings.String.
From S2P Require Import Prelude Bytes Keccak Uint Sponge Threefish Skein CBlock Base58.

(** A [Skein_.._Ctxt_t ctx] and a [Keccak_HashInstance ctx_keccak] before their first use: the
    buffer has its size. *)
Class Stack := {
  ctx : variant -> Skein_Ctxt;
  ctx_keccak : Keccak_HashInstance;
  ctx_buffer : forall v, length (Skein.b (ctx v)) = BLOCK_BYTES v;
}.

#[refine] Definition zero_stack : Stack := {|
  ctx v := mk_ctx 0 0 0 0 [] (zeros (BLOCK_BYTES v));
  ctx_keccak := mk_hash (mk_sponge [] 0 0 false) 0 0;
|}.
Proof. intros v. apply length_replicate. Defined.

(** ** The templates *)
Module Templates.
Section templates.
Context `{Stack}.

(** [Init], an [Update] for each range, and [Final], into [skein]. *)
Definition skein_of (v : variant) (init : Skein_Ctxt -> Skein_Ctxt) (ranges : list bytes) : option bytes :=
  fst <$> Final v (foldl (fun c m => Update v m c) (init (ctx v)) ranges).

Definition SK64 (r : bytes) : option Z :=
  skein ← skein_of Skein_256 (Skein_256_Init 64) [r];
  keccak ← Keccak_hash 1344 256 64 0x06 skein ctx_keccak;
  Some (of_le keccak).

(** The form with two iterators. *)
Definition SK256 (r : bytes) : option words :=
  skein ← skein_of Skein_256 (Skein_256_Init 256) [r];
  keccak ← Keccak_hash 1088 512 256 0x06 skein ctx_keccak;
  Some (of_memory WIDTH256 keccak).

(** The form with a vector takes the address of its first byte. *)
Definition SK256_vector (vch : bytes) : option words :=
  match vch with [] => None | _ => SK256 vch end.

(** The forms with one range, two and three. *)
Definition SK512 (ranges : list bytes) : option words :=
  skein ← skein_of Skein_512 (Skein_512_Init 512) ranges;
  keccak ← Keccak_hash 576 1024 512 0x06 skein ctx_keccak;
  Some (of_memory WIDTH512 keccak).
Definition SK512_1 (r : bytes) := SK512 [r].
Definition SK512_2 (r1 r2 : bytes) := SK512 [r1; r2].
Definition SK512_3 (r1 r2 r3 : bytes) := SK512 [r1; r2; r3].

Definition SK576 (r : bytes) : option words :=
  skein ← skein_of Skein1024 (Skein1024_Init 576) [r];
  keccak ← Keccak_hash 1024 576 576 0x06 skein ctx_keccak;
  Some (of_memory WIDTH576 keccak).

Definition SK1024 (r : bytes) : option words :=
  skein ← skein_of Skein1024 (Skein1024_Init 1024) [r];
  keccak ← Keccak_hash 576 1024 1024 0x05 skein ctx_keccak;
  Some (of_memory WIDTH1024 keccak).
End templates.
End Templates.

(** ** What they compute *)
Definition reference (v : variant) (rate bits suffix : Z) (M : bytes) : bytes :=
  FIPS202_hash (Z.to_nat (rate / 8)) suffix (UBI.Skein v bits 0 [] M) (Z.to_nat (bits / 8)).

(** ** Lemmas *)
Lemma length_spec_absorb f n r P st :
  (forall x, length (f x) = 200%nat) -> length st = 200%nat ->
  length (FIPS202_sponge.absorb f n r P st) = 200%nat.
Proof.
  intros Hf. revert P st. induction n as [|n IH]; intros P st Hst; cbn [FIPS202_sponge.absorb]; auto.
Qed.

Lemma length_spec_squeeze f n r st :
  (forall x, length (f x) = 200%nat) -> length st = 200%nat -> (r <= 200)%nat ->
  length (FIPS202_sponge.squeeze f n r st) = (n * r)%nat.
Proof.
  intros Hf Hst Hr. revert st Hst. induction n as [|n IH]; intros st Hst;
    cbn [FIPS202_sponge.squeeze]; [done|].
  rewrite length_app, length_take, IH by done. lia.
Qed.

Lemma length_FIPS202_hash r suffix M d :
  (0 < r <= 200)%nat -> length (FIPS202_hash r suffix M d) = d.
Proof.
  intros Hr. rewrite FIPS202_hash_permute. unfold FIPS202_sponge.sponge. rewrite length_take.
  rewrite length_spec_squeeze; [|apply length_permute| |lia].
  - pose proof (Nat.div_mod d r). pose proof (Nat.mod_upper_bound d r). nia.
  - apply length_spec_absorb; [apply length_permute|done].
Qed.

Lemma length_UBI_Skein v bits tree key M :
  is_variant v -> length (UBI.Skein v bits tree key M) = Z.to_nat ((bits + 7) / 8).
Proof.
  intros Hv. unfold UBI.Skein. set (n := Z.to_nat _). rewrite length_take.
  pose proof (block_bytes v Hv) as HB.
  assert (forall m i G, length (UBI.output v m i G) = (m * BLOCK_BYTES v)%nat) as ->.
  { induction m as [|m IH]; intros i G; cbn [UBI.output]; [done|].
    rewrite length_app, length_bytes64, length_ubi, IH by done. unfold BLOCK_BYTES. lia. }
  pose proof (Nat.div_mod n (BLOCK_BYTES v)). pose proof (Nat.mod_upper_bound n (BLOCK_BYTES v)). nia.
Qed.

Lemma length_of_memory n mem : length (of_memory n mem) = n.
Proof.
  revert mem. induction n as [|n IH]; intros mem; [done|].
  destruct mem as [|b0 [|b1 [|b2 [|b3 mem]]]]; cbn [of_memory]; rewrite ?length_replicate; try done.
  cbn. by rewrite IH.
Qed.

Lemma of_memory_fits n mem : Forall (fits 32) (of_memory n mem).
Proof.
  revert mem. induction n as [|n IH]; intros mem; [constructor|].
  destruct mem as [|b0 [|b1 [|b2 [|b3 mem]]]]; cbn [of_memory];
    try (apply Forall_replicate; by vm_compute). constructor; auto with width.
Qed.

Lemma le32_be32 b0 b1 b2 b3 : le32 (be32 b3 b2 b1 b0) = [b0; b1; b2; b3].
Proof.
  pose proof (uint2bytes_be32 b3 b2 b1 b0) as H. unfold uint2bytes in H. unfold le32.
  by injection H as -> -> -> ->.
Qed.

Lemma memory_of_memory n mem : length mem = (4 * n)%nat -> memory (of_memory n mem) = mem.
Proof.
  revert mem. induction n as [|n IH]; intros mem H; [by destruct mem|].
  destruct mem as [|b0 [|b1 [|b2 [|b3 mem]]]]; cbn [length] in H; try lia.
  cbn [of_memory memory]. by rewrite le32_be32, IH by lia.
Qed.

Lemma hash_val_fits n mem : fits (32 * Z.of_nat n) (val (of_memory n mem)).
Proof. rewrite <-(length_of_memory n mem) at 1. apply val_fits, of_memory_fits. Qed.

Section templates.
Context `{Stack}.

(** The two hashes in sequence. *)
Lemma both_hashes {A} v IV rate capacity bits suffix ranges (f : bytes -> option A) :
  is_Skein v IV -> 0 <= bits <= 1024 -> rate + capacity = 1600 -> 0 < rate -> 0 <= capacity ->
  rate `mod` 8 = 0 -> 0 < suffix < 128 -> Z.of_nat (length (concat ranges)) < 2 ^ 64 ->
  (skein ← Templates.skein_of v (Init v IV bits) ranges;
   keccak ← Keccak_hash rate capacity bits suffix skein ctx_keccak; f keccak) =
  f (reference v rate bits suffix (concat ranges)).
Proof.
  intros Hs Hb H1 H2 H3 H4 Hx HM. assert (is_variant v) as Hv by (destruct Hs; constructor).
  destruct (skein_standard v IV bits 0 [] ranges (ctx v) Hs (ctx_buffer v)) as [E _]; [lia|done|done|].
  unfold Templates.skein_of. rewrite E. cbn [mbind option_bind].
  rewrite hash_standard by (try done; rewrite ?length_UBI_Skein by done; zlia). done.
Qed.
End templates.

(** [o] is a wide integer of [W] words whose memory is [h]. *)
Definition hashed (W : nat) (o : option words) (h : bytes) : Prop :=
  exists pn, o = Some pn /\ memory pn = h /\ wf_words W pn.

Lemma hashed_of_memory W h : length h = (4 * W)%nat -> hashed W (Some (of_memory W h)) h.
Proof.
  intros H. eexists. split; [done|]. split; [by apply memory_of_memory|].
  split; [apply length_of_memory|apply of_memory_fits].
Qed.

(** ** Instances *)
(** [GetHash] and the checks of addresses use the values. *)
Definition value (n : nat) (o : option words) : Z :=
  match o with Some pn => val (take n pn) | None => 0 end.

Lemma value_fits n (o : option words) :
  (forall pn, o = Some pn -> Forall (fits 32) pn) -> fits (32 * Z.of_nat n) (value n o).
Proof.
  intros H. unfold value. destruct o as [pn|]; [|unfold fits; split; [done|apply Z.pow_pos_nonneg; lia]].
  pose proof (val_fits (take n pn) ltac:(by apply Forall_take, H)) as Hv. unfold bits in Hv.
  eapply fits_mono; [|exact Hv]. rewrite length_take. lia.
Qed.

Lemma template_fits (o : option bytes) (f : bytes -> option bytes) n pn :
  (skein ← o; keccak ← f skein; Some (of_memory n keccak)) = Some pn -> Forall (fits 32) pn.
Proof.
  destruct o as [s|]; cbn [mbind option_bind]; [|done].
  destruct (f s) as [k|]; cbn [mbind option_bind]; [|done]. intros [= <-]. apply of_memory_fits.
Qed.

#[refine] Definition nexus_block_hash `{Stack} : Block_hash :=
  {| CBlock.SK1024 r := value WIDTH1024 (Templates.SK1024 r) |}.
Proof.
  intros l. apply (value_fits WIDTH1024). intros pn. apply template_fits.
Defined.

#[refine] Definition nexus_address_hash `{Stack} : Address_hash :=
  {| Base58.SK256 r := value WIDTH256 (Templates.SK256 r) |}.
Proof.
  intros l. apply (value_fits WIDTH256). intros pn. apply template_fits.
Defined.

(** An address of the Nexus network, with the real hash: its checksum is right, and wrong after a
    change of its last character. *)
Example network_address :
  let _ := @nexus_address_hash zero_stack in
  valid_address (String.list_byte_of_string "2Qn8MsUCkv9S8X8sMvUPkr9Ekqqg5VKzeKJk2ftcFMUiJ5QnWRc"%string) = Some true /\
  valid_address (String.list_byte_of_string "2Qn8MsUCkv9S8X8sMvUPkr9Ekqqg5VKzeKJk2ftcFMUiJ5QnWRd"%string) = Some false.
Proof. vm_compute. auto. Qed.

(** ** Properties *)

(** C18: the templates compute, from whatever the stack holds, the Skein hash of
    their ranges one after the other and the SHA-3 sponge of that hash, at the rates, suffixes and
    lengths of each: a 64-bit number or a wide integer of the right width whose memory is the
    hash.  They read nothing that is not initialised and always return. *)
Theorem templates_standard `{Stack} ranges :
  Z.of_nat (length (concat ranges)) < 2 ^ 64 ->
  let M := concat ranges in
  (Templates.SK64 M = Some (of_le (reference Skein_256 1344 64 6 M)) /\
   fits 64 (of_le (reference Skein_256 1344 64 6 M))) /\
  hashed WIDTH256 (Templates.SK256 M) (reference Skein_256 1088 256 6 M) /\
  hashed WIDTH512 (Templates.SK512 ranges) (reference Skein_512 576 512 6 M) /\
  hashed WIDTH576 (Templates.SK576 M) (reference Skein1024 1024 576 6 M) /\
  hashed WIDTH1024 (Templates.SK1024 M) (reference Skein1024 576 1024 5 M).
Proof.
  intros HM M. assert (concat [M] = M) as EM by apply app_nil_r.
  assert (forall v rate bits suffix, 0 < rate <= 1600 -> rate `mod` 8 = 0 ->
    length (reference v rate bits suffix M) = Z.to_nat (bits / 8)) as Hlen.
  { intros v rate bits suffix Hr Hm. apply length_FIPS202_hash. zlia. }
  assert (forall v IV rate capacity bits suffix ranges W, is_Skein v IV ->
    0 <= bits <= 1024 /\ rate + capacity = 1600 /\ 0 < rate <= 1600 /\ rate `mod` 8 = 0 /\
      0 < suffix < 128 /\ Z.to_nat (bits / 8) = (4 * W)%nat -> concat ranges = M ->
    hashed W (skein ← Templates.skein_of v (Init v IV bits) ranges;
      keccak ← Keccak_hash rate capacity bits suffix skein ctx_keccak; Some (of_memory W keccak))
      (reference v rate bits suffix M)) as Hall.
  { intros v IV rate capacity bits suffix rs W Hs (?&?&?&?&?&HW) E.
    rewrite both_hashes by (rewrite ?E; done || lia). rewrite E.
    apply hashed_of_memory. by rewrite Hlen. }
  split; [split|].
  - unfold Templates.SK64, Skein_256_Init. rewrite both_hashes by (exact Skein_of_256 || by rewrite ?EM).
    by rewrite EM.
  - pose proof (of_le_fits (reference Skein_256 1344 64 6 M)) as H64. by rewrite Hlen in H64.
  - split_and!.
    + apply (Hall Skein_256 IV_256 1088 512 256 6 [M]); [constructor|done|done].
    + apply (Hall Skein_512 IV_512 576 1024 512 6 ranges); [constructor|done|done].
    + apply (Hall Skein1024 IV_1024 1024 576 576 6 [M]); [constructor|done|done].
    + apply (Hall Skein1024 IV_1024 576 1024 1024 5 [M]); [constructor|done|done].
Qed.

Lemma templates_standard_witness :
  exists pn, Templates.SK1024 (H := zero_stack) (zeros 200) = Some pn /\
    memory pn = reference Skein1024 576 1024 5 (zeros 200).
Proof.
  destruct (proj2 (proj2 (proj2 (proj2 (templates_standard (H := zero_stack) [zeros 200]
    ltac:(vm_compute; reflexivity)))))) as (pn&E&Hm&_).
  exists pn. exact (conj E Hm).
Defined.
