(* ===== verification/Prime.v ===== *)
(** * The share test: [src/src/prime.hpp]

    A share is a 1024-bit number that starts a cluster of numbers passing a divisor test and a
    base-2 Fermat test.  [Gmp] is the part of the GMP library the code calls, an [mpz_t] being
    its value, and [Gmp_laws] its documented behaviour; [None] is GMP aborting on a division by
    zero.  The globals [zTwo] and [PRIME_SIEVE] are a state of their own: nothing calls
    [InitializePrimes]. *)
From Stdlib Require Import Znumtheory Zpow_facts.
From S2P Require Import Prelude Uint Float64.

Class Gmp := {
  mpz_add_ui : Z -> Z -> Z;
  mpz_sub_ui : Z -> Z -> Z;
  mpz_sub : Z -> Z -> Z;
  mpz_mul_2exp : Z -> Z -> Z;
  mpz_tdiv_q : Z -> Z -> option Z;
  mpz_powm : Z -> Z -> Z -> option Z;
  mpz_divisible_ui_p : Z -> Z -> bool;
  mpz_cmp_ui : Z -> Z -> Z;
  mpz_get_ui : Z -> Z;
}.

Class Gmp_laws `{Gmp} := {
  add_ui_law : forall a b, mpz_add_ui a b = a + b;
  sub_ui_law : forall a b, mpz_sub_ui a b = a - b;
  sub_law : forall a b, mpz_sub a b = a - b;
  mul_2exp_law : forall a k, 0 <= k -> mpz_mul_2exp a k = a * 2 ^ k;
  tdiv_q_law : forall a b, mpz_tdiv_q a b = if b =? 0 then None else Some (Z.quot a b);
  powm_law : forall b e m, 0 <= e -> 0 < m -> mpz_powm b e m = Some (b ^ e mod m);
  powm_zero_law : forall b e, mpz_powm b e 0 = None;
  divisible_law : forall a d, 0 < d -> mpz_divisible_ui_p a d = (a mod d =? 0);
  cmp_ui_law : forall a b, mpz_cmp_ui a b = 0 <-> a = b;
  get_ui_law : forall a, mpz_get_ui a = u64 (Z.abs a);
}.

(** ** Sieve of Eratosthenes *)
(** The inner loop: [TABLE[nComposite * nIndex] = true] while the 32-bit product is below the
    size; [fuel] bounds its rounds. *)
Fixpoint mark (fuel : nat) (sieve_size nIndex nComposite : Z) (TABLE : list bool)
  : option (list bool) :=
  match fuel with
  | O => None
  | S fuel' =>
      let p := u32 (nComposite * nIndex) in
      if p <? sieve_size
      then mark fuel' sieve_size nIndex (u32 (nComposite + 1)) (<[Z.to_nat p := true]> TABLE)
      else Some TABLE
  end.

Fixpoint mark_all (sieve_size : Z) (indices : list Z) (TABLE : list bool) : option (list bool) :=
  match indices with
  | [] => Some TABLE
  | nIndex :: rest =>
      t ← mark (S (Z.to_nat sieve_size)) sieve_size nIndex 2 TABLE;
      mark_all sieve_size rest t
  end.

Definition eratos_thenes (sieve_size : Z) : option (list Z) :=
  let indices := seqZ 2 (sieve_size - 2) in
  TABLE ← mark_all sieve_size indices (replicate (Z.to_nat sieve_size) false);
  Some (List.filter (fun n => negb (default true (TABLE !! Z.to_nat n))) indices).

(** ** The globals *)
Record prime_globals := mk_globals { zTwo : Z; PRIME_SIEVE : list Z }.

(** Their zero initialisation: an [mpz_t] of size 0, an empty vector. *)
Definition static_globals : prime_globals := mk_globals 0 [].

Definition InitializePrimes : option prime_globals :=
  PRIMES ← eratos_thenes 80; Some (mk_globals 2 PRIMES).

(** ** Difficulty as an integer *)
(** [uint32_t bits = 10000000; bits *= diff;] *)
Definition set_bits (diff : f64) : option Z := f64_to_uint 32 (f64_mul (f64_of_Z 10000000) diff).
Definition get_difficulty (bits : Z) : f64 := f64_div (f64_of_Z bits) (f64_of_Z 10000000).

(** ** The tests *)
Section tests.
Context `{Gmp}.

Definition gmp_divisor (g : prime_globals) (prime : Z) : bool :=
  forallb (fun p => negb (mpz_divisible_ui_p prime p)) (PRIME_SIEVE g).

Definition gmp_fermat (g : prime_globals) (prime : Z) : option bool :=
  let zN := mpz_sub_ui prime 1 in
  remainder ← mpz_powm (zTwo g) zN prime;
  Some (mpz_cmp_ui remainder 1 =? 0).

Definition gmp_prime_test (g : prime_globals) (prime : Z) : option bool :=
  if negb (gmp_divisor g prime) then Some false else gmp_fermat g prime.

(** [fermat_test]: the words of a [uint1024] are imported and exported as its value. *)
Definition fermat_test (n : Z) : option Z := mpz_powm 2 (mpz_sub_ui n 1) n.

Definition get_fractional_difficulty (composite : Z) : option Z :=
  zB ← fermat_test composite;
  let zA := mpz_mul_2exp (mpz_sub composite zB) 24 in
  zN ← mpz_tdiv_q zA composite;
  Some (u32 (mpz_get_ui zN)).

(** The loop of [gmp_verification]; its state is [zPrime], [nClusterSize], [nPrimeGap], [nOffset]. *)
Fixpoint cluster (fuel : nat) (g : prime_globals) (zPrime nClusterSize nPrimeGap nOffset : Z)
  : option (Z * Z) :=
  match fuel with
  | O => None
  | S fuel' =>
      if nPrimeGap <=? 12 then
        let zPrime := mpz_add_ui zPrime 2 in
        let nOffset := u32 (nOffset + 2) in
        t ← gmp_prime_test g zPrime;
        if negb t then cluster fuel' g zPrime nClusterSize (u32 (nPrimeGap + 2)) nOffset
        else cluster fuel' g zPrime (u32 (nClusterSize + 1)) 2 nOffset
      else Some (nClusterSize, nOffset)
  end.

(** Enough rounds: see [cluster_terminates]. *)
Definition cluster_fuel : nat := Z.to_nat 255270.

(** [1000000.0 / n], made 0 when above 1 or below 0. *)
Definition fractional_remainder (n : Z) : f64 :=
  let d := f64_div (f64_of_Z 1000000) (f64_of_Z n) in
  if SFltb (f64_of_Z 1) d || SFltb d (f64_of_Z 0) then f64_of_Z 0 else d.

Definition gmp_verification (g : prime_globals) (prime : Z) : option f64 :=
  t ← gmp_prime_test g prime;
  if negb t then Some (f64_of_Z 0) else
  '(nClusterSize, nOffset) ← cluster cluster_fuel g prime 1 2 0;
  diff ← get_fractional_difficulty (wrap 1024 (wrap 1024 (prime + nOffset) + 2));
  Some (f64_add (f64_of_Z nClusterSize) (fractional_remainder diff)).
End tests.

(** ** An instance of GMP on integers *)
#[refine] Definition gmp_Z : Gmp := {|
  mpz_add_ui := Z.add;
  mpz_sub_ui := Z.sub;
  mpz_sub := Z.sub;
  mpz_mul_2exp a k := a * 2 ^ k;
  mpz_tdiv_q a b := if b =? 0 then None else Some (Z.quot a b);
  mpz_powm b e m := if 0 <? m then Some (Zpow_mod b e m) else None;
  mpz_divisible_ui_p a d := if d =? 0 then a =? 0 else a mod d =? 0;
  mpz_cmp_ui a b := match a ?= b with Lt => -1 | Eq => 0 | Gt => 1 end;
  mpz_get_ui a := u64 (Z.abs a);
|}.
Defined.

Lemma gmp_Z_laws : @Gmp_laws gmp_Z.
Proof.
  split; cbn; try done.
  - intros b e m He Hm. rewrite (proj2 (Z.ltb_lt 0 m)) by done.
    f_equal. apply Zpow_mod_correct. lia.
  - intros a d Hd. by rewrite (proj2 (Z.eqb_neq d 0)) by lia.
  - intros a b. destruct (Z.compare_spec a b); split; lia.
Qed.

(** ** The sieve is correct *)
(** Inner loop: it marks the multiples of [nIndex] from [nComposite] on, and nothing else. *)
Lemma mark_spec fuel size i c T :
  0 <= size <= 2 ^ 31 -> 2 <= i < size -> 2 <= c -> length T = Z.to_nat size ->
  size <= (c + Z.of_nat fuel - 1) * i -> c * i < size + i ->
  exists T', mark fuel size i c T = Some T' /\ length T' = length T /\
    forall j, 0 <= j < size ->
      (T' !! Z.to_nat j = Some true <->
       T !! Z.to_nat j = Some true \/ exists a, c <= a /\ j = a * i).
Proof.
  intros Hsize Hi. revert c T. induction fuel as [|fuel IH]; intros c T Hc HT Hfuel Hci.
  { nia. }
  cbn [mark]. rewrite (wrap_small 32 (c * i)) by (unfold fits; nia).
  destruct (Z.ltb_spec (c * i) size) as [Hlt|Hge].
  - rewrite wrap_small by (unfold fits; nia).
    destruct (IH (c + 1) (<[Z.to_nat (c * i) := true]> T)) as (T'&Hm&Hl&HT'); try lia.
    { by rewrite length_insert. }
    exists T'. split; [done|]. split; [by rewrite Hl, length_insert|].
    intros j Hj. rewrite HT' by done. destruct (decide (j = c * i)) as [->|Hne].
    + rewrite list_lookup_insert_eq by nia. split; [intros _; right; exists c; lia|by left].
    + rewrite list_lookup_insert_ne by nia. split; (intros [?|(a&Ha&Hja)]; [by left|right; exists a]).
      * lia.
      * destruct (decide (a = c)) as [->|]; [done|lia].
  - exists T. split; [done|]. split; [done|]. intros j Hj. split; [by left|].
    intros [?|(a&Ha&->)]; [done|nia].
Qed.

Lemma mark_all_spec size l T :
  0 <= size <= 2 ^ 31 -> Forall (fun i => 2 <= i < size) l -> length T = Z.to_nat size ->
  exists T', mark_all size l T = Some T' /\ length T' = length T /\
    forall j, 0 <= j < size ->
      (T' !! Z.to_nat j = Some true <->
       T !! Z.to_nat j = Some true \/ exists i a, i ∈ l /\ 2 <= a /\ j = a * i).
Proof.
  intros Hsize Hl. revert T. induction Hl as [|i l Hi _ IH]; intros T HT.
  - exists T. split; [done|]. split; [done|]. intros j _. split; [by left|].
    intros [?|(i&a&Hin&_)]; [done|by apply not_elem_of_nil in Hin].
  - destruct (mark_spec (S (Z.to_nat size)) size i 2 T) as (T1&Hm&Hl1&HT1); try lia; [nia|].
    destruct (IH T1) as (T2&Hm2&Hl2&HT2); [by rewrite Hl1|].
    exists T2. cbn [mark_all]. rewrite Hm. cbn [mbind option_bind]. split; [done|].
    split; [by rewrite Hl2|]. intros j Hj. rewrite HT2, HT1 by done. split.
    + intros [[?|(a&Ha&->)]|(i'&a&Hin&Ha&->)]; [by left|right|right].
      * exists i, a. split; [by left|done].
      * exists i', a. split; [by right|done].
    + intros [?|(i'&a&[->|Hin]%elem_of_cons&Ha&->)]; [by left; left|left; right|right].
      * by exists a.
      * by exists i', a.
Qed.

Lemma composite_iff n : 2 <= n ->
  ~ prime n <-> exists i a, 2 <= i < n /\ 2 <= a /\ n = a * i.
Proof.
  intros Hn. split.
  - intros Hp. destruct (not_prime_divide n) as (d&Hd&[a Ha]); [lia|done|].
    exists d, a. split; [lia|]. split; [|done]. nia.
  - intros (i&a&Hi&Ha&->) Hp. apply prime_alt in Hp.
    destruct (Z.divide_prime_r i _ Hp) as [?|[?|[?|?]]]; try nia. by exists a.
Qed.

Lemma eratos_spec size :
  0 <= size <= 2 ^ 31 ->
  exists l, eratos_thenes size = Some l /\ forall n, n ∈ l <-> 2 <= n < size /\ prime n.
Proof.
  intros Hsize. unfold eratos_thenes.
  destruct (mark_all_spec size (seqZ 2 (size - 2)) (replicate (Z.to_nat size) false))
    as (T&Hm&Hl&HT); [done| |by rewrite length_replicate|].
  { apply Forall_forall. intros i. rewrite elem_of_seqZ. lia. }
  rewrite Hm. cbn [mbind option_bind]. eexists. split; [done|]. intros n.
  rewrite list_elem_of_In, filter_In, <-list_elem_of_In, elem_of_seqZ.
  rewrite length_replicate in Hl. split; intros [Hr Hn]; (split; [lia|]).
  - destruct (prime_dec n) as [|Hp]; [done|exfalso].
    apply composite_iff in Hp as (i&a&Hi&Ha&Hna); [|lia].
    assert (T !! Z.to_nat n = Some true) as HTn.
    { apply HT; [lia|]. right. exists i, a. split; [apply elem_of_seqZ; lia|done]. }
    by rewrite HTn in Hn.
  - destruct (lookup_lt_is_Some_2 T (Z.to_nat n)) as [b Hb]; [lia|]. rewrite Hb. cbn.
    destruct b; [exfalso|done]. apply HT in Hb; [|lia].
    destruct Hb as [Hb|(i&a&Hin&Ha&Hna)].
    + by apply lookup_replicate in Hb as [? _].
    + rewrite elem_of_seqZ in Hin. apply (proj2 (composite_iff n ltac:(lia))); [|done].
      exists i, a. split; [nia|done].
Qed.

(** ** The tests, once initialised *)
Definition ready (g : prime_globals) : Prop :=
  zTwo g = 2 /\ forall p, p ∈ PRIME_SIEVE g <-> 2 <= p < 80 /\ prime p.

Lemma InitializePrimes_ready : exists g, InitializePrimes = Some g /\ ready g.
Proof.
  unfold InitializePrimes. destruct (eratos_spec 80) as (l&->&Hl); [lia|].
  cbn [mbind option_bind]. eexists. split; [done|]. by split.
Qed.

Section laws.
Context `{Gmp_laws}.

Lemma gmp_divisor_spec g n :
  ready g -> gmp_divisor g n = true <-> forall p, prime p -> p < 80 -> ~ (p | n).
Proof.
  intros [_ Hg]. unfold gmp_divisor. rewrite forallb_forall. split.
  - intros Hall p Hp Hlt Hdiv. pose proof (Z.prime_ge_2 p (proj2 (prime_alt p) Hp)).
    assert (Hin : In p (PRIME_SIEVE g)) by (apply list_elem_of_In, Hg; lia || by split; [lia|]).
    apply Hall, negb_true_iff in Hin. rewrite divisible_law in Hin by lia.
    apply Z.eqb_neq in Hin. apply Hin. by apply Z.mod_divide; [lia|].
  - intros Hall p Hin. apply list_elem_of_In, Hg in Hin as [Hr Hp].
    rewrite divisible_law by lia. apply negb_true_iff, Z.eqb_neq. intros Hmod.
    apply (Hall p Hp); [lia|]. by apply Z.mod_divide; [lia|].
Qed.

Lemma gmp_prime_test_spec g n :
  ready g -> 0 < n ->
  exists b, gmp_prime_test g n = Some b /\
    (b = true <-> (forall p, prime p -> p < 80 -> ~ (p | n)) /\ 2 ^ (n - 1) mod n = 1).
Proof.
  intros Hg Hn. unfold gmp_prime_test. pose proof (gmp_divisor_spec g n Hg) as Hd.
  destruct (gmp_divisor g n); cbn [negb].
  - unfold gmp_fermat. rewrite sub_ui_law, powm_law by lia. cbn [mbind option_bind].
    eexists. split; [done|]. destruct Hg as [-> _]. rewrite Z.eqb_eq, cmp_ui_law.
    split; [intros Hm; split; [by apply Hd|done]|by intros [_ Hm]].
  - exists false. split; [done|]. split; [done|]. intros [Hp _]. by apply Hd in Hp.
Qed.

Lemma prime_test_divisible g n p :
  ready g -> 0 < n -> prime p -> p < 80 -> (p | n) -> gmp_prime_test g n = Some false.
Proof.
  intros Hg Hn Hp Hlt Hdiv. destruct (gmp_prime_test_spec g n Hg Hn) as (b&->&Hb).
  destruct b; [|done]. destruct Hb as [Hb _]. by destruct (proj1 (Hb eq_refl) p Hp Hlt).
Qed.

(** ** Termination of the cluster loop

    Among consecutive odd numbers there are always six divisible in turn by 3, 5, 7, 11, 13 and
    17, at most [3 * 5 * 7 * 11 * 13 * 17 = 255255] numbers ahead; no test passes there, and the
    gap exceeds 12. *)
Definition barren (z : Z) : Prop :=
  (3 | z) /\ (5 | z + 2) /\ (7 | z + 4) /\ (11 | z + 6) /\ (13 | z + 8) /\ (17 | z + 10).

Lemma barren_ahead z : exists k, 0 <= k < 255255 /\ barren (z + 2 * k).
Proof.
  exists ((210999 - 127628 * z) mod 255255). split; [by apply Z.mod_pos_bound|].
  unfold barren. rewrite Z.mod_eq by done. set (q := _ / 255255). clearbody q.
  repeat split; apply Z.mod_divide; try done; Z.to_euclidean_division_equations; lia.
Qed.

Lemma small_primes : prime 3 /\ prime 5 /\ prime 7 /\ prime 11 /\ prime 13 /\ prime 17.
Proof.
  assert (Hp : forall n, 2 <= n < 80 -> forallb (fun d => negb (n mod d =? 0)) (seqZ 2 (n - 2)) = true ->
    prime n).
  { intros n Hn Hall. destruct (prime_dec n) as [|Hnp]; [done|].
    destruct (not_prime_divide n) as (d&Hd&Hdiv); [lia|done|].
    rewrite forallb_forall in Hall. specialize (Hall d).
    rewrite <-list_elem_of_In, elem_of_seqZ in Hall.
    assert (n mod d = 0) as Hm by (apply Z.mod_divide; [lia|done]).
    rewrite Hm in Hall. specialize (Hall ltac:(lia)). done. }
  split_and!; apply Hp; (lia || by vm_compute).
Qed.

(** A barren stretch of [6 - i] numbers from [z + 2]. *)
Fixpoint barren_from (ps : list Z) (z : Z) : Prop :=
  match ps with [] => True | p :: ps' => (p | z) /\ barren_from ps' (z + 2) end.
Definition small := [3; 5; 7; 11; 13; 17].

(** No test passes in a barren stretch, so the gap grows until the loop ends. *)
Lemma cluster_barren g ps fuel z c gap off :
  ready g -> 0 < z -> Forall (fun p => p ∈ small) ps -> barren_from ps (z + 2) ->
  0 <= gap <= 16 -> 12 < gap + 2 * Z.of_nat (length ps) -> (length ps < fuel)%nat ->
  0 <= off -> off + 2 * Z.of_nat (length ps) < 2 ^ 32 ->
  exists c' off', cluster fuel g z c gap off = Some (c', off') /\
    c' = c /\ off <= off' <= off + 2 * Z.of_nat (length ps) /\ (2 | off' - off).
Proof.
  intros Hg Hz Hps. revert fuel z gap off Hz.
  induction Hps as [|p ps Hp _ IH]; intros [|fuel] z gap off Hz Hb Hgap Hlen Hfuel Hoff Hoff';
    cbn [length] in *; try lia.
  - cbn [cluster]. rewrite (proj2 (Z.leb_gt gap 12)) by lia.
    exists c, off. repeat split; try lia. exists 0. lia.
  - cbn [cluster]. destruct (Z.leb_spec gap 12).
    + destruct Hb as [Hdiv Hb]. rewrite add_ui_law.
      assert (prime p /\ p < 80) as [Hpp Hp80].
      { destruct small_primes as (?&?&?&?&?&?). unfold small in Hp.
        repeat (apply elem_of_cons in Hp as [->|Hp]; [by split|]). by apply not_elem_of_nil in Hp. }
      rewrite (prime_test_divisible g (z + 2) p) by (done || lia). cbn [mbind option_bind negb].
      rewrite !wrap_small by (unfold fits; lia).
      destruct (IH fuel (z + 2) (gap + 2) (off + 2)) as (c'&off'&Hc&->&Hr&[q Hq]); try lia; try done.
      exists c, off'. split; [done|]. split; [done|]. split; [lia|]. exists (q + 1). lia.
    + exists c, off. repeat split; try lia. exists 0. lia.
Qed.

Lemma cluster_terminates g K fuel z c gap off :
  ready g -> 0 < z -> 0 <= c -> c + Z.of_nat K < 2 ^ 32 ->
  barren (z + 2 + 2 * Z.of_nat K) -> 2 <= gap <= 14 -> (K + 6 < fuel)%nat ->
  0 <= off -> off + 2 * (Z.of_nat K + 6) < 2 ^ 32 ->
  exists c' off', cluster fuel g z c gap off = Some (c', off') /\
    c <= c' <= c + Z.of_nat K /\ off <= off' <= off + 2 * (Z.of_nat K + 6) /\ (2 | off' - off).
Proof.
  intros Hg. revert fuel z c gap off.
  induction K as [|K IH]; intros fuel z c gap off Hz Hc Hc' Hb Hgap Hfuel Hoff Hoff'.
  - destruct (cluster_barren g small fuel z c gap off) as (c'&off'&Hcl&->&Hr&Hq); cbn [length small];
      try done; try lia.
    + by repeat constructor; set_solver.
    + rewrite Z.mul_0_r, Z.add_0_r in Hb. destruct Hb as (?&?&?&?&?&?). unfold small. cbn.
      rewrite <-!Z.add_assoc in *. cbn. by split_and!.
    + exists c, off'. cbn [length small] in Hr. split; [done|]. split; [lia|]. split; [lia|done].
  - destruct fuel as [|fuel]; [lia|]. cbn [cluster]. destruct (Z.leb_spec gap 12).
    + rewrite add_ui_law. destruct (gmp_prime_test_spec g (z + 2) Hg ltac:(lia)) as (b&->&_).
      cbn [mbind option_bind]. rewrite (wrap_small 32 (off + 2)) by (unfold fits; lia).
      replace (z + 2 + 2 * Z.of_nat (S K)) with (z + 2 + 2 + 2 * Z.of_nat K) in Hb by lia.
      destruct b; cbn [negb]; rewrite wrap_small by (unfold fits; lia).
      * destruct (IH fuel (z + 2) (c + 1) 2 (off + 2)) as (c'&off'&->&Hrc&Hr&[q Hq]); try done; try lia.
        exists c', off'. split; [done|]. split; [lia|]. split; [lia|]. exists (q + 1). lia.
      * destruct (IH fuel (z + 2) c (gap + 2) (off + 2)) as (c'&off'&->&Hrc&Hr&[q Hq]); try done; try lia.
        exists c', off'. split; [done|]. split; [lia|]. split; [lia|]. exists (q + 1). lia.
    + exists c, off. split; [done|]. split; [lia|]. split; [lia|]. exists 0. lia.
Qed.

(** The fractional difficulty of a positive number: a 24-bit fraction. *)
Lemma fractional_range n :
  0 < n -> exists d, get_fractional_difficulty n = Some d /\ 0 <= d <= 2 ^ 24.
Proof.
  intros Hn. unfold get_fractional_difficulty, fermat_test. rewrite sub_ui_law, powm_law by lia.
  cbn [mbind option_bind]. rewrite sub_law, mul_2exp_law, tdiv_q_law by lia.
  destruct (Z.eqb_spec n 0); [lia|]. cbn [mbind option_bind]. eexists. split; [done|].
  pose proof (Z.mod_pos_bound (2 ^ (n - 1)) n Hn) as Hr. set (r := _ mod n) in *. clearbody r.
  assert (0 <= Z.quot ((n - r) * 2 ^ 24) n <= 2 ^ 24).
  { split; [apply Z.quot_pos; lia|]. apply Z.quot_le_upper_bound; lia. }
  rewrite get_ui_law, Z.abs_eq by lia. rewrite !wrap_small; [lia|..]; unfold fits; try lia.
  rewrite wrap_small; unfold fits; lia.
Qed.

Lemma verification_total g p :
  ready g -> 0 < p < 2 ^ 1024 ->
  exists d, gmp_verification g p = Some d /\
    (gmp_prime_test g p = Some false -> d = f64_of_Z 0) /\
    (gmp_prime_test g p = Some true -> exists c f, 1 <= c <= 255256 /\ 0 <= f <= 2 ^ 24 /\
      d = f64_add (f64_of_Z c) (fractional_remainder f)).
Proof.
  intros Hg Hp. unfold gmp_verification.
  destruct (gmp_prime_test_spec g p Hg ltac:(lia)) as (b&Hb&Hspec). rewrite Hb.
  cbn [mbind option_bind]. destruct b; cbn [negb]; [|by eexists; split_and!].
  destruct (barren_ahead (p + 2)) as (k&Hk&Hbar).
  destruct (cluster_terminates g (Z.to_nat k) cluster_fuel p 1 2 0) as (c&off&->&Hc&Hoff&[q Hq]);
    try done; try lia.
  { by rewrite Z2Nat.id by lia. }
  { unfold cluster_fuel. lia. }
  rewrite Z2Nat.id in Hc, Hoff by lia. cbn [mbind option_bind].
  rewrite Z.sub_0_r in Hq. subst off.
  assert (Hodd : p mod 2 = 1).
  { destruct (proj1 Hspec eq_refl) as [Hdiv _]. specialize (Hdiv 2 (proj1 (prime_alt 2) Z.prime_2) ltac:(lia)).
    pose proof (Z.mod_pos_bound p 2 ltac:(lia)). destruct (decide (p mod 2 = 0)) as [Hz|]; [|lia].
    by apply Z.mod_divide in Hz. }
  rewrite wrap_add_l. destruct (fractional_range (wrap 1024 (p + q * 2 + 2))) as (d&->&Hd).
  { pose proof (wrap_fits 1024 (p + q * 2 + 2) ltac:(lia)) as Hf. unfold fits in Hf.
    assert (wrap 1024 (p + q * 2 + 2) <> 0); [|lia]. unfold wrap. intros Hz.
    apply Z.mod_divide in Hz as [m Hm]; [|done].
    change (2 ^ 1024) with (2 * 2 ^ 1023) in Hm. set (P := 2 ^ 1023) in Hm. clearbody P.
    rewrite Z.mod_eq in Hodd by lia. lia. }
  cbn [mbind option_bind]. eexists. split; [done|]. split; [done|]. intros _.
  exists c, d. split; [lia|]. by split.
Qed.
End laws.

(** Before [InitializePrimes] the base of the Fermat test is 0: every number fails. *)
Lemma static_test `{Gmp_laws} p : 0 < p -> gmp_prime_test static_globals p = Some false.
Proof.
  intros Hp. unfold gmp_prime_test, gmp_divisor, gmp_fermat. cbn [PRIME_SIEVE static_globals forallb negb zTwo].
  rewrite sub_ui_law, powm_law by lia. cbn [mbind option_bind]. f_equal. apply Z.eqb_neq.
  rewrite cmp_ui_law. destruct (decide (p = 1)) as [->|]; [done|].
  rewrite Z.pow_0_l, Z.mod_0_l by lia. lia.
Qed.

Lemma static_verification `{Gmp_laws} p :
  0 < p -> gmp_verification static_globals p = Some (f64_of_Z 0).
Proof. intros Hp. unfold gmp_verification. by rewrite static_test. Qed.

(** ** Properties *)

(** C33: [eratos_thenes] returns exactly the primes below the size, for every size up
    to [2^31]: the 32-bit products do not wrap there and the inner loop ends. *)
Theorem sieve_correct size :
  0 <= size <= 2 ^ 31 ->
  exists l, eratos_thenes size = Some l /\ forall n, n ∈ l <-> 2 <= n < size /\ prime n.
Proof. apply eratos_spec. Qed.

Lemma sieve_correct_witness :
  exists l, eratos_thenes 80 = Some l /\ forall n, n ∈ l <-> 2 <= n < 80 /\ prime n.
Proof. apply (sieve_correct 80). split; vm_compute; congruence. Defined.

(** C32: with the primes initialised, [gmp_verification] returns on every
    share: the search for the next number of the cluster ends, because six consecutive odd numbers
    divisible by 3, 5, 7, 11, 13 and 17 are never further than 255255 odd numbers away, and no
    division by zero is met even when the sum wraps at [2^1024].  The result is 0 exactly by way
    of a failed first test, and otherwise the size of the cluster plus a fraction. *)
Theorem verification_terminates `{Gmp_laws} p :
  0 < p < 2 ^ 1024 ->
  exists g, InitializePrimes = Some g /\
    exists d b, gmp_verification g p = Some d /\ gmp_prime_test g p = Some b /\
      (b = true <-> (forall q, prime q -> q < 80 -> ~ (q | p)) /\ 2 ^ (p - 1) mod p = 1) /\
      if b then exists c f, 1 <= c <= 255256 /\ 0 <= f <= 2 ^ 24 /\
        d = f64_add (f64_of_Z c) (fractional_remainder f)
      else d = f64_of_Z 0.
Proof.
  intros Hp. destruct InitializePrimes_ready as (g&->&Hg). exists g. split; [done|].
  destruct (verification_total g p Hg Hp) as (d&Hd&Hfalse&Htrue).
  destruct (gmp_prime_test_spec g p Hg ltac:(lia)) as (b&Hb&Hspec).
  exists d, b. split; [done|]. split; [done|]. split; [done|]. destruct b; auto.
Qed.

Lemma verification_terminates_witness :
  exists g d, InitializePrimes = Some g /\ @gmp_verification gmp_Z g 97 = Some d.
Proof.
  destruct (@verification_terminates gmp_Z gmp_Z_laws 97) as (g&Hg&d&b&Hd&_).
  - lia.
  - exists g, d. exact (conj Hg Hd).
Defined.

(** in the program as it is, [InitializePrimes] is never called.  The
    globals then keep their zero initialisation, the Fermat test raises 0 to a power, and
    [gmp_verification] gives 0 for every positive number, so a difficulty of 0 bits: below any
    positive minimum. *)
Theorem shares_never_verified `{Gmp_laws} p :
  0 < p -> exists d, gmp_verification static_globals p = Some d /\ set_bits d = Some 0.
Proof. intros Hp. exists (f64_of_Z 0). split; [by apply static_verification|done]. Qed.

Lemma shares_never_verified_witness :
  exists d, @gmp_verification gmp_Z static_globals 97 = Some d /\ set_bits d = Some 0.
Proof. apply (@shares_never_verified gmp_Z gmp_Z_laws 97). lia. Defined.
