(* ===== verification/Registry.v ===== *)
(** * The data the connections share: [data_registry.hpp], [data_registry.cpp]

    [Data_registry] owns the two databases with their files, the banned users, the coinbase that
    is being built and the global height and round.  [Config] is the part of the configuration the
    core reads.  [Std_sort] is what [std::sort] promises. *)
From S2P Require Import Prelude Bytes StdMap Coinbase LLD Banned CBlock.

(** The values of [Config] the core reads, constant after startup. *)
Record Config := mk_config {
  get_pool_fee : Z;
  get_min_share : Z;
  get_use_ddos : bool;
  get_persistance_timer_seconds : Z;
}.

Record Data_registry := mk_registry {
  m_account_db : smap bytes Account.t;
  m_block_db : smap Z Block.t;
  acct_dat : option bytes;
  blk_dat : option bytes;
  m_banned_users : Banned_users;
  m_coinbase : Coinbase.t;
  m_best_height : Z;
  m_current_round : Z;
  m_config : Config;
}.

Definition set_accounts a r := mk_registry a (m_block_db r) (acct_dat r) (blk_dat r)
  (m_banned_users r) (m_coinbase r) (m_best_height r) (m_current_round r) (m_config r).
Definition set_blocks b r := mk_registry (m_account_db r) b (acct_dat r) (blk_dat r)
  (m_banned_users r) (m_coinbase r) (m_best_height r) (m_current_round r) (m_config r).
Definition set_files a b r := mk_registry (m_account_db r) (m_block_db r) a b
  (m_banned_users r) (m_coinbase r) (m_best_height r) (m_current_round r) (m_config r).
Definition set_banned u r := mk_registry (m_account_db r) (m_block_db r) (acct_dat r) (blk_dat r)
  u (m_coinbase r) (m_best_height r) (m_current_round r) (m_config r).
Definition set_coinbase_of c r := mk_registry (m_account_db r) (m_block_db r) (acct_dat r)
  (blk_dat r) (m_banned_users r) c (m_best_height r) (m_current_round r) (m_config r).
Definition set_height h r := mk_registry (m_account_db r) (m_block_db r) (acct_dat r) (blk_dat r)
  (m_banned_users r) (m_coinbase r) h (m_current_round r) (m_config r).
Definition set_round n r := mk_registry (m_account_db r) (m_block_db r) (acct_dat r) (blk_dat r)
  (m_banned_users r) (m_coinbase r) (m_best_height r) n (m_config r).

Section registry.
Context `{Platform}.

(** The constructor reads both databases; [init] loads the banned users. *)
Definition new_registry (config : Config) (acct blk : option bytes) (bans : ban_files)
  : option Data_registry :=
  blocks ← Database.ReadIntoMemory blk;
  accounts ← Database.ReadIntoMemory acct;
  Some (mk_registry accounts blocks acct blk (load_banned_users bans new_banned) Coinbase.new 0 1
          config).

Definition write_accounts (r : Data_registry) : Data_registry :=
  set_files (Some (Database.WriteToDisk (m_account_db r))) (blk_dat r) r.
Definition write_blocks (r : Data_registry) : Data_registry :=
  set_files (acct_dat r) (Some (Database.WriteToDisk (m_block_db r))) r.

(** The timer of [persistance_handler]; it starts again unless it was canceled. *)
Definition persistance_handler (canceled : bool) (r : Data_registry) : Data_registry :=
  if canceled then r else write_accounts (write_blocks r).

(** [GetRecord] and [UpdateRecord] of the account database. *)
Definition get_account (name : bytes) (r : Data_registry) : Account.t * Data_registry :=
  let '(a, db) := Database.GetRecord name (m_account_db r) in (a, set_accounts db r).
Definition update_account (a : Account.t) (r : Data_registry) : Data_registry :=
  set_accounts (Database.UpdateRecord a (m_account_db r)) r.
End registry.

(** ** Accounts sorted by balance *)

(** [std::sort] with a strict weak order returns some sorted permutation, and looks at what the
    comparison returns only. *)
Class Std_sort := {
  std_sort : (bytes -> bytes -> bool) -> list bytes -> list bytes;
  std_sort_permutation : forall lt l, std_sort lt l ≡ₚ l;
  std_sort_sorted : forall (f : bytes -> Z) l,
    Sorted (fun a b => f b <= f a) (std_sort (fun a b => f b <? f a) l);
  std_sort_ext : forall lt lt' l, (forall a b, lt a b = lt' a b) -> std_sort lt l = std_sort lt' l;
}.

(** The comparison reads both records from the database; the keys are its own. *)
Definition balance_of (name : bytes) (db : smap bytes Account.t) : Z :=
  match map_find name db with Some a => Account.nAccountBalance a | None => 0 end.

Definition get_sorted_accounts `{Std_sort} (r : Data_registry) : list bytes :=
  std_sort (fun a b => balance_of b (m_account_db r) <? balance_of a (m_account_db r))
    (Database.GetKeys (m_account_db r)).

(** ** An instance: insertion sort *)
Fixpoint insert_by (lt : bytes -> bytes -> bool) (x : bytes) (l : list bytes) : list bytes :=
  match l with
  | [] => [x]
  | y :: l' => if lt y x then y :: insert_by lt x l' else x :: l
  end.

Lemma insert_by_permutation lt x l : insert_by lt x l ≡ₚ x :: l.
Proof.
  induction l as [|y l IH]; [done|]. cbn. destruct (lt y x); [|done].
  rewrite IH. apply Permutation_swap.
Qed.

Lemma insert_by_sorted (f : bytes -> Z) x l :
  Sorted (fun a b => f b <= f a) l ->
  Sorted (fun a b => f b <= f a) (insert_by (fun a b => f b <? f a) x l).
Proof.
  induction 1 as [|y l Hl IH Hhd]; cbn; [by repeat constructor|].
  destruct (Z.ltb_spec (f x) (f y)).
  - constructor; [done|]. destruct Hhd as [|z l Hyz]; cbn; [constructor; lia|].
    destruct (f x <? f z); constructor; lia.
  - repeat constructor; done.
Qed.

#[refine] Definition insertion_sort : Std_sort :=
  {| std_sort lt l := foldr (insert_by lt) [] l |}.
Proof.
  - intros lt l. induction l as [|x l IH]; [done|]. cbn. by rewrite insert_by_permutation, IH.
  - intros f l. induction l as [|x l IH]; [constructor|]. by apply insert_by_sorted.
  - intros lt lt' l Hlt. induction l as [|x l IH]; [done|]. cbn. rewrite IH.
    generalize (foldr (insert_by lt') [] l). intros m. induction m as [|y m IHm]; cbn; [done|].
    by rewrite Hlt, IHm.
Defined.

(** ** Lemmas *)
Lemma sorted_accounts_permutation `{Std_sort} r :
  get_sorted_accounts r ≡ₚ map_keys (m_account_db r).
Proof. apply std_sort_permutation. Qed.

(** The comparison of the code, which goes through [GetRecord], is [balance_of] on its own keys
    and changes nothing. *)
Lemma get_account_present `{Platform} name r a :
  map_find name (m_account_db r) = Some a -> get_account name r = (a, r).
Proof.
  intros Hf. unfold get_account, Database.GetRecord. rewrite Hf. by destruct r.
Qed.

(** ** Properties *)

(** [get_sorted_accounts] lists every account of the database once, the highest
    balance first. *)
Theorem sorted_accounts `{Std_sort} r :
  map_sorted (m_account_db r) ->
  NoDup (get_sorted_accounts r) /\
  (forall k, k ∈ get_sorted_accounts r <-> is_Some (map_find k (m_account_db r))) /\
  Sorted (fun a b => balance_of b (m_account_db r) <= balance_of a (m_account_db r))
    (get_sorted_accounts r).
Proof.
  intros Hs. split; [|split].
  - rewrite sorted_accounts_permutation. by apply keys_NoDup.
  - intros k. rewrite sorted_accounts_permutation. symmetry. by apply find_is_Some.
  - apply (std_sort_sorted (fun a => balance_of a (m_account_db r))).
Qed.

Lemma sorted_accounts_witness :
  let _ := insertion_sort in
  let db := [([Byte.x41], Account.mk [Byte.x41] 5 0 0); ([Byte.x42], Account.mk [Byte.x42] 9 0 0)] in
  let r := mk_registry db [] None None new_banned Coinbase.new 0 1 (mk_config 0 0 true 10) in
  NoDup (get_sorted_accounts r) /\ get_sorted_accounts r = [[Byte.x42]; [Byte.x41]].
Proof.
  pose (P := insertion_sort). split; [|reflexivity].
  refine (proj1 (sorted_accounts (mk_registry [([Byte.x41], Account.mk [Byte.x41] 5 0 0);
    ([Byte.x42], Account.mk [Byte.x42] 9 0 0)] [] None None new_banned Coinbase.new 0 1
    (mk_config 0 0 true 10)) _)). by repeat constructor.
Defined.
