(* ===== verification/Config.v ===== *)
(** * The configuration: [src/src/config.cpp], [config.hpp]

    [Json] is a parsed document with the accessors of the JSON library that [read_config] uses;
    the parser is left out, [read_config] takes the document.  [None] is an exception, which
    nothing catches: the program ends. *)
From Stdlib Require Import Strings.String.
From S2P Require Import Prelude Bytes StdMap Float64 Registry.

Abbreviation key s := (String.list_byte_of_string s%string).

Module Json.
Inductive value :=
  | null
  | object (m : list (bytes * value))
  | array (l : list value)
  | string (s : bytes)
  | boolean (b : bool)
  | number_integer (z : Z)
  | number_unsigned (z : Z)
  | number_float (x : f64).

(** [at(key)] throws for anything but an object that has the key. *)
Definition at_ (k : bytes) (j : value) : option value :=
  match j with object m => map_find k m | _ => None end.

(** [find(key) != end()] *)
Definition contains (k : bytes) (j : value) : bool :=
  match j with object m => bool_decide (is_Some (map_find k m)) | _ => false end.

(** [operator[]] gives null for a key that an object does not have, or that null does not have. *)
Definition index (k : bytes) (j : value) : option value :=
  match j with
  | object m => Some (default null (map_find k m))
  | null => Some null
  | _ => None
  end.

(** [from_json] for an unsigned integer of width [w]. *)
Definition get_uint (w : Z) (j : value) : option Z :=
  match j with
  | number_unsigned z => Some (wrap w z)
  | number_integer z => Some (wrap w z)
  | number_float x => f64_to_uint w x
  | boolean b => Some (Z.b2z b)
  | _ => None
  end.

(** [from_json] for [int]. *)
Definition get_int (j : value) : option Z :=
  match j with
  | number_unsigned z => Some (i32 z)
  | number_integer z => Some (i32 z)
  | number_float x => z ← f64_trunc x; if bool_decide (- 2 ^ 31 <= z < 2 ^ 31) then Some z else None
  | boolean b => Some (Z.b2z b)
  | _ => None
  end.

Definition get_bool (j : value) : option bool := match j with boolean b => Some b | _ => None end.
Definition get_string (j : value) : option bytes := match j with string s => Some s | _ => None end.
End Json.

Module Config.
Record t := mk {
  m_wallet_ip : bytes;
  m_port : Z;
  m_pool_port : Z;
  m_connection_threads : Z;
  m_use_ddos : bool;
  m_r_score : Z;
  m_c_score : Z;
  m_min_share : Z;
  m_pool_fee : Z;
  m_logfile : bytes;
  m_database_type : bytes;
  m_database_file : bytes;
  m_maintenance_timer_seconds : Z;
  m_persistance_timer_seconds : Z;
  m_block_timer_milliseconds : Z;
  m_orphan_check_timer_seconds : Z;
  m_request_timer_seconds : Z;
  strStatsDBServerIP : bytes;
  nStatsDBServerPort : Z;
  strStatsDBUsername : bytes;
  strStatsDBPassword : bytes;
  nSaveConnectionStatsFrequency : Z;
  nSaveConnectionStatsSeriesFrequency : Z;
}.

(** [Config()] *)
Definition new : t :=
  mk (key "127.0.0.1") 9323 9549 20 true 20 2 40000000 1 [] (key "sqlite") [] 60 10 50 20 2
    (key "127.0.0.1") 3306 (key "mysql") (key "mysql") 10 300.

(** The timers of [advanced_config], or those of the object before. *)
Definition read_timers (j : Json.value) (c : t) : option (Z * Z * Z * Z * Z) :=
  if Json.contains (key "advanced_config") j then
    a ← Json.index (key "advanced_config") j;
    maintenance ← Json.index (key "maintenance_timer") a ≫= Json.get_uint 32;
    persistance ← Json.index (key "persistance_timer") a ≫= Json.get_uint 32;
    block ← Json.index (key "block_timer_milliseconds") a ≫= Json.get_uint 32;
    orphan_check ← Json.index (key "orphan_check_timer") a ≫= Json.get_uint 32;
    request ← Json.index (key "request_timer") a ≫= Json.get_uint 32;
    Some (maintenance, persistance, block, orphan_check, request)
  else Some (m_maintenance_timer_seconds c, m_persistance_timer_seconds c,
             m_block_timer_milliseconds c, m_orphan_check_timer_seconds c, m_request_timer_seconds c).

(** [read_config] after the file is open, on the document [j]. *)
Definition read (j : Json.value) (c : t) : option t :=
  wallet_ip ← Json.at_ (key "wallet_ip") j ≫= Json.get_string;
  port ← Json.at_ (key "port") j ≫= Json.get_uint 16;
  pool_port ← Json.at_ (key "pool_port") j ≫= Json.get_uint 16;
  connection_threads ← Json.at_ (key "connection_threads") j ≫= Json.get_uint 32;
  use_ddos ← Json.at_ (key "enable_ddos") j ≫= Json.get_bool;
  r_score ← Json.at_ (key "ddos_rscore") j ≫= Json.get_int;
  c_score ← Json.at_ (key "ddos_cscore") j ≫= Json.get_int;
  min_share ← Json.at_ (key "min_share") j ≫= Json.get_uint 32;
  pool_fee ← Json.at_ (key "pool_fee") j ≫= Json.get_uint 32;
  logfile ← Json.at_ (key "logfile") j ≫= Json.get_string;
  database_type ← Json.at_ (key "database_type") j ≫= Json.get_string;
  database_file ← Json.at_ (key "database_file") j ≫= Json.get_string;
  server_ip ← Json.at_ (key "stats_db_server_ip") j ≫= Json.get_string;
  server_port ← Json.at_ (key "stats_db_server_port") j ≫= Json.get_int;
  username ← Json.at_ (key "stats_db_username") j ≫= Json.get_string;
  password ← Json.at_ (key "stats_db_password") j ≫= Json.get_string;
  frequency ← Json.at_ (key "connection_stats_frequency") j ≫= Json.get_int;
  series_frequency ← Json.at_ (key "connection_stats_series_frequency") j ≫= Json.get_int;
  '(maintenance, persistance, block, orphan_check, request) ← read_timers j c;
  Some (mk wallet_ip port pool_port connection_threads use_ddos r_score c_score min_share pool_fee
    logfile database_type database_file maintenance persistance block orphan_check request
    server_ip server_port username password frequency series_frequency).

(** [read_config]; [document] is what the parser makes of [pool.conf], if it can be opened: [None]
    inside for text that is not JSON, at which the parser throws. *)
Definition read_config (document : option (option Json.value)) (c : t) : option (bool * t) :=
  match document with
  | None => Some (false, c)
  | Some parsed => j ← parsed; c' ← read j c; Some (true, c')
  end.

(** What [Data_registry] and the connections read of it. *)
Definition registry_config (c : t) : Registry.Config :=
  mk_config (m_pool_fee c) (m_min_share c) (m_use_ddos c) (m_persistance_timer_seconds c).

Definition required : list bytes :=
  [key "wallet_ip"; key "port"; key "pool_port"; key "connection_threads"; key "enable_ddos";
   key "ddos_rscore"; key "ddos_cscore"; key "min_share"; key "pool_fee"; key "logfile";
   key "database_type"; key "database_file"; key "stats_db_server_ip"; key "stats_db_server_port";
   key "stats_db_username"; key "stats_db_password"; key "connection_stats_frequency";
   key "connection_stats_series_frequency"].
End Config.

(** The object of a document with these members, a repeated one replacing those before. *)
Definition document (members : list (bytes * Json.value)) : Json.value :=
  Json.object (foldl (fun m kv => map_insert kv.1 kv.2 m) [] members).

(** [src/pool.conf], whose [daemon_threads] nothing reads. *)
Definition pool_conf : Json.value := document [
  (key "wallet_ip", Json.string (key "127.0.0.1")); (key "port", Json.number_unsigned 8325);
  (key "pool_port", Json.number_unsigned 9549); (key "daemon_threads", Json.number_unsigned 10);
  (key "connection_threads", Json.number_unsigned 4); (key "enable_ddos", Json.boolean true);
  (key "ddos_rscore", Json.number_unsigned 20); (key "ddos_cscore", Json.number_unsigned 2);
  (key "min_share", Json.number_unsigned 40000000); (key "pool_fee", Json.number_unsigned 1);
  (key "logfile", Json.string (key "pool.log")); (key "database_type", Json.string (key "sqlite"));
  (key "database_file", Json.string (key "nexuspool.db"));
  (key "stats_db_server_ip", Json.string (key "127.0.0.1"));
  (key "stats_db_server_port", Json.number_unsigned 3306);
  (key "stats_db_username", Json.string (key "nxspool"));
  (key "stats_db_password", Json.string (key "nxspool"));
  (key "connection_stats_frequency", Json.number_unsigned 10);
  (key "connection_stats_series_frequency", Json.number_unsigned 300)].

Example pool_conf_read :
  (fun r => (r.1, Config.registry_config r.2, Config.m_port r.2, Config.m_block_timer_milliseconds r.2))
    <$> Config.read_config (Some (Some pool_conf)) Config.new =
  Some (true, mk_config 1 40000000 true 10, 8325, 50).
Proof. vm_compute. reflexivity. Qed.

(** ** Lemmas *)
Definition fits_int (z : Z) : Prop := - 2 ^ 31 <= z < 2 ^ 31.

Lemma get_uint_fits w j z : 0 < w -> Json.get_uint w j = Some z -> fits w z.
Proof.
  intros Hw. destruct j as [| | | |b|i|i|x]; cbn; try done; try (intros [= <-]; auto with width).
  - unfold fits. pose proof (Z.pow_gt_1 2 w). destruct b; cbn; lia.
  - unfold f64_to_uint. destruct (f64_trunc x) as [y|]; cbn; [|done]. case_bool_decide; [|done].
    by intros [= <-].
Qed.

Lemma sgn_fits_int z : fits_int (i32 z).
Proof.
  unfold fits_int, sgn. change (2 ^ (32 - 1)) with (2 ^ 31).
  pose proof (Z.mod_pos_bound (z + 2 ^ 31) (2 ^ 32)). lia.
Qed.

Lemma get_int_fits j z : Json.get_int j = Some z -> fits_int z.
Proof.
  destruct j as [| | | |b|i|i|x]; cbn; try done; try (intros [= <-]; apply sgn_fits_int).
  - intros [= <-]. unfold fits_int. destruct b; cbn; lia.
  - destruct (f64_trunc x) as [y|]; cbn; [|done]. case_bool_decide; [|done]. by intros [= <-].
Qed.

(** Runs through the reads of a configuration. *)
Ltac reads H :=
  repeat match type of H with
  | mbind _ ?x = Some _ => let E := fresh "E" in destruct x eqn:E; cbn [mbind option_bind] in H; [|discriminate H]
  end.
Ltac missing Hm := match goal with E : _ = Some _ |- _ => rewrite Hm in E; discriminate E end.
Ltac throws :=
  repeat match goal with
  | |- mbind _ ?x = None =>
      let E := fresh "E" in destruct x eqn:E; cbn [mbind option_bind]; [|reflexivity]
  end.

(** The numbers that were read are in the range of their types. *)
Ltac in_range :=
  rewrite ?Forall_cons; split_and!; try apply Forall_nil; try done;
  match goal with
  | E : _ = Some ?z |- fits _ ?z => apply bind_Some in E as (?&_&E); by apply get_uint_fits in E
  | E : _ = Some ?z |- fits_int ?z => apply bind_Some in E as (?&_&E); by apply get_int_fits in E
  end.

Lemma read_timers_fits j c timers :
  Forall (fits 32) [Config.m_maintenance_timer_seconds c; Config.m_persistance_timer_seconds c;
    Config.m_block_timer_milliseconds c; Config.m_orphan_check_timer_seconds c; Config.m_request_timer_seconds c] ->
  Config.read_timers j c = Some timers ->
  let '(t1, t2, t3, t4, t5) := timers in Forall (fits 32) [t1; t2; t3; t4; t5].
Proof.
  intros Hc. unfold Config.read_timers. destruct (Json.contains _ j); [|by intros [= <-]].
  intros H. reads H. injection H as <-.
  in_range.
Qed.

(** ** Properties *)

(** C39: a configuration that was read is in range: the ports fit 16 bits, the threads, the
    minimum share, the fee and the timers 32, and the scores an [int].  The numbers of the file are
    not checked but cut: a port of 65536 more is the same port, and a negative fee is a huge one. *)
Theorem config_bounds j c c' :
  Forall (fits 32) [Config.m_maintenance_timer_seconds c; Config.m_persistance_timer_seconds c;
    Config.m_block_timer_milliseconds c; Config.m_orphan_check_timer_seconds c; Config.m_request_timer_seconds c] ->
  Config.read_config (Some (Some j)) c = Some (true, c') ->
  Forall (fits 16) [Config.m_port c'; Config.m_pool_port c'] /\
  Forall (fits 32) [Config.m_connection_threads c'; Config.m_min_share c'; Config.m_pool_fee c';
    Config.m_maintenance_timer_seconds c'; Config.m_persistance_timer_seconds c';
    Config.m_block_timer_milliseconds c'; Config.m_orphan_check_timer_seconds c'; Config.m_request_timer_seconds c'] /\
  Forall fits_int [Config.m_r_score c'; Config.m_c_score c'] /\
  (forall z, Json.at_ (key "port") j = Some (Json.number_unsigned z) -> Config.m_port c' = z `mod` 2 ^ 16) /\
  (forall z, Json.at_ (key "pool_fee") j = Some (Json.number_integer (- z)) -> 0 < z < 2 ^ 32 ->
     Config.m_pool_fee c' = 2 ^ 32 - z).
Proof.
  intros Hc H. unfold Config.read_config in H. cbn [mbind option_bind] in H.
  destruct (Config.read j c) as [c1|] eqn:Hr; cbn [mbind option_bind] in H; [|done].
  injection H as <-. unfold Config.read in Hr. reads Hr.
  match goal with E : Config.read_timers _ _ = Some ?p |- _ =>
    pose proof (read_timers_fits _ _ _ Hc E) as Ht; destruct p as [[[[t1 t2] t3] t4] t5] end.
  injection Hr as <-. cbn -[String.list_byte_of_string].
  rewrite !Forall_cons in Ht. destruct Ht as (?&?&?&?&?&_).
  split; [in_range|]. split; [in_range|]. split; [in_range|]. split.
  - intros p Hz. match goal with E : _ = Some ?q |- ?q = _ => rewrite Hz in E; by injection E as <- end.
  - intros fee Hz Hb. match goal with E : _ = Some ?q |- ?q = _ => rewrite Hz in E; injection E as <- end.
    unfold wrap. symmetry. apply (Z.mod_unique_pos _ _ (-1)); lia.
Qed.

Lemma config_bounds_witness :
  exists c', Config.read_config (Some (Some pool_conf)) Config.new = Some (true, c') /\
    Forall (fits 16) [Config.m_port c'; Config.m_pool_port c'].
Proof.
  destruct (Config.read_config (Some (Some pool_conf)) Config.new) as [[r c']|] eqn:E;
    [|vm_compute in E; discriminate].
  assert (r = true) as -> by (vm_compute in E; congruence).
  exists c'. split; [reflexivity|].
  refine (proj1 (config_bounds pool_conf Config.new c' _ E)).
  repeat constructor; vm_compute; congruence.
Defined.

(** The configuration that [README.md] shows: [enable_ddos] is text there, and it names neither
    [pool_port] nor [database_file]. *)
Definition readme_members : list (bytes * Json.value) := [
  (key "wallet_ip", Json.string (key "127.0.0.1")); (key "port", Json.number_unsigned 9549);
  (key "daemon_threads", Json.number_unsigned 10); (key "connection_threads", Json.number_unsigned 4);
  (key "enable_ddos", Json.string (key "true")); (key "ddos_rscore", Json.number_unsigned 20);
  (key "ddos_cscore", Json.number_unsigned 2); (key "min_share", Json.number_unsigned 40000000);
  (key "pool_fee", Json.number_unsigned 1); (key "logfile", Json.string (key "pool.log"));
  (key "database_type", Json.string (key "sqlite"));
  (key "stats_db_server_ip", Json.string (key "127.0.0.1"));
  (key "stats_db_server_port", Json.number_unsigned 3306);
  (key "stats_db_username", Json.string (key "nxspool"));
  (key "stats_db_password", Json.string (key "nxspool"));
  (key "connection_stats_frequency", Json.number_unsigned 10);
  (key "connection_stats_series_frequency", Json.number_unsigned 300)].

(** Without a file [read_config] reports the failure and keeps the defaults; everything
    else that is wrong with the file ends the program: text that is not JSON, a document that is
    not an object, any of the eighteen keys missing, [enable_ddos] that is not a boolean, and an
    [advanced_config] without one of its five timers.  The example in [README.md] does, and still
    does when [pool_port] and [database_file] are added to it. *)
Theorem config_errors m c :
  Config.read_config None c = Some (false, c) /\
  Config.read_config (Some None) c = None /\
  (forall j, (forall m, j <> Json.object m) -> Config.read_config (Some (Some j)) c = None) /\
  (forall k, k ∈ Config.required -> map_find k m = None ->
     Config.read_config (Some (Some (Json.object m))) c = None) /\
  (forall j, map_find (key "enable_ddos") m = Some j -> Json.get_bool j = None ->
     Config.read_config (Some (Some (Json.object m))) c = None) /\
  (forall a k, map_find (key "advanced_config") m = Some (Json.object a) ->
     k ∈ [key "maintenance_timer"; key "persistance_timer"; key "block_timer_milliseconds";
          key "orphan_check_timer"; key "request_timer"] ->
     map_find k a = None -> Config.read_config (Some (Some (Json.object m))) c = None) /\
  Config.read_config (Some (Some (document readme_members))) c = None /\
  Config.read_config (Some (Some (document (readme_members ++
    [(key "pool_port", Json.number_unsigned 9549);
     (key "database_file", Json.string (key "nexuspool.db"))])))) c = None.
Proof.
  assert (forall j, Config.read j c = None -> Config.read_config (Some (Some j)) c = None) as Hread.
  { intros j H. unfold Config.read_config. cbn [mbind option_bind]. by rewrite H. }
  split_and!; [done|done| | | | | |].
  - intros j Hj. apply Hread. destruct j; try reflexivity. by destruct (Hj m0).
  - intros k Hk Hm. apply Hread. unfold Config.read, Json.at_.
    unfold Config.required in Hk. repeat (apply elem_of_cons in Hk as [->|Hk]; [throws; missing Hm|]).
    by apply not_elem_of_nil in Hk.
  - intros j Hm Hj. apply Hread. unfold Config.read, Json.at_. throws.
    match goal with E : _ = Some _ |- _ => rewrite Hm in E; cbn [mbind option_bind] in E; congruence end.
  - intros a k Ha Hk Hm. apply Hread. unfold Config.read. throws.
    match goal with E : Config.read_timers _ _ = Some _ |- _ => rename E into Et end. exfalso.
    unfold Config.read_timers, Json.contains, Json.index in Et. rewrite Ha in Et.
    rewrite bool_decide_eq_true_2 in Et by done. cbn [mbind option_bind default id] in Et.
    repeat (apply elem_of_cons in Hk as [->|Hk]; [reads Et; missing Hm|]).
    by apply not_elem_of_nil in Hk.
  - apply Hread. reflexivity.
  - apply Hread. reflexivity.
Qed.
