(* ===== verification/Payout.v ===== *)
(** * Credits and refunds: [src/src/payout_manager.cpp]

    [update_balances] pays the accounts their round: the finder's bonus, a share of the reward by
    weight, and the remainder; [refund_payouts] takes an orphaned block back.  The weights go
    through [double]s, modelled bit for bit by [Float64]; [None] is a conversion of a [double]
    that does not fit the integer type. *)
From S2P Require Import Prelude Bytes StdMap Float64 Coinbase LLD Banned Registry.

(** ** The functions of [Payout_manager] *)
Section payout.
Context `{Platform}.

Fixpoint sum_weights (keys : list bytes) (weight : Z) (r : Data_registry) : Z * Data_registry :=
  match keys with
  | [] => (weight, r)
  | k :: keys' =>
      let '(a, r) := get_account k r in sum_weights keys' (u64 (weight + Account.nRoundShares a)) r
  end.

Definition total_weight (r : Data_registry) : Z * Data_registry :=
  sum_weights (Database.GetKeys (m_account_db r)) 0 r.

Fixpoint clear_loop (keys : list bytes) (r : Data_registry) : Data_registry :=
  match keys with
  | [] => r
  | k :: keys' =>
      let '(a, r) := get_account k r in clear_loop keys' (update_account (Account.set_shares 0 a) r)
  end.

Definition clear_shares (r : Data_registry) : Data_registry :=
  clear_loop (Database.GetKeys (m_account_db r)) r.

(** [static_cast<uint64_t>(reward * 0.02)] *)
Definition finder_bonus (reward : Z) : option Z :=
  f64_to_uint 64 (f64_mul (f64_of_Z reward) (f64_lit 2 100)).

(** [static_cast<uint32_t>(((double)cAccount.nRoundShares / nTotalWeight) * reward)] *)
Definition share_credit (nRoundShares nTotalWeight reward : Z) : option Z :=
  f64_to_uint 32 (f64_mul (f64_div (f64_of_Z nRoundShares) (f64_of_Z nTotalWeight)) (f64_of_Z reward)).

(** What is left of a balance after a payout. *)
Definition deduct (amount : Z) (a : Account.t) : Account.t :=
  Account.set_balance
    (if Account.nAccountBalance a <? amount then 0 else Account.nAccountBalance a - amount) a.

Definition add_balance (amount : Z) (a : Account.t) : Account.t :=
  Account.set_balance (u64 (Account.nAccountBalance a + amount)) a.

(** The body of the loop over the accounts; its state is [nTotalReward] and the credits. *)
Definition credit_account (nTotalWeight reward : Z) (k : bytes)
    (st : Z * Credits.t * Data_registry) : option (Z * Credits.t * Data_registry) :=
  let '(nTotalReward, credits, r) := st in
  let '(a, r) := get_account k r in
  let coinbase := m_coinbase r in
  let '(a, r) :=
    if Coinbase.find_address k coinbase then
      let '(map_output, coinbase) := Coinbase.get_map_outputs k coinbase in
      let a := deduct map_output a in
      (a, update_account a (set_coinbase_of coinbase r))
    else (a, r) in
  if Account.nRoundShares a =? 0 then Some (nTotalReward, credits, r) else
  nCredit ← share_credit (Account.nRoundShares a) nTotalWeight reward;
  let a := add_balance nCredit a in
  Some (u64 (nTotalReward + nCredit), Credits.AddCredit k nCredit credits, update_account a r).

Fixpoint credit_accounts (nTotalWeight reward : Z) (keys : list bytes)
    (st : Z * Credits.t * Data_registry) : option (Z * Credits.t * Data_registry) :=
  match keys with
  | [] => Some st
  | k :: keys' =>
      st ← credit_account nTotalWeight reward k st;
      credit_accounts nTotalWeight reward keys' st
  end.

(** The bonus of the finder of the last block, taken from the reward. *)
Definition pay_finder (last_blockfinder : bytes) (reward : Z) (r : Data_registry)
  : option (Z * Credits.t * Data_registry) :=
  if decide (last_blockfinder = []) then Some (reward, [], r) else
  credit ← finder_bonus reward;
  let '(a, r) := get_account last_blockfinder r in
  let r := update_account (add_balance credit a) r in
  Some (u64 (reward - credit), Credits.AddCredit last_blockfinder credit [], r).

Definition update_balances (reward hash_submit_block : Z) (last_blockfinder : bytes)
    (r : Data_registry) : option Data_registry :=
  let c := m_coinbase r in
  let round := m_current_round r in
  let reward := u64 (reward - u64 (reward * get_pool_fee (m_config r))) in
  '(reward, credits, r) ← pay_finder last_blockfinder reward r;
  let '(nTotalWeight, r) := total_weight r in
  '(nTotalReward, credits, r) ←
    credit_accounts nTotalWeight reward (Database.GetKeys (m_account_db r)) (0, credits, r);
  let r :=
    if nTotalReward <? reward then
      let '(a, r) := get_account last_blockfinder r in
      update_account (add_balance (u64 (reward - nTotalReward)) a) r
    else r in
  let cBlock := Block.mk hash_submit_block (u64 (Coinbase.nMaxValue c + Coinbase.nPoolFee c)) c
                  credits round in
  let r := set_blocks (Database.UpdateRecord cBlock (m_block_db r)) r in
  Some (write_accounts (write_blocks r)).

(** The two loops of [refund_payouts]: each reads the accounts of a map and writes them changed. *)
Fixpoint adjust_accounts (f : Z -> Account.t -> Account.t) (m : smap bytes Z) (r : Data_registry)
  : Data_registry :=
  match m with
  | [] => r
  | (k, v) :: m' =>
      let '(a, r) := get_account k r in adjust_accounts f m' (update_account (f v a) r)
  end.
Definition remove_credits : Credits.t -> Data_registry -> Data_registry := adjust_accounts deduct.
Definition refund_outputs : smap bytes Z -> Data_registry -> Data_registry :=
  adjust_accounts add_balance.

Definition refund_payouts (hash_block : Z) (r : Data_registry) : Data_registry :=
  let '(cBlock, blocks) := Database.GetRecord hash_block (m_block_db r) in
  let r := set_blocks blocks r in
  if Block.nCoinbaseValue cBlock =? 0 then r else
  let r := remove_credits (Block.cCredits cBlock) r in
  let r := refund_outputs (Coinbase.mapOutputs (Block.cCoinbase cBlock)) r in
  let r := set_blocks (Database.UpdateRecord (Block.set_value 0 cBlock) (m_block_db r)) r in
  write_blocks r.
End payout.

(** ** The two conversions through [double] *)
Lemma to_uint_fixed w x F :
  fixed x = Some F -> 0 <= F -> F / 2 ^ bias < 2 ^ w -> f64_to_uint w x = Some (F / 2 ^ bias).
Proof.
  intros Hx HF Hw. unfold f64_to_uint. rewrite (f64_trunc_fixed x F Hx HF). cbn [mbind option_bind].
  rewrite bool_decide_eq_true_2; [done|]. split; [|done]. apply Z.div_pos; [done|].
  apply pow2_pos. rewrite bias_eq. lia.
Qed.

Lemma unit_pos : 0 < 2 ^ bias.
Proof. apply pow2_pos. rewrite bias_eq. lia. Qed.

(** The literal 0.02 is a little above 2 / 100. *)
Lemma bonus_factor :
  exists L, fixed (f64_lit 2 100) = Some L /\ 2 ^ bias <= 50 * L /\
    2 ^ 53 * (50 * L) <= (2 ^ 53 + 1) * 2 ^ bias.
Proof. eexists. split; [vm_compute; reflexivity|]. rewrite bias_eq. split; vm_compute; congruence. Qed.

(** Up to [2^50] the bonus is exactly a fiftieth of the reward, rounded down. *)
Lemma finder_bonus_exact reward :
  0 <= reward <= 2 ^ 50 -> finder_bonus reward = Some (reward / 50).
Proof.
  intros Hr. destruct (decide (reward = 0)) as [->|Hne]; [by vm_compute|].
  destruct bonus_factor as (L&HL&Hlo&Hhi). pose proof unit_pos as HU. unfold finder_bonus.
  pose proof (f64_of_Z_exact reward ltac:(lia)) as HR.
  destruct (f64_mul_rounds _ _ _ _ HR HL) as (G&HG&Hround); [nia|nia| |].
  { replace (2 * bias + 900) with (bias + (bias + 900)) by lia.
    rewrite !Z.pow_add_r by (rewrite ?bias_eq; lia).
    assert (2 ^ 51 <= 2 ^ 900) by (apply Z.pow_le_mono_r; lia).
    set (P := 2 ^ 900) in *. set (U := 2 ^ bias) in *. clearbody P U. assert (L <= U) by nia.
    assert (reward * L <= 2 ^ 50 * U) by nia. nia. }
  assert (Hge : reward / 50 * 2 ^ bias <= G).
  { apply (rounds_to_ge (reward * 2 ^ bias * L) (2 ^ bias) G); [done| |done|].
    - apply representable_scaled; [zlia|rewrite bias_eq; lia].
    - assert (Hk : reward / 50 * 50 <= reward) by zlia. set (k := reward / 50) in *. clearbody k.
      set (U := 2 ^ bias) in *. clearbody U. assert (50 * (k * U) <= reward * U) by nia.
      assert (reward * U <= reward * (50 * L)) by nia. assert (k * U <= reward * L) by lia. nia. }
  assert (HP0 : 0 <= reward * 2 ^ bias * L) by (apply Z.mul_nonneg_nonneg; nia).
  pose proof (rounds_to_error _ _ _ HU HP0 Hround) as Herr.
  assert (H3 : 2 ^ 106 < 2 ^ bias) by (apply Z.pow_lt_mono_r; rewrite ?bias_eq; lia).
  assert (Hle : G < (reward / 50 + 1) * 2 ^ bias).
  { set (U := 2 ^ bias) in *. clearbody U.
    assert (reward < (reward / 50 + 1) * 50) by zlia. set (k := reward / 50) in *. clearbody k.
    assert (H1 : 2 ^ 53 * G <= (2 ^ 53 + 1) * (reward * L) + 2 ^ 52).
    { apply (Z.mul_le_mono_pos_r _ _ U); [done|]. lia. }
    pose proof (Z.mul_le_mono_nonneg_l _ _ reward ltac:(lia) Hhi) as H2.
    assert (reward * U <= 2 ^ 50 * U) by nia.
    assert ((reward + 1) * U <= (k + 1) * 50 * U) by nia. lia. }
  assert (Hk : 0 <= reward / 50 <= 2 ^ 50) by zlia.
  set (k := reward / 50) in *. set (U := 2 ^ bias) in *. clearbody k.
  rewrite (to_uint_fixed 64 _ G HG); fold U.
  - f_equal. symmetry. apply (Z.div_unique_pos G U k (G - k * U)); lia.
  - nia.
  - apply Z.div_lt_upper_bound; [done|]. nia.
Qed.

(** The two rounding errors, in units of [U = 2^1074]. *)
Lemma credit_error U s W reward F G c :
  2 ^ 200 < U -> 0 < s <= W -> W < 2 ^ 53 -> 0 < reward < 2 ^ 31 -> 0 <= F ->
  2 ^ 53 * (F * (W * U)) <= (2 ^ 53 + 1) * (s * U * U) + 2 ^ 52 * (W * U) ->
  2 ^ 53 * (G * U) <= (2 ^ 53 + 1) * (F * (reward * U)) + 2 ^ 52 * U ->
  c * U <= G -> 2 ^ 106 * (c * W) <= (2 ^ 53 + 1) ^ 2 * (s * reward).
Proof.
  intros HU Hs HW Hr HF0 HF HG Hc.
  assert (H1 : 2 ^ 53 * (F * W) <= (2 ^ 53 + 1) * (s * U) + 2 ^ 52 * W).
  { apply (Z.mul_le_mono_pos_r _ _ U); lia. }
  assert (H2 : 2 ^ 53 * G <= (2 ^ 53 + 1) * (F * reward) + 2 ^ 52).
  { apply (Z.mul_le_mono_pos_r _ _ U); lia. }
  assert (H3 : 2 ^ 106 * (G * W) <=
    (2 ^ 53 + 1) * ((2 ^ 53 + 1) * (s * U) + 2 ^ 52 * W) * reward + 2 ^ 105 * W).
  { pose proof (Z.mul_le_mono_nonneg_r _ _ W ltac:(lia) H2).
    pose proof (Z.mul_le_mono_nonneg_r _ _ reward ltac:(lia) H1). lia. }
  assert (H4 : W * reward < 2 ^ 84) by nia.
  assert (H5 : (c * U) * W <= G * W) by nia.
  assert (H6 : 2 ^ 106 * (c * W) * U < ((2 ^ 53 + 1) ^ 2 * (s * reward) + 1) * U) by lia.
  nia.
Qed.

(** A share of the reward is defined, and at most its exact proportion up to the rounding. *)
Lemma share_credit_bound s W reward :
  0 < s <= W -> W < 2 ^ 53 -> 0 <= reward < 2 ^ 31 ->
  exists c, share_credit s W reward = Some c /\ 0 <= c < 2 ^ 32 /\
    2 ^ 106 * (c * W) <= (2 ^ 53 + 1) ^ 2 * (s * reward).
Proof.
  intros Hs HW Hr. pose proof unit_pos as HU. unfold share_credit.
  pose proof (f64_of_Z_exact s ltac:(lia)) as Hx. pose proof (f64_of_Z_exact W ltac:(lia)) as Hy.
  pose proof (f64_of_Z_exact reward ltac:(lia)) as Hz.
  assert (HB : 2 ^ 60 <= 2 ^ 900) by (apply Z.pow_le_mono_r; lia).
  assert (Hbig : 2 ^ 200 < 2 ^ bias) by (apply Z.pow_lt_mono_r; rewrite ?bias_eq; lia).
  assert (Hexp : 2 ^ (2 * bias + 900) = 2 ^ bias * 2 ^ bias * 2 ^ 900).
  { by rewrite <-!Z.pow_add_r, <-Z.add_diag by (rewrite ?bias_eq; lia). }
  assert (Hone : representable (2 ^ bias)).
  { rewrite <-(Z.mul_1_l (2 ^ bias)). apply representable_scaled; [lia|rewrite bias_eq; lia]. }
  pose proof (f64_div_rounds _ _ _ _ Hx Hy) as Hdiv.
  set (q := f64_div _ _) in *.
  pose proof (fun F HF => f64_mul_rounds q _ F _ HF Hz) as Hmul. rewrite Hexp in Hmul.
  set (B := 2 ^ 900) in *.
  pose proof (fun F HF => to_uint_fixed 32 (f64_mul q (f64_of_Z reward)) F HF) as Hint.
  set (U := 2 ^ bias) in *. clearbody B U.
  destruct Hdiv as (F&HF&HroundF); [nia..|].
  assert (HWU : 0 < W * U) by nia.
  assert (HF1 : F <= U) by (apply (rounds_to_le _ _ _ _ HWU Hone HroundF); nia).
  assert (HF0 : 1 <= F).
  { apply (rounds_to_ge _ _ _ 1 HWU) in HroundF; [done|by exists 1, 0|nia]. }
  assert (HP0 : 0 <= s * U * U) by nia.
  pose proof (rounds_to_error _ _ _ HWU HP0 HroundF) as HerrF.
  destruct (decide (reward = 0)) as [->|Hne].
  { exists 0. split; [|lia]. destruct (fixed_pos q F HF ltac:(lia)) as (m&e&->&_). done. }
  destruct (Hmul F HF) as (G&HG&HroundG); [lia|nia|nia|].
  assert (HG0 : 0 <= F * (reward * U)) by nia.
  pose proof (rounds_to_error _ _ _ HU HG0 HroundG) as HerrG.
  assert (HGnn : 0 <= G).
  { apply (rounds_to_ge _ _ _ 0 HU) in HroundG; [done|by exists 0, 0|lia]. }
  assert (Hc : G / U * U <= G) by (pose proof (Z.mul_div_le G U HU); lia).
  assert (Hcn : 0 <= G / U) by (by apply Z.div_pos).
  pose proof (credit_error U s W reward F G (G / U) Hbig Hs HW ltac:(lia) ltac:(lia) HerrF HerrG Hc)
    as Hbound.
  assert (Hlt : G / U < 2 ^ 32).
  { set (c := G / U) in *. clearbody c. assert (c * W <= 2 * (W * reward)) by nia. nia. }
  exists (G / U). split; [by apply Hint|]. by split.
Qed.

(** ** Totals over the accounts *)
Definition balances (db : smap bytes Account.t) : Z := total Account.nAccountBalance db.
Definition weights (db : smap bytes Account.t) : Z := total Account.nRoundShares db.

(** What the coinbase [c] pays an account: never more than its balance. *)
Definition payout (c : Coinbase.t) (a : Account.t) : Z :=
  Z.min (Account.nAccountBalance a) (default 0 (map_find (Account.key a) (Coinbase.mapOutputs c))).
Definition payouts (c : Coinbase.t) (db : smap bytes Account.t) : Z := total (payout c) db.

(** Everything but the accounts and their file. *)
Definition same_rest (r r' : Data_registry) : Prop :=
  m_block_db r' = m_block_db r /\ acct_dat r' = acct_dat r /\ blk_dat r' = blk_dat r /\
  m_banned_users r' = m_banned_users r /\ m_coinbase r' = m_coinbase r /\
  m_best_height r' = m_best_height r /\ m_current_round r' = m_current_round r /\
  m_config r' = m_config r.

Lemma same_rest_refl r : same_rest r r.
Proof. by repeat split. Qed.

Lemma same_rest_trans r1 r2 r3 : same_rest r1 r2 -> same_rest r2 r3 -> same_rest r1 r3.
Proof. intros (?&?&?&?&?&?&?&?) (?&?&?&?&?&?&?&?). repeat split; congruence. Qed.

#[export] Instance same_rest_preorder : PreOrder same_rest.
Proof. split; [intros r; apply same_rest_refl|intros r1 r2 r3; apply same_rest_trans]. Qed.

(** An account in range. *)
Definition account_fits (B : Z) (a : Account.t) : Prop :=
  0 <= Account.nAccountBalance a < B /\ 0 <= Account.nRoundShares a.

Section totals.
Context `{Platform}.
Implicit Types (db : smap bytes Account.t).

Definition accounts_ok (B : Z) db : Prop :=
  consistent db /\ Forall (fun e => account_fits B e.2) db.

Lemma accounts_find B db k a :
  accounts_ok B db -> map_find k db = Some a -> Account.key a = k /\ account_fits B a.
Proof.
  intros [Hc Hf] Ha. split; [by apply (consistent_find k a db Hc)|].
  destruct Hc as [Hs _]. apply find_Some in Ha; [|done].
  rewrite Forall_forall in Hf. by apply (Hf (k, a)).
Qed.

Lemma Forall_map_insert (P : bytes * Account.t -> Prop) k a db :
  Forall P db -> P (k, a) -> Forall P (map_insert k a db).
Proof.
  intros Hdb Hk. induction Hdb as [|[k' a'] db Ha Hdb IH]; cbn; [by constructor|].
  split_cases; by repeat constructor.
Qed.

Lemma accounts_update B db a :
  accounts_ok B db -> account_fits B a -> accounts_ok B (Database.UpdateRecord a db).
Proof.
  intros [Hc Hf] Ha. split; [by apply consistent_insert|by apply Forall_map_insert].
Qed.

Lemma accounts_weaken B B' db : B <= B' -> accounts_ok B db -> accounts_ok B' db.
Proof.
  intros HB [Hc Hf]. split; [done|]. eapply Forall_impl; [exact Hf|].
  intros e [Hb Hs]. split; [lia|done].
Qed.

(** Writing a present account back. *)
Lemma total_update (f : Account.t -> Z) db k a a' :
  consistent db -> map_find k db = Some a -> Account.key a' = k ->
  total f (Database.UpdateRecord a' db) = total f db - f a + f a'.
Proof.
  intros [Hs _] Ha <-. unfold Database.UpdateRecord. cbn [cKey Account_record].
  rewrite total_insert by done. by rewrite Ha.
Qed.

Lemma find_update k a' db :
  consistent db ->
  map_find k (Database.UpdateRecord a' db) = if decide (k = Account.key a') then Some a' else map_find k db.
Proof. intros [Hs _]. unfold Database.UpdateRecord. cbn [cKey Account_record]. by rewrite find_insert. Qed.

Lemma update_account_db a r :
  m_account_db (update_account a r) = Database.UpdateRecord a (m_account_db r) /\
  same_rest r (update_account a r).
Proof. by repeat split. Qed.

(** ** The sum of the weights *)
Lemma sum_weights_spec l weight r :
  Forall (fun e => map_find e.1 (m_account_db r) = Some e.2) l ->
  0 <= weight -> (forall e, e ∈ l -> 0 <= Account.nRoundShares e.2) ->
  weight + total Account.nRoundShares l < 2 ^ 64 ->
  sum_weights l.*1 weight r = (weight + total Account.nRoundShares l, r).
Proof.
  intros Hl. revert weight. induction Hl as [|[k a] l Hk _ IH]; intros weight Hw Hpos Hlt.
  { cbn. by rewrite Z.add_0_r. }
  change (((k, a) :: l).*1) with (k :: l.*1). cbn [sum_weights].
  rewrite (get_account_present k r a) by done.
  cbn [total] in *. pose proof (Hpos (k, a) ltac:(left)) as Ha. cbn in Ha.
  assert (Hpos' : forall e, e ∈ l -> 0 <= Account.nRoundShares e.2) by (intros; apply Hpos; by right).
  pose proof (total_nonneg Account.nRoundShares l (fun k v H => Hpos' (k, v) H)) as Ht.
  rewrite wrap_small by (unfold fits; lia).
  rewrite IH by (done || lia). f_equal. lia.
Qed.

Lemma own_entries db : map_sorted db -> Forall (fun e => map_find e.1 db = Some e.2) db.
Proof.
  intros Hs. apply Forall_forall. intros [k a] Hin. by apply find_Some.
Qed.

Lemma total_weight_spec B r :
  accounts_ok B (m_account_db r) -> weights (m_account_db r) < 2 ^ 64 ->
  total_weight r = (weights (m_account_db r), r).
Proof.
  intros [[Hs _] Hf] Hw. unfold total_weight, Database.GetKeys, map_keys.
  rewrite sum_weights_spec; [done|by apply own_entries|done| |done].
  intros e He. rewrite Forall_forall in Hf. by destruct (Hf e He).
Qed.
End totals.

(** ** The loop over the accounts *)
Section loop.
Context `{Platform} (W reward : Z) (HW : W < 2 ^ 53) (Hr : 0 <= reward < 2 ^ 31).

Lemma deduct_payout c a B :
  account_fits B a -> Forall (fun e => 0 <= e.2) (Coinbase.mapOutputs c) -> map_sorted (Coinbase.mapOutputs c) ->
  let a' := if Coinbase.find_address (Account.key a) c
            then deduct (Coinbase.get_map_outputs (Account.key a) c).1 a else a in
  Account.nAccountBalance a' = Account.nAccountBalance a - payout c a /\
  0 <= payout c a <= Account.nAccountBalance a /\ Account.key a' = Account.key a /\
  Account.nRoundShares a' = Account.nRoundShares a.
Proof.
  intros [[Hb _] _] Hpos Hs. unfold Coinbase.find_address, Coinbase.get_map_outputs, map_count, payout.
  destruct (map_find (Account.key a) (Coinbase.mapOutputs c)) as [v|] eqn:E; cbn [fst default id].
  - assert (0 <= v).
    { rewrite Forall_forall in Hpos. apply (Hpos (Account.key a, v)). by apply find_Some. }
    unfold deduct, Account.set_balance. cbn.
    destruct (Z.ltb_spec (Account.nAccountBalance a) v); repeat split; lia.
  - repeat split; lia.
Qed.

Lemma update_self k a db : consistent db -> map_find k db = Some a -> Database.UpdateRecord a db = db.
Proof.
  intros Hc Ha. pose proof Hc as [Hs _]. apply smap_eq; [by apply insert_sorted|done|].
  intros k'. rewrite find_update by done.
  assert (Account.key a = k) as -> by exact (consistent_find k a db Hc Ha). case_decide; congruence.
Qed.

Lemma update_twice a1 a2 db :
  consistent db -> Account.key a1 = Account.key a2 ->
  Database.UpdateRecord a2 (Database.UpdateRecord a1 db) = Database.UpdateRecord a2 db.
Proof.
  intros Hc Hk. pose proof (consistent_insert a1 db Hc) as Hc1. pose proof Hc as [Hs _].
  apply smap_eq; [apply insert_sorted; by destruct Hc1|by apply insert_sorted|].
  intros k'. rewrite !find_update by done. rewrite Hk. by case_decide.
Qed.

(** One account: what it is paid is taken off, its credit is added, all else stays. *)
Lemma credit_account_spec B k a T credits r :
  consistent (m_account_db r) -> account_fits B a -> B <= 2 ^ 63 ->
  map_find k (m_account_db r) = Some a ->
  Forall (fun e => 0 <= e.2) (Coinbase.mapOutputs (m_coinbase r)) ->
  map_sorted (Coinbase.mapOutputs (m_coinbase r)) ->
  Account.nRoundShares a <= W -> 0 <= T < 2 ^ 63 ->
  exists cred credits' r' a',
    credit_account W reward k (T, credits, r) = Some (T + cred, credits', r') /\
    same_rest r r' /\ m_account_db r' = Database.UpdateRecord a' (m_account_db r) /\
    Account.key a' = k /\ Account.nRoundShares a' = Account.nRoundShares a /\
    Account.nAccountBalance a' = Account.nAccountBalance a - payout (m_coinbase r) a + cred /\
    0 <= payout (m_coinbase r) a <= Account.nAccountBalance a /\ 0 <= cred < 2 ^ 32 /\
    (Account.nRoundShares a = 0 -> cred = 0) /\
    2 ^ 106 * (cred * W) <= (2 ^ 53 + 1) ^ 2 * (Account.nRoundShares a * reward).
Proof.
  intros Hc Hfit HB Ha Hpos Hs HsW HT.
  assert (Hk : Account.key a = k) by exact (consistent_find k a _ Hc Ha).
  destruct (deduct_payout (m_coinbase r) a B Hfit Hpos Hs) as (Hbal&Hpay&Hkey&Hsh).
  rewrite Hk in Hbal, Hkey, Hsh. set (a1 := if Coinbase.find_address k (m_coinbase r) then _ else a) in *.
  destruct Hfit as [Hbfit Hsfit].
  unfold credit_account. rewrite (get_account_present k r a) by done.
  assert (Hstep : exists r1, (if Coinbase.find_address k (m_coinbase r) then
      let '(map_output, coinbase) := Coinbase.get_map_outputs k (m_coinbase r) in
      (deduct map_output a, update_account (deduct map_output a) (set_coinbase_of coinbase r))
      else (a, r)) = (a1, r1) /\ same_rest r r1 /\
      m_account_db r1 = Database.UpdateRecord a1 (m_account_db r)).
  { subst a1. unfold Coinbase.find_address, Coinbase.get_map_outputs, map_count in *.
    destruct (map_find k (Coinbase.mapOutputs (m_coinbase r))) as [v|] eqn:E; cbn [fst] in *.
    - eexists. split; [done|]. by split.
    - exists r. split; [done|]. split; [done|]. by rewrite (update_self k). }
  destruct Hstep as (r1&->&Hrest1&Hdb1). rewrite Hsh.
  destruct (Z.eqb_spec (Account.nRoundShares a) 0) as [Hz|Hnz].
  - exists 0, credits, r1, a1. rewrite Z.add_0_r. rewrite Hz.
    split; [done|]. split; [done|]. split; [done|]. split; [done|]. split; [by rewrite Hsh|].
    repeat split; lia.
  - destruct (share_credit_bound (Account.nRoundShares a) W reward) as (cred&->&Hcred&Hbound);
      [lia|done|done|]. cbn [mbind option_bind].
    eexists cred, _, _, (add_balance cred a1). rewrite wrap_small by (unfold fits; lia).
    split; [done|]. split; [by etransitivity|]. split.
    { cbn [update_account set_accounts m_account_db]. rewrite Hdb1. apply update_twice; [done|].
      by rewrite Hkey. }
    split; [done|]. split; [done|]. cbn [add_balance Account.set_balance Account.nAccountBalance].
    rewrite Hbal, wrap_small by (unfold fits; lia). repeat split; lia.
Qed.

(** The balances only move within bounds. *)
Definition grown (db db' : smap bytes Account.t) (d : Z) : Prop :=
  forall k a, map_find k db = Some a -> 0 <= Account.nAccountBalance a -> 0 <= Account.nRoundShares a ->
    exists a', map_find k db' = Some a' /\ 0 <= Account.nRoundShares a' /\
      0 <= Account.nAccountBalance a' <= Account.nAccountBalance a + d.

(** The whole loop over a stretch [l] of the accounts that is still as it was. *)
Lemma credit_accounts_spec B l S0 T credits r :
  consistent (m_account_db r) -> B <= 2 ^ 63 ->
  Forall (fun e => map_find e.1 (m_account_db r) = Some e.2 /\ account_fits B e.2) l -> NoDup l.*1 ->
  Forall (fun e => 0 <= e.2) (Coinbase.mapOutputs (m_coinbase r)) ->
  map_sorted (Coinbase.mapOutputs (m_coinbase r)) ->
  0 <= S0 -> S0 + weights l <= W -> 0 <= T -> (S0 = 0 -> T = 0) ->
  2 ^ 106 * (T * W) <= (2 ^ 53 + 1) ^ 2 * (S0 * reward) ->
  exists T' credits' r',
    credit_accounts W reward l.*1 (T, credits, r) = Some (T', credits', r') /\
    same_rest r r' /\ consistent (m_account_db r') /\
    0 <= T' /\ (S0 + weights l = 0 -> T' = 0) /\
    2 ^ 106 * (T' * W) <= (2 ^ 53 + 1) ^ 2 * ((S0 + weights l) * reward) /\
    balances (m_account_db r') = balances (m_account_db r) - payouts (m_coinbase r) l + (T' - T) /\
    weights (m_account_db r') = weights (m_account_db r) /\
    (forall k, k ∉ l.*1 -> map_find k (m_account_db r') = map_find k (m_account_db r)) /\
    grown (m_account_db r) (m_account_db r') (2 ^ 32).
Proof.
  intros Hc HB Hl. revert S0 T credits r Hc Hl.
  induction l as [|[k a] l IH]; intros S0 T credits r Hc Hl Hnd Hpos Hs HS0 HSW HT HST Hacc.
  { exists T, credits, r. cbn. rewrite Z.add_0_r. repeat split; try done; try lia; [by destruct Hc..|].
    intros k a Ha Hb Hsh. exists a. split; [done|]. lia. }
  apply Forall_cons in Hl as [[Hk Hfit] Hl]. cbn [fst snd] in Hk, Hfit.
  change (((k, a) :: l).*1) with (k :: l.*1) in *. apply NoDup_cons in Hnd as [Hnin Hnd].
  assert (Hwl : 0 <= weights l).
  { apply total_nonneg. intros k' a' Hin. rewrite Forall_forall in Hl. by destruct (Hl _ Hin) as [_ [_ ?]]. }
  unfold weights, payouts in *. cbn [total] in *. pose proof Hfit as [_ Hsh].
  assert (HTlt : T < 2 ^ 63).
  { destruct (decide (S0 = 0)); [rewrite HST by done; lia|].
    assert (T * W <= 4 * (S0 * reward)) by lia. assert (S0 <= W) by lia. nia. }
  destruct (credit_account_spec B k a T credits r Hc Hfit HB Hk Hpos Hs ltac:(lia) ltac:(lia))
    as (cred&credits1&r1&a1&Hstep&Hrest&Hdb&Hk1&Hsh1&Hbal1&Hpay&Hcred&Hcred0&Hbound).
  assert (Hc1 : consistent (m_account_db r1)) by (rewrite Hdb; by apply consistent_insert).
  destruct Hrest as (Hr1&Hr2&Hr3&Hr4&Hcoin&Hr6&Hr7&Hr8).
  destruct (IH (S0 + Account.nRoundShares a) (T + cred) credits1 r1) as
    (T'&credits'&r'&Hloop&Hrest'&Hc'&HT'&H0'&Hacc'&Hbal'&Hw'&Hother&Hgrow); try done; try lia.
  { apply Forall_forall. intros [k' a'] Hin. rewrite Forall_forall in Hl.
    destruct (Hl _ Hin) as [Hk' Hfit']. split; [|done]. cbn [fst snd] in *.
    rewrite Hdb, find_update, decide_False by (done || rewrite Hk1; intros ->; apply Hnin;
      apply list_elem_of_fmap; by exists (k, a')). done. }
  { by rewrite Hcoin. } { by rewrite Hcoin. }
  exists T', credits', r'. cbn [credit_accounts]. rewrite Hstep. cbn [mbind option_bind].
  split; [done|]. split; [etransitivity; [|exact Hrest']; by repeat split|].
  split; [done|]. split; [done|]. split; [intros; apply H0'; lia|]. split; [lia|].
  assert (Hkey : forall k', k' <> k -> map_find k' (m_account_db r1) = map_find k' (m_account_db r)).
  { intros k' Hne. rewrite Hdb, find_update, Hk1, decide_False by done. done. }
  split; [|split; [|split]].
  - rewrite Hbal', Hcoin, Hdb. unfold balances. rewrite (total_update _ _ k a) by done. lia.
  - rewrite Hw', Hdb. rewrite (total_update _ _ k a) by done. lia.
  - intros k' Hk'. apply not_elem_of_cons in Hk' as [Hne Hk']. by rewrite Hother, Hkey.
  - intros k' a' Ha' Hb' Hs'. destruct (decide (k' = k)) as [->|Hne].
    + exists a1. rewrite Hother, Hdb, find_update, decide_True by done. split; [done|].
      assert (a' = a) as -> by congruence. lia.
    + apply (Hgrow k' a'); [by rewrite Hkey|done|done].
Qed.
End loop.

(** The credits of a round never exceed the reward, in spite of the rounding. *)
Lemma credits_within W reward T :
  0 <= W -> 0 <= reward < 2 ^ 31 -> (W = 0 -> T = 0) ->
  2 ^ 106 * (T * W) <= (2 ^ 53 + 1) ^ 2 * (W * reward) -> T <= reward.
Proof.
  intros HW Hr H0 Hacc. destruct (decide (W = 0)) as [->|]; [rewrite H0; lia|].
  assert (2 ^ 106 * T <= (2 ^ 53 + 1) ^ 2 * reward) by (apply (Z.mul_le_mono_pos_r _ _ W); lia). lia.
Qed.

Section update.
Context `{Platform}.

(** The accounts after the bonus of the finder. *)
Definition with_bonus (last : bytes) (reward : Z) (db : smap bytes Account.t) : smap bytes Account.t :=
  match map_find last db with
  | Some a => Database.UpdateRecord (add_balance (reward / 50) a) db
  | None => db
  end.

Lemma add_balance_fits B a v :
  account_fits B a -> 0 <= v -> B + v < 2 ^ 64 ->
  account_fits (B + v) (add_balance v a) /\
  Account.nAccountBalance (add_balance v a) = Account.nAccountBalance a + v /\
  Account.key (add_balance v a) = Account.key a.
Proof.
  intros [Hb Hs] Hv HB. unfold account_fits. cbn. rewrite wrap_small by (unfold fits; lia).
  repeat split; lia.
Qed.

Lemma pay_finder_spec last reward r a :
  accounts_ok (2 ^ 62) (m_account_db r) -> map_find last (m_account_db r) = Some a -> last <> [] ->
  0 <= reward < 2 ^ 31 ->
  exists credits r', pay_finder last reward r = Some (reward - reward / 50, credits, r') /\
    same_rest r r' /\ m_account_db r' = with_bonus last reward (m_account_db r) /\
    accounts_ok (2 ^ 62 + 2 ^ 31) (m_account_db r') /\
    balances (m_account_db r') = balances (m_account_db r) + reward / 50 /\
    weights (m_account_db r') = weights (m_account_db r) /\
    is_Some (map_find last (m_account_db r')).
Proof.
  intros Hok Ha Hne Hr. destruct (accounts_find _ _ _ _ Hok Ha) as [Hk Hfit]. pose proof Hok as [Hc _].
  assert (0 <= reward / 50 <= reward) by zlia.
  destruct (add_balance_fits (2 ^ 62) a (reward / 50) Hfit) as (Hfit'&Hbal&Hkey); [lia|lia|].
  unfold pay_finder, with_bonus. rewrite decide_False, finder_bonus_exact by (done || lia).
  cbn [mbind option_bind]. rewrite (get_account_present last r a), Ha by done.
  rewrite (wrap_small 64 (reward - _)) by (unfold fits; lia).
  eexists _, _. split; [done|]. split; [by repeat split|]. split; [done|].
  cbn [update_account set_accounts m_account_db]. split; [|split; [|split]].
  - apply accounts_update; [by apply (accounts_weaken (2 ^ 62)); [lia|]|].
    destruct Hfit' as [? ?]. split; [lia|done].
  - unfold balances. rewrite (total_update _ _ last a) by (done || congruence). lia.
  - unfold weights. rewrite (total_update _ _ last a) by (done || congruence). cbn. lia.
  - rewrite find_update, decide_True by (done || congruence). by eexists.
Qed.

(** What is left of the reward goes to the finder. *)
Lemma remainder_spec last m a r :
  consistent (m_account_db r) -> map_find last (m_account_db r) = Some a -> 0 <= m < 2 ^ 64 ->
  0 <= Account.nAccountBalance a + m < 2 ^ 64 ->
  let r' := let '(a, r) := get_account last r in update_account (add_balance (u64 m) a) r in
  balances (m_account_db r') = balances (m_account_db r) + m /\
  weights (m_account_db r') = weights (m_account_db r) /\
  consistent (m_account_db r') /\ same_rest r r'.
Proof.
  intros Hc Ha Hm Hb. rewrite (get_account_present last r a) by done.
  assert (Hk : Account.key a = last) by exact (consistent_find last a _ Hc Ha).
  rewrite (wrap_small 64 m) by (unfold fits; lia). cbn [update_account set_accounts m_account_db].
  unfold balances, weights. pose proof Hc as [Hs _]. rewrite !(total_update _ _ last a) by done.
  split; [cbn; rewrite wrap_small by (unfold fits; lia); lia|]. split; [cbn; lia|].
  split; [by apply consistent_insert|by repeat split].
Qed.

(** The accounts after a round: the reward is in the balances, what the coinbase pays is out. *)
Lemma update_balances_spec reward hash last r :
  let R := u64 (reward - u64 (reward * get_pool_fee (m_config r))) in
  accounts_ok (2 ^ 62) (m_account_db r) -> weights (m_account_db r) < 2 ^ 53 -> R < 2 ^ 31 ->
  Forall (fun e => 0 <= e.2) (Coinbase.mapOutputs (m_coinbase r)) ->
  map_sorted (Coinbase.mapOutputs (m_coinbase r)) ->
  last <> [] -> is_Some (map_find last (m_account_db r)) ->
  exists r' credits, update_balances reward hash last r = Some r' /\
    balances (m_account_db r') =
      balances (m_account_db r) + R - payouts (m_coinbase r) (with_bonus last R (m_account_db r)) /\
    weights (m_account_db r') = weights (m_account_db r) /\
    consistent (m_account_db r') /\
    m_block_db r' = Database.UpdateRecord
      (Block.mk hash (u64 (Coinbase.nMaxValue (m_coinbase r) + Coinbase.nPoolFee (m_coinbase r)))
         (m_coinbase r) credits (m_current_round r)) (m_block_db r) /\
    m_coinbase r' = m_coinbase r /\ m_current_round r' = m_current_round r /\
    acct_dat r' = Some (Database.WriteToDisk (m_account_db r')) /\
    blk_dat r' = Some (Database.WriteToDisk (m_block_db r')).
Proof.
  intros R Hok HW HR Hpos Hs Hne [a Ha].
  assert (HR0 : 0 <= R). { pose proof (wrap_fits 64 (reward - u64 (reward * get_pool_fee (m_config r)))) as Hf. unfold fits in Hf. unfold R. lia. }
  destruct (pay_finder_spec last R r a Hok Ha Hne ltac:(lia))
    as (credits&r1&Hpay&Hrest1&Hdb1&Hok1&Hbal1&Hw1&[a1 Ha1]).
  unfold update_balances. fold R. rewrite Hpay. cbn [mbind option_bind].
  rewrite (total_weight_spec _ r1 Hok1) by lia.
  destruct Hrest1 as (Hb1&Hf1&Hg1&_&Hcoin1&_&Hround1&Hcfg1).
  assert (HR1 : 0 <= R - R / 50 <= R) by zlia.
  pose proof Hok1 as [Hc1 Hfit1]. pose proof Hc1 as [Hs1 _].
  assert (Hwn : 0 <= weights (m_account_db r1)).
  { apply total_nonneg. intros k v Hin. rewrite Forall_forall in Hfit1. by destruct (Hfit1 _ Hin). }
  destruct (credit_accounts_spec (weights (m_account_db r1)) (R - R / 50) ltac:(lia) ltac:(lia)
    (2 ^ 62 + 2 ^ 31) (m_account_db r1) 0 0 credits r1 Hc1 ltac:(lia)) as
    (T&credits'&r2&Hloop&Hrest2&Hc2&HT&HT0&Hacc&Hbal2&Hw2&_&Hgrow); try done; try lia.
  { apply Forall_forall. intros [k a'] Hin. rewrite Forall_forall in Hfit1.
    split; [by apply find_Some|by apply (Hfit1 _ Hin)]. }
  { by apply keys_NoDup. }
  { by rewrite Hcoin1. } { by rewrite Hcoin1. }
  unfold Database.GetKeys, map_keys. rewrite Hloop. cbn [mbind option_bind].
  destruct Hrest2 as (Hb2&Hf2&Hg2&_&Hcoin2&_&Hround2&Hcfg2).
  assert (HTR : T <= R - R / 50).
  { apply (credits_within (weights (m_account_db r1))); [done|lia|intros HW0; apply HT0; lia|].
    by rewrite Z.add_0_l in Hacc. }
  set (r3 := if T <? R - R / 50 then _ else r2).
  assert (H3 : balances (m_account_db r3) = balances (m_account_db r2) + (R - R / 50 - T) /\
    weights (m_account_db r3) = weights (m_account_db r2) /\ consistent (m_account_db r3) /\
    same_rest r2 r3).
  { unfold r3. destruct (Z.ltb_spec T (R - R / 50)) as [Hlt|Hge]; [|repeat split; try done; try lia; by destruct Hc2].
    assert (Hfit : account_fits (2 ^ 62 + 2 ^ 31) a1) by (by apply (accounts_find _ _ _ _ Hok1 Ha1)).
    destruct (Hgrow last a1 Ha1) as (a2&Ha2&Hs2&Hb); [apply Hfit|apply Hfit|].
    destruct Hfit as [Hfb _]. apply (remainder_spec last _ a2); [done..|lia|lia]. }
  destruct H3 as (Hbal3&Hw3&Hc3&(Hb3&Hf3&Hg3&_&Hcoin3&_&Hround3&Hcfg3)).
  eexists _, credits'. split; [done|]. cbn [write_accounts write_blocks set_files set_blocks m_account_db
    m_block_db m_coinbase acct_dat blk_dat].
  split; [rewrite Hbal3, Hbal2, Hbal1, Hcoin1, Hdb1; lia|].
  split; [lia|]. split; [done|]. split; [by rewrite Hb3, Hb2, Hb1|].
  split; [congruence|]. split; [cbn; congruence|]. by split.
Qed.
End update.

(** ** Clearing the shares and refunding *)
Section clear.
Context `{Platform}.

Lemma clear_loop_spec l r :
  consistent (m_account_db r) -> NoDup l -> Forall (fun k => is_Some (map_find k (m_account_db r))) l ->
  same_rest r (clear_loop l r) /\ consistent (m_account_db (clear_loop l r)) /\
  forall k, map_find k (m_account_db (clear_loop l r)) =
    if decide (k ∈ l) then Account.set_shares 0 <$> map_find k (m_account_db r)
    else map_find k (m_account_db r).
Proof.
  revert r. induction l as [|k l IH]; intros r Hc Hnd Hl.
  { split; [done|]. split; [done|]. intros k. by rewrite decide_False by apply not_elem_of_nil. }
  apply NoDup_cons in Hnd as [Hnin Hnd]. apply Forall_cons in Hl as [[a Ha] Hl].
  cbn [clear_loop]. rewrite (get_account_present k r a) by done.
  pose proof (consistent_find k a _ Hc Ha) as Hk. cbn [cKey Account_record] in Hk.
  set (r1 := update_account _ r).
  assert (Hfind : forall k', map_find k' (m_account_db r1) =
    if decide (k' = k) then Some (Account.set_shares 0 a) else map_find k' (m_account_db r)).
  { intros k'. unfold r1. cbn [update_account set_accounts m_account_db].
    rewrite find_update by done. by rewrite <-Hk. }
  destruct (IH r1) as (Hrest&Hc'&Hall); [by apply consistent_insert|done| |].
  { eapply Forall_impl; [exact Hl|]. intros k' Hk'. cbn in Hk'. rewrite Hfind. by case_decide. }
  split; [etransitivity; [|exact Hrest]; by repeat split|]. split; [done|].
  intros k'. rewrite Hall, Hfind. destruct (decide (k' = k)) as [->|Hne].
  - rewrite (decide_False (P := k ∈ l)), decide_True, Ha by (done || left). done.
  - destruct (decide (k' ∈ l)).
    + by rewrite decide_True by (by right).
    + by rewrite decide_False by (by rewrite not_elem_of_cons).
Qed.

Lemma adjust_accounts_spec f m r :
  (forall v a, Account.key (f v a) = Account.key a) ->
  consistent (m_account_db r) -> map_sorted m ->
  Forall (fun e => is_Some (map_find e.1 (m_account_db r))) m ->
  same_rest r (adjust_accounts f m r) /\ consistent (m_account_db (adjust_accounts f m r)) /\
  forall k, map_find k (m_account_db (adjust_accounts f m r)) =
    match map_find k m with
    | Some v => f v <$> map_find k (m_account_db r)
    | None => map_find k (m_account_db r)
    end.
Proof.
  intros Hf. revert r. induction m as [|[k v] m IH]; intros r Hc Hs Hm; [done|].
  destruct Hs as [Hb Hs]. apply Forall_cons in Hm as [[a Ha] Hm]. cbn [fst] in Ha.
  cbn [adjust_accounts]. rewrite (get_account_present k r a) by done.
  pose proof (consistent_find k a _ Hc Ha) as Hk. cbn [cKey Account_record] in Hk.
  set (r1 := update_account _ r).
  assert (Hfind : forall k', map_find k' (m_account_db r1) =
    if decide (k' = k) then Some (f v a) else map_find k' (m_account_db r)).
  { intros k'. unfold r1. cbn [update_account set_accounts m_account_db].
    rewrite find_update by done. by rewrite Hf, <-Hk. }
  destruct (IH r1) as (Hrest&Hc'&Hall); [by apply consistent_insert|done| |].
  { eapply Forall_impl; [exact Hm|]. intros k' Hk'. cbn in Hk'. rewrite Hfind. by case_decide. }
  split; [etransitivity; [|exact Hrest]; by repeat split|]. split; [done|].
  intros k'. rewrite Hall, Hfind. cbn [map_find].
  destruct (decide (k' = k)) as [->|Hne].
  - by rewrite key_lt_irrefl, (find_below k m), Ha by done.
  - destruct (key_lt k k') eqn:E1; [done|]. destruct (key_lt k' k) eqn:E2.
    + by rewrite (find_below k' m) by (by eapply below_trans).
    + by destruct (key_lt_total k k' E1 E2).
Qed.

Lemma clear_shares_spec r :
  consistent (m_account_db r) ->
  same_rest r (clear_shares r) /\ consistent (m_account_db (clear_shares r)) /\
  weights (m_account_db (clear_shares r)) = 0 /\
  forall k, map_find k (m_account_db (clear_shares r)) =
    Account.set_shares 0 <$> map_find k (m_account_db r).
Proof.
  intros Hc. pose proof Hc as [Hs _]. unfold clear_shares, Database.GetKeys.
  destruct (clear_loop_spec (map_keys (m_account_db r)) r Hc) as (Hrest&Hc'&Hall).
  { by apply keys_NoDup. }
  { apply Forall_forall. intros k Hk. by apply find_is_Some. }
  assert (Hfind : forall k, map_find k (m_account_db (clear_loop (map_keys (m_account_db r)) r)) =
    Account.set_shares 0 <$> map_find k (m_account_db r)).
  { intros k. rewrite Hall. case_decide as Hk; [done|]. rewrite <-find_is_Some in Hk by done.
    apply eq_None_not_Some in Hk. by rewrite Hk. }
  split; [done|]. split; [done|]. split; [|done].
  destruct Hc' as [Hs' _]. set (db := m_account_db (clear_loop _ _)) in *.
  apply Z.le_antisymm; [|apply total_nonneg; intros k v Hin].
  - cut (forall l, (forall k v, (k, v) ∈ l -> Account.nRoundShares v = 0) -> weights l <= 0).
    { intros Hl. apply Hl. intros k v Hin. apply find_Some in Hin; [|done]. rewrite Hfind in Hin.
      by apply fmap_Some in Hin as (?&_&->). }
    induction l as [|[k v] l IH]; intros Hl; [done|]. unfold weights in *. cbn [total].
    rewrite (Hl k v) by left. apply IH. intros k' v' Hin. apply (Hl k' v'). by right.
  - apply find_Some in Hin; [|done]. rewrite Hfind in Hin.
    by apply fmap_Some in Hin as (?&_&->).
Qed.
End clear.

(** ** Properties *)
Section properties.
Context `{Platform}.

(** C9: [update_balances] conserves value.  With the accounts, the weights and the
    reward in the range of their types, and the finder an account of the pool, the balances grow
    in total by the reward less the pool fee and shrink by what the coinbase paid out, in spite of
    the roundings through [double] and [uint32_t]; the shares are untouched; the block of the
    round is filed with the coinbase, the credits and the round; both databases are written. *)
Theorem payout_conserves reward hash last r :
  let R := u64 (reward - u64 (reward * get_pool_fee (m_config r))) in
  accounts_ok (2 ^ 62) (m_account_db r) -> weights (m_account_db r) < 2 ^ 53 -> R < 2 ^ 31 ->
  Forall (fun e => 0 <= e.2) (Coinbase.mapOutputs (m_coinbase r)) ->
  map_sorted (Coinbase.mapOutputs (m_coinbase r)) ->
  last <> [] -> is_Some (map_find last (m_account_db r)) ->
  exists r' credits, update_balances reward hash last r = Some r' /\
    balances (m_account_db r') =
      balances (m_account_db r) + R - payouts (m_coinbase r) (with_bonus last R (m_account_db r)) /\
    weights (m_account_db r') = weights (m_account_db r) /\
    consistent (m_account_db r') /\
    m_block_db r' = Database.UpdateRecord
      (Block.mk hash (u64 (Coinbase.nMaxValue (m_coinbase r) + Coinbase.nPoolFee (m_coinbase r)))
         (m_coinbase r) credits (m_current_round r)) (m_block_db r) /\
    m_coinbase r' = m_coinbase r /\ m_current_round r' = m_current_round r /\
    acct_dat r' = Some (Database.WriteToDisk (m_account_db r')) /\
    blk_dat r' = Some (Database.WriteToDisk (m_block_db r')).
Proof. apply update_balances_spec. Qed.

(** The fee is a factor, not a percentage.  With the documented [pool_fee] of 1
    the whole reward is the fee: the miners' balances only lose what the coinbase paid. *)
Theorem fee_takes_all reward hash last r :
  get_pool_fee (m_config r) = 1 -> 0 <= reward < 2 ^ 64 ->
  accounts_ok (2 ^ 62) (m_account_db r) -> weights (m_account_db r) < 2 ^ 53 ->
  Forall (fun e => 0 <= e.2) (Coinbase.mapOutputs (m_coinbase r)) ->
  map_sorted (Coinbase.mapOutputs (m_coinbase r)) ->
  last <> [] -> is_Some (map_find last (m_account_db r)) ->
  exists r', update_balances reward hash last r = Some r' /\
    balances (m_account_db r') = balances (m_account_db r) - payouts (m_coinbase r) (m_account_db r) /\
    weights (m_account_db r') = weights (m_account_db r).
Proof.
  intros Hfee Hr Hok HW Hpos Hs Hne [a Ha]. pose proof Hok as [Hc _].
  assert (HR : u64 (reward - u64 (reward * get_pool_fee (m_config r))) = 0).
  { by rewrite Hfee, Z.mul_1_r, (wrap_small 64 reward), Z.sub_diag by (by unfold fits). }
  destruct (update_balances_spec reward hash last r) as (r'&credits&Hup&Hbal&Hw&_); try done.
  { rewrite HR. lia. }
  exists r'. split; [done|]. split; [|done]. rewrite Hbal, HR. unfold with_bonus. rewrite Ha.
  destruct (accounts_find _ _ _ _ Hok Ha) as [Hk [Hb _]].
  assert (Hself : add_balance (0 / 50) a = a).
  { destruct a. unfold add_balance, Account.set_balance. cbn in *.
    by rewrite Z.add_0_r, wrap_small by (unfold fits; lia). }
  rewrite Hself, (update_self last a) by done. lia.
Qed.

(** [clear_shares] sets every account's shares to 0 and changes nothing else. *)
Theorem shares_cleared r :
  consistent (m_account_db r) ->
  same_rest r (clear_shares r) /\ consistent (m_account_db (clear_shares r)) /\
  weights (m_account_db (clear_shares r)) = 0 /\
  forall k, map_find k (m_account_db (clear_shares r)) =
    Account.set_shares 0 <$> map_find k (m_account_db r).
Proof. apply clear_shares_spec. Qed.

(** The account a refund leaves: the credit of the round out, the output of the coinbase back in. *)
Definition refunded (b : Block.t) (k : bytes) (a : Account.t) : Account.t :=
  let a := match map_find k (Block.cCredits b) with Some v => deduct v a | None => a end in
  match map_find k (Coinbase.mapOutputs (Block.cCoinbase b)) with
  | Some v => add_balance v a
  | None => a
  end.

(** C24: an orphaned block is taken back once.  [refund_payouts] takes the recorded
    credit off each account, stopping at 0, gives back what the coinbase would have paid it, marks
    the block with value 0 and writes the blocks; taken again, or for an unknown block, it leaves
    every account and block as they are. *)
Theorem refund_block hash b r :
  consistent (m_account_db r) -> consistent (m_block_db r) ->
  map_find hash (m_block_db r) = Some b -> Block.nCoinbaseValue b <> 0 ->
  map_sorted (Block.cCredits b) -> map_sorted (Coinbase.mapOutputs (Block.cCoinbase b)) ->
  Forall (fun e => is_Some (map_find e.1 (m_account_db r))) (Block.cCredits b) ->
  Forall (fun e => is_Some (map_find e.1 (m_account_db r))) (Coinbase.mapOutputs (Block.cCoinbase b)) ->
  let r' := refund_payouts hash r in
  (forall k, map_find k (m_account_db r') = refunded b k <$> map_find k (m_account_db r)) /\
  map_find hash (m_block_db r') = Some (Block.set_value 0 b) /\
  blk_dat r' = Some (Database.WriteToDisk (m_block_db r')) /\
  refund_payouts hash r' = r'.
Proof.
  intros Hc Hcb Hb Hv Hsc Hso Hcr Hout. pose proof Hcb as [Hsb _].
  pose proof (consistent_find hash b _ Hcb Hb) as Hkey. cbn [cKey Block_record] in Hkey.
  assert (Hset : set_blocks (m_block_db r) r = r) by (by destruct r).
  destruct (adjust_accounts_spec deduct (Block.cCredits b) r) as (Hr1&Hc1&Hf1); try done.
  fold remove_credits in *. set (r1 := remove_credits _ r) in *.
  destruct (adjust_accounts_spec add_balance (Coinbase.mapOutputs (Block.cCoinbase b)) r1)
    as (Hr2&_&Hf2); try done.
  { eapply Forall_impl; [exact Hout|]. intros e He. cbn in He. rewrite Hf1.
    destruct (map_find e.1 (Block.cCredits b)); [by apply fmap_is_Some|done]. }
  fold refund_outputs in *. set (r2 := refund_outputs _ r1) in *.
  assert (Hblocks : m_block_db r2 = m_block_db r) by (destruct Hr1, Hr2; congruence).
  assert (Hfind : map_find hash (Database.UpdateRecord (Block.set_value 0 b) (m_block_db r2)) =
    Some (Block.set_value 0 b)).
  { rewrite Hblocks. unfold Database.UpdateRecord. cbn [cKey Block_record Block.set_value Block.key].
    rewrite Hkey. apply find_insert_eq. }
  assert (refund_payouts hash r = write_blocks (set_blocks
    (Database.UpdateRecord (Block.set_value 0 b) (m_block_db r2)) r2)) as ->.
  { unfold refund_payouts, Database.GetRecord. rewrite Hb, Hset.
    by rewrite (proj2 (Z.eqb_neq _ _) Hv). }
  cbn zeta. split; [|split; [done|split; [done|]]].
  - intros k. cbn [write_blocks set_files set_blocks m_account_db]. rewrite Hf2, Hf1. unfold refunded.
    destruct (map_find k (Block.cCredits b)), (map_find k (Coinbase.mapOutputs _)),
      (map_find k (m_account_db r)); done.
  - unfold refund_payouts, Database.GetRecord. cbn [write_blocks set_files set_blocks m_block_db].
    rewrite Hfind. done.
Qed.
End properties.

(** ** Witnesses: two accounts, a finder and a coinbase that pays the first *)
Definition example_registry (fee : Z) : Data_registry :=
  let a := Account.mk [Byte.x41] 500 100 0 in
  let b := Account.mk [Byte.x42] 70 300 0 in
  let c := Coinbase.mk [([Byte.x41], 400)] 400 1000 0 in
  mk_registry [([Byte.x41], a); ([Byte.x42], b)] [] None None new_banned c 7 3 (mk_config fee 1 true 10).

(** Decides the hypotheses of a property on closed data. *)
Ltac concrete := first
  [ match goal with |- accounts_ok _ _ => split; [by repeat constructor|repeat constructor; by vm_compute] end
  | match goal with |- consistent _ => by repeat constructor end
  | by vm_compute | by eexists | by repeat constructor ].

Lemma payout_conserves_witness :
  let _ := zero_platform in
  exists r', update_balances 1000 5 [Byte.x42] (example_registry 0) = Some r' /\
    balances (m_account_db r') = 570 + 1000 - 400 /\
    acct_dat r' = Some (Database.WriteToDisk (m_account_db r')).
Proof.
  pose (P := zero_platform).
  destruct (payout_conserves 1000 5 [Byte.x42] (example_registry 0))
    as (r'&_&Hup&Hbal&_&_&_&_&_&Hdisk&_); [concrete..|].
  exists r'. split; [exact Hup|]. split; [|exact Hdisk]. rewrite Hbal. by vm_compute.
Defined.

Lemma fee_takes_all_witness :
  let _ := zero_platform in
  exists r', update_balances 1000 5 [Byte.x42] (example_registry 1) = Some r' /\
    balances (m_account_db r') = 570 - 400.
Proof.
  pose (P := zero_platform).
  destruct (fee_takes_all 1000 5 [Byte.x42] (example_registry 1)) as (r'&Hup&Hbal&_); [concrete..|].
  exists r'. split; [exact Hup|]. rewrite Hbal. by vm_compute.
Defined.

Lemma shares_cleared_witness :
  let _ := zero_platform in weights (m_account_db (clear_shares (example_registry 0))) = 0.
Proof.
  pose (P := zero_platform). apply (shares_cleared (example_registry 0)). concrete.
Defined.

Lemma refund_block_witness :
  let _ := zero_platform in
  let b := Block.mk 5 1000 (Coinbase.mk [([Byte.x41], 400)] 400 1000 0) [([Byte.x42], 20)] 3 in
  let r := set_blocks [(5, b)] (example_registry 0) in
  refund_payouts 5 (refund_payouts 5 r) = refund_payouts 5 r /\
  balance_of [Byte.x41] (m_account_db (refund_payouts 5 r)) = 900 /\
  balance_of [Byte.x42] (m_account_db (refund_payouts 5 r)) = 50.
Proof.
  pose (P := zero_platform). split; [|by vm_compute].
  eapply (refund_block 5); [..|reflexivity|by vm_compute| | | |]; concrete.
Defined.
