(* ===== verification/Threads.v ===== *)
(** * Threads: the account database between its locks

    [Server::run] runs the io_context on [connection_threads] + 1 threads, so handlers of different
    connections run at the same time.  Each operation of [LLD::Database] holds its mutex, and so do
    those of [Coinbase_mt] that look an address up; nothing holds one from reading a record to
    writing it back.  A thread here is a sequence of such operations ([prog]); [interleave] runs
    several as a schedule says.  The copy of the coinbase and the round are read without a lock;
    only handlers of the wallet's connection, which do not overlap, write them, so these reads are
    operations too.  Alone, the threads are the functions of [Payout] ([threads_alone]). *)
From S2P Require Import Prelude Bytes StdMap Float64 Coinbase LLD Banned Registry Payout.

(** ** Threads *)
Inductive prog (S A : Type) : Type :=
  | Ret (a : A)
  | Atomic {B : Type} (f : M S B) (k : B -> prog S A).
Arguments Ret {S A} a.
Arguments Atomic {S A B} f k.

Fixpoint bind {S A B} (p : prog S A) (g : A -> prog S B) : prog S B :=
  match p with Ret a => g a | Atomic f k => Atomic f (fun b => bind (k b) g) end.

(** All of its operations, with nothing between them. *)
Fixpoint run_alone {S A} (p : prog S A) : M S A :=
  match p with Ret a => mret a | Atomic f k => b ← f; run_alone (k b) end.

Definition atomic {S} (f : S -> S) : prog S unit := Atomic (modify f) Ret.

Definition finished {S} (p : prog S unit) : bool := match p with Ret _ => true | _ => false end.

(** The next operation of a thread. *)
Definition step {S A} (p : prog S A) (s : S) : option (prog S A * S) :=
  match p with Ret _ => None | Atomic f k => '(b, s') ← f s; Some (k b, s') end.

(** The threads take turns as the schedule says.  [None]: it names a thread that has finished or is
    not there, or an operation is undefined. *)
Fixpoint interleave {S} (schedule : list nat) (ts : list (prog S unit)) (s : S)
  : option (list (prog S unit) * S) :=
  match schedule with
  | [] => Some (ts, s)
  | i :: schedule' =>
      p ← ts !! i;
      '(p, s') ← step p s;
      interleave schedule' (<[i := p]> ts) s'
  end.

#[export] Instance prog_bind {S} : MBind (prog S) := fun A B g p => bind p g.

(** ** The threads of the pool *)
Section programs.
Context `{Platform}.

Abbreviation thread := (prog Data_registry).

Definition GetRecord (k : bytes) : thread Account.t := Atomic (fun r => Some (get_account k r)) Ret.
Definition UpdateRecord (a : Account.t) : thread unit := atomic (update_account a).
Definition GetKeys : thread (list bytes) := Atomic (gets (fun r => Database.GetKeys (m_account_db r))) Ret.
Definition HasKey (k : bytes) : thread bool := Atomic (gets (fun r => Database.HasKey k (m_account_db r))) Ret.

(** The credit of an accepted share, in [SUBMIT_SHARE]. *)
Definition credit_share (k : bytes) (weight : Z) : thread unit :=
  a ← GetRecord k;
  UpdateRecord (Account.set_shares (u64 (Account.nRoundShares a + weight)) a).

(** The account of a login. *)
Definition login_account (k : bytes) : thread unit :=
  b ← HasKey k;
  if b : bool then Ret tt else UpdateRecord (Account.new k).

Fixpoint sum_weights_t (keys : list bytes) (weight : Z) : thread Z :=
  match keys with
  | [] => Ret weight
  | k :: keys' => a ← GetRecord k; sum_weights_t keys' (u64 (weight + Account.nRoundShares a))
  end.
Definition total_weight_t : thread Z := keys ← GetKeys; sum_weights_t keys 0.

Fixpoint clear_loop_t (keys : list bytes) : thread unit :=
  match keys with
  | [] => Ret tt
  | k :: keys' =>
      a ← GetRecord k; UpdateRecord (Account.set_shares 0 a) ;; clear_loop_t keys'
  end.
Definition clear_shares_t : thread unit := keys ← GetKeys; clear_loop_t keys.

(** A conversion that does not fit its type. *)
Definition lift_t {A} (o : option A) : thread A := Atomic (lift o) Ret.

Definition pay_finder_t (last_blockfinder : bytes) (reward : Z) : thread (Z * Credits.t) :=
  if decide (last_blockfinder = []) then Ret (reward, []) else
  credit ← lift_t (finder_bonus reward);
  a ← GetRecord last_blockfinder;
  UpdateRecord (add_balance credit a) ;;
  Ret (u64 (reward - credit), Credits.AddCredit last_blockfinder credit []).

Definition find_address_t (k : bytes) : thread bool :=
  Atomic (gets (fun r => Coinbase.find_address k (m_coinbase r))) Ret.
Definition get_map_outputs_t (k : bytes) : thread Z :=
  Atomic (fun r => let '(v, c) := Coinbase.get_map_outputs k (m_coinbase r) in
    Some (v, set_coinbase_of c r)) Ret.

Definition credit_account_t (nTotalWeight reward : Z) (k : bytes) (st : Z * Credits.t)
  : thread (Z * Credits.t) :=
  let '(nTotalReward, credits) := st in
  a ← GetRecord k;
  found ← find_address_t k;
  a ← (if found : bool then
         map_output ← get_map_outputs_t k;
         UpdateRecord (deduct map_output a) ;;
         Ret (deduct map_output a)
        else Ret a);
  if Account.nRoundShares a =? 0 then Ret (nTotalReward, credits) else
  nCredit ← lift_t (share_credit (Account.nRoundShares a) nTotalWeight reward);
  UpdateRecord (add_balance nCredit a) ;;
  Ret (u64 (nTotalReward + nCredit), Credits.AddCredit k nCredit credits).

Fixpoint credit_accounts_t (nTotalWeight reward : Z) (keys : list bytes) (st : Z * Credits.t)
  : thread (Z * Credits.t) :=
  match keys with
  | [] => Ret st
  | k :: keys' =>
      st ← credit_account_t nTotalWeight reward k st; credit_accounts_t nTotalWeight reward keys' st
  end.

Definition update_balances_t (reward hash_submit_block : Z) (last_blockfinder : bytes) : thread unit :=
  c ← Atomic (gets m_coinbase) Ret;
  round ← Atomic (gets m_current_round) Ret;
  config ← Atomic (gets m_config) Ret;
  let reward := u64 (reward - u64 (reward * get_pool_fee config)) in
  '(reward, credits) ← pay_finder_t last_blockfinder reward;
  nTotalWeight ← total_weight_t;
  keys ← GetKeys;
  '(nTotalReward, credits) ← credit_accounts_t nTotalWeight reward keys (0, credits);
  (if nTotalReward <? reward then
          a ← GetRecord last_blockfinder;
     UpdateRecord (add_balance (u64 (reward - nTotalReward)) a)
   else Ret tt) ;;
  let cBlock := Block.mk hash_submit_block (u64 (Coinbase.nMaxValue c + Coinbase.nPoolFee c)) c
                  credits round in
  atomic (fun r => set_blocks (Database.UpdateRecord cBlock (m_block_db r)) r) ;;
  atomic write_blocks ;;
  atomic write_accounts.

(** The handler of [GOOD], up to the next round. *)
Definition accepted_t (reward hash_submit_block : Z) (last_blockfinder : bytes) : thread unit :=
  update_balances_t reward hash_submit_block last_blockfinder ;; clear_shares_t.

Fixpoint adjust_accounts_t (f : Z -> Account.t -> Account.t) (m : smap bytes Z) : thread unit :=
  match m with
  | [] => Ret tt
  | (k, v) :: m' => a ← GetRecord k; UpdateRecord (f v a) ;; adjust_accounts_t f m'
  end.

Definition refund_payouts_t (hash_block : Z) : thread unit :=
  cBlock ← Atomic (fun r => let '(b, blocks) := Database.GetRecord hash_block (m_block_db r) in
    Some (b, set_blocks blocks r)) Ret;
  if Block.nCoinbaseValue cBlock =? 0 then Ret tt else
  adjust_accounts_t deduct (Block.cCredits cBlock) ;;
  adjust_accounts_t add_balance (Coinbase.mapOutputs (Block.cCoinbase cBlock)) ;;
  atomic (fun r => set_blocks (Database.UpdateRecord (Block.set_value 0 cBlock) (m_block_db r)) r) ;;
  atomic write_blocks.
End programs.

(** ** Lemmas: a thread alone *)
Lemma run_alone_bind {S A B} (p : prog S A) (g : A -> prog S B) s :
  run_alone (bind p g) s = (run_alone p ≫= fun a => run_alone (g a)) s.
Proof.
  revert s. induction p as [a|C f k IH]; intros s; [done|]. cbn [bind run_alone].
  unfold mbind, M_bind in *. destruct (f s) as [[c s']|]; [|done]. apply IH.
Qed.

Lemma run_alone_mbind {S A B} (p : prog S A) (g : A -> prog S B) s :
  run_alone (p ≫= g) s = (run_alone p ≫= fun a => run_alone (g a)) s.
Proof. apply run_alone_bind. Qed.

Section alone.
Context `{Platform}.

(** Takes a thread apart. *)
Ltac alone :=
  repeat (rewrite ?run_alone_mbind, ?run_alone_bind; cbn [mbind option_bind prog_bind bind run_alone atomic GetRecord UpdateRecord
    GetKeys HasKey lift_t find_address_t get_map_outputs_t]; unfold prog_bind, mbind, M_bind, modify, gets, lift, mret, M_ret).

Lemma sum_weights_alone keys n r : run_alone (sum_weights_t keys n) r = Some (sum_weights keys n r).
Proof.
  revert n r. induction keys as [|k keys IH]; intros n r; [done|].
  cbn [sum_weights_t sum_weights]. alone. destruct (get_account k r) as [a r1]. apply IH.
Qed.

Lemma total_weight_alone r : run_alone total_weight_t r = Some (total_weight r).
Proof. apply sum_weights_alone. Qed.

Lemma clear_loop_alone keys r : run_alone (clear_loop_t keys) r = Some (tt, clear_loop keys r).
Proof.
  revert r. induction keys as [|k keys IH]; intros r; [done|].
  cbn [clear_loop_t clear_loop]. alone. destruct (get_account k r) as [a r1]. apply IH.
Qed.

Lemma adjust_accounts_alone f m r : run_alone (adjust_accounts_t f m) r = Some (tt, adjust_accounts f m r).
Proof.
  revert r. induction m as [|[k v] m IH]; intros r; [done|].
  cbn [adjust_accounts_t adjust_accounts]. alone. destruct (get_account k r) as [a r1]. apply IH.
Qed.

Lemma pay_finder_alone last reward r :
  run_alone (pay_finder_t last reward) r = pay_finder last reward r.
Proof.
  unfold pay_finder_t, pay_finder. destruct (decide (last = [])); [done|]. alone.
  destruct (finder_bonus reward); [|done]. cbn. by destruct (get_account last r).
Qed.

Lemma credit_account_alone W reward k st r :
  run_alone (credit_account_t W reward k st) r = credit_account W reward k (st, r).
Proof.
  destruct st as [n credits]. unfold credit_account_t, credit_account. alone.
  destruct (get_account k r) as [a r1]. cbn.
  destruct (Coinbase.find_address k (m_coinbase r1)).
  - alone. destruct (Coinbase.get_map_outputs k (m_coinbase r1)) as [v c]. alone.
    destruct (Account.nRoundShares _ =? 0); [done|]. alone. by destruct (share_credit _ _ _).
  - alone. destruct (Account.nRoundShares _ =? 0); [done|]. alone. by destruct (share_credit _ _ _).
Qed.

Lemma credit_accounts_alone W reward keys st r :
  run_alone (credit_accounts_t W reward keys st) r = credit_accounts W reward keys (st, r).
Proof.
  revert st r. induction keys as [|k keys IH]; intros st r; [done|].
  cbn [credit_accounts_t credit_accounts]. rewrite run_alone_mbind.
  unfold mbind, M_bind. rewrite credit_account_alone.
  destruct (credit_account W reward k (st, r)) as [[st' r']|]; [|done]. apply IH.
Qed.

(** Each thread, run with nothing in between, is the function that models its code elsewhere. *)
Theorem threads_alone r :
  (forall reward hash last, run_alone (update_balances_t reward hash last) r =
     r' ← update_balances reward hash last r; Some (tt, r')) /\
  run_alone clear_shares_t r = Some (tt, clear_shares r) /\
  (forall hash, run_alone (refund_payouts_t hash) r = Some (tt, refund_payouts hash r)) /\
  (forall k weight, run_alone (credit_share k weight) r =
     let '(a, r) := get_account k r in
     Some (tt, update_account (Account.set_shares (u64 (Account.nRoundShares a + weight)) a) r)) /\
  (forall k, run_alone (login_account k) r =
     Some (tt, if Database.HasKey k (m_account_db r) then r else update_account (Account.new k) r)).
Proof.
  split_and!.
  - intros reward hash last. unfold update_balances_t, update_balances. alone. rewrite pay_finder_alone.
    destruct (pay_finder _ _ _) as [[[n credits] r1]|]; [|done]. alone. rewrite total_weight_alone.
    destruct (total_weight r1) as [W r2]. alone. rewrite credit_accounts_alone.
    destruct (credit_accounts _ _ _ _) as [[[T c2] r3]|]; [|done]. alone.
    destruct (T <? n); alone; [|done]. by destruct (get_account last r3).
  - apply clear_loop_alone.
  - intros hash. unfold refund_payouts_t, refund_payouts. alone.
    destruct (Database.GetRecord hash (m_block_db r)) as [b db]. cbn.
    destruct (Block.nCoinbaseValue b =? 0); [done|]. alone. rewrite adjust_accounts_alone. alone.
    by rewrite adjust_accounts_alone.
  - intros k weight. unfold credit_share. alone. by destruct (get_account k r).
  - intros k. unfold login_account. alone. by destruct (Database.HasKey k (m_account_db r)).
Qed.
End alone.

(** ** Lemmas: schedules *)
Section schedules.
Context {S : Type}.
Implicit Types (ts : list (prog S unit)) (p : prog S unit) (s : S).

Lemma interleave_app l1 l2 ts s :
  interleave (l1 ++ l2) ts s = '(ts', s') ← interleave l1 ts s; interleave l2 ts' s'.
Proof.
  revert ts s. induction l1 as [|i l1 IH]; intros ts s; [done|]. cbn.
  destruct (ts !! i) as [p|]; [|done]. cbn. destruct (step p s) as [[p' s']|]; [|done]. apply IH.
Qed.

Lemma interleave_next i l ts s p p' s' :
  ts !! i = Some p -> step p s = Some (p', s') ->
  interleave (i :: l) ts s = interleave l (<[i := p']> ts) s'.
Proof. intros Hi Hp. cbn. rewrite Hi. cbn. by rewrite Hp. Qed.

(** Some operations of a thread, with nothing between them. *)
Inductive goes {A} : prog S A -> S -> prog S A -> S -> Prop :=
  | goes_refl (x : prog S A) s : goes x s x s
  | goes_step (x x1 y : prog S A) s s1 s' :
      step x s = Some (x1, s1) -> goes x1 s1 y s' -> goes x s y s'.

(** The next operation is undefined. *)
Definition stuck {A} (p : prog S A) s : Prop :=
  match p with Ret _ => False | Atomic f _ => f s = None end.

Lemma goes_trans {A} (p q u : prog S A) s s1 s2 : goes p s q s1 -> goes q s1 u s2 -> goes p s u s2.
Proof. induction 1; [done|]. intros. econstructor; eauto. Qed.

Lemma goes_bind {A B} (p q : prog S A) (g : A -> prog S B) s s' :
  goes p s q s' -> goes (p ≫= g) s (q ≫= g) s'.
Proof.
  induction 1 as [x s|x x1 y s s1 s' Hp _ IH]; [constructor|]. econstructor; [|exact IH].
  destruct x as [a|C f k]; [done|]. cbn in *. destruct (f s) as [[b s2]|]; [|done].
  by injection Hp as <- <-.
Qed.

Lemma stuck_bind {A B} (p : prog S A) (g : A -> prog S B) s : stuck p s -> stuck (p ≫= g) s.
Proof. by destruct p. Qed.

Lemma goes_alone {A} (p : prog S A) s a s' : run_alone p s = Some (a, s') -> goes p s (Ret a) s'.
Proof.
  revert s. induction p as [a0|B f k IH]; intros s; [intros [= -> ->]; constructor|].
  cbn. unfold mbind, M_bind. destruct (f s) as [[b s1]|] eqn:Ef; [|done]. intros Hk.
  econstructor; [|by apply IH]. cbn. by rewrite Ef.
Qed.

Lemma goes_next {A B} (p : prog S A) (g : A -> prog S B) s a s' :
  run_alone p s = Some (a, s') -> goes (p ≫= g) s (g a) s'.
Proof. intros Hp. exact (goes_bind _ _ g _ _ (goes_alone p s a s' Hp)). Qed.

Lemma goes_schedule p q s s' :
  goes p s q s' -> exists n, forall i ts, ts !! i = Some p ->
    interleave (replicate n i) ts s = Some (<[i := q]> ts, s').
Proof.
  induction 1 as [x s|x x1 y s s1 s' Hp _ [n IH]].
  - exists O. intros i ts Hi. cbn. by rewrite list_insert_id.
  - exists (1 + n)%nat. intros i ts Hi. cbn. rewrite Hi. cbn. rewrite Hp. cbn.
    rewrite IH by (apply list_lookup_insert_eq; by eapply lookup_lt_Some).
    by rewrite list_insert_insert_eq.
Qed.

(** A thread may run to its end without a stop. *)
Lemma alone_schedule p s s' :
  run_alone p s = Some (tt, s') ->
  exists n, forall i ts, ts !! i = Some p ->
    interleave (replicate n i) ts s = Some (<[i := Ret tt]> ts, s').
Proof. intros Hp. by apply goes_schedule, goes_alone. Qed.

(** Every operation of a thread keeps [I]. *)
Fixpoint keeps (I : S -> Prop) {A} (p : prog S A) : Prop :=
  match p with
  | Ret _ => True
  | Atomic f k => (forall s b s', I s -> f s = Some (b, s') -> I s') /\ forall b, keeps I (k b)
  end.

Lemma keeps_prog_bind (I : S -> Prop) {A B} (p : prog S A) (g : A -> prog S B) :
  keeps I p -> (forall a, keeps I (g a)) -> keeps I (p ≫= g).
Proof.
  unfold mbind, prog_bind. intros Hp Hg. induction p as [a|C f k IH]; cbn in *; [done|].
  destruct Hp as [Hf Hk]. split; auto.
Qed.

Lemma keeps_interleave (I : S -> Prop) schedule ts s ts' s' :
  Forall (keeps I) ts -> I s -> interleave schedule ts s = Some (ts', s') ->
  Forall (keeps I) ts' /\ I s'.
Proof.
  revert ts s. induction schedule as [|i schedule IH]; intros ts s Hts Hs; cbn.
  { by intros [= <- <-]. }
  destruct (ts !! i) as [[a|B f k]|] eqn:Hi; [done| |done]. cbn.
  destruct (f s) as [[b s1]|] eqn:Ef; [|done]. cbn. intros H.
  destruct (Forall_lookup_1 _ _ _ _ Hts Hi) as [Hf Hk].
  eapply IH; [|by eapply Hf|exact H]. apply Forall_insert; [done|exact (Hk b)].
Qed.

Lemma keeps_alone (I : S -> Prop) {A} (p : prog S A) s a s' :
  keeps I p -> I s -> run_alone p s = Some (a, s') -> I s'.
Proof.
  revert s. induction p as [a0|B f k IH]; intros s; cbn; [by intros _ ? [= <- <-]|].
  intros [Hf Hk] Hs. unfold mbind, M_bind. destruct (f s) as [[b s1]|] eqn:Ef; [|done].
  eapply IH; [done|by eapply Hf].
Qed.
End schedules.

(** ** Accounts keep their order under every interleaving *)
Section order.
Context `{Platform}.

Definition accounts_sorted (r : Data_registry) : Prop := map_sorted (m_account_db r).

Lemma get_account_sorted k r : accounts_sorted r -> accounts_sorted (get_account k r).2.
Proof.
  unfold accounts_sorted, get_account, Database.GetRecord. destruct (map_find k (m_account_db r)); [done|].
  apply insert_sorted.
Qed.

Lemma update_account_sorted a r : accounts_sorted r -> accounts_sorted (update_account a r).
Proof. apply insert_sorted. Qed.

(** Splits a thread into its operations. *)
Ltac each_operation :=
  repeat match goal with
  | |- keeps _ (_ ≫= _) => apply keeps_prog_bind
  | |- forall _, keeps _ _ => intros ?
  | |- keeps _ (let '(_, _) := ?x in _) => destruct x
  | |- keeps _ (if ?b then _ else _) => destruct b
  | |- keeps _ (Ret _) => exact I
  | |- keeps _ (atomic _) => split; [|done]
  | |- keeps _ (Atomic _ _) => split; [|done]
  | |- forall s b s', accounts_sorted s -> _ = Some _ -> _ => intros ? ? ? ? [= <- <-]; try done
  end.

Lemma GetRecord_keeps k : keeps accounts_sorted (GetRecord k).
Proof.
  split; [|done]. intros r b r' Hr [= E]. pose proof (get_account_sorted k r Hr) as Hs.
  by rewrite E in Hs.
Qed.

Lemma UpdateRecord_keeps a : keeps accounts_sorted (UpdateRecord a).
Proof. split; [|done]. intros r [] r' Hr [= <-]. by apply update_account_sorted. Qed.

Hint Resolve GetRecord_keeps UpdateRecord_keeps : core.

Lemma credit_share_keeps k weight : keeps accounts_sorted (credit_share k weight).
Proof. unfold credit_share. each_operation; auto. Qed.

Lemma login_account_keeps k : keeps accounts_sorted (login_account k).
Proof. unfold login_account, HasKey. each_operation; auto. Qed.

Lemma sum_weights_keeps keys n : keeps accounts_sorted (sum_weights_t keys n).
Proof. revert n. induction keys; intros n; cbn [sum_weights_t]; each_operation; auto. Qed.

Lemma clear_loop_keeps keys : keeps accounts_sorted (clear_loop_t keys).
Proof. induction keys; cbn [clear_loop_t]; each_operation; auto. Qed.

Lemma adjust_accounts_keeps f m : keeps accounts_sorted (adjust_accounts_t f m).
Proof. induction m as [|[k v] m IH]; cbn [adjust_accounts_t]; each_operation; auto. Qed.

Lemma lift_keeps {A} (o : option A) : keeps accounts_sorted (lift_t o).
Proof. split; [|done]. intros r a r' Hr. unfold lift. destruct o; [|done]. by intros [= <- <-]. Qed.

Hint Resolve sum_weights_keeps clear_loop_keeps lift_keeps adjust_accounts_keeps : core.

Lemma credit_account_keeps W reward k st : keeps accounts_sorted (credit_account_t W reward k st).
Proof.
  unfold credit_account_t, find_address_t, get_map_outputs_t. each_operation; auto.
  intros r b r' Hr. destruct (Coinbase.get_map_outputs k (m_coinbase r)). by intros [= <- <-].
Qed.

Hint Resolve credit_account_keeps : core.

Lemma credit_accounts_keeps W reward keys st : keeps accounts_sorted (credit_accounts_t W reward keys st).
Proof. revert st. induction keys; intros st; cbn [credit_accounts_t]; each_operation; auto. Qed.

Hint Resolve credit_accounts_keeps : core.

Lemma accepted_keeps reward hash last : keeps accounts_sorted (accepted_t reward hash last).
Proof.
  unfold accepted_t, update_balances_t, clear_shares_t, pay_finder_t, total_weight_t, GetKeys.
  each_operation; auto.
Qed.

Lemma refund_payouts_keeps hash : keeps accounts_sorted (refund_payouts_t hash).
Proof.
  unfold refund_payouts_t. each_operation; auto.
  intros r b r' Hr. destruct (Database.GetRecord hash (m_block_db r)). by intros [= <- <-].
Qed.

(** The threads that change accounts. *)
Inductive pool_thread : prog Data_registry unit -> Prop :=
  | credit_thread k weight : pool_thread (credit_share k weight)
  | login_thread k : pool_thread (login_account k)
  | accepted_thread reward hash last : pool_thread (accepted_t reward hash last)
  | refund_thread hash : pool_thread (refund_payouts_t hash).

(** However they are interleaved, the accounts stay sorted. *)
Lemma pool_threads_sorted schedule ts r ts' r' :
  Forall pool_thread ts -> accounts_sorted r -> interleave schedule ts r = Some (ts', r') ->
  accounts_sorted r'.
Proof.
  intros Hts Hr Hrun. eapply (keeps_interleave accounts_sorted); [|done|exact Hrun].
  eapply Forall_impl; [exact Hts|]. intros p [k w|k|reward hash last|hash].
  - apply credit_share_keeps.
  - apply login_account_keeps.
  - apply accepted_keeps.
  - apply refund_payouts_keeps.
Qed.
End order.
