(* ===== verification/Races.v ===== *)
(** * Races: what interleavings of the pool's threads do to the accounts

    Threads on different accounts do not disturb each other ([separate_accounts]).  The shares of
    one account may be lost ([shares_race]), a share may undo a payment ([payout_race]), and one
    between the two passes of a payment is paid from a total that lacks it ([stale_weight]); a first
    login may wipe the account another one has made ([login_race]):
    no lock is held from the read of an account to its write. *)
From S2P Require Import Prelude Bytes StdMap Float64 Coinbase LLD Banned Registry Payout Threads.

(** ** Threads that work on different accounts *)
Section isolation.
Context `{Platform}.

Definition account_of (k : bytes) (r : Data_registry) : option Account.t := map_find k (m_account_db r).

Definition same_on (K : list bytes) (r1 r2 : Data_registry) : Prop :=
  forall k, k ∈ K -> account_of k r1 = account_of k r2.

(** Every account of [K] exists, under its own key. *)
Definition known (K : list bytes) (r : Data_registry) : Prop :=
  accounts_sorted r /\ forall k, k ∈ K -> exists a, account_of k r = Some a /\ Account.key a = k.

(** The same results, and the same accounts of [K]. *)
Definition same_outcome {B} (K : list bytes) (o1 o2 : option (B * Data_registry)) : Prop :=
  match o1, o2 with
  | Some (b1, r1), Some (b2, r2) => b1 = b2 /\ same_on K r1 r2
  | None, None => True
  | _, _ => False
  end.

(** An operation on the accounts of [K] only, once they exist: it changes no other and depends on
    no other. *)
Definition local {B} (K : list bytes) (f : M Data_registry B) : Prop :=
  (forall r b r', known K r -> f r = Some (b, r') ->
     known K r' /\ forall k, k ∉ K -> account_of k r' = account_of k r) /\
  (forall r1 r2, known K r1 -> known K r2 -> same_on K r1 r2 -> same_outcome K (f r1) (f r2)).

Fixpoint confined (K : list bytes) {A} (p : prog Data_registry A) : Prop :=
  match p with
  | Ret _ => True
  | Atomic f k =>
      local K f /\ forall r b r', known K r -> f r = Some (b, r') -> confined K (k b)
  end.

Lemma known_weaken K K' r : K' ⊆ K -> known K r -> known K' r.
Proof. intros HK [Hs Hk]. split; [done|]. intros k Hin. by apply Hk, HK. Qed.

Lemma known_frame K K' r r' :
  known (K ++ K') r -> known K r' -> (forall k, k ∉ K -> account_of k r' = account_of k r) ->
  known (K ++ K') r'.
Proof.
  intros [_ Hall] [Hs HK] Hout. split; [done|]. intros k Hin.
  destruct (decide (k ∈ K)) as [?|Hk]; [by apply HK|]. rewrite Hout by done. by apply Hall.
Qed.

(** No two of the lists share a key. *)
Definition apart (Ks : list (list bytes)) : Prop :=
  forall i j K K' k, Ks !! i = Some K -> Ks !! j = Some K' -> k ∈ K -> k ∈ K' -> i = j.

Definition threads_confined (Ks : list (list bytes)) (ts : list (prog Data_registry unit)) : Prop :=
  Forall2 (fun K p => confined K p) Ks ts.

(** One step of one thread. *)
Lemma confined_step Ks ts j B (f : M Data_registry B) k r b r1 :
  threads_confined Ks ts -> ts !! j = Some (Atomic f k) -> Forall (fun K => known K r) Ks ->
  f r = Some (b, r1) ->
  exists K, Ks !! j = Some K /\ local K f /\ known K r /\ threads_confined Ks (<[j := k b]> ts) /\
    Forall (fun K => known K r1) Ks /\ (forall x, x ∉ K -> account_of x r1 = account_of x r).
Proof.
  intros Hts Hj Hks Ef. destruct (Forall2_lookup_r _ _ _ _ _ Hts Hj) as (K&HK&Hloc&Hk).
  pose proof (Forall_lookup_1 _ _ _ _ Hks HK) as Hknown.
  destruct (proj1 Hloc r b r1 Hknown Ef) as [Hknown1 Hout].
  exists K. split_and!; try done.
  - unfold threads_confined. rewrite <-(list_insert_id Ks j K HK). apply Forall2_insert; [done|].
    exact (Hk r b r1 Hknown Ef).
  - eapply Forall_impl; [exact Hks|]. intros K' HK'. apply (known_weaken (K ++ K')).
    { intros x Hx. apply elem_of_app. by right. }
    apply (known_frame K K' r r1); [|done..].
    split; [apply Hknown|]. intros x [Hx|Hx]%elem_of_app; [by apply Hknown|by apply HK'].
Qed.

(** What the others do to a thread's accounts: nothing. *)
Lemma isolated Ks i K schedule ts r ri p ts' r' :
  threads_confined Ks ts -> apart Ks -> Ks !! i = Some K -> ts !! i = Some p ->
  Forall (fun K => known K r) Ks -> known K ri -> same_on K ri r ->
  interleave schedule ts r = Some (ts', r') ->
  exists p' ri', ts' !! i = Some p' /\ run_alone p ri = run_alone p' ri' /\ same_on K ri' r'.
Proof.
  intros Hts Ha HK. revert ts r ri p Hts. induction schedule as [|j schedule IH].
  { intros ts r ri p _ Hp _ _ Hsame [= <- <-]. by exists p, ri. }
  intros ts r ri p Hts Hp Hr Hri Hsame. cbn. destruct (ts !! j) as [[a|B f k]|] eqn:Hj; [done| |done]. cbn.
  destruct (f r) as [[b r1]|] eqn:Ef; [|done]. cbn. intros Hrun.
  destruct (confined_step Ks ts j B f k r b r1 Hts Hj Hr Ef) as (K'&HK'&[Hframe Hdep]&HrK'&Hts1&Hr1&Hout).
  destruct (decide (j = i)) as [->|Hne].
  - simplify_eq. pose proof (Hdep ri r Hri HrK' Hsame) as Hsame1. rewrite Ef in Hsame1.
    destruct (f ri) as [[b' ri1]|] eqn:Ei; [|done]. destruct Hsame1 as [-> Hsame1].
    destruct (Hframe ri b ri1 Hri Ei) as [Hri1 _].
    destruct (IH (<[i := k b]> ts) r1 ri1 (k b) Hts1) as (p'&ri'&?&?&?); try done.
    { apply list_lookup_insert_eq. by eapply lookup_lt_Some. }
    exists p', ri'. split_and!; try done. cbn. unfold mbind, M_bind. by rewrite Ei.
  - apply (IH (<[j := k b]> ts) r1 ri p Hts1); try done.
    { by rewrite list_lookup_insert_ne. }
    intros x Hx. rewrite Hout; [by apply Hsame|]. intros Hx'. apply Hne. by eapply Ha.
Qed.

(** Accounts of nobody do not change, and the map keeps its order. *)
Lemma untouched Ks schedule ts r ts' r' :
  threads_confined Ks ts -> Forall (fun K => known K r) Ks -> accounts_sorted r ->
  interleave schedule ts r = Some (ts', r') ->
  accounts_sorted r' /\
  forall k, Forall (fun K => k ∉ K) Ks -> account_of k r' = account_of k r.
Proof.
  intros Hts. revert ts r Hts. induction schedule as [|j schedule IH].
  { by intros ts r _ _ Hs [= <- <-]. }
  intros ts r Hts Hr Hs. cbn. destruct (ts !! j) as [[a|B f c]|] eqn:Hj; [done| |done]. cbn.
  destruct (f r) as [[b r1]|] eqn:Ef; [|done]. cbn. intros Hrun.
  destruct (confined_step Ks ts j B f c r b r1 Hts Hj Hr Ef) as (K'&HK'&_&_&Hts1&Hr1&Hout).
  destruct (IH (<[j := c b]> ts) r1 Hts1 Hr1) as [Hs' Hu]; [|done|].
  { by destruct (Forall_lookup_1 _ _ _ _ Hr1 HK'). }
  split; [done|]. intros k Hk. rewrite Hu by done. apply Hout. by apply (Forall_lookup_1 _ _ _ _ Hk HK').
Qed.

(** ** The threads of the pool *)
Lemma GetRecord_local K k : k ∈ K -> local K (fun r => Some (get_account k r)).
Proof.
  intros Hk. split.
  - intros r a r' Hr [= E]. destruct (proj2 Hr k Hk) as (a'&Ha'&_).
    rewrite (get_account_present k r a' Ha') in E. by injection E as <- <-.
  - intros r1 r2 H1 H2 Hsame. destruct (proj2 H1 k Hk) as (a1&Ha1&_).
    rewrite (get_account_present k r1 a1 Ha1). pose proof (Hsame k Hk) as E. rewrite Ha1 in E.
    by rewrite (get_account_present k r2 a1).
Qed.

Lemma account_of_update k a r :
  accounts_sorted r -> account_of k (update_account a r) =
    if decide (k = Account.key a) then Some a else account_of k r.
Proof.
  intros Hs. unfold account_of, update_account, Database.UpdateRecord. cbn [m_account_db set_accounts].
  by rewrite find_insert.
Qed.

Lemma UpdateRecord_local K a : Account.key a ∈ K -> local K (modify (update_account a)).
Proof.
  intros Ha. split.
  - intros r [] r' [Hs Hk] [= <-]. split; [split|].
    + by apply update_account_sorted.
    + intros k Hin. rewrite account_of_update by done. case_decide; [subst; by exists a|by apply Hk].
    + intros k Hin. rewrite account_of_update by done. case_decide; [by subst|done].
  - intros r1 r2 [H1 _] [H2 _] Hsame. split; [done|]. intros k Hin. rewrite !account_of_update by done.
    case_decide; [done|by apply Hsame].
Qed.

Lemma confined_GetRecord K k A (g : Account.t -> prog Data_registry A) :
  k ∈ K -> (forall a, Account.key a = k -> confined K (g a)) -> confined K (GetRecord k ≫= g).
Proof.
  intros Hk Hg. split; [by apply GetRecord_local|]. intros r a r' Hr [= E].
  destruct (proj2 Hr k Hk) as (a'&Ha'&Hkey). rewrite (get_account_present k r a' Ha') in E.
  injection E as <- <-. by apply Hg.
Qed.

Lemma confined_UpdateRecord K a A (g : unit -> prog Data_registry A) :
  Account.key a ∈ K -> confined K (g tt) -> confined K (UpdateRecord a ≫= g).
Proof. intros Ha Hg. split; [by apply UpdateRecord_local|]. by intros r [] r' _ _. Qed.

Lemma credit_share_confined k weight : confined [k] (credit_share k weight).
Proof.
  apply confined_GetRecord; [by left|]. intros a Ha.
  split; [|done]. apply UpdateRecord_local. rewrite <-Ha. by left.
Qed.

Lemma adjust_accounts_confined f m K :
  (forall v a, Account.key (f v a) = Account.key a) -> map_keys m ⊆ K -> confined K (adjust_accounts_t f m).
Proof.
  intros Hf. induction m as [|[k v] m IH]; intros Hm; [done|]. cbn [adjust_accounts_t].
  apply confined_GetRecord; [apply Hm; by left|]. intros a Ha.
  apply confined_UpdateRecord.
  - rewrite Hf, Ha. apply Hm. by left.
  - apply IH. intros x Hx. apply Hm. by right.
Qed.

(** The threads that work on given accounts, with those accounts: the credit of a share, and the
    loops of a refund. *)
Inductive account_work : list bytes -> prog Data_registry unit -> Prop :=
  | credit_work k weight : account_work [k] (credit_share k weight)
  | deduct_work m : account_work (map_keys m) (adjust_accounts_t deduct m)
  | add_work m : account_work (map_keys m) (adjust_accounts_t add_balance m).

Lemma work_confined Ks ts : Forall2 account_work Ks ts -> threads_confined Ks ts.
Proof.
  intros Hts. eapply Forall2_impl; [exact Hts|]. intros K p [k w|m|m].
  - apply credit_share_confined.
  - by apply adjust_accounts_confined.
  - by apply adjust_accounts_confined.
Qed.

(** C20: whatever order the operations of threads on different accounts are done in, each
    thread leaves its accounts as it would have alone, no other account changes, and so any two
    orders end with the same accounts. *)
Theorem separate_accounts Ks ts r schedule ts' r' :
  Forall2 account_work Ks ts -> apart Ks -> Forall (fun K => known K r) Ks -> accounts_sorted r ->
  interleave schedule ts r = Some (ts', r') -> Forall (fun p => finished p = true) ts' ->
  (forall i K p, Ks !! i = Some K -> ts !! i = Some p ->
     exists ri, run_alone p r = Some (tt, ri) /\ same_on K ri r') /\
  (forall k, Forall (fun K => k ∉ K) Ks -> account_of k r' = account_of k r) /\
  (forall schedule2 ts2 r2, interleave schedule2 ts r = Some (ts2, r2) ->
     Forall (fun p => finished p = true) ts2 -> m_account_db r2 = m_account_db r').
Proof.
  intros Hts%work_confined Ha Hr Hs.
  assert (Hlocal : forall schedule ts' r', interleave schedule ts r = Some (ts', r') ->
    Forall (fun p => finished p = true) ts' -> forall i K p, Ks !! i = Some K -> ts !! i = Some p ->
     exists ri, run_alone p r = Some (tt, ri) /\ same_on K ri r').
  { clear schedule ts' r'. intros schedule ts' r' Hrun Hfin i K p HK Hp.
    destruct (isolated Ks i K schedule ts r r p ts' r') as (p'&ri&Hp'&Hal&Hsame); try done.
    { by apply (Forall_lookup_1 _ _ _ _ Hr HK). }
    pose proof (Forall_lookup_1 _ _ _ _ Hfin Hp') as Hd. destruct p' as [[]|]; [|done].
    by exists ri. }
  intros Hrun Hfin. split_and!.
  - by eapply Hlocal.
  - by eapply untouched.
  - intros schedule2 ts2 r2 Hrun2 Hfin2.
    destruct (untouched Ks schedule ts r ts' r' Hts Hr Hs Hrun) as [Hs1 Hu1].
    destruct (untouched Ks schedule2 ts r ts2 r2 Hts Hr Hs Hrun2) as [Hs2 Hu2].
    apply smap_eq; [done|done|]. intros k. change (account_of k r2 = account_of k r').
    destruct (decide (Exists (fun K => k ∈ K) Ks)) as [Hin|Hout].
    + apply Exists_exists in Hin as (K&HK&Hk). apply list_elem_of_lookup in HK as [i HK].
      destruct (Forall2_lookup_l _ _ _ _ _ Hts HK) as (p&Hp&_).
      destruct (Hlocal _ _ _ Hrun Hfin i K p HK Hp) as (r3&E3&S3).
      destruct (Hlocal _ _ _ Hrun2 Hfin2 i K p HK Hp) as (r4&E4&S4). simplify_eq.
      by rewrite <-(S3 k Hk), <-(S4 k Hk).
    + assert (Forall (fun K => k ∉ K) Ks).
      { apply Forall_Exists_neg. exact Hout. }
      by rewrite Hu1, Hu2.
Qed.
End isolation.

(** ** Several shares of one account *)
Section race.
Context `{Platform}.

(** The sum of the weights that [P] selects. *)
Fixpoint selected (P : nat -> bool) (ws : list Z) : Z :=
  match ws with
  | [] => 0
  | w :: ws' => (if P O then w else 0) + selected (fun i => P (S i)) ws'
  end.

Definition select (i : nat) (P : nat -> bool) : nat -> bool := fun j => if decide (j = i) then true else P j.

Lemma selected_ext P Q ws : (forall i, (i < length ws)%nat -> P i = Q i) -> selected P ws = selected Q ws.
Proof.
  revert P Q. induction ws as [|w ws IH]; intros P Q HPQ; [done|]. cbn in *.
  rewrite (HPQ O) by lia. f_equal. apply IH. intros i Hi. apply HPQ. lia.
Qed.

Lemma selected_none ws : selected (fun _ => false) ws = 0.
Proof. induction ws as [|w ws IH]; [done|exact IH]. Qed.

Lemma selected_select i P ws w :
  ws !! i = Some w -> P i = false -> selected (select i P) ws = selected P ws + w.
Proof.
  revert i P. induction ws as [|w' ws IH]; intros [|i] P; cbn [lookup list_lookup selected]; [done..| |].
  - intros [= ->] HP. unfold select at 1. rewrite decide_True, HP by done.
    rewrite (selected_ext _ (fun i => P (S i)) ws); [lia|]. intros j _. unfold select. by case_decide.
  - intros Hw HP. unfold select at 1. rewrite decide_False by done.
    rewrite (selected_ext _ (select i (fun i => P (S i))) ws); [rewrite IH by done; lia|].
    intros j _. unfold select. repeat case_decide; congruence.
Qed.

Lemma selected_bounds P ws :
  Forall (fun w => 0 <= w) ws -> 0 <= selected P ws <= foldr Z.add 0 ws.
Proof.
  intros Hws. revert P. induction Hws as [|w ws Hw _ IH]; intros P; cbn; [lia|].
  specialize (IH (fun i => P (S i))). destruct (P O); lia.
Qed.

(** How far the thread of the [i]th share is; [fin] says who has written. *)
Inductive stage (k : bytes) (a : Account.t) (ws : list Z) (fin : nat -> bool) (i : nat) (w : Z)
    : prog Data_registry unit -> Prop :=
  | stage_start : fin i = false -> stage k a ws fin i w (credit_share k w)
  | stage_read Q :
      fin i = false -> (forall j, Q j = true -> fin j = true) ->
      stage k a ws fin i w
        (UpdateRecord (Account.set_shares (u64 (Account.nRoundShares a + selected Q ws + w)) a))
  | stage_done : fin i = true -> stage k a ws fin i w (Ret tt).

(** The account holds the weights that [C] selects among those written. *)
Definition racing (k : bytes) (a : Account.t) (ws : list Z) (ts : list (prog Data_registry unit))
    (r : Data_registry) : Prop :=
  accounts_sorted r /\ exists fin C,
    account_of k r = Some (Account.set_shares (Account.nRoundShares a + selected C ws) a) /\
    (forall i, C i = true -> fin i = true) /\
    (forall i, fin i = true -> exists j, (j < length ws)%nat /\ C j = true) /\
    Forall2 (fun '(i, w) p => stage k a ws fin i w p) (imap pair ws) ts.

Lemma stage_mono k a ws fin i j w p :
  stage k a ws fin j w p -> i <> j -> stage k a ws (select i fin) j w p.
Proof.
  intros [Hj|Q Hj HQ|Hj] Hne; [apply stage_start|apply stage_read|apply stage_done];
    try (unfold select; by rewrite decide_False).
  intros x Hx. unfold select. case_decide; [done|by apply HQ].
Qed.

Lemma racing_step k a ws ts r i p p' r' :
  Account.key a = k -> 0 <= Account.nRoundShares a -> Forall (fun w => 0 <= w) ws ->
  Account.nRoundShares a + foldr Z.add 0 ws < 2 ^ 64 ->
  racing k a ws ts r -> ts !! i = Some p -> step p r = Some (p', r') ->
  racing k a ws (<[i := p']> ts) r'.
Proof.
  intros Hkey Ha Hws Hlt (Hs&fin&C&Hacc&HC&Hne&Hts) Hi Ef.
  destruct (Forall2_lookup_r _ _ _ _ _ Hts Hi) as ([i' w]&Hiw&Hstage).
  rewrite list_lookup_imap in Hiw. destruct (ws !! i) as [w'|] eqn:Hw; [|done].
  injection Hiw as <- ->. revert Ef. destruct Hstage as [Hf|Q Hf HQ|Hf]; [| |done].
  - unfold credit_share, step. cbn -[get_account update_account UpdateRecord].
    rewrite (get_account_present k r _ Hacc). cbn -[update_account UpdateRecord]. intros [= <- <-].
    split; [done|]. exists fin, C. split_and!; try done.
    rewrite <-(list_insert_id (imap pair ws) i (i, w)) by (by rewrite list_lookup_imap, Hw).
    apply Forall2_insert; [done|]. exact (stage_read k a ws fin i w C Hf HC).
  - cbn -[update_account]. intros [= <- <-]. assert (HQi : Q i = false).
    { destruct (Q i) eqn:E; [|done]. by rewrite (HQ i E) in Hf. }
    split; [by apply update_account_sorted|]. exists (select i fin), (select i Q). split_and!.
    + rewrite account_of_update, decide_True by (done || by rewrite <-Hkey).
      pose proof (selected_bounds Q ws Hws). pose proof (selected_bounds (select i Q) ws Hws) as Hb.
      rewrite (selected_select i Q ws w) in * by done. rewrite wrap_small by (unfold fits; lia).
      do 2 f_equal. lia.
    + intros j. unfold select. case_decide; [done|by apply HQ].
    + intros j _. exists i. split; [by eapply lookup_lt_Some|]. unfold select. by rewrite decide_True.
    + apply Forall2_same_length_lookup. rewrite length_insert. split; [by eapply Forall2_length|].
      intros j [j' wj] p' Hj Hp. rewrite list_lookup_imap in Hj.
      destruct (ws !! j) as [w'|] eqn:Hwj; [|done]. injection Hj as <- <-.
      destruct (decide (i = j)) as [<-|Hij].
      * rewrite list_lookup_insert_eq in Hp by (by eapply lookup_lt_Some). injection Hp as <-.
        apply stage_done. unfold select. by rewrite decide_True.
      * rewrite list_lookup_insert_ne in Hp by done. apply stage_mono; [|done].
        assert (Hjw : imap pair ws !! j = Some (j, w')) by (by rewrite list_lookup_imap, Hwj).
        exact (Forall2_lookup_lr _ _ _ _ _ _ Hts Hjw Hp).
Qed.

Lemma racing_run k a ws schedule ts r ts' r' :
  Account.key a = k -> 0 <= Account.nRoundShares a -> Forall (fun w => 0 <= w) ws ->
  Account.nRoundShares a + foldr Z.add 0 ws < 2 ^ 64 ->
  racing k a ws ts r -> interleave schedule ts r = Some (ts', r') -> racing k a ws ts' r'.
Proof.
  intros Hkey Ha Hws Hlt. revert ts r. induction schedule as [|i schedule IH]; intros ts r Hr; cbn.
  { by intros [= <- <-]. }
  destruct (ts !! i) as [p|] eqn:Hi; [|done]. cbn.
  destruct (step p r) as [[p' r1]|] eqn:Hp; [|done]. apply IH. by eapply racing_step.
Qed.

Lemma racing_start k a ws r :
  accounts_sorted r -> account_of k r = Some a -> racing k a ws (credit_share k <$> ws) r.
Proof.
  intros Hs Ha. split; [done|]. exists (fun _ => false), (fun _ => false). split_and!; try done.
  - rewrite selected_none, Z.add_0_r, Ha. by destruct a.
  - rewrite <-(imap_const (credit_share k) ws). apply Forall2_same_length_lookup.
    rewrite !length_imap. split; [done|]. intros i [i' w] p. rewrite !list_lookup_imap.
    destruct (ws !! i) as [w'|]; [|done]. intros [= <- <-] [= <-]. by apply stage_start.
Qed.

(** The thread of a share, read by read and write by write. *)
Lemma credit_read k w v a i ts r l :
  ts !! i = Some (credit_share k w) -> account_of k r = Some (Account.set_shares v a) ->
  interleave (i :: l) ts r =
    interleave l (<[i := UpdateRecord (Account.set_shares (u64 (v + w)) a)]> ts) r.
Proof.
  intros Hi Ha. cbn [interleave]. rewrite Hi. unfold credit_share, step.
  cbn -[get_account update_account UpdateRecord interleave].
  by rewrite (get_account_present k r _ Ha).
Qed.

Lemma credit_write b i ts r l :
  ts !! i = Some (UpdateRecord b) ->
  interleave (i :: l) ts r = interleave l (<[i := Ret tt]> ts) (update_account b r).
Proof. intros Hi. cbn [interleave]. by rewrite Hi. Qed.

(** The threads of [js] one after the other. *)
Lemma run_credits k a ws js Q ts r :
  Account.key a = k -> 0 <= Account.nRoundShares a -> Forall (fun w => 0 <= w) ws ->
  Account.nRoundShares a + foldr Z.add 0 ws < 2 ^ 64 -> NoDup js ->
  (forall j, j ∈ js -> Q j = false /\ exists w, ws !! j = Some w /\ ts !! j = Some (credit_share k w)) ->
  accounts_sorted r ->
  account_of k r = Some (Account.set_shares (Account.nRoundShares a + selected Q ws) a) ->
  exists ts' r', interleave (js ≫= fun j => [j; j]) ts r = Some (ts', r') /\
    (forall j, ts' !! j = if decide (j ∈ js) then Some (Ret tt) else ts !! j) /\ accounts_sorted r' /\
    account_of k r' = Some (Account.set_shares
      (Account.nRoundShares a + selected (fun j => Q j || bool_decide (j ∈ js)) ws) a).
Proof.
  intros Hkey Ha Hws Hlt Hnd. revert Q ts r. induction Hnd as [|i js Hi Hnd IH]; intros Q ts r Hjs Hs Hacc.
  { exists ts, r. split_and!; try done. rewrite Hacc. do 3 f_equal. apply selected_ext.
    intros j _. by rewrite orb_false_r. }
  destruct (Hjs i ltac:(left)) as (HQ&w&Hw&Hti). pose proof (lookup_lt_Some _ _ _ Hti) as Hlen.
  cbn [mbind list_bind app]. rewrite (credit_read k w _ a i ts r _ Hti Hacc).
  rewrite (credit_write (Account.set_shares (u64 (Account.nRoundShares a + selected Q ws + w)) a))
    by (by apply list_lookup_insert_eq).
  rewrite list_insert_insert_eq. pose proof (selected_bounds (select i Q) ws Hws) as Hb.
  pose proof (selected_bounds Q ws Hws). rewrite (selected_select i Q ws w Hw HQ) in Hb.
  rewrite wrap_small by (unfold fits; lia).
  edestruct (IH (select i Q)) as (ts'&r'&Hrun&Hts'&Hs'&Hacc'); [| | |exists ts', r'; split_and!; [exact Hrun|..|done|]].
  - intros j Hj. assert (j <> i) by congruence. destruct (Hjs j ltac:(by right)) as [? ?].
    unfold select. rewrite decide_False by done. by rewrite list_lookup_insert_ne.
  - by apply update_account_sorted.
  - rewrite account_of_update, decide_True by (done || by rewrite <-Hkey).
    rewrite (selected_select i Q ws w Hw HQ). do 2 f_equal. lia.
  - intros j. rewrite Hts'. destruct (decide (j ∈ js)), (decide (j ∈ i :: js)) as [|Hn]; try done.
    + exfalso. apply Hn. by right.
    + rewrite (elem_of_cons js j i) in e. destruct e as [->|]; [|done]. by apply list_lookup_insert_eq.
    + rewrite list_lookup_insert_ne; [done|]. intros ->. apply Hn. by left.
  - rewrite Hacc'. do 3 f_equal. apply selected_ext. intros j _. unfold select.
    case_decide as Hji; [|f_equal; apply bool_decide_ext; rewrite elem_of_cons;
      split; [by right|by intros [?|?]]].
    subst j. rewrite orb_true_l. symmetry. apply orb_true_iff. right. apply bool_decide_eq_true_2. by left.
Qed.

Context (k : bytes) (a : Account.t) (ws : list Z) (r : Data_registry).
Context (Hs : accounts_sorted r) (Ha : account_of k r = Some a) (Hkey : Account.key a = k).
Context (H0 : 0 <= Account.nRoundShares a) (Hws : Forall (fun w => 0 <= w) ws).
Context (Hlt : Account.nRoundShares a + foldr Z.add 0 ws < 2 ^ 64).

Let ts : list (prog Data_registry unit) := credit_share k <$> ws.

Lemma race_bound schedule ts' r' :
  ws <> [] -> interleave schedule ts r = Some (ts', r') -> Forall (fun p => finished p = true) ts' ->
  exists P, (exists i, (i < length ws)%nat /\ P i = true) /\
    account_of k r' = Some (Account.set_shares (Account.nRoundShares a + selected P ws) a).
Proof.
  intros Hne Hrun Hfin.
  destruct (racing_run k a ws schedule _ r ts' r' Hkey H0 Hws Hlt (racing_start k a ws r Hs Ha) Hrun)
    as (_&fin&C&Hacc&_&HC&Hts).
  exists C. split; [|done]. destruct (lookup_lt_is_Some_2 ws O) as [w Hw].
  { destruct ws; [done|cbn; lia]. }
  assert (Hi : imap pair ws !! O = Some (O, w)) by (by rewrite list_lookup_imap, Hw).
  destruct (Forall2_lookup_l _ _ _ _ _ Hts Hi) as (p&Hp&Hst).
  pose proof (Forall_lookup_1 _ _ _ _ Hfin Hp) as Hd.
  destruct Hst as [|Q|Hf]; [done..|]. destruct (HC O Hf) as (j&?&?). by exists j.
Qed.

Lemma thread_of j : (j < length ws)%nat -> exists w, ws !! j = Some w /\ ts !! j = Some (credit_share k w).
Proof.
  intros Hj. destruct (lookup_lt_is_Some_2 ws j Hj) as [w Hw]. exists w. split; [done|].
  unfold ts. by rewrite list_lookup_fmap, Hw.
Qed.

Section attained.
Context (P : nat -> bool) (i : nat) (w : Z) (Hw : ws !! i = Some w) (HP : P i = true).

Let js1 := filter (fun j => P j = false) (seq 0 (length ws)).
Let js2 := filter (fun j => P j = true /\ j <> i) (seq 0 (length ws)).
Let b := Account.set_shares (u64 (Account.nRoundShares a + w)) a.

(** First [i] reads; then those that [P] leaves out do all they do. *)
Lemma attained_first :
  exists ts1 r1, interleave ([i] ++ (js1 ≫= fun j => [j; j])) ts r = Some (ts1, r1) /\
    accounts_sorted r1 /\
    forall j, ts1 !! j = if decide (j ∈ js1) then Some (Ret tt) else
                         if decide (j = i) then Some (UpdateRecord b) else ts !! j.
Proof.
  pose proof (lookup_lt_Some _ _ _ Hw) as Hi. destruct (thread_of i Hi) as (w'&Hw'&Hti).
  rewrite Hw in Hw'. injection Hw' as <-.
  assert (Hacc0 : account_of k r = Some (Account.set_shares (Account.nRoundShares a) a)).
  { rewrite Ha. by destruct a. }
  destruct (run_credits k a ws js1 (fun _ => false) (<[i := UpdateRecord b]> ts) r)
    as (ts1&r1&Hrun1&Hts1&Hs1&_); try done.
  { apply NoDup_filter, NoDup_seq. }
  { intros j [HPj Hj]%list_elem_of_filter. apply elem_of_seq in Hj. split; [done|].
    rewrite list_lookup_insert_ne by congruence. apply thread_of. lia. }
  { by rewrite selected_none, Z.add_0_r. }
  exists ts1, r1. split; [|split; [done|]].
  - cbn [app]. by rewrite (credit_read k w _ a i ts r _ Hti Hacc0).
  - intros j. rewrite Hts1. case_decide; [done|]. case_decide as Hj; [|by rewrite list_lookup_insert_ne].
    subst j. apply list_lookup_insert_eq. by eapply lookup_lt_Some.
Qed.

(** Then [i] writes over that, and the others of [P] follow. *)
Lemma race_attained :
  exists schedule ts' r', interleave schedule ts r = Some (ts', r') /\
    Forall (fun p => finished p = true) ts' /\
    account_of k r' = Some (Account.set_shares (Account.nRoundShares a + selected P ws) a).
Proof.
  destruct attained_first as (ts1&r1&Hrun1&Hs1&Hts1).
  assert (Hti : ts1 !! i = Some (UpdateRecord b)).
  { rewrite Hts1, decide_False, decide_True; [done..|]. intros [? _]%list_elem_of_filter. congruence. }
  destruct (run_credits k a ws js2 (select i (fun _ => false)) (<[i := Ret tt]> ts1)
    (update_account b r1)) as (ts2&r2&Hrun2&Hts2&Hs2&Hacc2); try done.
  { apply NoDup_filter, NoDup_seq. }
  { intros j [[HPj Hji] Hj]%list_elem_of_filter. apply elem_of_seq in Hj.
    unfold select. rewrite decide_False by done. split; [done|].
    rewrite list_lookup_insert_ne, Hts1, decide_False, decide_False;
      [apply thread_of; lia|done|intros [? _]%list_elem_of_filter; congruence|done]. }
  { by apply update_account_sorted. }
  { rewrite account_of_update, decide_True by (done || by rewrite <-Hkey). unfold b.
    pose proof (selected_bounds (select i (fun _ => false)) ws Hws) as Hb.
    rewrite (selected_select i _ ws w Hw), selected_none in * by done.
    rewrite wrap_small by (unfold fits; lia). by rewrite Z.add_0_l. }
  exists (([i] ++ (js1 ≫= fun j => [j; j])) ++ [i] ++ (js2 ≫= fun j => [j; j])), ts2, r2. split_and!.
  - rewrite interleave_app, Hrun1. cbn [mbind option_bind app]. by rewrite (credit_write b).
  - apply Forall_lookup. intros j p Hp. rewrite Hts2 in Hp.
    case_decide as Hj2; [by injection Hp as <-|]. destruct (decide (j = i)) as [->|Hji].
    + rewrite list_lookup_insert_eq in Hp by (by eapply lookup_lt_Some). by injection Hp as <-.
    + rewrite list_lookup_insert_ne, Hts1, (decide_False (P := j = i)) in Hp by done.
      case_decide as Hj1; [by injection Hp as <-|]. apply lookup_lt_Some in Hp.
      unfold ts in Hp. rewrite length_fmap in Hp. exfalso. destruct (P j) eqn:HPj.
      * apply Hj2, list_elem_of_filter. split; [done|]. apply elem_of_seq. lia.
      * apply Hj1, list_elem_of_filter. split; [done|]. apply elem_of_seq. lia.
  - rewrite Hacc2. do 3 f_equal. apply selected_ext. intros j Hj. unfold select.
    case_decide as Hji; [by subst|]. cbn. destruct (P j) eqn:HPj.
    + apply bool_decide_eq_true_2, list_elem_of_filter. split; [done|]. apply elem_of_seq. lia.
    + apply bool_decide_eq_false_2. intros [[? _] _]%list_elem_of_filter. congruence.
Qed.
End attained.
End race.

(** C13: the shares of one account that several connections submit at once: whatever order
    the reads and writes are done in, the account ends with the weights of some of them, at least
    one and perhaps not all; and for every such selection there is an order in which just those
    count. *)
Theorem shares_race `{Platform} k a ws r :
  accounts_sorted r -> account_of k r = Some a -> Account.key a = k -> 0 <= Account.nRoundShares a ->
  Forall (fun w => 0 <= w) ws -> Account.nRoundShares a + foldr Z.add 0 ws < 2 ^ 64 -> ws <> [] ->
  (forall schedule ts' r', interleave schedule (credit_share k <$> ws) r = Some (ts', r') ->
     Forall (fun p => finished p = true) ts' ->
     exists P, (exists i, (i < length ws)%nat /\ P i = true) /\
       account_of k r' = Some (Account.set_shares (Account.nRoundShares a + selected P ws) a)) /\
  (forall P i, (i < length ws)%nat -> P i = true ->
     exists schedule ts' r', interleave schedule (credit_share k <$> ws) r = Some (ts', r') /\
       Forall (fun p => finished p = true) ts' /\
       account_of k r' = Some (Account.set_shares (Account.nRoundShares a + selected P ws) a)).
Proof.
  intros Hs Ha Hkey H0 Hws Hlt Hne. split.
  - intros schedule ts' r'. by apply race_bound.
  - intros P i Hi HP. destruct (lookup_lt_is_Some_2 ws i Hi) as [w Hw]. by eapply race_attained.
Qed.

(** ** A share that is credited while a block is paid *)
Section payout_race.
Context `{Platform}.

Lemma accepted_alone reward hash last r :
  run_alone (accepted_t reward hash last) r =
    r' ← update_balances reward hash last r; Some (tt, clear_shares r').
Proof.
  unfold accepted_t. rewrite run_alone_mbind. unfold mbind, M_bind.
  rewrite (proj1 (threads_alone r)). unfold mbind. destruct (update_balances _ _ _ _) as [r'|]; [|done].
  apply (proj1 (proj2 (threads_alone r'))).
Qed.

(** C14: a connection that reads the account of its miner before an accepted block is paid
    and writes it after: the account has its old balance and its old shares again, with the new
    share added.  What the block credited is on disk and in the block's record, and not in the
    account. *)
Theorem payout_race k a weight reward hash last r paid :
  accounts_sorted r -> account_of k r = Some a -> Account.key a = k ->
  update_balances reward hash last r = Some paid ->
  exists schedule r',
    interleave schedule [credit_share k weight; accepted_t reward hash last] r =
      Some ([Ret tt; Ret tt], r') /\
    account_of k r' = Some (Account.set_shares (u64 (Account.nRoundShares a + weight)) a) /\
    (forall k', k' <> k -> account_of k' r' = account_of k' (clear_shares paid)) /\
    m_block_db r' = m_block_db (clear_shares paid) /\ acct_dat r' = acct_dat (clear_shares paid).
Proof.
  intros Hs Ha Hkey Hpaid. pose proof (accepted_alone reward hash last r) as Hal. rewrite Hpaid in Hal.
  destruct (alone_schedule _ _ _ Hal) as [n Hn]. set (b := Account.set_shares _ a).
  exists (0%nat :: replicate n 1%nat ++ [0%nat]), (update_account b (clear_shares paid)).
  assert (Hs' : accounts_sorted (clear_shares paid)).
  { exact (keeps_alone _ _ _ _ _ (accepted_keeps reward hash last) Hs Hal). }
  split_and!.
  - rewrite (credit_read k weight (Account.nRoundShares a) a 0) by (rewrite ?Ha; by destruct a).
    rewrite interleave_app, Hn by done. cbn [mbind option_bind]. by rewrite (credit_write b).
  - by rewrite account_of_update, decide_True.
  - intros k' Hk'. rewrite account_of_update, decide_False; [done| |done]. by subst k.
  - done.
  - done.
Qed.

(** C25: two first logins with one new address.  There is an order in which one of them, which found
    no account, writes an empty one over the account that the other has made meanwhile, after that
    other has done [p], anything that keeps the database a map.  What [p] did to the account is
    lost, and nothing else. *)
Theorem login_race k (p : prog Data_registry unit) r r1 :
  accounts_sorted r -> keeps accounts_sorted p -> Database.HasKey k (m_account_db r) = false ->
  run_alone (login_account k ≫= fun _ => p) r = Some (tt, r1) ->
  exists schedule r',
    interleave schedule [login_account k; login_account k ≫= fun _ => p] r = Some ([Ret tt; Ret tt], r') /\
    account_of k r' = Some (Account.new k) /\
    (forall k', k' <> k -> account_of k' r' = account_of k' r1) /\ m_block_db r' = m_block_db r1.
Proof.
  intros Hs Hp Hnew Hal. destruct (alone_schedule _ _ _ Hal) as [n Hn].
  assert (Hs' : accounts_sorted r1).
  { refine (keeps_alone _ _ _ _ _ _ Hs Hal). apply keeps_prog_bind; [apply login_account_keeps|done]. }
  exists (0%nat :: replicate n 1%nat ++ [0%nat]), (update_account (Account.new k) r1). split_and!.
  - erewrite interleave_next; [|reflexivity|].
    2:{ cbn -[Database.HasKey]. rewrite Hnew. reflexivity. }
    rewrite interleave_app, Hn by done. cbn [mbind option_bind]. by rewrite (credit_write (Account.new k)).
  - by rewrite account_of_update, decide_True.
  - intros k' Hk'. rewrite account_of_update, decide_False; done.
  - done.
Qed.

Lemma credit_over_zero s reward : 0 < s <= 2 ^ 53 -> share_credit s 0 reward = None.
Proof.
  intros Hs. unfold share_credit. pose proof (f64_of_Z_exact s ltac:(lia)) as Hx.
  destruct (fixed_pos _ _ Hx) as (m&e&->&_&_).
  { apply Z.mul_pos_pos; [lia|]. apply unit_pos. }
  unfold f64_div, f64_mul. cbn. destruct (f64_of_Z reward) as [|[]| |[]]; done.
Qed.

(** *** One account has shares, or none has *)

(** [k] has an account with [v] shares, filed under its key; no other account has any, or is [k]'s. *)
Definition shares_at (k : bytes) (v : Z) (r : Data_registry) : Prop :=
  accounts_sorted r /\ k <> [] /\ is_Some (account_of k r) /\
  forall k' a, account_of k' r = Some a ->
    (Account.key a = k <-> k' = k) /\ Account.nRoundShares a = if decide (k' = k) then v else 0.

Lemma shares_update k v v' a r :
  shares_at k v r -> (Account.key a <> k -> v' = v) ->
  Account.nRoundShares a = (if decide (Account.key a = k) then v' else 0) ->
  shares_at k v' (update_account a r).
Proof.
  intros (Hs&Hne&Hk&Hall) Hv Ha. split; [by apply update_account_sorted|]. split; [done|]. split.
  - rewrite account_of_update by done. destruct (decide (k = Account.key a)); [by eexists|done].
  - intros k' a' Hk'. rewrite account_of_update in Hk' by done.
    destruct (decide (k' = Account.key a)) as [->|He]; [by injection Hk' as <-|].
    destruct (Hall k' a' Hk') as [Hkey ->]. split; [done|]. destruct (decide (k' = k)); [|done].
    symmetry. apply Hv. congruence.
Qed.

Lemma shares_get k v k' r :
  shares_at k v r ->
  let '(a, r') := get_account k' r in
  shares_at k v r' /\ (Account.key a = k <-> k' = k) /\
  Account.nRoundShares a = if decide (k' = k) then v else 0.
Proof.
  intros Hr. pose proof Hr as (Hs&Hne&Hk&Hall). destruct (account_of k' r) as [a|] eqn:Ha.
  - rewrite (get_account_present k' r a Ha). by destruct (Hall k' a Ha).
  - assert (Hkk : k' <> k) by (intros ->; rewrite Ha in Hk; by destruct Hk).
    unfold get_account, Database.GetRecord. unfold account_of in Ha. rewrite Ha.
    split; [|split; [by split; intros|by rewrite decide_False]].
    assert (Hins : forall k2, account_of k2 (set_accounts (map_insert k' blank (m_account_db r)) r) =
      if decide (k2 = k') then Some blank else account_of k2 r).
    { intros k2. unfold account_of. cbn [m_account_db set_accounts]. case_decide as H2.
      - subst. apply find_insert_eq.
      - by apply find_insert_ne. }
    split; [by apply insert_sorted|]. split; [done|]. split; [by rewrite Hins, decide_False|].
    intros k2 a2. rewrite Hins. case_decide as H2; [|apply Hall]. intros [= <-]. subst k2.
    split; [by split; intros|by rewrite decide_False].
Qed.

Lemma shares_coinbase k v c r : shares_at k v r -> shares_at k v (set_coinbase_of c r).
Proof. by destruct r. Qed.

Lemma shares_sum k keys n r :
  fits 64 n -> shares_at k 0 r -> exists r', sum_weights keys n r = (n, r') /\ shares_at k 0 r'.
Proof.
  intros Hn. revert r. induction keys as [|k' keys IH]; intros r Hr; [by exists r|].
  cbn [sum_weights]. pose proof (shares_get k 0 k' r Hr) as Hg.
  destruct (get_account k' r) as [a r1]. destruct Hg as (Hr1&_&Ha).
  assert (Account.nRoundShares a = 0) as -> by (rewrite Ha; by case_decide).
  rewrite Z.add_0_r, wrap_small by done. by apply IH.
Qed.

Lemma shares_finder k last reward r st r' :
  shares_at k 0 r -> pay_finder last reward r = Some (st, r') -> shares_at k 0 r'.
Proof.
  intros Hr. unfold pay_finder. case_decide; [by intros [= _ <-]|].
  intros (c&_&Hfin)%bind_Some. pose proof (shares_get k 0 last r Hr) as Hg.
  destruct (get_account last r) as [a r1]. destruct Hg as (Hr1&_&Ha). injection Hfin as _ <-.
  apply (shares_update k 0 0); [done..|]. cbn. rewrite Ha. by repeat case_decide.
Qed.

(** An account without shares is passed over, what the coinbase paid it aside. *)
Lemma credit_other k v W reward k' st r :
  shares_at k v r -> k' <> k ->
  exists r', run_alone (credit_account_t W reward k' st) r = Some (st, r') /\ shares_at k v r'.
Proof.
  intros Hr Hne. rewrite credit_account_alone. destruct st as [n credits]. unfold credit_account.
  pose proof (shares_get k v k' r Hr) as Hg. destruct (get_account k' r) as [a r1].
  destruct Hg as (Hr1&Hkey&Ha). rewrite decide_False in Ha by done.
  destruct (Coinbase.find_address k' (m_coinbase r1)).
  - destruct (Coinbase.get_map_outputs k' (m_coinbase r1)) as [x c]. cbv beta iota zeta.
    change (Account.nRoundShares (deduct x a)) with (Account.nRoundShares a). rewrite Ha. eexists. split; [done|]. apply (shares_update k v v); [by apply shares_coinbase|done|].
    cbn. rewrite decide_False; [done|]. by intros ?%Hkey.
  - rewrite Ha. by exists r1.
Qed.

Lemma run_GetRecord k r a r1 : get_account k r = (a, r1) -> run_alone (GetRecord k) r = Some (a, r1).
Proof. intros Eg. unfold GetRecord. cbn [run_alone]. unfold mbind, M_bind. by rewrite Eg. Qed.

Lemma run_find_address k r :
  run_alone (find_address_t k) r = Some (Coinbase.find_address k (m_coinbase r), r).
Proof. done. Qed.

(** The account with shares is stuck when the total is zero. *)
Lemma credit_stuck k v reward st r :
  shares_at k v r -> 0 < v <= 2 ^ 53 ->
  exists q r', goes (credit_account_t 0 reward k st) r q r' /\ stuck q r' /\ shares_at k v r'.
Proof.
  intros Hr Hv. destruct st as [n credits]. unfold credit_account_t.
  pose proof (shares_get k v k r Hr) as Hg. destruct (get_account k r) as [a r1] eqn:Eg.
  destruct Hg as (Hr1&Hkey&Ha). rewrite decide_True in Ha by done.
  pose (rest := fun a' : Account.t =>
    if Account.nRoundShares a' =? 0 then Ret (n, credits) else
    nCredit ← lift_t (share_credit (Account.nRoundShares a') 0 reward);
    UpdateRecord (add_balance nCredit a') ;;
    Ret (u64 (n + nCredit), Credits.AddCredit k nCredit credits)).
  assert (Hlast : forall a' r2, Account.nRoundShares a' = v -> stuck (rest a') r2).
  { intros a' r2 Ha'. unfold rest. rewrite Ha', (proj2 (Z.eqb_neq _ _)) by lia.
    apply stuck_bind. cbn. unfold lift. by rewrite credit_over_zero. }
  destruct (Coinbase.find_address k (m_coinbase r1)) eqn:Ef.
  - destruct (Coinbase.get_map_outputs k (m_coinbase r1)) as [x c] eqn:Ec.
    set (r2 := update_account (deduct x a) (set_coinbase_of c r1)).
    exists (rest (deduct x a)), r2. split; [|split; [by apply Hlast|]].
    + eapply goes_trans; [by apply (goes_next (GetRecord k) _ _ a r1), run_GetRecord|].
      eapply goes_trans; [apply (goes_next (find_address_t k) _ _ true r1); by rewrite run_find_address, Ef|].
      apply (goes_next _ rest r1 (deduct x a) r2).
      rewrite run_alone_mbind. unfold get_map_outputs_t. cbn [run_alone]. unfold mbind at 1, M_bind.
      unfold mbind at 1. by rewrite Ec.
    + apply (shares_update k v v); [by apply shares_coinbase|done|]. cbn.
      rewrite decide_True; [done|by apply Hkey].
  - exists (rest a), r1. split; [|split; [by apply Hlast|done]].
    eapply goes_trans; [by apply (goes_next (GetRecord k) _ _ a r1), run_GetRecord|].
    eapply goes_trans; [apply (goes_next (find_address_t k) _ _ false r1); by rewrite run_find_address, Ef|].
    by apply (goes_next _ rest r1 a r1).
Qed.

(** A payment gets stuck at the account with shares. *)
Lemma credits_stuck k v reward keys st r :
  shares_at k v r -> 0 < v <= 2 ^ 53 -> k ∈ keys ->
  exists q r', goes (credit_accounts_t 0 reward keys st) r q r' /\ stuck q r' /\ shares_at k v r'.
Proof.
  intros Hr Hv. revert r Hr. induction keys as [|k' keys IH]; intros r Hr Hin; [by apply not_elem_of_nil in Hin|].
  cbn [credit_accounts_t]. destruct (decide (k' = k)) as [->|Hne].
  - destruct (credit_stuck k v reward st r Hr Hv) as (q&r'&Hq&Hst&Hr'). eexists _, r'.
    split; [by apply goes_bind|]. split; [by apply stuck_bind|done].
  - apply elem_of_cons in Hin as [->|Hin]; [done|].
    destruct (credit_other k v 0 reward k' st r Hr Hne) as (r1&H1&Hr1).
    destruct (IH r1 Hr1 Hin) as (q&r'&Hq&Hst&Hr'). exists q, r'. split; [|by split].
    eapply goes_trans; [by apply goes_next|exact Hq].
Qed.

(** A payment runs up to its second pass, with a total of zero. *)
Lemma payment_totals k reward hash last r paid :
  shares_at k 0 r -> update_balances reward hash last r = Some paid ->
  exists R st keys (rest : Z * Credits.t -> prog Data_registry unit) r1,
    goes (update_balances_t reward hash last) r (credit_accounts_t 0 R keys st ≫= rest) r1 /\
    shares_at k 0 r1 /\ k ∈ keys.
Proof.
  intros Hr Hup. unfold update_balances in Hup.
  apply bind_Some in Hup as ([[R credits] r1]&Hfin&_).
  pose proof (shares_finder _ _ _ _ _ _ Hr Hfin) as Hr1.
  destruct (shares_sum k (Database.GetKeys (m_account_db r1)) 0 r1) as (r2&Hsum&Hr2); [done..|].
  eexists R, (0, credits), (Database.GetKeys (m_account_db r2)), _, r2. split; [|split; [done|]].
  - unfold update_balances_t.
    do 3 (eapply goes_trans; [apply (goes_next (Atomic _ Ret)); reflexivity|]).
    eapply goes_trans; [apply (goes_next (pay_finder_t _ _)); rewrite pay_finder_alone; exact Hfin|].
    eapply goes_trans; [apply (goes_next total_weight_t); rewrite total_weight_alone; unfold total_weight;
      rewrite Hsum; reflexivity|].
    eapply goes_trans; [apply (goes_next GetKeys); reflexivity|]. cbv beta zeta. constructor.
  - destruct Hr2 as (Hs&_&Hk&_). unfold Database.GetKeys. apply find_is_Some; [exact Hs|exact Hk].
Qed.

(** C26: the first share of a round, credited between the two passes of a payment.  Let no account
    have shares, and let the payment be defined when it runs alone, whoever the last finder is and
    whatever the coinbase pays.  A connection that credits a share to any account after the payment
    has summed the weights, and before it comes to that account, leaves the payment at a division
    by the total of zero: its next operation, the conversion of an infinity, is undefined. *)
Theorem stale_weight k weight reward hash last r paid :
  shares_at k 0 r -> 0 < weight <= 2 ^ 53 -> update_balances reward hash last r = Some paid ->
  exists schedule ts' r' p,
    interleave schedule [credit_share k weight; update_balances_t reward hash last] r = Some (ts', r') /\
    ts' !! 0%nat = Some (Ret tt) /\ ts' !! 1%nat = Some p /\ finished p = false /\ step p r' = None.
Proof.
  intros Hr Hw Hup. destruct (payment_totals _ _ _ _ _ _ Hr Hup) as (R&st&keys&rest&r1&Hgo&Hr1&Hin).
  pose proof (shares_get k 0 k r1 Hr1) as Hg. destruct (get_account k r1) as [a r2] eqn:Eg.
  destruct Hg as (Hr2&Hkey&Ha). rewrite decide_True in Ha by done.
  set (b := Account.set_shares (u64 (Account.nRoundShares a + weight)) a).
  assert (Hb : Account.nRoundShares b = weight) by (cbn; rewrite Ha; apply wrap_small; unfold fits; lia).
  assert (Hr3 : shares_at k weight (update_account b r2)).
  { apply (shares_update k 0); [done|intros []; by apply Hkey|].
    rewrite Hb, decide_True; [done|]. by apply Hkey. }
  assert (Hcredit : goes (credit_share k weight) r1 (Ret tt) (update_account b r2)).
  { apply goes_alone. unfold credit_share. cbn -[get_account]. unfold mbind, M_bind. by rewrite Eg. }
  destruct (credits_stuck k weight R keys st _ Hr3 Hw Hin) as (q&r4&Hq&Hst&_).
  destruct (goes_schedule _ _ _ _ Hgo) as [n1 H1], (goes_schedule _ _ _ _ Hcredit) as [n2 H2],
    (goes_schedule _ _ _ _ (goes_bind _ _ rest _ _ Hq)) as [n3 H3].
  exists (replicate n1 1%nat ++ replicate n2 0%nat ++ replicate n3 1%nat).
  eexists _, r4, (q ≫= rest). split.
  { rewrite interleave_app, (H1 1%nat) by done. cbn [mbind option_bind list_insert insert].
    rewrite interleave_app, (H2 0%nat) by done. cbn [mbind option_bind list_insert insert].
    by rewrite (H3 1%nat). }
  split; [done|]. split; [done|]. pose proof (stuck_bind q rest r4 Hst) as Hs.
  destruct (q ≫= rest) as [|B f g]; [done|]. split; [done|]. cbn in *. by rewrite Hs.
Qed.
End payout_race.

(** ** Witnesses *)
Definition example_work `{Platform} : list (prog Data_registry unit) :=
  [credit_share [Byte.x41] 7; adjust_accounts_t deduct [([Byte.x42], 20)]].

Lemma separate_accounts_witness :
  let _ := zero_platform in
  exists ts' r', interleave [0; 1; 0; 1]%nat example_work (example_registry 0) = Some (ts', r') /\
    exists r1, run_alone (credit_share [Byte.x41] 7) (example_registry 0) = Some (tt, r1) /\
      same_on [[Byte.x41]] r1 r'.
Proof.
  pose (P := zero_platform). eexists _, _. split; [vm_compute; reflexivity|].
  edestruct (separate_accounts [[[Byte.x41]]; [[Byte.x42]]] example_work (example_registry 0)
    [0; 1; 0; 1]%nat) as (Halone&_).
  - repeat constructor. exact (deduct_work [([Byte.x42], 20)]).
  - intros i j K K' x Hi Hj Hx Hx'. destruct i as [|[|i]], j as [|[|j]]; try done; exfalso;
      injection Hi as <-; injection Hj as <-; apply list_elem_of_singleton in Hx as ->;
      by apply list_elem_of_singleton in Hx'.
  - repeat constructor; try done; intros ? ->%list_elem_of_singleton; by eexists.
  - by repeat constructor.
  - vm_compute. reflexivity.
  - by repeat constructor.
  - exact (Halone O _ _ eq_refl eq_refl).
Defined.

Lemma shares_race_witness :
  let _ := zero_platform in
  exists schedule ts' r', interleave schedule (credit_share [Byte.x41] <$> [5; 7]) (example_registry 0) =
      Some (ts', r') /\
    (fun a => Account.nRoundShares a) <$> account_of [Byte.x41] r' = Some 107.
Proof.
  pose (P := zero_platform).
  destruct (shares_race [Byte.x41] (Account.mk [Byte.x41] 500 100 0) [5; 7] (example_registry 0))
    as [_ Hsel]; [by repeat constructor|by vm_compute|done|done|by repeat constructor|done|done|].
  destruct (Hsel (fun i => bool_decide (i = 1%nat)) 1%nat) as (schedule&ts'&r'&Hrun&_&Ha);
    [cbn; lia|done|].
  exists schedule, ts', r'. split; [exact Hrun|]. by rewrite Ha.
Defined.

Lemma payout_race_witness :
  let _ := zero_platform in
  exists schedule r',
    interleave schedule [credit_share [Byte.x41] 5; accepted_t 1000 5 [Byte.x42]] (example_registry 0) =
      Some ([Ret tt; Ret tt], r') /\
    account_of [Byte.x41] r' = Some (Account.mk [Byte.x41] 500 105 0).
Proof.
  pose (P := zero_platform).
  destruct (payout_race [Byte.x41] (Account.mk [Byte.x41] 500 100 0) 5 1000 5 [Byte.x42]
    (example_registry 0) (default (example_registry 0) (update_balances 1000 5 [Byte.x42] (example_registry 0))))
    as (schedule&r'&Hrun&Ha&_); [by repeat constructor|by vm_compute|done|by vm_compute|].
  exists schedule, r'. exact (conj Hrun Ha).
Defined.

(** Two accounts without shares: the coinbase pays the one whose miner found the last block. *)
Definition quiet_registry : Data_registry :=
  set_accounts [([Byte.x41], Account.mk [Byte.x41] 500 0 0); ([Byte.x42], Account.mk [Byte.x42] 700 0 0)]
    (example_registry 0).

Lemma stale_weight_witness :
  let _ := zero_platform in
  exists schedule ts' r', interleave schedule
      [credit_share [Byte.x42] 5; update_balances_t 1000 5 [Byte.x41]] quiet_registry = Some (ts', r') /\
    exists p, ts' !! 1%nat = Some p /\ step p r' = None.
Proof.
  pose (P := zero_platform).
  destruct (update_balances 1000 5 [Byte.x41] quiet_registry) as [paid|] eqn:E.
  2:{ exfalso. vm_compute in E. discriminate E. }
  destruct (stale_weight [Byte.x42] 5 1000 5 [Byte.x41] quiet_registry paid)
    as (schedule&ts'&r'&p&Hrun&_&Hp&_&Hs); [|lia|exact E|].
  - split; [by repeat constructor|]. split; [done|]. split; [by eexists|]. intros k' a Hk.
    apply find_Some in Hk; [|by repeat constructor].
    apply elem_of_cons in Hk as [[= -> ->]|Hk]; [by split|]. apply list_elem_of_singleton in Hk as [= -> ->].
    by split.
  - exists schedule, ts', r'. split; [exact Hrun|]. by exists p.
Defined.

Lemma login_race_witness :
  let _ := zero_platform in
  exists schedule r', interleave schedule
      [login_account [Byte.x43]; login_account [Byte.x43] ≫= fun _ => credit_share [Byte.x43] 7]
      (example_registry 0) = Some ([Ret tt; Ret tt], r') /\
    account_of [Byte.x43] r' = Some (Account.new [Byte.x43]).
Proof.
  pose (P := zero_platform).
  destruct (run_alone (login_account [Byte.x43] ≫= fun _ => credit_share [Byte.x43] 7) (example_registry 0))
    as [[[] r1]|] eqn:E; [|exfalso; vm_compute in E; discriminate E].
  destruct (login_race [Byte.x43] (credit_share [Byte.x43] 7) (example_registry 0) r1)
    as (schedule&r'&Hrun&Ha&_); [by repeat constructor|apply credit_share_keeps|by vm_compute|exact E|].
  exists schedule, r'. exact (conj Hrun Ha).
Defined.
