(* ===== verification/World.v ===== *)
(** * The running pool: the objects the handlers share

    A [World] holds the registry, the one [Daemon_connection], the [Pool_connection]s, the globals
    of [prime.hpp], the clock and the log of what was transmitted.  The handlers of
    [Pool_conn] and [Daemon_conn] are computations in [M World]; [None] is undefined behaviour,
    such as a call through a null pointer. *)
From S2P Require Import Prelude Bytes StdMap Packet Coinbase LLD CBlock Ddos Banned Prime Registry.

(** [network::Result::Code], with the values of the categories *)
Module Result.
Inductive Code :=
  | ok | error
  | socket_ok | socket_error
  | connection_ok | connection_error | connection_closed | connection_aborted | connection_declined
  | receive_ok
  | transmit_ok.

#[export] Instance Code_eq_dec : EqDecision Code.
Proof. solve_decision. Defined.

Definition value (c : Code) : Z :=
  match c with
  | ok => 0 | error => 1
  | socket_ok => 16 | socket_error => 17
  | connection_ok => 32 | connection_error => 33 | connection_closed => 34
  | connection_aborted => 35 | connection_declined => 36
  | receive_ok => 48
  | transmit_ok => 64
  end.

Definition category (c : Code) : Z := Z.land (value c) 240.
Definition is_ok (c : Code) : bool := Z.land (value c) 15 =? 0.
Definition is_error (c : Code) : bool := negb (is_ok c).
End Result.

(** ** A connection to a miner.  [m_connection] is whether the pointer is non-null. *)
Record Pool_connection := mk_pool {
  m_connection : bool;
  m_ddos : option DDOS_Filter;
  m_primes : gset Z;
  m_blocks_requested : smap Z CBlock;
  m_nxsaddress : bytes;
  m_logged_in : bool;
  m_isDDOS : bool;
  m_min_share : Z;
  m_connection_closed : bool;
  m_remote_address : bytes;
  m_num_blocks_requested : Z;
}.

Definition closed (p : Pool_connection) : bool := m_connection_closed p.
Definition get_remote_address (p : Pool_connection) : bytes := m_remote_address p.
Definition get_nxs_address (p : Pool_connection) : bytes := m_nxsaddress p.

(** Assignments to single members. *)
Definition set_ddos d p := mk_pool (m_connection p) d (m_primes p) (m_blocks_requested p)
  (m_nxsaddress p) (m_logged_in p) (m_isDDOS p) (m_min_share p) (m_connection_closed p)
  (m_remote_address p) (m_num_blocks_requested p).
Definition set_primes s p := mk_pool (m_connection p) (m_ddos p) s (m_blocks_requested p)
  (m_nxsaddress p) (m_logged_in p) (m_isDDOS p) (m_min_share p) (m_connection_closed p)
  (m_remote_address p) (m_num_blocks_requested p).
Definition set_requested m p := mk_pool (m_connection p) (m_ddos p) (m_primes p) m
  (m_nxsaddress p) (m_logged_in p) (m_isDDOS p) (m_min_share p) (m_connection_closed p)
  (m_remote_address p) (m_num_blocks_requested p).
Definition set_address a p := mk_pool (m_connection p) (m_ddos p) (m_primes p)
  (m_blocks_requested p) a (m_logged_in p) (m_isDDOS p) (m_min_share p) (m_connection_closed p)
  (m_remote_address p) (m_num_blocks_requested p).
Definition set_logged_in b p := mk_pool (m_connection p) (m_ddos p) (m_primes p)
  (m_blocks_requested p) (m_nxsaddress p) b (m_isDDOS p) (m_min_share p) (m_connection_closed p)
  (m_remote_address p) (m_num_blocks_requested p).
Definition set_remote a p := mk_pool (m_connection p) (m_ddos p) (m_primes p)
  (m_blocks_requested p) (m_nxsaddress p) (m_logged_in p) (m_isDDOS p) (m_min_share p)
  (m_connection_closed p) a (m_num_blocks_requested p).
Definition set_num n p := mk_pool (m_connection p) (m_ddos p) (m_primes p)
  (m_blocks_requested p) (m_nxsaddress p) (m_logged_in p) (m_isDDOS p) (m_min_share p)
  (m_connection_closed p) (m_remote_address p) n.
(** [m_connection = nullptr; m_connection_closed = true;] *)
Definition close_pool p := mk_pool false (m_ddos p) (m_primes p) (m_blocks_requested p)
  (m_nxsaddress p) (m_logged_in p) (m_isDDOS p) (m_min_share p) true (m_remote_address p)
  (m_num_blocks_requested p).

(** ** The connection to the daemon *)
Record Pool_connection_data := mk_pool_data {
  pd_connection : nat;
  pd_blocks_requested : Z;
  pd_blocks_waiting : Z;
  pd_submit_block : option CBlock;
}.

Record Daemon_connection := mk_daemon {
  d_connection : bool;
  m_pool_connections : list Pool_connection_data;
  m_coinbase_pending : bool;
  m_new_block : bool;
  m_round_reward : Z;
  m_last_blockfinder : bytes;
  m_hash_submit_block : Z;
}.

Definition set_d_connection b d := mk_daemon b (m_pool_connections d) (m_coinbase_pending d)
  (m_new_block d) (m_round_reward d) (m_last_blockfinder d) (m_hash_submit_block d).
Definition set_pool_list l d := mk_daemon (d_connection d) l (m_coinbase_pending d)
  (m_new_block d) (m_round_reward d) (m_last_blockfinder d) (m_hash_submit_block d).
Definition set_pending b d := mk_daemon (d_connection d) (m_pool_connections d) b
  (m_new_block d) (m_round_reward d) (m_last_blockfinder d) (m_hash_submit_block d).
Definition set_new_block b d := mk_daemon (d_connection d) (m_pool_connections d)
  (m_coinbase_pending d) b (m_round_reward d) (m_last_blockfinder d) (m_hash_submit_block d).
Definition set_reward n d := mk_daemon (d_connection d) (m_pool_connections d)
  (m_coinbase_pending d) (m_new_block d) n (m_last_blockfinder d) (m_hash_submit_block d).
Definition set_finder a d := mk_daemon (d_connection d) (m_pool_connections d)
  (m_coinbase_pending d) (m_new_block d) (m_round_reward d) a (m_hash_submit_block d).
Definition set_submit_hash h d := mk_daemon (d_connection d) (m_pool_connections d)
  (m_coinbase_pending d) (m_new_block d) (m_round_reward d) (m_last_blockfinder d) h.

(** ** The world *)

(** Where a transmission goes: the wallet daemon or the miner of a connection. *)
Inductive peer := Wallet | Miner (self : nat).

(** [pools] has the connections some [shared_ptr] still owns; a [weak_ptr] to another one has
    expired.  [daemon_alive] and [registry_alive] say whether the other two [weak_ptr]s lock. *)
Record World := mk_world {
  registry : Data_registry;
  registry_alive : bool;
  daemon : Daemon_connection;
  daemon_alive : bool;
  pools : gmap nat Pool_connection;
  globals : prime_globals;
  clock : Z;
  sent : list (peer * bytes);
}.

Definition with_registry r w := mk_world r (registry_alive w) (daemon w) (daemon_alive w) (pools w)
  (globals w) (clock w) (sent w).
Definition with_daemon d w := mk_world (registry w) (registry_alive w) d (daemon_alive w) (pools w)
  (globals w) (clock w) (sent w).
Definition with_pools ps w := mk_world (registry w) (registry_alive w) (daemon w) (daemon_alive w)
  ps (globals w) (clock w) (sent w).
Definition with_clock t w := mk_world (registry w) (registry_alive w) (daemon w) (daemon_alive w)
  (pools w) (globals w) t (sent w).
Definition with_sent l w := mk_world (registry w) (registry_alive w) (daemon w) (daemon_alive w)
  (pools w) (globals w) (clock w) l.

(** ** The steps of the handlers *)
Abbreviation handler := (M World unit).

Definition modify_registry (f : Data_registry -> Data_registry) : handler :=
  modify (fun w => with_registry (f (registry w)) w).
Definition modify_daemon (f : Daemon_connection -> Daemon_connection) : handler :=
  modify (fun w => with_daemon (f (daemon w)) w).

(** A registry operation with a result. *)
Definition on_registry {A} (f : Data_registry -> A * Data_registry) : M World A :=
  fun w => let '(a, r) := f (registry w) in Some (a, with_registry r w).

(** The object [self] points to. *)
Definition this (self : nat) : M World Pool_connection := w ← get; lift (pools w !! self).
Definition modify_pool (self : nat) (f : Pool_connection -> Pool_connection) : handler :=
  p ← this self; modify (fun w => with_pools (<[self := f p]> (pools w)) w).

(** [m_connection->transmit(packet.get_bytes())]; the pointer must not be null. *)
Definition transmit_miner (self : nat) (p : packet) : handler :=
  c ← this self;
  if negb (m_connection c) then undefined else
  data ← lift (get_bytes p);
  modify (fun w => with_sent (sent w ++ [(Miner self, data)]) w).
Definition transmit_wallet (p : packet) : handler :=
  d ← gets daemon;
  if negb (d_connection d) then undefined else
  data ← lift (get_bytes p);
  modify (fun w => with_sent (sent w ++ [(Wallet, data)]) w).

(** ** What the steps do *)
Definition edit_pool (self : nat) (f : Pool_connection -> Pool_connection) (w : World) : World :=
  with_pools (alter f self (pools w)) w.
Definition log (to : peer) (data : bytes) (w : World) : World :=
  with_sent (sent w ++ [(to, data)]) w.


(** ** Lemmas: the steps, and what a step that was defined did *)
Lemma pool_lookup self p w : pools w !! self = Some p -> this self w = Some (p, w).
Proof. intros Hp. unfold this, mbind, M_bind, get, lift. by rewrite Hp. Qed.

Lemma modify_pool_run self f w :
  is_Some (pools w !! self) -> modify_pool self f w = Some (tt, edit_pool self f w).
Proof.
  intros [p Hp]. unfold modify_pool, this, mbind, M_bind, get, lift. rewrite Hp.
  unfold modify, edit_pool. do 3 f_equal. apply map_eq. intros i.
  destruct (decide (self = i)) as [->|Hne].
  - by rewrite lookup_insert_eq, lookup_alter_eq, Hp.
  - by rewrite lookup_insert_ne, lookup_alter_ne.
Qed.

Lemma transmit_miner_run self pk data p w :
  pools w !! self = Some p -> m_connection p = true -> get_bytes pk = Some data ->
  transmit_miner self pk w = Some (tt, log (Miner self) data w).
Proof.
  intros Hp Hc Hd. unfold transmit_miner, this, mbind, M_bind, get, lift. by rewrite Hp, Hc, Hd.
Qed.

Lemma transmit_miner_null self pk p w :
  pools w !! self = Some p -> m_connection p = false -> transmit_miner self pk w = None.
Proof.
  intros Hp Hc. unfold transmit_miner, this, mbind, M_bind, get, lift. by rewrite Hp, Hc.
Qed.

Lemma transmit_wallet_run pk data w :
  d_connection (daemon w) = true -> get_bytes pk = Some data ->
  transmit_wallet pk w = Some (tt, log Wallet data w).
Proof.
  intros Hc Hd. unfold transmit_wallet, gets, mbind, M_bind, lift. by rewrite Hc, Hd.
Qed.

Lemma this_inv self w p w' : this self w = Some (p, w') -> pools w !! self = Some p /\ w' = w.
Proof. unfold this, mbind, M_bind, get, lift. destruct (pools w !! self); by intros [= <- <-]. Qed.

Lemma lift_inv {S A} (o : option A) (s : S) a s' : lift o s = Some (a, s') -> o = Some a /\ s' = s.
Proof. unfold lift. destruct o; by intros [= <- <-]. Qed.

Lemma modify_pool_inv self f w u w' :
  modify_pool self f w = Some (u, w') -> is_Some (pools w !! self) /\ w' = edit_pool self f w.
Proof.
  intros Hm. assert (Hp : is_Some (pools w !! self)).
  { unfold modify_pool, this, mbind, M_bind, get, lift in Hm. by destruct (pools w !! self). }
  split; [done|]. rewrite modify_pool_run in Hm by done. congruence.
Qed.

Lemma transmit_miner_inv self pk w u w' :
  transmit_miner self pk w = Some (u, w') ->
  exists p data, pools w !! self = Some p /\ m_connection p = true /\ get_bytes pk = Some data /\
    w' = log (Miner self) data w.
Proof.
  unfold transmit_miner, this, mbind, M_bind, get, lift.
  destruct (pools w !! self) as [p|]; [|done]. destruct (m_connection p) eqn:Hc; [|done].
  destruct (get_bytes pk) as [data|]; [|done]. intros [= <-]. by exists p, data.
Qed.

Lemma transmit_wallet_inv pk w u w' :
  transmit_wallet pk w = Some (u, w') ->
  exists data, d_connection (daemon w) = true /\ get_bytes pk = Some data /\ w' = log Wallet data w.
Proof.
  unfold transmit_wallet, gets, mbind, M_bind, lift.
  destruct (d_connection (daemon w)) eqn:Hc; [|done].
  destruct (get_bytes pk) as [data|]; [|done]. intros [= <-]. by exists data.
Qed.

(** Takes a run of a handler that was defined apart, step by step. *)
Ltac unstep :=
  match goal with
  | H : @mbind (M _) _ _ _ _ _ _ = Some _ |- _ =>
      let a := fresh "a" in let w := fresh "w" in let Hr := fresh "Hr" in
      apply M_bind_Some in H as (a&w&Hr&H)
  | H : this _ _ = Some _ |- _ =>
      let Hp := fresh "Hp" in apply this_inv in H as [Hp ->]
  | H : lift _ _ = Some _ |- _ =>
      let Ho := fresh "Ho" in apply lift_inv in H as [Ho ->]
  | H : get _ = Some _ |- _ => injection H as <- <-
  | H : gets _ _ = Some _ |- _ => injection H as <- <-
  | H : modify _ _ = Some _ |- _ => injection H as <- <-
  | H : modify_daemon _ _ = Some _ |- _ => injection H as <- <-
  | H : @mret (M _) _ _ _ _ = Some _ |- _ => first [injection H as <- <-|injection H as <-]
  | H : undefined _ = Some _ |- _ => discriminate H
  end.
Ltac unrun := cbv zeta in *; repeat unstep.

(** ** Total correctness: [runs m w Q] says that [m] is defined from [w] and ends in [Q] *)
Definition runs {A} (m : M World A) (w : World) (Q : A -> World -> Prop) : Prop :=
  exists a w', m w = Some (a, w') /\ Q a w'.

Lemma runs_bind {A B} (m : M World A) (f : A -> M World B) w Q :
  runs m w (fun a w' => runs (f a) w' Q) -> runs (m ≫= f) w Q.
Proof.
  intros (a&w'&Hm&b&w''&Hf&HQ). exists b, w''. split; [|done]. by rewrite (M_bind_run _ _ _ _ _ Hm).
Qed.

Lemma runs_impl {A} (m : M World A) w (P Q : A -> World -> Prop) :
  runs m w P -> (forall a w', P a w' -> Q a w') -> runs m w Q.
Proof. intros (a&w'&Hm&HP) HPQ. exists a, w'. auto. Qed.

Lemma runs_ret {A} (a : A) w (Q : A -> World -> Prop) : Q a w -> runs (mret a) w Q.
Proof. intros HQ. by exists a, w. Qed.

Lemma runs_get w (Q : World -> World -> Prop) : Q w w -> runs get w Q.
Proof. intros HQ. by exists w, w. Qed.

Lemma runs_gets {A} (f : World -> A) w (Q : A -> World -> Prop) : Q (f w) w -> runs (gets f) w Q.
Proof. intros HQ. by exists (f w), w. Qed.

Lemma runs_modify f w (Q : unit -> World -> Prop) : Q tt (f w) -> runs (modify f) w Q.
Proof. intros HQ. by exists tt, (f w). Qed.

Lemma runs_registry f w (Q : unit -> World -> Prop) :
  Q tt (with_registry (f (registry w)) w) -> runs (modify_registry f) w Q.
Proof. apply runs_modify. Qed.

Lemma runs_daemon f w (Q : unit -> World -> Prop) :
  Q tt (with_daemon (f (daemon w)) w) -> runs (modify_daemon f) w Q.
Proof. apply runs_modify. Qed.

Lemma runs_lift {A} (o : option A) a w (Q : A -> World -> Prop) :
  o = Some a -> Q a w -> runs (lift o) w Q.
Proof. intros -> HQ. by exists a, w. Qed.

Lemma runs_this self p w (Q : Pool_connection -> World -> Prop) :
  pools w !! self = Some p -> Q p w -> runs (this self) w Q.
Proof.
  intros Hp HQ. exists p, w. split; [|done]. unfold this, mbind, M_bind, get, lift. by rewrite Hp.
Qed.

Lemma runs_modify_pool self f w (Q : unit -> World -> Prop) :
  is_Some (pools w !! self) -> Q tt (edit_pool self f w) -> runs (modify_pool self f) w Q.
Proof. intros Hp HQ. exists tt, (edit_pool self f w). split; [by apply modify_pool_run|done]. Qed.

Lemma runs_transmit_miner self pk data p w (Q : unit -> World -> Prop) :
  pools w !! self = Some p -> m_connection p = true -> get_bytes pk = Some data ->
  Q tt (log (Miner self) data w) -> runs (transmit_miner self pk) w Q.
Proof. intros Hp Hc Hd HQ. exists tt, (log (Miner self) data w). split; [by eapply transmit_miner_run|done]. Qed.

Lemma runs_transmit_wallet pk data w (Q : unit -> World -> Prop) :
  d_connection (daemon w) = true -> get_bytes pk = Some data ->
  Q tt (log Wallet data w) -> runs (transmit_wallet pk) w Q.
Proof. intros Hc Hd HQ. exists tt, (log Wallet data w). split; [by apply transmit_wallet_run|done]. Qed.

Lemma runs_when b m w (Q : unit -> World -> Prop) :
  (b = true -> runs m w Q) -> (b = false -> Q tt w) -> runs (when b m) w Q.
Proof. destruct b; cbn; intros Ht Hf; [by apply Ht|apply runs_ret; by apply Hf]. Qed.

Lemma edit_lookup self f p w :
  pools w !! self = Some p -> pools (edit_pool self f w) !! self = Some (f p).
Proof. intros Hp. unfold edit_pool. cbn. by rewrite lookup_alter_eq, Hp. Qed.

(** One step of a run whose next step is known. *)
Ltac step :=
  lazymatch goal with
  | |- runs (_ ≫= _) _ _ => apply runs_bind
  | |- runs (mret _) _ _ => apply runs_ret
  | |- runs get _ _ => apply runs_get
  | |- runs (gets _) _ _ => apply runs_gets
  | |- runs (modify_registry _) _ _ => apply runs_registry
  | |- runs (modify_daemon _) _ _ => apply runs_daemon
  | |- runs (this _) _ _ => eapply runs_this; [eassumption|]
  | |- runs (lift _) _ _ => eapply runs_lift; [eassumption|]
  | |- runs (modify_pool _ _) _ _ => apply runs_modify_pool; [by eexists; eauto using edit_lookup|]
  end.

(** ** A world for the witnesses: two miners at one address, round 3, height 7 *)
Definition example_pool : Pool_connection :=
  mk_pool true (Some (new_filter 30 [Byte.x31] 0)) ∅ [] [] false true 1 false [Byte.x31] 0.
Definition example_entry (self : nat) : Pool_connection_data := mk_pool_data self 0 0 None.
Definition example_daemon : Daemon_connection :=
  mk_daemon true [example_entry 0; example_entry 1] false false 1000 [] 0.
Definition example_records : Data_registry :=
  mk_registry [([Byte.x41], Account.mk [Byte.x41] 500 0 0)] [] None None new_banned
    (Coinbase.with_reward 100) 7 3 (mk_config 0 1 true 10).
Definition example_world (p : Pool_connection) : World :=
  mk_world example_records true example_daemon true {[ 0%nat := p; 1%nat := example_pool ]}
    static_globals 5000000000 [].

Lemma example_miner p : pools (example_world p) !! 0%nat = Some p.
Proof. cbn. apply lookup_insert_eq. Qed.
