(* ===== verification/Daemon_queue.v ===== *)
(** * The requests of the miners' connections: the shared list of [daemon_connection.cpp]

    The daemon connection keeps an entry per pool connection: how many blocks it wants, how many
    are under way, and the block it submits.  [Daemon_api] is what a pool connection may rely on;
    [daemon_list] is the implementation.  An entry refers to its connection weakly: it is alive
    when the connection is in [pools]. *)
From S2P Require Import Prelude CBlock Registry World.

(** What a pool connection sees of a call to the daemon: its own state, the registry and what was
    transmitted are as before. *)
Definition daemon_only (w w' : World) : Prop :=
  pools w' = pools w /\ registry w' = registry w /\ sent w' = sent w /\ globals w' = globals w /\
  clock w' = clock w /\ registry_alive w' = registry_alive w /\ daemon_alive w' = daemon_alive w.

Class Daemon_api := {
  add_pool_connection : nat -> handler;
  request_block : Z -> bytes -> handler;
  submit_block : CBlock -> bytes -> M World bool;
  add_pool_connection_frame : forall self w u w',
    add_pool_connection self w = Some (u, w') -> daemon_only w w';
  request_block_frame : forall n ip w u w',
    request_block n ip w = Some (u, w') -> daemon_only w w';
  submit_block_frame : forall b ip w r w',
    submit_block b ip w = Some (r, w') -> daemon_only w w';
}.

(** ** The operations on the list *)
Definition set_pd_requested n e :=
  mk_pool_data (pd_connection e) n (pd_blocks_waiting e) (pd_submit_block e).
Definition set_pd_waiting n e :=
  mk_pool_data (pd_connection e) (pd_blocks_requested e) n (pd_submit_block e).
Definition set_pd_submit b e :=
  mk_pool_data (pd_connection e) (pd_blocks_requested e) (pd_blocks_waiting e) b.

Definition daemon_add_pool_connection (self : nat) : handler :=
  modify_daemon (fun d => set_pool_list (m_pool_connections d ++ [mk_pool_data self 0 0 None]) d).

(** The test of [find_if]: the connection is alive and has the address. *)
Definition has_address (ps : gmap nat Pool_connection) (ip_address : bytes) (e : Pool_connection_data)
  : bool :=
  match ps !! pd_connection e with
  | Some p => bool_decide (get_remote_address p = ip_address)
  | None => false
  end.

Fixpoint find_if {A} (f : A -> bool) (l : list A) : option nat :=
  match l with
  | [] => None
  | x :: l' => if f x then Some O else S <$> find_if f l'
  end.

(** The place of the entry; without one the reference is to [end()]. *)
Definition find_pool_connection (ip_address : bytes) : M World nat :=
  w ← get; lift (find_if (has_address (pools w) ip_address) (m_pool_connections (daemon w))).

Definition edit_entry (i : nat) (f : Pool_connection_data -> Pool_connection_data)
    (d : Daemon_connection) : Daemon_connection :=
  set_pool_list (alter f i (m_pool_connections d)) d.

Definition daemon_request_block (blocks_requested : Z) (ip_address : bytes) : handler :=
  i ← find_pool_connection ip_address;
  modify_daemon (edit_entry i (set_pd_requested blocks_requested)).

Definition daemon_submit_block (block : CBlock) (ip_address : bytes) : M World bool :=
  i ← find_pool_connection ip_address;
  d ← gets daemon;
  e ← lift (m_pool_connections d !! i);
  match pd_submit_block e with
  | None => modify_daemon (edit_entry i (set_pd_submit (Some block))) ;; mret true
  | Some _ => mret false
  end.

(** ** The implementation of the interface *)
Lemma find_pool_connection_inv ip w i w' :
  find_pool_connection ip w = Some (i, w') ->
  w' = w /\ find_if (has_address (pools w) ip) (m_pool_connections (daemon w)) = Some i.
Proof. unfold find_pool_connection. intros Hf. unrun. done. Qed.

Lemma find_pool_connection_run ip w i :
  find_if (has_address (pools w) ip) (m_pool_connections (daemon w)) = Some i ->
  find_pool_connection ip w = Some (i, w).
Proof. unfold find_pool_connection, mbind, M_bind, get, lift. by intros ->. Qed.

#[export, refine] Instance daemon_list : Daemon_api := {|
  add_pool_connection := daemon_add_pool_connection;
  request_block := daemon_request_block;
  submit_block := daemon_submit_block;
|}.
Proof.
  - intros self w u w' [= _ <-]. by split_and!.
  - unfold daemon_request_block. intros n ip w u w' Hr. unrun.
    apply find_pool_connection_inv in Hr0 as [-> _]. by split_and!.
  - unfold daemon_submit_block. intros b ip w r w' Hr. unrun.
    apply find_pool_connection_inv in Hr0 as [-> _].
    destruct (pd_submit_block a1).
    + by injection Hr as _ <-.
    + unrun. by split_and!.
Defined.

(** ** Lemmas *)
Lemma find_if_Some {A} (f : A -> bool) l i :
  find_if f l = Some i <->
  (exists x, l !! i = Some x /\ f x = true) /\
  forall j x, (j < i)%nat -> l !! j = Some x -> f x = false.
Proof.
  revert i. induction l as [|y l IH]; intros i; cbn.
  { split; [done|]. by intros [(x&?&_) _]. }
  destruct (f y) eqn:Hy.
  - split; [intros [= <-]; split; [by exists y|]; intros; lia|].
    intros [_ Hall]. destruct i as [|i]; [done|]. specialize (Hall 0%nat y ltac:(lia) eq_refl). congruence.
  - rewrite fmap_Some. split.
    + intros (k&Hk&->). apply IH in Hk as [Hx Hall]. split; [done|].
      intros [|j] x Hj Hl; [by injection Hl as <-|]. apply (Hall j x); [lia|done].
    + intros [(x&Hx&Hfx) Hall]. destruct i as [|i]; [by injection Hx as <-; congruence|].
      exists i. split; [|done]. apply IH. split; [by exists x|].
      intros j z Hj Hz. apply (Hall (S j) z); [lia|done].
Qed.

Lemma find_if_None {A} (f : A -> bool) l : find_if f l = None <-> Forall (fun x => f x = false) l.
Proof.
  induction l as [|y l IH]; cbn; [by split|]. rewrite Forall_cons.
  destruct (f y); [by split; [|intros [? _]]|].
  destruct (find_if f l); cbn; split; try done.
  - intros [_ Hl]. by apply IH in Hl.
  - intros _. by split; [|apply IH].
Qed.

(** ** Properties *)

(** Each connection has at most one block to submit.  [submit_block] puts a
    block into the entry of the address and says so; until the daemon takes it, another one for
    that address is refused and dropped, and the world is as it was. *)
Theorem one_block_in_flight b1 b2 ip w w' :
  daemon_submit_block b1 ip w = Some (true, w') ->
  daemon_submit_block b2 ip w' = Some (false, w') /\
  exists i e, m_pool_connections (daemon w) !! i = Some e /\ pd_submit_block e = None /\
    m_pool_connections (daemon w') = <[i := set_pd_submit (Some b1) e]> (m_pool_connections (daemon w)).
Proof.
  unfold daemon_submit_block. intros Hr. unrun.
  apply find_pool_connection_inv in Hr0 as [-> Hi].
  destruct (pd_submit_block a1) eqn:He; [by injection Hr|]. unrun.
  set (l := m_pool_connections (daemon w)) in *.
  assert (Hl : alter (set_pd_submit (Some b1)) a l = <[a := set_pd_submit (Some b1) a1]> l).
  { apply list_eq. intros j. destruct (decide (j = a)) as [->|Hne].
    - rewrite list_lookup_alter_eq, Ho. cbn. symmetry. apply list_lookup_insert_eq.
      by eapply lookup_lt_Some.
    - by rewrite list_lookup_alter_ne, list_lookup_insert_ne by lia. }
  split; [|exists a, a1; split_and!; done].
  assert (Hfind : find_if (has_address (pools w) ip) (alter (set_pd_submit (Some b1)) a l) = Some a).
  { apply find_if_Some in Hi as [(x&Hx&Hfx) Hall]. apply find_if_Some. split.
    - exists (set_pd_submit (Some b1) x). by rewrite list_lookup_alter_eq, Hx.
    - intros j x' Hj. rewrite list_lookup_alter_ne by lia. by apply Hall. }
  erewrite (M_bind_run _ _ _ a) by (by apply find_pool_connection_run).
  unfold gets, lift, mbind, M_bind. cbn -[alter]. fold l. by rewrite list_lookup_alter_eq, Ho.
Qed.

(** The list is searched by address, so of two live connections from one address
    only the first has an entry in use.  A request of either one sets the count of the first
    entry; the second entry never asks for a block and is never given one to submit. *)
Theorem shared_address ip n b i j e1 e2 w :
  let l := m_pool_connections (daemon w) in
  (i < j)%nat -> l !! i = Some e1 -> l !! j = Some e2 ->
  has_address (pools w) ip e1 = true -> has_address (pools w) ip e2 = true ->
  (exists w', daemon_request_block n ip w = Some (tt, w') /\
    m_pool_connections (daemon w') !! j = Some e2) /\
  (exists r w', daemon_submit_block b ip w = Some (r, w') /\
    m_pool_connections (daemon w') !! j = Some e2).
Proof.
  intros l Hij H1 H2 Ha1 Ha2.
  assert (Hf : exists k e, find_if (has_address (pools w) ip) l = Some k /\ l !! k = Some e /\ k <> j).
  { destruct (find_if (has_address (pools w) ip) l) as [k|] eqn:E.
    - pose proof E as [(x&Hx&_) Hall]%find_if_Some. exists k, x. split; [done|]. split; [done|].
      intros ->. specialize (Hall i e1 Hij H1). congruence.
    - apply find_if_None in E. apply (Forall_lookup_1 _ _ _ _ E) in H1. congruence. }
  destruct Hf as (k&e&Hk&He&Hne). split.
  - unfold daemon_request_block. erewrite (M_bind_run _ _ _ k) by (by apply find_pool_connection_run).
    eexists. split; [done|]. cbn -[alter]. fold l. by rewrite list_lookup_alter_ne by lia.
  - unfold daemon_submit_block. erewrite (M_bind_run _ _ _ k) by (by apply find_pool_connection_run).
    unfold gets, lift, mbind, M_bind. fold l. rewrite He. destruct (pd_submit_block e).
    + eexists _, _. by split.
    + eexists _, _. split; [done|]. cbn -[alter]. fold l. by rewrite list_lookup_alter_ne by lia.
Qed.

Lemma one_block_in_flight_witness :
  exists w', daemon_submit_block empty_block [Byte.x31] (example_world example_pool) = Some (true, w') /\
    daemon_submit_block (set_nNonce 3 empty_block) [Byte.x31] w' = Some (false, w').
Proof.
  eexists. split; [reflexivity|].
  refine (proj1 (one_block_in_flight empty_block (set_nNonce 3 empty_block) [Byte.x31]
    (example_world example_pool) _ _)). reflexivity.
Defined.

Lemma shared_address_witness :
  exists w', daemon_request_block 4 [Byte.x31] (example_world example_pool) = Some (tt, w') /\
    m_pool_connections (daemon w') !! 1%nat = Some (example_entry 1).
Proof.
  refine (proj1 (shared_address [Byte.x31] 4 empty_block 0 1 (example_entry 0) (example_entry 1)
    (example_world example_pool) _ _ _ _ _)); [lia|reflexivity..].
Defined.
