(* ===== verification/Pool_conn.v ===== *)
(** * A miner's connection: [src/src/pool_connection.cpp]

    The handler of a connection, [init_connection_handler], and the two calls the daemon makes,
    [new_round] and [add_block].  What a pool connection asks of the daemon is the interface
    [Daemon_api] of [Daemon_queue]. *)
From S2P Require Import Prelude Bytes StdMap Float64 Uint Packet Coinbase LLD CBlock Ddos Banned.
From S2P Require Import Base58 Prime Registry World Daemon_queue.

(** [pow] of the C library on [double]s. *)
Class Libm := { pow : f64 -> f64 -> f64 }.

(** The constructor, from a connection that was just accepted.  Without a registry [m_min_share]
    is not initialised, here 0. *)
Definition new_pool (w : World) : Pool_connection :=
  mk_pool true None ∅ [] [] false
    (if registry_alive w then get_use_ddos (m_config (registry w)) else true)
    (if registry_alive w then get_min_share (m_config (registry w)) else 0) false [] 0.

(** [m_ddos->rSCORE += n] and [m_ddos->Ban(...)]; [m_ddos] is null until the connection is up. *)
Definition rSCORE_add (self : nat) (n : Z) : handler :=
  p ← this self; now ← gets clock;
  d ← lift (m_ddos p);
  d ← lift (add_rSCORE n now d);
  modify_pool self (set_ddos (Some d)).
Definition ddos_Ban (self : nat) : handler :=
  p ← this self; now ← gets clock;
  d ← lift (m_ddos p);
  d ← lift (Ban now d);
  modify_pool self (set_ddos (Some d)).

(** [if (m_isDDOS) m_ddos->rSCORE += n;] *)
Definition score (self : nat) (n : Z) : handler :=
  p ← this self; when (m_isDDOS p) (rSCORE_add self n).

Definition answer (self : nat) (header : Z) : handler := transmit_miner self (Packet.get_packet header).

Definition send_height (self : nat) : handler :=
  r ← gets registry; transmit_miner self (Packet.get_height (m_best_height r)).

Definition ddos_invalid_header (self : nat) (pk : packet) : handler :=
  p ← this self;
  if negb (m_isDDOS p) then mret tt else
  when (136 <? m_length pk) (ddos_Ban self) ;;
  when ((m_header pk =? Packet.SUBMIT_SHARE) && negb (m_length pk =? 136)) (ddos_Ban self) ;;
  when ((m_header pk =? Packet.LOGIN) && (55 <? m_length pk)) (ddos_Ban self) ;;
  when ((m_header pk =? Packet.SUBMIT_PPS) && negb (m_length pk =? 16)) (ddos_Ban self) ;;
  when (m_header pk =? Packet.BLOCK_DATA) (ddos_Ban self) ;;
  when (m_header pk =? Packet.ACCOUNT_BALANCE) (ddos_Ban self) ;;
  when (m_header pk =? Packet.PENDING_PAYOUT) (ddos_Ban self) ;;
  when (m_header pk =? Packet.ACCEPT) (ddos_Ban self) ;;
  when (m_header pk =? Packet.REJECT) (ddos_Ban self) ;;
  when (m_header pk =? Packet.BLOCK) (ddos_Ban self) ;;
  when (m_header pk =? Packet.STALE) (ddos_Ban self).

Definition find_hash_in_blocks_requested (hash_block : Z) (p : Pool_connection) : bool :=
  map_count hash_block (m_blocks_requested p).

Definition new_round (self : nat) (new_height : Z) : handler :=
  modify_pool self (set_primes ∅) ;;
  modify_pool self (set_requested []) ;;
  modify_pool self (set_num 0) ;;
  transmit_miner self (Packet.get_height new_height).

Section connection.
Context `{Platform} `{Block_hash} `{Address_hash} `{Gmp} `{Libm} `{Daemon_api}.

Definition add_block (self : nat) (block : CBlock) : handler :=
  p ← this self;
  if negb (m_connection p) then mret tt else
  modify_pool self (set_num (u16 (m_num_blocks_requested p - 1))) ;;
  modify_pool self (fun p => set_requested (map_insert (GetHash block) block (m_blocks_requested p)) p) ;;
  let data := serialize_block block (m_min_share p) in
  transmit_miner self (mk_packet Packet.BLOCK_DATA (u32 (Z.of_nat (length data))) (Some data)).

(** ** The requests *)
Definition login (self : nat) (pk : packet) : handler :=
  p ← this self;
  if m_logged_in p then score self 10 else
  data ← lift (m_data pk);
  address ← lift (bytes2string data 0);
  modify_pool self (set_address address) ;;
  modify_pool self (set_address data) ;;
  valid ← lift (valid_address data);
  if negb valid then
    when (m_isDDOS p) (ddos_Ban self) ;;
    answer self Packet.LOGIN_SKMINER_FAIL
  else
  r ← gets registry;
  when (negb (Database.HasKey data (m_account_db r)))
    (modify_registry (update_account (Account.new data))) ;;
  if is_account_banned data (m_banned_users r) then
    when (negb (is_ip_address_banned (m_remote_address p) (m_banned_users r)))
      (modify_registry (fun r =>
         set_banned (add_banned_ip_address (m_remote_address p) (m_banned_users r)) r)) ;;
    ddos_Ban self ;;
    modify_pool self (set_logged_in false) ;;
    answer self Packet.LOGIN_SKMINER_FAIL
  else
    modify_pool self (set_logged_in true) ;;
    answer self Packet.LOGIN_SKMINER_SUCCESS.

Definition get_block_request (self : nat) : handler :=
  p ← this self;
  let n := u16 (m_num_blocks_requested p + 1) in
  modify_pool self (set_num n) ;;
  request_block n (m_remote_address p) ;;
  p ← this self;
  match m_ddos p with Some _ => rSCORE_add self 1 | None => mret tt end.

Definition get_balance (self : nat) : handler :=
  p ← this self;
  a ← on_registry (get_account (m_nxsaddress p));
  transmit_miner self
    (mk_packet Packet.ACCOUNT_BALANCE 8 (Some (uint2bytes64 (Account.nAccountBalance a)))).

Definition get_payout (self : nat) : handler :=
  p ← this self; r ← gets registry;
  let coinbase_global := m_coinbase r in
  let pending_payout :=
    if Coinbase.find_address (m_nxsaddress p) coinbase_global
    then (Coinbase.get_map_outputs (m_nxsaddress p) coinbase_global).1 else 0 in
  transmit_miner self (mk_packet Packet.PENDING_PAYOUT 8 (Some (uint2bytes64 pending_payout))).

(** The two ranges need eight bytes; their values are not used.  [bytes2double] reads eight bytes
    of each, checked by [bytes2uint]. *)
Definition submit_pps (self : nat) (pk : packet) : handler :=
  data ← lift (m_data pk);
  if bool_decide (length data < 8)%nat then undefined else
  let PPS := bytes2double (take (length data - 8) data) in
  let WPS := bytes2double (drop 8 data) in
  answer self Packet.PING.

(** The end of [SUBMIT_SHARE], for a share of enough difficulty. *)
Definition accept_share (self : nat) (block : CBlock) (nNonce hashPrime : Z) (nDifficulty : f64)
  : handler :=
  modify_pool self (fun p => set_primes ({[ hashPrime ]} ∪ m_primes p) p) ;;
  p ← this self;
  a ← on_registry (get_account (m_nxsaddress p));
  weight ← lift (f64_to_uint 64 (pow (f64_of_Z 25) (f64_sub nDifficulty (f64_of_Z 3))));
  modify_registry (update_account (Account.set_shares (u64 (Account.nRoundShares a + weight)) a)) ;;
  if SFleb (get_difficulty (nBits block)) nDifficulty then
    b ← submit_block (set_nNonce nNonce block) (m_remote_address p);
    when b (answer self Packet.BLOCK)
  else answer self Packet.ACCEPT.

(** The part of [SUBMIT_SHARE] after the test of the height. *)
Definition check_share (self : nat) (block : CBlock) (hashPrimeOrigin : words) (nNonce : Z) : handler :=
  p ← this self; g ← gets globals;
  let hashPrime := val (add64 hashPrimeOrigin nNonce) in
  if bool_decide (hashPrime ∈ m_primes p) then
    answer self Packet.REJECT ;; score self 5
  else
  nDifficulty ← lift (gmp_verification g hashPrime);
  bits ← lift (set_bits nDifficulty);
  if m_min_share p <=? bits then accept_share self block nNonce hashPrime nDifficulty
  else score self 5 ;; answer self Packet.REJECT.

Definition submit_share (self : nat) (pk : packet) : handler :=
  p ← this self; r ← gets registry;
  data ← lift (m_data pk);
  if bool_decide (length data < 8)%nat then undefined else
  hashPrimeOrigin ← lift (SetBytes WIDTH1024 (take (length data - 8) data));
  if negb (find_hash_in_blocks_requested (val hashPrimeOrigin) p) then
    answer self Packet.REJECT ;; send_height self ;; score self 1
  else
  let block := default empty_block (map_find (val hashPrimeOrigin) (m_blocks_requested p)) in
  if negb (nHeight block =? m_best_height r) then
    answer self Packet.STALE ;; send_height self ;; score self 2
  else check_share self block hashPrimeOrigin (bytes2uint64 (drop (length data - 8) data) 0).

Definition requests (self : nat) (pk : packet) : handler :=
  if m_header pk =? Packet.GET_BLOCK then get_block_request self
  else if m_header pk =? Packet.GET_BALANCE then get_balance self
  else if m_header pk =? Packet.GET_PAYOUT then get_payout self
  else if m_header pk =? Packet.PING then answer self Packet.PING
  else if m_header pk =? Packet.SUBMIT_PPS then submit_pps self pk
  else if m_header pk =? Packet.SUBMIT_SHARE then submit_share self pk
  else mret tt.

Definition process_data (self : nat) (receive_buffer : bytes) : handler :=
  pk ← lift (Packet.parse receive_buffer);
  if negb (Packet.is_valid pk) then score self 10 else
  ddos_invalid_header self pk ;;
  w ← get;
  if negb (registry_alive w) then mret tt else
  if m_header pk =? Packet.LOGIN then login self pk else
  p ← this self;
  if negb (m_logged_in p) then score self 10 else
  if negb (daemon_alive w) then modify_pool self close_pool
  else requests self pk.

(** The handler of the connection; [address] is the address of the remote endpoint. *)
Definition init_connection_handler (self : nat) (address : bytes) (result : Result.Code)
    (receive_buffer : bytes) : handler :=
  match result with
  | Result.connection_declined | Result.connection_aborted | Result.connection_error
  | Result.connection_closed => modify_pool self close_pool
  | Result.connection_ok =>
      p ← this self; w ← get;
      if negb (m_connection p) then undefined else
      modify_pool self (set_remote address) ;;
      modify_pool self (set_ddos (Some (new_filter 30 address (clock w)))) ;;
      if negb (daemon_alive w) then modify_pool self close_pool else add_pool_connection self
  | _ => process_data self receive_buffer
  end.
End connection.

(** ** Worlds that differ in the score of a connection only *)
Definition calm (self : nat) : World -> World := edit_pool self (set_ddos None).
Definition similar (self : nat) (w w' : World) : Prop := calm self w = calm self w'.

#[export] Instance similar_equivalence self : Equivalence (similar self).
Proof. unfold similar. split; [by intros w|by intros w w'|intros w1 w2 w3; congruence]. Qed.

Section similar.
Context (self : nat).
Implicit Types (w : World).

Lemma similar_fields w w' :
  similar self w w' ->
  registry w = registry w' /\ daemon w = daemon w' /\ sent w = sent w' /\ globals w = globals w' /\
  clock w = clock w' /\ registry_alive w = registry_alive w' /\ daemon_alive w = daemon_alive w' /\
  forall i, set_ddos None <$> pools w !! i = set_ddos None <$> pools w' !! i.
Proof.
  unfold similar, calm, edit_pool, with_pools. intros [=]. split_and!; try done.
  intros i. assert (Hp : alter (set_ddos None) self (pools w) !! i =
    alter (set_ddos None) self (pools w') !! i) by congruence.
  destruct (decide (self = i)) as [->|Hne].
  - by rewrite !lookup_alter_eq in Hp.
  - rewrite !lookup_alter_ne in Hp by done. by rewrite Hp.
Qed.

Lemma edit_edit f g w : edit_pool self f (edit_pool self g w) = edit_pool self (f ∘ g) w.
Proof. unfold edit_pool, with_pools. cbn. by rewrite alter_alter_eq. Qed.

Lemma edit_ext f g w :
  (forall p, pools w !! self = Some p -> f p = g p) -> edit_pool self f w = edit_pool self g w.
Proof. intros Hfg. unfold edit_pool. f_equal. apply alter_ext. intros p Hp. by apply Hfg. Qed.

Lemma set_ddos_similar d w : similar self (edit_pool self (set_ddos d) w) w.
Proof. unfold similar, calm. rewrite edit_edit. by apply edit_ext. Qed.

(** An update of another member respects the equivalence. *)
Definition blind (f : Pool_connection -> Pool_connection) : Prop :=
  forall p, set_ddos None (f p) = set_ddos None (f (set_ddos None p)).

Lemma edit_similar f w w' :
  blind f -> similar self w w' -> similar self (edit_pool self f w) (edit_pool self f w').
Proof.
  intros Hf Hw. assert (Hblind : forall v, calm self (edit_pool self f v) =
    edit_pool self (set_ddos None ∘ f) (calm self v)).
  { intros v. unfold calm. rewrite !edit_edit. apply edit_ext. intros p _. apply Hf. }
  unfold similar in *. by rewrite !Hblind, Hw.
Qed.
End similar.

#[export] Instance log_proper self to : Proper ((=) ==> similar self ==> similar self) (log to).
Proof.
  intros data ? <- w w' Hw. pose proof (similar_fields _ _ _ Hw) as (_&_&Hs&_).
  unfold similar, calm, log, edit_pool, with_pools, with_sent in *. cbn in *. rewrite Hs. congruence.
Qed.
#[export] Instance with_registry_proper self :
  Proper ((=) ==> similar self ==> similar self) with_registry.
Proof.
  intros r ? <- w w' Hw. unfold similar, calm, edit_pool, with_pools, with_registry in *. cbn in *.
  congruence.
Qed.
#[export] Instance with_daemon_proper self :
  Proper ((=) ==> similar self ==> similar self) with_daemon.
Proof.
  intros r ? <- w w' Hw. unfold similar, calm, edit_pool, with_pools, with_daemon in *. cbn in *.
  congruence.
Qed.
