(* ===== verification/Pool_shares.v ===== *)
(** * Shares: the theorems on [Pool_conn]'s [submit_share]

    [judged] and [outcome] are the abstract specification of a submitted share: which verdicts the
    pool may give, and all each of them does.  [share_refines] shows that the handler does nothing
    else; the other properties follow requests through [process_data]. *)
From S2P Require Import Prelude Bytes StdMap Float64 Uint Packet Coinbase LLD CBlock Ddos Banned.
From S2P Require Import Base58 Prime Registry World Daemon_queue Pool_conn.

(** ** The specification of [SUBMIT_SHARE] *)
Inductive verdict :=
  | Unknown
  | Stale
  | Duplicate
  | Below
  | Share (weight : Z)
  | Found (weight : Z) (queued : bool).

Definition say (self : nat) (header : Z) : World -> World := log (Miner self) [z2b header].

(** The shares of the account of the connection. *)
Definition credited `{Platform} (address : bytes) (weight : Z) (r : Data_registry) : Data_registry :=
  let '(a, r) := get_account address r in
  update_account (Account.set_shares (u64 (Account.nRoundShares a + weight)) a) r.

Definition add_prime (h : Z) (p : Pool_connection) : Pool_connection :=
  set_primes ({[ h ]} ∪ m_primes p) p.

Section spec.
Context `{Platform} `{Gmp} `{Libm}.
Context (p : Pool_connection) (best_height : Z) (g : prime_globals) (origin : words) (nNonce : Z).

(** The number a share claims: the sum is a [uint1024]. *)
Definition claimed : Z := val (add64 origin nNonce).

(** The block of the connection the share is for, of the current height, and not yet submitted. *)
Definition fresh_share (b : CBlock) : Prop :=
  map_find (val origin) (m_blocks_requested p) = Some b /\ nHeight b = best_height /\
  claimed ∉ m_primes p.

Definition share_weight (d : f64) : option Z :=
  f64_to_uint 64 (pow (f64_of_Z 25) (f64_sub d (f64_of_Z 3))).

Inductive judged : verdict -> Prop :=
  | judged_unknown :
      map_find (val origin) (m_blocks_requested p) = None -> judged Unknown
  | judged_stale b :
      map_find (val origin) (m_blocks_requested p) = Some b -> nHeight b <> best_height ->
      judged Stale
  | judged_duplicate b :
      map_find (val origin) (m_blocks_requested p) = Some b -> nHeight b = best_height ->
      claimed ∈ m_primes p -> judged Duplicate
  | judged_below b d bits :
      fresh_share b -> gmp_verification g claimed = Some d -> set_bits d = Some bits ->
      bits < m_min_share p -> judged Below
  | judged_share b d bits weight :
      fresh_share b -> gmp_verification g claimed = Some d -> set_bits d = Some bits ->
      m_min_share p <= bits -> share_weight d = Some weight ->
      SFleb (get_difficulty (nBits b)) d = false -> judged (Share weight)
  | judged_found b d bits weight queued :
      fresh_share b -> gmp_verification g claimed = Some d -> set_bits d = Some bits ->
      m_min_share p <= bits -> share_weight d = Some weight ->
      SFleb (get_difficulty (nBits b)) d = true -> judged (Found weight queued).

(** All a verdict does, the score of the connection aside. *)
Definition outcome (self : nat) (v : verdict) (w : World) : World :=
  let earned weight w :=
    with_registry (credited (m_nxsaddress p) weight (registry w)) (edit_pool self (add_prime claimed) w) in
  match v with
  | Unknown => say self Packet.NEW_BLOCK (say self Packet.REJECT w)
  | Stale => say self Packet.NEW_BLOCK (say self Packet.STALE w)
  | Duplicate | Below => say self Packet.REJECT w
  | Share weight => say self Packet.ACCEPT (earned weight w)
  | Found weight queued => if queued then say self Packet.BLOCK (earned weight w) else earned weight w
  end.
End spec.

(** ** The score *)
Section runs.
Context `{Platform} `{Block_hash} `{Address_hash} `{Gmp} `{Libm} `{Daemon_api}.
Context (self : nat).
Implicit Types (w : World).

Lemma rSCORE_add_similar n w u w' : rSCORE_add self n w = Some (u, w') -> similar self w' w.
Proof.
  unfold rSCORE_add. intros Hr. unrun. apply modify_pool_inv in Hr as [_ ->]. apply set_ddos_similar.
Qed.

Lemma ddos_Ban_similar w u w' : ddos_Ban self w = Some (u, w') -> similar self w' w.
Proof.
  unfold ddos_Ban. intros Hr. unrun. apply modify_pool_inv in Hr as [_ ->]. apply set_ddos_similar.
Qed.

Lemma when_similar b (m : handler) w u w' :
  (forall u w', m w = Some (u, w') -> similar self w' w) -> when b m w = Some (u, w') ->
  similar self w' w.
Proof. intros Hm. destruct b; cbn [when]; [apply Hm|]. by intros [= <- <-]. Qed.

Lemma score_similar n w u w' : score self n w = Some (u, w') -> similar self w' w.
Proof.
  unfold score. intros Hr. unrun. eapply when_similar; [|done]. apply rSCORE_add_similar.
Qed.

Lemma ddos_invalid_header_similar pk w u w' :
  ddos_invalid_header self pk w = Some (u, w') -> similar self w' w.
Proof.
  unfold ddos_invalid_header. intros Hr. apply M_bind_Some in Hr as (p&w0&Hp&Hr).
  apply this_inv in Hp as [_ ->]. destruct (negb _); [by injection Hr as <- <-|].
  repeat match goal with
  | H : _ ≫= _ = Some _ |- _ => apply M_bind_Some in H as (?&?&?&H)
  | H : @mbind (M _) _ _ _ _ _ _ = Some _ |- _ => apply M_bind_Some in H as (?&?&?&H)
  end.
  repeat match goal with
  | H : when _ (ddos_Ban self) _ = Some _ |- _ =>
      apply when_similar in H; [|intros; by eapply ddos_Ban_similar]
  end.
  by repeat (etransitivity; [eassumption|]).
Qed.

Lemma answer_inv header w u w' :
  128 <= header < 256 -> answer self header w = Some (u, w') -> w' = say self header w.
Proof.
  intros Hh Ha. apply transmit_miner_inv in Ha as (p&data&_&_&Hd&->). unfold get_bytes in Hd.
  cbn [m_header Packet.get_packet] in Hd. rewrite wrap_small in Hd by (unfold fits; lia).
  rewrite (proj2 (Z.ltb_ge header 128)) in Hd by lia. by injection Hd as <-.
Qed.

Lemma send_height_inv w u w' :
  send_height self w = Some (u, w') -> w' = say self Packet.NEW_BLOCK w.
Proof.
  unfold send_height. intros Hr. unrun. by apply transmit_miner_inv in Hr as (p&data&_&_&[= <-]&->).
Qed.
End runs.

(** Reads the answers of a run off. *)
Ltac replies :=
  repeat match goal with
  | H : answer _ _ _ = Some _ |- _ => apply answer_inv in H; [subst|by vm_compute]
  | H : send_height _ _ = Some _ |- _ => apply send_height_inv in H; subst
  end.

Section refinement.
Context `{Platform} `{Block_hash} `{Address_hash} `{Gmp} `{Libm} `{Daemon_api}.
Context (self : nat).
Implicit Types (w : World).

Lemma accept_share_refines b nNonce h d w u w' p :
  pools w !! self = Some p -> accept_share self b nNonce h d w = Some (u, w') ->
  exists weight, share_weight d = Some weight /\
    let earned := with_registry (credited (m_nxsaddress p) weight (registry w))
                    (edit_pool self (add_prime h) w) in
    if SFleb (get_difficulty (nBits b)) d then
      exists queued, w' = if queued : bool then say self Packet.BLOCK (with_daemon (daemon w') earned)
                          else with_daemon (daemon w') earned
    else w' = say self Packet.ACCEPT earned.
Proof.
  intros Hp Ha. unfold accept_share in Ha. unrun. apply modify_pool_inv in Hr as [_ ->].
  assert (Ha1 : a0 = add_prime h p).
  { unfold edit_pool in Hp0. cbn [pools with_pools] in Hp0. rewrite lookup_alter_eq, Hp in Hp0.
    by injection Hp0 as <-. }
  unfold on_registry in Hr1. cbn [registry edit_pool with_pools] in Hr1.
  destruct (get_account _ _) as [acc r] eqn:Hget in Hr1. injection Hr1 as <- <-.
  exists a2. split; [done|].
  set (earned := with_registry _ _).
  assert (Hw4 : forall v, modify_registry (update_account (Account.set_shares
    (u64 (Account.nRoundShares acc + a2)) acc)) (with_registry r (edit_pool self (add_prime h) w)) =
    Some (tt, v) -> v = earned).
  { intros v [= <-]. unfold earned, credited. subst a0. cbn [m_nxsaddress add_prime set_primes] in Hget.
    rewrite Hget. done. }
  match goal with Hm : modify_registry _ _ = Some (?t, _) |- _ => destruct t; apply Hw4 in Hm; subst end.
  destruct (SFleb _ _).
  - unrun. match goal with Hs : submit_block _ _ _ = Some (?q, ?v) |- _ =>
      apply submit_block_frame in Hs as (Hps&Hrs&Hss&Hgs&Hcs&Hra&Hda); exists q;
      assert (Hv : v = with_daemon (daemon v) earned) by (destruct v; cbn in *; by subst);
      destruct q end.
    + cbn [when] in Ha. apply answer_inv in Ha; [|by vm_compute]. subst w'. exact (f_equal (say self Packet.BLOCK) Hv).
    + cbn [when] in Ha. injection Ha as _ <-. done.
  - apply answer_inv in Ha; [done|by vm_compute].
Qed.

(** The daemon is only called for a share that is a block. *)
Definition calls_daemon (v : verdict) : Prop := match v with Found _ _ => True | _ => False end.

Lemma same_daemon w : with_daemon (daemon w) w = w.
Proof. by destruct w. Qed.

Lemma say_daemon h w : daemon (say self h w) = daemon w.
Proof. done. Qed.

Lemma similar_daemon w w' : similar self w w' -> daemon w = daemon w'.
Proof. intros Hw. by apply similar_fields in Hw as (_&?&_). Qed.

(** A verdict that leaves the daemon alone. *)
Lemma judged_calm p best g origin nNonce v w w' :
  ~ calls_daemon v -> judged p best g origin nNonce v ->
  similar self w' (outcome p origin nNonce self v w) ->
  exists v, judged p best g origin nNonce v /\
    similar self w' (outcome p origin nNonce self v (with_daemon (daemon w') w)) /\
    (~ calls_daemon v -> daemon w' = daemon w).
Proof.
  intros Hv Hj Hs. exists v. split; [done|].
  assert (Hd : daemon w' = daemon w).
  { rewrite (similar_daemon _ _ Hs). by destruct v. }
  by rewrite Hd, same_daemon.
Qed.

Lemma check_share_refines b origin nNonce w u w' p :
  pools w !! self = Some p -> map_find (val origin) (m_blocks_requested p) = Some b ->
  nHeight b = m_best_height (registry w) ->
  check_share self b origin nNonce w = Some (u, w') ->
  exists v, judged p (m_best_height (registry w)) (globals w) origin nNonce v /\
    similar self w' (outcome p origin nNonce self v (with_daemon (daemon w') w)) /\
    (~ calls_daemon v -> daemon w' = daemon w).
Proof.
  intros Hp Hb Hh Hc. unfold check_share in Hc. unrun.
  assert (a = p) as -> by congruence. fold (claimed origin nNonce) in *.
  case_bool_decide as Hd.
  { unrun. replies.
    apply (judged_calm _ _ _ _ _ Duplicate); [by intros []|by econstructor|by eapply score_similar]. }
  unrun. assert (Hfresh : fresh_share p (m_best_height (registry w)) origin nNonce b) by done.
  destruct (Z.leb_spec (m_min_share p) a0) as [Hm|Hm].
  - destruct (accept_share_refines _ _ _ _ _ _ _ _ Hp Hc) as (weight&Hw&Hrest). cbv zeta in Hrest.
    destruct (SFleb (get_difficulty (nBits b)) a) eqn:Hd2.
    + destruct Hrest as (queued&Hrest). exists (Found weight queued).
      split; [by econstructor|]. split; [|by intros []]. rewrite Hrest at 1.
      by destruct queued.
    + subst w'. apply (judged_calm _ _ _ _ _ (Share weight)); [by intros []|by econstructor|done].
  - unrun. replies.
    apply (judged_calm _ _ _ _ _ Below); [by intros []|by econstructor|].
    apply log_proper; [done|]. by eapply score_similar.
Qed.
End refinement.

Section refinement_of_submit.
Context `{Platform} `{Block_hash} `{Address_hash} `{Gmp} `{Libm} `{Daemon_api}.

Lemma submit_share_refines self pk w u w' p :
  pools w !! self = Some p -> submit_share self pk w = Some (u, w') ->
  exists data origin, m_data pk = Some data /\
    SetBytes WIDTH1024 (take (length data - 8) data) = Some origin /\
    let nNonce := bytes2uint64 (drop (length data - 8) data) 0 in
    exists v, judged p (m_best_height (registry w)) (globals w) origin nNonce v /\
      similar self w' (outcome p origin nNonce self v (with_daemon (daemon w') w)) /\
      (~ calls_daemon v -> daemon w' = daemon w).
Proof.
  intros Hp Hs. unfold submit_share in Hs. unrun. assert (a = p) as -> by congruence.
  case_bool_decide; [done|]. unrun. exists a1, a. split; [done|]. split; [done|]. cbv zeta.
  unfold find_hash_in_blocks_requested, map_count in Hs.
  destruct (map_find (val a) (m_blocks_requested p)) as [b|] eqn:Hb; cbn [negb default id] in Hs.
  - destruct (Z.eqb_spec (nHeight b) (m_best_height (registry w))) as [Hh|Hh]; cbn [negb] in Hs.
    + by apply (check_share_refines self b a _ w u w' p).
    + unrun. replies.
      apply (judged_calm self _ _ _ _ _ Stale); [by intros []|by econstructor|].
      by eapply score_similar.
  - unrun. replies.
    apply (judged_calm self _ _ _ _ _ Unknown); [by intros []|by econstructor|].
    by eapply score_similar.
Qed.
End refinement_of_submit.

(** ** Runs of the score and of the answers *)
Section total.
Context `{Platform} `{Block_hash} `{Address_hash} `{Gmp} `{Libm} `{Daemon_api}.
Context (self : nat).
Implicit Types (w : World).

(** The connection has a socket and a filter in order, whose scores have room for another [k]. *)
Definition has_room (k : Z) (p : Pool_connection) : Prop :=
  m_connection p = true /\ exists d, m_ddos p = Some d /\ filter_ok d /\ room k d.

(** The connection is up, with room for the score of one more request. *)
Definition up : Pool_connection -> Prop := has_room 10.

Lemma has_room_le k k' p : k' <= k -> has_room k p -> has_room k' p.
Proof.
  intros Hle [Hc (d&Hd&Hok&Hr&Hcs)]. split; [done|]. exists d. split; [done|]. split; [done|].
  split; [lia|done].
Qed.

(** The state of [self], its filter aside. *)
Definition same_pool (p p' : Pool_connection) : Prop := exists d, p' = set_ddos (Some d) p.

Lemma runs_rSCORE_add n k p w (Q : unit -> World -> Prop) :
  pools w !! self = Some p -> has_room (n + k) p -> 0 <= n -> 0 <= k ->
  (forall w' p', similar self w' w -> pools w' !! self = Some p' -> same_pool p p' ->
     has_room k p' -> Q tt w') ->
  runs (rSCORE_add self n) w Q.
Proof.
  intros Hp [Hc (d&Hd&Hok&Hroom)] Hn Hk HQ.
  destruct (add_rSCORE_ok n (clock w) d Hok Hn) as (d'&Hadd&Hok'); [destruct Hroom; split; lia|].
  destruct (add_rSCORE_inv _ _ _ _ Hok Hn Hadd) as (_&Hr&Hcs).
  unfold rSCORE_add. repeat step.
  apply (HQ _ (set_ddos (Some d') p)).
  - apply set_ddos_similar.
  - by apply edit_lookup.
  - by eexists.
  - split; [done|]. exists d'. split; [done|]. split; [done|]. destruct Hroom. split; lia.
Qed.

Lemma same_pool_refl p : up p -> same_pool p p.
Proof. intros [_ (d&Hd&_)]. exists d. destruct p. cbn in *. by subst. Qed.

Lemma runs_score n p w (Q : unit -> World -> Prop) :
  pools w !! self = Some p -> up p -> 0 <= n <= 10 ->
  (forall w' p', similar self w' w -> pools w' !! self = Some p' -> same_pool p p' ->
     m_connection p' = true -> Q tt w') ->
  runs (score self n) w Q.
Proof.
  intros Hp Hu Hn HQ. unfold score. step. step. apply runs_when; intros _.
  - eapply (runs_rSCORE_add n (10 - n) p); [done| |lia..|].
    { by replace (n + (10 - n)) with 10 by lia. }
    intros w' p' Hs Hp' Hsp [Hc _]. by apply (HQ w' p').
  - apply (HQ _ p); [done|done|by apply same_pool_refl|by destruct Hu].
Qed.

Lemma runs_ban p w (Q : unit -> World -> Prop) :
  pools w !! self = Some p -> up p ->
  (forall w' p', similar self w' w -> pools w' !! self = Some p' -> same_pool p p' ->
     m_connection p' = true -> Q tt w') ->
  runs (ddos_Ban self) w Q.
Proof.
  intros Hp [Hc (d&Hd&Hok&Hroom)] HQ.
  destruct (Ban_ok (clock w) d Hok) as (d'&Hban&_); [destruct Hroom; split; lia|].
  unfold ddos_Ban. repeat step.
  apply (HQ _ (set_ddos (Some d') p)).
  - apply set_ddos_similar.
  - by apply edit_lookup.
  - by eexists.
  - done.
Qed.

Lemma runs_answer header p w (Q : unit -> World -> Prop) :
  pools w !! self = Some p -> m_connection p = true -> 128 <= header < 256 -> Q tt (say self header w) ->
  runs (answer self header) w Q.
Proof.
  intros Hp Hc Hh HQ. eapply runs_transmit_miner; [done|done| |exact HQ]. unfold get_bytes.
  cbn [m_header Packet.get_packet]. rewrite wrap_small by (unfold fits; lia).
  by rewrite (proj2 (Z.ltb_ge header 128)) by lia.
Qed.

Lemma runs_send_height p w (Q : unit -> World -> Prop) :
  pools w !! self = Some p -> m_connection p = true -> Q tt (say self Packet.NEW_BLOCK w) -> runs (send_height self) w Q.
Proof.
  intros Hp Hc HQ. unfold send_height. step. step. by eapply runs_transmit_miner.
Qed.
End total.

(** ** Properties *)
Section properties.
Context `{Platform} `{Block_hash} `{Address_hash} `{Gmp} `{Libm} `{Daemon_api}.

(** C8: a submitted share is judged and answered as specified.  Whatever the handler
    of [SUBMIT_SHARE] does is the outcome of one of six verdicts, each given only for the reason
    [judged] states: the block is not one of the connection, it is of another height, the number
    was submitted before, its difficulty is below the minimum, it is a share, or it is a block.
    Only the last two credit the account, by the weight of the difficulty, and only the last one
    reaches the daemon; everything else in the pool stays as it was, the score of the
    connection aside. *)
Theorem share_refines self pk w u w' p :
  pools w !! self = Some p -> submit_share self pk w = Some (u, w') ->
  exists data origin, m_data pk = Some data /\
    SetBytes WIDTH1024 (take (length data - 8) data) = Some origin /\
    let nNonce := bytes2uint64 (drop (length data - 8) data) 0 in
    exists v, judged p (m_best_height (registry w)) (globals w) origin nNonce v /\
      similar self w' (outcome p origin nNonce self v (with_daemon (daemon w') w)) /\
      (~ calls_daemon v -> daemon w' = daemon w).
Proof. apply submit_share_refines. Qed.

(** The answers of a refusal: nothing but the log has changed. *)
Definition refused (self : nat) (w w' : World) : Prop :=
  registry w' = registry w /\ daemon w' = daemon w /\
  exists answers, sent w' = sent w ++ answers /\
    (head answers = Some (Miner self, [z2b Packet.REJECT]) \/
     head answers = Some (Miner self, [z2b Packet.STALE])).

(** C15: no share is ever credited by the program as it is.  With the globals of
    [prime.hpp] in their initial state, which nothing changes, and a positive minimum share, every
    share of the right size on a connection that is up is answered, and the answer is a refusal:
    no account, no block and no request of the daemon changes. *)
Theorem shares_refused `{!Gmp_laws} self pk data p w :
  pools w !! self = Some p -> up p -> globals w = static_globals -> 0 < m_min_share p ->
  m_data pk = Some data -> length data = 136%nat ->
  (forall origin, SetBytes WIDTH1024 (take 128 data) = Some origin ->
     0 < claimed origin (bytes2uint64 (drop 128 data) 0)) ->
  exists w', submit_share self pk w = Some (tt, w') /\ refused self w w'.
Proof.
  intros Hp Hu Hg Hmin Hdata Hlen Hpos. pose proof (proj1 Hu) as Hc. set (Q := refused self w).
  enough (Hr : runs (submit_share self pk) w (fun _ => Q)) by (by destruct Hr as ([]&w'&?&?); exists w').
  assert (HQ : forall w1 w2 h rest, (h = Packet.REJECT \/ h = Packet.STALE) -> similar self w1 w2 ->
    registry w2 = registry w -> daemon w2 = daemon w ->
    sent w2 = sent w ++ (Miner self, [z2b h]) :: rest -> Q w1).
  { intros w1 w2 h rest Hh (Hr&Hd&Hs&_)%similar_fields Hr2 Hd2 Hs2. unfold Q, refused.
    rewrite Hr, Hd, Hs, Hs2. split; [done|]. split; [done|]. eexists. split; [done|].
    destruct Hh as [-> | ->]; auto. }
  destruct (SetBytes_is_Some WIDTH1024 (take 128 data)) as (origin&Ho&_).
  { rewrite length_take, Hlen. by vm_compute; lia. }
  specialize (Hpos origin Ho). unfold submit_share. repeat step.
  rewrite Hlen, bool_decide_eq_false_2 by lia. change (136 - 8)%nat with 128%nat. repeat step.
  unfold find_hash_in_blocks_requested, map_count.
  destruct (map_find (val origin) (m_blocks_requested p)) as [b|]; cbn [negb default id].
  2:{ step. eapply runs_answer; [done..|by vm_compute|]. step. eapply runs_send_height; [done..|].
      eapply runs_score; [done..|lia|]. intros w' p' Hw' _ _ _.
      eapply HQ; [by left|exact Hw'|done..|]. cbn. by rewrite <-app_assoc. }
  destruct (nHeight b =? _); cbn [negb].
  2:{ step. eapply runs_answer; [done..|by vm_compute|]. step. eapply runs_send_height; [done..|].
      eapply runs_score; [done..|lia|]. intros w' p' Hw' _ _ _.
      eapply HQ; [by right|exact Hw'|done..|]. cbn. by rewrite <-app_assoc. }
  unfold check_share. repeat step. fold (claimed origin (bytes2uint64 (drop 128 data) 0)).
  case_bool_decide.
  { step. eapply runs_answer; [done..|by vm_compute|]. eapply runs_score; [done..|lia|].
    intros w' p' Hw' _ _ _. eapply HQ; [by left|exact Hw'|done..]. }
  step. eapply runs_lift; [by rewrite Hg; apply static_verification|]. step.
  eapply (runs_lift _ 0); [done|]. rewrite (proj2 (Z.leb_gt _ _)) by done. step.
  eapply runs_score; [done..|lia|]. intros w' p' Hw' Hp' _ Hc'.
  eapply runs_answer; [done..|by vm_compute|].
  eapply HQ; [by left|apply log_proper; [done|exact Hw']|done..].
Qed.

(** The number a packet of [SUBMIT_SHARE] claims: the hash of the block plus the nonce. *)
Definition claims (pk : packet) (n : Z) : Prop :=
  exists data origin, m_data pk = Some data /\
    SetBytes WIDTH1024 (take (length data - 8) data) = Some origin /\
    claimed origin (bytes2uint64 (drop (length data - 8) data) 0) = n.

Lemma claims_inj pk n n' : claims pk n -> claims pk n' -> n = n'.
Proof. intros (d&o&Hd&Ho&<-) (d'&o'&Hd'&Ho'&<-). congruence. Qed.

(** Once [ACCEPT] or [BLOCK] is the whole answer to a share, its number is in the set. *)
Lemma accepted_recorded self pk p w w1 h :
  pools w !! self = Some p -> submit_share self pk w = Some (tt, w1) ->
  sent w1 = sent w ++ [(Miner self, [z2b h])] -> h = Packet.ACCEPT \/ h = Packet.BLOCK ->
  exists n p1, claims pk n /\ pools w1 !! self = Some p1 /\ n ∈ m_primes p1.
Proof.
  intros Hp Hs1 Hsent Hh.
  destruct (submit_share_refines _ _ _ _ _ _ Hp Hs1) as (data&origin&Hdata&Horigin&v&Hj&Hsim&_).
  set (n := bytes2uint64 _ 0) in *.
  assert (Hv : exists weight, v = Share weight \/ v = Found weight true).
  { apply similar_fields in Hsim as (_&_&Hout&_). rewrite Hsent in Hout.
    assert (Hne : forall h', z2b h = z2b h' -> h' = Packet.REJECT \/ h' = Packet.STALE -> False).
    { destruct Hh as [-> | ->]; intros h' Heq [-> | ->]; by vm_compute in Heq. }
    destruct Hj; unfold outcome, say, log in Hout; cbn [sent with_sent] in Hout;
      change (sent (with_daemon _ _)) with (sent w) in Hout.
    - rewrite <-app_assoc in Hout. by apply app_inv_head in Hout.
    - rewrite <-app_assoc in Hout. by apply app_inv_head in Hout.
    - apply app_inv_head in Hout. injection Hout as Hout. exfalso. by eapply Hne; [exact Hout|left].
    - apply app_inv_head in Hout. injection Hout as Hout. exfalso. by eapply Hne; [exact Hout|left].
    - exists weight. by left.
    - exists weight. destruct queued; [by right|]. cbn in Hout.
      rewrite <-(app_nil_r (sent w)) in Hout at 2. by apply app_inv_head in Hout. }
  destruct Hv as (weight&Hv).
  pose proof (similar_fields _ _ _ Hsim) as (_&_&_&_&_&_&_&Hpools). specialize (Hpools self).
  assert (Hout : pools (outcome p origin n self v (with_daemon (daemon w1) w)) !! self =
    Some (add_prime (claimed origin n) p)).
  { destruct Hv as [-> | ->]; cbn; by rewrite lookup_alter_eq, Hp. }
  rewrite Hout in Hpools. destruct (pools w1 !! self) as [p1|]; [|done].
  exists (claimed origin n), p1. split; [by exists data, origin|]. split; [done|].
  apply (inj Some) in Hpools.
  assert (m_primes p1 = {[ claimed origin n ]} ∪ m_primes p) as ->
    by exact (f_equal m_primes Hpools). by apply elem_of_union_l, elem_of_singleton.
Qed.

(** A share whose number is in the set is refused, at any height and for any block. *)
Lemma recorded_refused self pk n p w w' u :
  pools w !! self = Some p -> claims pk n -> n ∈ m_primes p -> submit_share self pk w = Some (u, w') ->
  refused self w w'.
Proof.
  intros Hp (data&origin&Hdata&Ho&Hn) Hin Hs.
  destruct (submit_share_refines _ _ _ _ _ _ Hp Hs) as (data2&origin2&Hdata2&Ho2&v&Hj&Hsim&Hd).
  assert (data2 = data) as -> by congruence. assert (origin2 = origin) as -> by congruence.
  rewrite <-Hn in Hin. apply similar_fields in Hsim as (Hr&_&Hout&_).
  unfold refused. rewrite Hr, Hout.
  destruct Hj as [Hf|b Hf Hh|b Hf Hh Hin2|b d bits [_ [_ Hnot]]|b d bits ? [_ [_ Hnot]]|b d bits ? ? [_ [_ Hnot]]];
    try done; rewrite Hd by (by intros []); cbn; split_and!; try done;
    eexists; (split; [by rewrite <-?app_assoc|]); auto.
Qed.
End properties.

(** ** Witnesses *)
Definition unit_pow : Libm := {| pow _ _ := f64_of_Z 1 |}.

(** A logged in miner that was given a block, whose hash is 0, of height 7. *)
Definition example_block : CBlock := mk_block 1 0 0 1 7 70000000 0.
Definition mining_pool : Pool_connection :=
  set_requested [(0, example_block)] (set_logged_in true (set_address [Byte.x41] example_pool)).

Lemma mining_up : up mining_pool.
Proof.
  split; [done|]. eexists. split; [done|]. split; [by apply new_filter_ok; lia|by apply new_filter_room].
Qed.

(** A share for that block with the nonce 97. *)
Definition example_share : packet :=
  mk_packet Packet.SUBMIT_SHARE 136 (Some (replicate 128 Byte.x00 ++ uint2bytes64 97)).

Lemma shares_refused_witness :
  let _ := zero_platform in let _ := zero_hash in let _ := sum_hash in let _ := gmp_Z in
  let _ := unit_pow in
  exists w', submit_share 0 example_share (example_world mining_pool) = Some (tt, w') /\
    refused 0 (example_world mining_pool) w'.
Proof.
  pose (P := zero_platform). pose (B := zero_hash). pose (A := sum_hash). pose (G := gmp_Z).
  pose (L := unit_pow). pose (Laws := gmp_Z_laws).
  refine (shares_refused 0 example_share (replicate 128 Byte.x00 ++ uint2bytes64 97) mining_pool
    (example_world mining_pool) (example_miner _) mining_up eq_refl _ eq_refl eq_refl _).
  - by vm_compute.
  - intros origin Ho. vm_compute in Ho. injection Ho as <-. by vm_compute.
Defined.

Lemma share_refines_witness :
  let _ := zero_platform in let _ := zero_hash in let _ := sum_hash in let _ := gmp_Z in
  let _ := unit_pow in
  exists w' v, submit_share 0 example_share (example_world mining_pool) = Some (tt, w') /\
    judged mining_pool 7 static_globals (replicate 32 0) 97 v /\
    (~ calls_daemon v -> daemon w' = example_daemon).
Proof.
  pose (P := zero_platform). pose (B := zero_hash). pose (A := sum_hash). pose (G := gmp_Z).
  pose (L := unit_pow).
  destruct (submit_share 0 example_share (example_world mining_pool)) as [[[] w']|] eqn:E.
  2:{ exfalso. vm_compute in E. discriminate E. }
  destruct (share_refines 0 example_share (example_world mining_pool) tt w' mining_pool
    (example_miner _) E) as (data&origin&Hd&Ho&v&Hj&_&Hc).
  injection Hd as <-. vm_compute in Ho. injection Ho as <-. vm_compute (bytes2uint64 _ _) in Hj.
  exists w', v. exact (conj E (conj Hj Hc)).
Defined.

(** The same world after a call of [InitializePrimes]. *)
Definition initialized (w : World) : World :=
  mk_world (registry w) (registry_alive w) (daemon w) (daemon_alive w) (pools w)
    (default static_globals InitializePrimes) (clock w) (sent w).
