(* ===== verification/Pool_sessions.v ===== *)
(** * Sessions: logging in, rounds and blocks of a miner's connection

    The theorems on [process_data] before a login, on [login], [new_round] and [add_block]. *)
From S2P Require Import Prelude Bytes StdMap Float64 Uint Packet Coinbase LLD CBlock Ddos Banned.
From S2P Require Import Base58 Prime Registry World Daemon_queue Pool_conn Pool_shares.

Section sessions.
Context `{Platform} `{Block_hash} `{Address_hash} `{Gmp} `{Libm} `{Daemon_api}.

(** A header from 128 on is sent as its byte alone, below it with its length and data. *)
Lemma request_bytes h l d : 128 <= h -> get_bytes (mk_packet h l d) = Some [z2b h].
Proof. intros Hh. unfold get_bytes. cbn [m_header]. by rewrite (proj2 (Z.ltb_ge h 128)). Qed.

(** C21: before a login nothing but [LOGIN] has an effect.  Whatever else a connection
    sends that is not logged in, valid or not, the registry, the daemon, the answers and the other
    connections stay as they are, and its own state too but for the score of its filter. *)
Theorem login_gate self buffer pk p w u w' :
  Packet.parse buffer = Some pk -> m_header pk <> Packet.LOGIN ->
  pools w !! self = Some p -> m_logged_in p = false ->
  process_data self buffer w = Some (u, w') -> similar self w' w.
Proof.
  intros Hpk Hh Hp Hl Hr. unfold process_data in Hr. unrun. assert (a = pk) as -> by congruence.
  destruct (Packet.is_valid pk); cbn [negb] in Hr; [|by eapply score_similar].
  unrun. match goal with Hd : ddos_invalid_header _ _ _ = Some (_, ?v) |- _ =>
    apply ddos_invalid_header_similar in Hd; rename v into w1 end.
  destruct (registry_alive w1); cbn [negb] in Hr; [|by unrun].
  rewrite (proj2 (Z.eqb_neq _ _) Hh) in Hr. unrun.
  match goal with Hx : pools w1 !! self = Some ?q |- _ => assert (Hq : m_logged_in q = false) end.
  { match goal with Hs : similar _ _ _ |- _ => apply similar_fields in Hs as (_&_&_&_&_&_&_&Hs);
      specialize (Hs self) end.
    match goal with Hx : pools w1 !! self = Some ?q |- _ => rewrite Hx, Hp in * end.
    match goal with Hs : _ <$> Some _ = _ |- _ => apply (inj Some) in Hs;
      apply (f_equal m_logged_in) in Hs; cbn in Hs; congruence end. }
  rewrite Hq in Hr. cbn [negb] in Hr. apply score_similar in Hr. by etransitivity.
Qed.

(** What a login leaves of the account database. *)
Definition with_account (name : bytes) (r : Data_registry) : Data_registry :=
  if Database.HasKey name (m_account_db r) then r else update_account (Account.new name) r.

(** The outcome of a login: the connection [p'] and the world [w'] it leaves. *)
Definition login_outcome (self : nat) (data : bytes) (p : Pool_connection) (w : World)
    (p' : Pool_connection) (w' : World) : Prop :=
  let banned := is_account_banned data (m_banned_users (registry w)) in
  let fail := sent w ++ [(Miner self, [z2b Packet.LOGIN_SKMINER_FAIL])] in
  m_nxsaddress p' = data /\ daemon w' = daemon w /\
  if decide (valid_address data = Some true) then
    if banned then
      m_logged_in p' = false /\ sent w' = fail /\
      is_ip_address_banned (m_remote_address p) (m_banned_users (registry w')) = true /\
      m_account_db (registry w') = m_account_db (with_account data (registry w))
    else
      m_logged_in p' = true /\
      sent w' = sent w ++ [(Miner self, [z2b Packet.LOGIN_SKMINER_SUCCESS])] /\
      registry w' = with_account data (registry w)
  else m_logged_in p' = false /\ sent w' = fail /\ registry w' = registry w.

Lemma valid_address_total data :
  Z.of_nat (length data) < 2 ^ 31 -> exists b, valid_address data = Some b.
Proof.
  intros Hlen. unfold valid_address, SetString. destruct (decode_check_total data Hlen) as (r&->).
  cbn [mbind option_bind]. destruct (default [] r); by eexists.
Qed.

(** Ends a run of [login] whose last steps only concern the filter and the answer. *)
Lemma finish_login self data p w p1 w1 header v :
  pools w1 !! self = Some p1 -> up p1 -> 128 <= header < 256 ->
  (forall w2 p2, similar self w2 w1 -> pools w2 !! self = Some p2 -> same_pool p1 p2 ->
     login_outcome self data p w (set_logged_in v p2)
       (say self header (edit_pool self (set_logged_in v) w2))) ->
  runs (ddos_Ban self ;; modify_pool self (set_logged_in v) ;; answer self header) w1
    (fun _ w' => exists p', pools w' !! self = Some p' /\ login_outcome self data p w p' w').
Proof.
  intros Hp1 Hu1 Hh Hout. step. eapply runs_ban; [done..|]. intros w2 p2 Hs2 Hp2 Hsp Hc.
  repeat step. pose proof (edit_lookup self (set_logged_in v) p2 w2 Hp2) as Hp3.
  eapply runs_answer; [exact Hp3|exact Hc|done|].
  exists (set_logged_in v p2). split; [exact Hp3|]. by apply Hout.
Qed.

Lemma with_account_run data w (Q : unit -> World -> Prop) :
  Q tt (with_registry (with_account data (registry w)) w) ->
  runs (when (negb (Database.HasKey data (m_account_db (registry w))))
    (modify_registry (update_account (Account.new data)))) w Q.
Proof.
  unfold with_account. intros HQ. apply runs_when; intros Hk.
  - apply negb_true_iff in Hk. rewrite Hk in HQ. by step.
  - apply negb_false_iff in Hk. rewrite Hk in HQ. by destruct w.
Qed.

(** The end of a login with a name that is no address. *)
Lemma refuse_login self data p w f b :
  pools w !! self = Some p -> up (f p) -> m_logged_in (f p) = false -> m_nxsaddress (f p) = data ->
  valid_address data = Some false ->
  runs (when b (ddos_Ban self) ;; answer self Packet.LOGIN_SKMINER_FAIL) (edit_pool self f w)
    (fun _ w' => exists p', pools w' !! self = Some p' /\ login_outcome self data p w p' w').
Proof.
  intros Hp Hu1 Hl Hd Hb. pose proof (edit_lookup self f p w Hp) as Hp1.
  step. eapply (runs_impl _ _ (fun _ w2 => exists p2, similar self w2 (edit_pool self f w) /\
    pools w2 !! self = Some p2 /\ same_pool (f p) p2 /\ m_connection p2 = true)).
  - apply runs_when; intros _; [eapply runs_ban; [done..|]; eauto|].
    exists (f p). split; [done|]. split; [done|]. split; [by apply same_pool_refl|by destruct Hu1].
  - intros [] w2 (p2&Hs2&Hp2&[dd ->]&Hc2). eapply runs_answer; [done..|by vm_compute|].
    exists (set_ddos (Some dd) (f p)). split; [exact Hp2|].
    apply similar_fields in Hs2 as (Hr2&Hd2&Hse2&_).
    split; [done|]. split; [exact Hd2|]. rewrite decide_False by congruence.
    split; [exact Hl|]. cbn. by rewrite Hse2, Hr2.
Qed.

(** C22: the outcomes of a first login on a connection that is up, with a name of less than 2 GiB.
    A name that is no
    address is refused and leaves the registry alone; a banned account is refused, and its
    address joins the banned addresses; every other address is logged in, and has an account
    from then on, a new one with balance 0 unless it had one.  Each login is answered once. *)
Theorem login_spec self pk data p w :
  pools w !! self = Some p -> up p -> m_logged_in p = false -> m_data pk = Some data ->
  Z.of_nat (length data) < 2 ^ 31 ->
  exists w' p', login self pk w = Some (tt, w') /\ pools w' !! self = Some p' /\
    login_outcome self data p w p' w'.
Proof.
  intros Hp Hu Hl Hd Hlen.
  enough (Hr : runs (login self pk) w (fun _ w' => exists p', pools w' !! self = Some p' /\
    login_outcome self data p w p' w')).
  { destruct Hr as ([]&w'&Hr&p'&Hp'&HQ). by exists w', p'. }
  unfold login. step. step. rewrite Hl. repeat step.
  eapply (runs_lift _ data); [done|]. repeat step.
  rewrite edit_edit. set (f := set_address data ∘ set_address data).
  pose proof (edit_lookup self f p w Hp) as Hp1.
  assert (Hu1 : up (f p)) by exact Hu.
  destruct (valid_address_total data Hlen) as [b Hb]. repeat step.
  destruct b; cbn [negb].
  2:{ by apply refuse_login. }
  step. step. step. apply with_account_run.
  set (w1 := with_registry _ _).
  assert (Hbans : m_banned_users (registry w1) = m_banned_users (registry w)).
  { cbn. unfold with_account. by destruct (Database.HasKey _ _). }
  destruct (is_account_banned data (m_banned_users (registry (edit_pool self f w)))) eqn:Hban.
  - step. eapply (runs_impl _ _ (fun _ w2 => w2 = with_registry (registry w2) (edit_pool self f w) /\
      is_ip_address_banned (m_remote_address p) (m_banned_users (registry w2)) = true /\
      m_account_db (registry w2) = m_account_db (with_account data (registry w)))).
    + apply runs_when; intros Hip.
      * step. split; [done|]. split; [|done]. cbn. by apply bool_decide_eq_true_2, elem_of_union_l, elem_of_singleton.
      * split; [done|]. split; [|done]. apply negb_false_iff in Hip. rewrite Hbans. exact Hip.
    + intros [] w2 (Hw2&Hip&Hdb). assert (Hp2 : pools w2 !! self = Some (f p)) by (by rewrite Hw2).
      apply (finish_login self data p w (f p)); [done..|by vm_compute|].
      intros w3 p3 (Hr3&Hd3&Hs3&_)%similar_fields Hp3 [dd ->].
      split; [done|]. split; [cbn; rewrite Hd3, Hw2; done|].
      rewrite decide_True by done. cbn in Hban. rewrite Hban. split; [done|].
      cbn. rewrite Hr3, Hs3. split; [by rewrite Hw2|done].
  - repeat step.
    assert (Hp2 : pools (edit_pool self (set_logged_in true) w1) !! self = Some (set_logged_in true (f p))).
    { by apply edit_lookup. }
    eapply runs_answer; [exact Hp2|by destruct Hu|by vm_compute|].
    exists (set_logged_in true (f p)). split; [exact Hp2|]. split; [done|]. split; [done|].
    rewrite decide_True by done. cbn in Hban. by rewrite Hban.
Qed.

(** The state a new round leaves: no share submitted, no block requested. *)
Definition fresh_round (p : Pool_connection) : Pool_connection :=
  set_num 0 (set_requested [] (set_primes ∅ p)).

Lemma new_round_run self h p w :
  pools w !! self = Some p -> m_connection p = true ->
  new_round self h w = Some (tt, say self Packet.NEW_BLOCK (edit_pool self fresh_round w)).
Proof.
  intros Hp Hc.
  assert (Hr : runs (new_round self h) w (fun _ w' =>
    w' = say self Packet.NEW_BLOCK (edit_pool self fresh_round w))).
  { unfold new_round. step. step. step. step.
    pose proof (edit_lookup self (set_primes ∅) p w Hp) as Hp1.
    pose proof (edit_lookup self (set_requested []) _ _ Hp1) as Hp2. step. step.
    pose proof (edit_lookup self (set_num 0) _ _ Hp2) as Hp3.
    eapply runs_transmit_miner; [exact Hp3|done|done|]. by rewrite !edit_edit. }
  by destruct Hr as ([]&w'&Hr&->).
Qed.

(** C31: the two calls of the daemon on an open connection.  [new_round] forgets the
    submitted numbers and the requested blocks and tells the miner with one byte; so every share of an
    earlier block is then unknown.  [add_block] files the block under its hash, which is where
    [SUBMIT_SHARE] looks, takes one off the count of requests, modulo [2^16], and sends the
    miner 140 bytes: hash, minimum share, bits and height. *)
Theorem rounds_and_blocks self h b p w :
  pools w !! self = Some p -> m_connection p = true ->
  new_round self h w = Some (tt, say self Packet.NEW_BLOCK (edit_pool self fresh_round w)) /\
  (forall origin, find_hash_in_blocks_requested origin (fresh_round p) = false) /\
  exists w' p', add_block self b w = Some (tt, w') /\ pools w' !! self = Some p' /\
    map_find (GetHash b) (m_blocks_requested p') = Some b /\
    find_hash_in_blocks_requested (GetHash b) p' = true /\
    m_num_blocks_requested p' = u16 (m_num_blocks_requested p - 1) /\
    registry w' = registry w /\ daemon w' = daemon w /\
    sent w' = sent w ++ [(Miner self, z2b Packet.BLOCK_DATA :: uint2bytes 140 ++
      GetBytes (of_val WIDTH1024 (GetHash b)) ++ uint2bytes (m_min_share p) ++
      uint2bytes (nBits b) ++ uint2bytes (nHeight b))].
Proof.
  intros Hp Hc. split; [by eapply new_round_run|]. split; [done|].
  set (f := fun p => set_requested (map_insert (GetHash b) b (m_blocks_requested p)) p).
  set (g := set_num (u16 (m_num_blocks_requested p - 1))).
  assert (Hlen : u32 (Z.of_nat (length (serialize_block b (m_min_share p)))) = 140).
  { unfold serialize_block. by rewrite !length_app, length_GetBytes, length_of_val. }
  assert (Hr : runs (add_block self b) w (fun _ w' => w' = log (Miner self)
    (z2b Packet.BLOCK_DATA :: uint2bytes 140 ++ serialize_block b (m_min_share p))
      (edit_pool self f (edit_pool self g w)))).
  { unfold add_block. step. step. rewrite Hc. cbn [negb]. step. step. step.
    pose proof (edit_lookup self g p w Hp) as Hp1. step.
    pose proof (edit_lookup self f _ _ Hp1) as Hp2.
    eapply runs_transmit_miner; [exact Hp2|exact Hc| |done]. by rewrite Hlen. }
  destruct Hr as ([]&w'&Hr&->). eexists _, _. split; [exact Hr|].
  split; [by apply edit_lookup, edit_lookup|]. cbn [m_blocks_requested f set_requested].
  unfold find_hash_in_blocks_requested, map_count. cbn [m_blocks_requested f set_requested].
  rewrite find_insert_eq. by split_and!.
Qed.

(** After a connection closed, its object lives on until the next maintenance of
    the server, and the daemon still calls it.  [add_block] then does nothing; [new_round]
    transmits through the null pointer the close has left, which is undefined. *)
Theorem closed_connection self address result buffer h b p w :
  pools w !! self = Some p ->
  (result = Result.connection_closed \/ result = Result.connection_error \/
   result = Result.connection_aborted \/ result = Result.connection_declined) ->
  exists w', init_connection_handler self address result buffer w = Some (tt, w') /\
    (exists p', pools w' !! self = Some p' /\ closed p' = true) /\
    add_block self b w' = Some (tt, w') /\ new_round self h w' = None.
Proof.
  intros Hp Hres. exists (edit_pool self close_pool w).
  pose proof (edit_lookup self close_pool p w Hp) as Hp1.
  assert (Hh : init_connection_handler self address result buffer w =
    Some (tt, edit_pool self close_pool w)).
  { destruct Hres as [-> | [-> | [-> | ->]]]; apply modify_pool_run; by eexists. }
  split; [done|]. split; [by eexists|]. split.
  - unfold add_block. by erewrite M_bind_run by (by apply (pool_lookup _ _ _ Hp1)).
  - unfold new_round. erewrite M_bind_run by (apply modify_pool_run; by eexists).
    pose proof (edit_lookup self (set_primes ∅) _ _ Hp1) as Hp2.
    erewrite M_bind_run by (apply modify_pool_run; by eexists).
    pose proof (edit_lookup self (set_requested []) _ _ Hp2) as Hp3.
    erewrite M_bind_run by (apply modify_pool_run; by eexists).
    pose proof (edit_lookup self (set_num 0) _ _ Hp3) as Hp4.
    by apply (transmit_miner_null _ _ _ _ Hp4).
Qed.
End sessions.

(** ** Witnesses *)
Lemma example_up : up example_pool.
Proof.
  split; [done|]. eexists. split; [done|]. split; [by apply new_filter_ok; lia|by apply new_filter_room].
Qed.

Lemma login_gate_witness :
  let _ := zero_platform in let _ := zero_hash in let _ := sum_hash in let _ := gmp_Z in
  let _ := unit_pow in
  exists w', process_data 0 [z2b Packet.GET_BLOCK] (example_world example_pool) = Some (tt, w') /\
    similar 0 w' (example_world example_pool).
Proof.
  pose (P := zero_platform). pose (B := zero_hash). pose (A := sum_hash). pose (G := gmp_Z).
  pose (L := unit_pow). pose (w := example_world example_pool).
  assert (E1 : is_Some (process_data 0 [z2b Packet.GET_BLOCK] w)) by (vm_compute; by eexists).
  destruct (process_data 0 [z2b Packet.GET_BLOCK] w) as [[[] w']|] eqn:E; [|by destruct E1].
  assert (Hh : m_header (Packet.get_packet Packet.GET_BLOCK) <> Packet.LOGIN) by by vm_compute.
  exists w'. exact (conj E (login_gate 0 [z2b Packet.GET_BLOCK] (Packet.get_packet Packet.GET_BLOCK)
    example_pool w tt w' eq_refl Hh (example_miner _) eq_refl E)).
Defined.

Lemma login_spec_witness :
  let _ := zero_platform in let _ := sum_hash in
  exists w' p', login 0 (mk_packet Packet.LOGIN 1 (Some [Byte.x41])) (example_world example_pool) =
      Some (tt, w') /\ pools w' !! 0%nat = Some p' /\ m_nxsaddress p' = [Byte.x41].
Proof.
  pose (P := zero_platform). pose (A := sum_hash).
  destruct (login_spec 0 (mk_packet Packet.LOGIN 1 (Some [Byte.x41])) [Byte.x41] example_pool
    (example_world example_pool) (example_miner _) example_up eq_refl eq_refl eq_refl) as (w'&p'&Hr&Hp&Ho).
  exists w', p'. exact (conj Hr (conj Hp (proj1 Ho))).
Defined.

Lemma rounds_and_blocks_witness :
  let _ := zero_hash in
  new_round 0 8 (example_world example_pool) =
    Some (tt, say 0 Packet.NEW_BLOCK (edit_pool 0 fresh_round (example_world example_pool))).
Proof.
  pose (B := zero_hash).
  exact (proj1 (rounds_and_blocks 0 8 empty_block example_pool (example_world example_pool)
    (example_miner _) eq_refl)).
Defined.

Lemma closed_connection_witness :
  let _ := zero_platform in let _ := zero_hash in let _ := sum_hash in let _ := gmp_Z in
  let _ := unit_pow in
  exists w', init_connection_handler 0 [] Result.connection_closed [] (example_world example_pool) =
      Some (tt, w') /\ new_round 0 8 w' = None.
Proof.
  pose (P := zero_platform). pose (B := zero_hash). pose (A := sum_hash). pose (G := gmp_Z).
  pose (L := unit_pow).
  destruct (closed_connection 0 [] Result.connection_closed [] 8 empty_block example_pool
    (example_world example_pool) (example_miner _) (or_introl eq_refl)) as (w'&Hr&_&_&Hn).
  exists w'. exact (conj Hr Hn).
Defined.
