(* ===== verification/Daemon_conn.v ===== *)
(** * The connection to the wallet daemon: [src/src/daemon_connection.cpp]

    The handler of the connection, the three timers, and [process_data] with every message of the
    daemon.  The coinbase of a round is built in [build_coinbase]. *)
From S2P Require Import Prelude Bytes StdMap Float64 Uint Packet Coinbase LLD CBlock Ddos Banned.
From S2P Require Import Base58 Prime Registry Payout World Daemon_queue Pool_conn.

Section daemon.
Context `{Platform} `{Block_hash} `{Std_sort}.

(** A loop over the list of connections that skips the expired ones. *)
Definition alive (w : World) (e : Pool_connection_data) : bool :=
  match pools w !! pd_connection e with Some _ => true | None => false end.

(** [Daemon_connection::new_round] *)
Definition daemon_new_round : handler :=
  modify_daemon (set_new_block true) ;;
  d ← gets daemon;
  foreach (fun e =>
    w ← get;
    when (alive w e) (new_round (pd_connection e) (m_best_height (registry w))))
    (m_pool_connections d).

(** The entries are in a [std::vector]: [erase] gives the next entry, which the increment of the
    loop then passes over.  When the last entry is erased the increment is of [end()]. *)
Fixpoint cleanup_loop (expired : Pool_connection_data -> bool) (l : list Pool_connection_data)
  : option (list Pool_connection_data) :=
  match l with
  | [] => Some []
  | e :: l' =>
      if expired e then
        match l' with
        | [] => None
        | e' :: l'' => cons e' <$> cleanup_loop expired l''
        end
      else cons e <$> cleanup_loop expired l'
  end.

Definition cleanup_expired_pool_connections : handler :=
  w ← get;
  l ← lift (cleanup_loop (fun e => negb (alive w e)) (m_pool_connections (daemon w)));
  modify_daemon (set_pool_list l).

(** ** Timers *)
(** The timer of the clean-up, which the program creates and does not start. *)
Definition maintenance_timer_handler (canceled : bool) : handler :=
  if canceled then mret tt else cleanup_expired_pool_connections.

Definition get_height_timer_handler (canceled : bool) : handler :=
  if canceled then mret tt else
  transmit_wallet Daemon_packet.get_height ;;
  transmit_wallet Daemon_packet.get_round ;;
  d ← gets daemon;
  when (m_coinbase_pending d) (transmit_wallet Daemon_packet.get_reward).

(** The body of the first loop of the block timer, for an entry with a block to submit. *)
Definition submit_entry (i : nat) (e : Pool_connection_data) (block : CBlock) : handler :=
  modify_daemon (set_submit_hash (GetHash block)) ;;
  w ← get;
  (if nHeight block =? m_best_height (registry w) then
     p ← this (pd_connection e);
     transmit_wallet (Daemon_packet.submit_block (of_val WIDTH512 (hashMerkleRoot block)) (nNonce block)) ;;
     modify_daemon (set_finder (get_nxs_address p))
   else mret tt) ;;
  modify_daemon (edit_entry i (set_pd_submit None)).

(** It stops at the first entry that is alive and has a block. *)
Fixpoint submit_loop (i : nat) (l : list Pool_connection_data) : handler :=
  match l with
  | [] => mret tt
  | e :: l' =>
      w ← get;
      if negb (alive w e) then submit_loop (S i) l' else
      match pd_submit_block e with
      | Some block => submit_entry i e block
      | None => submit_loop (S i) l'
      end
  end.

(** [while (pool_data.m_blocks_requested > 0)], as many rounds as its value. *)
Fixpoint request_loop (n : nat) (i : nat) : handler :=
  match n with
  | O => mret tt
  | S n' =>
      modify_daemon (edit_entry i (fun e =>
        set_pd_requested (u16 (pd_blocks_requested e - 1))
          (set_pd_waiting (u16 (pd_blocks_waiting e + 1)) e))) ;;
      transmit_wallet Daemon_packet.get_block ;;
      request_loop n' i
  end.

Fixpoint request_all (i : nat) (l : list Pool_connection_data) : handler :=
  match l with
  | [] => mret tt
  | e :: l' => request_loop (Z.to_nat (pd_blocks_requested e)) i ;; request_all (S i) l'
  end.

Definition block_timer_handler (canceled : bool) : handler :=
  if canceled then mret tt else
  w ← get;
  if negb (registry_alive w) then mret tt else
  if m_coinbase_pending (daemon w) then mret tt else
  submit_loop 0 (m_pool_connections (daemon w)) ;;
  d ← gets daemon;
  request_all 0 (m_pool_connections d).

(** The difference of rounds is of 32 bits. *)
Definition to_check (b : Block.t) (current_round : Z) : bool :=
  (u32 (current_round - 5) <=? Block.nRound b) && (0 <? Block.nCoinbaseValue b).

Definition get_block_record (hash : Z) (r : Data_registry) : Block.t * Data_registry :=
  let '(b, db) := Database.GetRecord hash (m_block_db r) in (b, set_blocks db r).

Definition orphan_check_timer_handler (canceled : bool) : handler :=
  if canceled then mret tt else
  w ← get;
  if negb (registry_alive w) then mret tt else
  foreach (fun hash =>
    b ← on_registry (get_block_record hash);
    w ← get;
    when (to_check b (m_current_round (registry w)))
      (transmit_wallet (Daemon_packet.check_block (of_val WIDTH1024 hash))))
    (Database.GetKeys (m_block_db (registry w))).

(** ** Messages *)
(** The loop over the sorted accounts: [nValue < 0] never holds of a [uint64_t], so the branch that
    adds a part of a balance and stops is never taken. *)
Definition add_payout (name : bytes) (r : Data_registry) : Data_registry :=
  let '(a, r) := get_account name r in
  if 0 <? Account.nAccountBalance a then
    let '(nValue, coinbase) := Coinbase.AddTransaction name (Account.nAccountBalance a) (m_coinbase r) in
    if nValue <? 0 then
      set_coinbase_of
        (Coinbase.AddTransaction name (u64 (Account.nAccountBalance a + nValue)) coinbase).2 r
    else set_coinbase_of coinbase r
  else r.

Definition build_coinbase (round_reward : Z) (last_blockfinder : bytes) (r : Data_registry)
  : Data_registry :=
  let fee := u64 (round_reward * get_pool_fee (m_config r)) in
  let r := set_coinbase_of (Coinbase.set_pool_fee fee (m_coinbase r)) r in
  let r := set_coinbase_of (Coinbase.Reset (u64 (round_reward - fee)) (m_coinbase r)) r in
  let r := foldl (fun r name => add_payout name r) r (get_sorted_accounts r) in
  if Coinbase.IsComplete (m_coinbase r) then r
  else set_coinbase_of (Coinbase.AddTransaction last_blockfinder
         (Coinbase.GetRemainder (m_coinbase r)) (m_coinbase r)).2 r.

Definition send_coinbase : handler :=
  r ← gets registry;
  transmit_wallet (Daemon_packet.set_coinbase (Coinbase.Serialize (m_coinbase r))).

Definition on_block_height (data : bytes) : handler :=
  let height := bytes2uint data 0 in
  r ← gets registry;
  when (m_best_height r <? height)
    (modify_registry (set_height height) ;; modify_daemon (set_pending true)).

Definition on_coinbase_set : handler :=
  modify_daemon (set_pending false) ;;
  daemon_new_round ;;
  modify_registry write_accounts.

Definition on_block_reward (data : bytes) : handler :=
  modify_daemon (set_reward (bytes2uint64 data 0)) ;;
  w ← get;
  if (1 <? m_current_round (registry w)) && m_coinbase_pending (daemon w) then
    modify_registry (build_coinbase (m_round_reward (daemon w)) (m_last_blockfinder (daemon w))) ;;
    send_coinbase
  else
    modify_daemon (set_pending false) ;;
    daemon_new_round.

(** Both messages about a block read its record for the log, which files a missing one. *)
Definition on_orphan_block (data : bytes) : handler :=
  hash ← lift (SetBytes WIDTH1024 data);
  on_registry (get_block_record (val hash)) ;;
  modify_registry (refund_payouts (val hash)) ;;
  modify_daemon (set_pending true).

Definition on_good_block (data : bytes) : handler :=
  hash ← lift (SetBytes WIDTH1024 data);
  on_registry (get_block_record (val hash)) ;;
  mret tt.

Definition on_good : handler :=
  w ← get;
  r ← lift (update_balances (m_round_reward (daemon w)) (m_hash_submit_block (daemon w))
              (m_last_blockfinder (daemon w)) (registry w));
  modify (with_registry r) ;;
  modify_registry clear_shares ;;
  modify_registry (fun r => set_round (u32 (m_current_round r + 1)) r) ;;
  daemon_new_round.

(** The first entry that is alive and waits for a block. *)
Definition waiting (ps : gmap nat Pool_connection) (e : Pool_connection_data) : bool :=
  match ps !! pd_connection e with Some _ => 0 <? pd_blocks_waiting e | None => false end.

(** The result says that the handler has returned. *)
Definition on_block_data (data : bytes) : M World bool :=
  block ← lift (deserialize_block data);
  w ← get;
  if nHeight block =? m_best_height (registry w) then
    match find_if (waiting (pools w)) (m_pool_connections (daemon w)) with
    | Some i =>
        e ← lift (m_pool_connections (daemon w) !! i);
        modify_daemon (edit_entry i (fun e => set_pd_waiting (u16 (pd_blocks_waiting e - 1)) e)) ;;
        add_block (pd_connection e) block ;;
        mret true
    | None => mret false
    end
  else mret false.

(** The end of [process_data]. *)
Definition reset_daemon : handler :=
  d ← gets daemon;
  when (m_new_block d)
    (modify_daemon (set_new_block false) ;;
     r ← gets registry;
     if 1 <? m_current_round r then send_coinbase else modify_daemon (set_pending false)).

Definition message (pk : packet) : M World bool :=
  let header := m_header pk in
  if header =? Daemon_packet.BLOCK_HEIGHT then
    data ← lift (m_data pk); on_block_height data ;; mret false
  else if header =? Daemon_packet.NEW_ROUND then modify_daemon (set_pending true) ;; mret false
  else if header =? Daemon_packet.COINBASE_SET then on_coinbase_set ;; mret false
  else if header =? Daemon_packet.COINBASE_FAIL then modify_daemon (set_pending true) ;; mret false
  else if header =? Daemon_packet.BLOCK_REWARD then
    data ← lift (m_data pk); on_block_reward data ;; mret false
  else if header =? Daemon_packet.ORPHAN_BLOCK then
    data ← lift (m_data pk); on_orphan_block data ;; mret false
  else if header =? Daemon_packet.GOOD_BLOCK then
    data ← lift (m_data pk); on_good_block data ;; mret false
  else if header =? Daemon_packet.GOOD then on_good ;; mret false
  else if header =? Daemon_packet.FAIL then mret false
  else if header =? Daemon_packet.BLOCK_DATA then data ← lift (m_data pk); on_block_data data
  else mret false.

Definition daemon_process_data (receive_buffer : bytes) : handler :=
  pk ← lift (Daemon_packet.parse receive_buffer);
  if negb (Daemon_packet.is_valid pk) then mret tt else
  w ← get;
  if negb (registry_alive w) then mret tt else
  returned ← message pk;
  if (returned : bool) then mret tt else reset_daemon.

(** The handler that [connect] gives the socket.  The timers it starts are the events of [Server]. *)
Definition connect_handler (result : Result.Code) (receive_buffer : bytes) : handler :=
  match result with
  | Result.connection_declined | Result.connection_aborted | Result.connection_closed
  | Result.connection_error => modify_daemon (set_d_connection false)
  | Result.connection_ok => transmit_wallet (Daemon_packet.set_channel 1)
  | _ => daemon_process_data receive_buffer
  end.

End daemon.
