(* ===== verification/Daemon_rounds.v ===== *)
(** * Rounds: the theorems on the daemon's messages and timers

    The coinbase of a round, the new rounds, the requests of blocks, the check for orphans and the
    submissions of [Daemon_conn]. *)
From S2P Require Import Prelude Bytes StdMap Float64 Uint Packet Coinbase LLD CBlock Ddos Banned.
From S2P Require Import Base58 Prime Registry Payout World Daemon_queue Pool_conn Pool_shares Pool_sessions Daemon_conn.

(** ** The coinbase of a round *)
Section coinbase.
Context `{Platform} `{Std_sort}.
Implicit Types (c : Coinbase.t) (r : Data_registry).

Lemma AddTransaction_cases a v c :
  accounted c -> 0 <= v -> v + Coinbase.nCurrentValue c < 2 ^ 64 ->
  let c' := (Coinbase.AddTransaction a v c).2 in
  accounted c' /\ Coinbase.nMaxValue c' = Coinbase.nMaxValue c /\
  Coinbase.nPoolFee c' = Coinbase.nPoolFee c /\
  ((c' = c /\ Coinbase.nMaxValue c < v + Coinbase.nCurrentValue c) \/
   (Coinbase.nCurrentValue c' = Coinbase.nCurrentValue c + v /\
    forall b, map_find b (Coinbase.mapOutputs c') =
      if decide (b = a) then Some (default 0 (map_find a (Coinbase.mapOutputs c)) + v)
      else map_find b (Coinbase.mapOutputs c))).
Proof.
  intros Hc Hv Ho. cbv zeta. split; [by apply AddTransaction_accounted|].
  pose proof (output_le c a Hc) as Hout. pose proof Hc as (Hs&_&_&Hle&Hmax).
  unfold Coinbase.AddTransaction. rewrite wrap_small by (unfold fits; lia).
  destruct (Z.ltb_spec (Coinbase.nMaxValue c) (v + Coinbase.nCurrentValue c)).
  - split; [done|]. split; [done|]. by left.
  - split; [done|]. split; [done|]. right. split; [by apply AddOutput_accounted|].
    intros b. cbn. rewrite find_add_to by done. case_decide; [|done].
    by rewrite wrap_small by (unfold fits; lia).
Qed.

Definition balances_fit (db : smap bytes Account.t) : Prop :=
  forall k a, map_find k db = Some a -> 0 <= Account.nAccountBalance a < 2 ^ 63.

Lemma set_coinbase_twice c c' r : set_coinbase_of c (set_coinbase_of c' r) = set_coinbase_of c r.
Proof. done. Qed.

Lemma add_payouts_spec l r :
  NoDup l -> Forall (fun k => is_Some (map_find k (m_account_db r))) l ->
  balances_fit (m_account_db r) -> accounted (m_coinbase r) ->
  Coinbase.nMaxValue (m_coinbase r) < 2 ^ 63 ->
  Forall (fun k => map_find k (Coinbase.mapOutputs (m_coinbase r)) = None) l ->
  exists c', foldl (fun r name => add_payout name r) r l = set_coinbase_of c' r /\
    accounted c' /\ Coinbase.nMaxValue c' = Coinbase.nMaxValue (m_coinbase r) /\
    Coinbase.nPoolFee c' = Coinbase.nPoolFee (m_coinbase r) /\
    forall k, map_find k (Coinbase.mapOutputs c') = map_find k (Coinbase.mapOutputs (m_coinbase r)) \/
      k ∈ l /\ map_find k (Coinbase.mapOutputs c') = Some (balance_of k (m_account_db r)).
Proof.
  revert r. induction l as [|k l IH]; intros r Hnd Hl Hb Hc Hm Hnone.
  { exists (m_coinbase r). destruct r. by split_and!; [..|left]. }
  apply NoDup_cons in Hnd as [Hnin Hnd]. apply Forall_cons in Hl as [[a Ha] Hl].
  apply Forall_cons in Hnone as [Hk Hnone]. cbn [foldl].
  assert (Hstep : exists c1, add_payout k r = set_coinbase_of c1 r /\ accounted c1 /\
    Coinbase.nMaxValue c1 = Coinbase.nMaxValue (m_coinbase r) /\
    Coinbase.nPoolFee c1 = Coinbase.nPoolFee (m_coinbase r) /\
    (forall b, b <> k -> map_find b (Coinbase.mapOutputs c1) =
       map_find b (Coinbase.mapOutputs (m_coinbase r))) /\
    (map_find k (Coinbase.mapOutputs c1) = None \/
     map_find k (Coinbase.mapOutputs c1) = Some (balance_of k (m_account_db r)))).
  { unfold add_payout. rewrite (get_account_present k r a) by done.
    destruct (Z.ltb_spec 0 (Account.nAccountBalance a)) as [Hpos|_].
    2:{ exists (m_coinbase r). destruct r. by split_and!; [..|left]. }
    pose proof (Hb k a Ha) as Hfit. pose proof Hc as (_&_&_&Hle&_).
    destruct (AddTransaction_cases k (Account.nAccountBalance a) (m_coinbase r) Hc) as
      (Hc1&Hmx&Hfee&Hcases); [lia|lia|].
    assert (Hneg : ((Coinbase.AddTransaction k (Account.nAccountBalance a) (m_coinbase r)).1 <? 0) = false).
    { apply Z.ltb_ge. unfold Coinbase.AddTransaction. split_cases; cbn [fst]; apply wrap_fits; lia. }
    destruct (Coinbase.AddTransaction k _ _) as [n c1]. cbn [fst snd] in *. rewrite Hneg.
    exists c1. split; [done|]. split; [done|]. split; [done|]. split; [done|].
    destruct Hcases as [[-> _]|[_ Hfind]].
    - split; [done|by left].
    - split; [intros b Hne; by rewrite Hfind, decide_False|].
      right. rewrite Hfind, decide_True, Hk by done. unfold balance_of. by rewrite Ha. }
  destruct Hstep as (c1&->&Hc1&Hmx1&Hfee1&Hother&Hk1).
  destruct (IH (set_coinbase_of c1 r)) as (c'&->&Hc'&Hmx'&Hfee'&Hall); try done.
  { cbn. lia. }
  { rewrite Forall_forall in Hnone |- *. intros b Hin. cbn. rewrite Hother; [by apply Hnone|].
    by intros ->. }
  exists c'. rewrite set_coinbase_twice. cbn [m_coinbase set_coinbase_of m_account_db] in *.
  split; [done|]. split; [done|]. split; [congruence|]. split; [congruence|].
  intros b. destruct (decide (b = k)) as [->|Hne].
  - destruct (Hall k) as [Heq|[Hin _]]; [|done]. rewrite Heq.
    destruct Hk1 as [Hk1|Hk1]; [left; congruence|]. right. split; [left|done].
  - rewrite <-(Hother b Hne). destruct (Hall b) as [?|[??]]; [by left|]. right.
    split; [by right|done].
Qed.

(** C10: the coinbase of a round pays out the reward exactly.  From balances and a
    reward below [2^63], [build_coinbase] leaves a coinbase that is complete: its outputs add up
    to the reward less the fee, the fee is recorded, no account but the last finder gets more
    than its balance, and nothing else of the registry changes. *)
Theorem coinbase_complete reward last r :
  let fee := u64 (reward * get_pool_fee (m_config r)) in
  let c := m_coinbase (build_coinbase reward last r) in
  map_sorted (m_account_db r) -> balances_fit (m_account_db r) -> u64 (reward - fee) < 2 ^ 63 ->
  build_coinbase reward last r = set_coinbase_of c r /\ accounted c /\
  Coinbase.IsComplete c = true /\ Coinbase.nPoolFee c = fee /\
  Coinbase.nMaxValue c = u64 (reward - fee) /\ values (Coinbase.mapOutputs c) = u64 (reward - fee) /\
  forall k v, k <> last -> map_find k (Coinbase.mapOutputs c) = Some v ->
    v = balance_of k (m_account_db r).
Proof.
  intros fee c Hs Hb HM. set (M := u64 (reward - fee)) in *.
  assert (HM0 : fits 64 M) by (apply wrap_fits; lia).
  set (c0 := Coinbase.Reset M (Coinbase.set_pool_fee fee (m_coinbase r))).
  set (r0 := set_coinbase_of c0 r).
  destruct (add_payouts_spec (get_sorted_accounts r) r0) as (c1&Hfold&Hc1&Hmx&Hfee&Hall).
  { rewrite sorted_accounts_permutation. by apply keys_NoDup. }
  { apply Forall_forall. intros k. rewrite sorted_accounts_permutation. by apply find_is_Some. }
  { done. }
  { by apply Reset_accounted. }
  { done. }
  { by apply Forall_true. }
  assert (Hbuild : build_coinbase reward last r = if Coinbase.IsComplete c1 then set_coinbase_of c1 r
    else set_coinbase_of (Coinbase.AddTransaction last (Coinbase.GetRemainder c1) c1).2 r).
  { unfold build_coinbase. fold fee. cbn zeta. rewrite set_coinbase_twice.
    change (get_sorted_accounts _) with (get_sorted_accounts r).
    change (set_coinbase_of (Coinbase.Reset _ _) r) with r0. by rewrite !Hfold. }
  assert (Hout : forall k v, map_find k (Coinbase.mapOutputs c1) = Some v ->
    v = balance_of k (m_account_db r)).
  { intros k v Hv. destruct (Hall k) as [Heq|[_ Heq]]; [by rewrite Heq in Hv|].
    rewrite Heq in Hv. by injection Hv as <-. }
  unfold c. rewrite Hbuild. cbn [m_coinbase set_coinbase_of r0 c0 Coinbase.Reset Coinbase.nMaxValue
    Coinbase.nPoolFee Coinbase.set_pool_fee] in Hmx, Hfee.
  pose proof Hc1 as (_&_&Hcur&Hle&_).
  destruct (Coinbase.IsComplete c1) eqn:Hcomp.
  - apply Z.eqb_eq in Hcomp as Hcomp'. split_and!; try done; [by cbn; congruence|].
    intros k v _. apply Hout.
  - unfold Coinbase.IsComplete in Hcomp. apply Z.eqb_neq in Hcomp. unfold Coinbase.GetRemainder.
    rewrite wrap_small by (unfold fits in *; lia).
    destruct (AddTransaction_cases last (Coinbase.nMaxValue c1 - Coinbase.nCurrentValue c1) c1 Hc1)
      as (Hc2&Hmx2&Hfee2&[[_ Hbad]|[Hcur2 Hfind]]); [lia|unfold fits in *; lia|lia|].
    cbn [m_coinbase set_coinbase_of]. pose proof Hc2 as (_&_&Hval2&_&_).
    split; [done|]. split; [done|]. split; [apply Z.eqb_eq; lia|]. split; [congruence|].
    split; [congruence|]. split; [lia|].
    intros k v Hne. rewrite Hfind, decide_False by done. apply Hout.
Qed.

End coinbase.

Lemma coinbase_complete_witness :
  let _ := zero_platform in let _ := insertion_sort in
  Coinbase.IsComplete (m_coinbase (build_coinbase 1000 [Byte.x42] (example_registry 0))) = true.
Proof.
  pose (P := zero_platform). pose (S := insertion_sort).
  refine (proj1 (proj2 (proj2 (coinbase_complete 1000 [Byte.x42] (example_registry 0) _ _ _)))).
  - by repeat constructor.
  - intros k a Ha. apply find_Some in Ha; [|by repeat constructor].
    apply elem_of_cons in Ha as [[= -> ->]|Ha]; [by vm_compute; split; congruence|].
    apply elem_of_cons in Ha as [[= -> ->]|Ha]; [by vm_compute; split; congruence|].
    by apply not_elem_of_nil in Ha.
  - by vm_compute.
Defined.

(** ** New rounds *)
Section rounds.
Context `{Platform} `{Block_hash} `{Std_sort}.
Implicit Types (w : World) (l : list Pool_connection_data).

(** The live connections of a list all have their socket. *)
Definition open_list l w : Prop :=
  forall e p, e ∈ l -> pools w !! pd_connection e = Some p -> m_connection p = true.

(** What a new round does, connection by connection. *)
Definition renew_one w (e : Pool_connection_data) : World :=
  if alive w e then say (pd_connection e) Packet.NEW_BLOCK (edit_pool (pd_connection e) fresh_round w)
  else w.
Definition renew l w : World := foldl renew_one w l.

Abbreviation renewal := (fun e => w ← get;
  when (alive w e) (new_round (pd_connection e) (m_best_height (registry w)))).

Lemma renewal_run e w :
  (forall p, pools w !! pd_connection e = Some p -> m_connection p = true) ->
  renewal e w = Some (tt, renew_one w e).
Proof.
  intros Hopen. unfold renew_one. erewrite M_bind_run by done. unfold alive.
  destruct (pools w !! pd_connection e) as [p|] eqn:Hp; [|done]. cbn [when].
  by apply (new_round_run _ _ p), Hopen.
Qed.

Lemma renewal_null e p w :
  pools w !! pd_connection e = Some p -> m_connection p = false -> renewal e w = None.
Proof.
  intros Hp Hc. unfold mbind, M_bind, get. unfold alive. rewrite Hp. cbn [when].
  destruct (new_round _ _ w) as [[[] w']|] eqn:Hr; [exfalso|done]. unfold new_round in Hr. unrun.
  repeat match goal with Hm : modify_pool _ _ _ = Some _ |- _ => apply modify_pool_inv in Hm as [_ ->] end.
  apply transmit_miner_inv in Hr as (p'&data&Hp'&Hc'&_).
  rewrite !edit_edit in Hp'. rewrite (edit_lookup _ _ _ _ Hp) in Hp'. injection Hp' as <-.
  cbn in Hc'. congruence.
Qed.

Lemma renew_one_lookup w e i :
  pools (renew_one w e) !! i =
    (if decide (i = pd_connection e) then fresh_round else id) <$> pools w !! i.
Proof.
  unfold renew_one, alive. case_decide as Hi; subst.
  - destruct (pools w !! pd_connection e) eqn:Hp; [|by rewrite Hp].
    cbn. by rewrite lookup_alter_eq, Hp.
  - rewrite option_fmap_id. destruct (pools w !! pd_connection e); [|done].
    cbn. by rewrite lookup_alter_ne.
Qed.

Lemma open_renew l e w : open_list l w -> open_list l (renew_one w e).
Proof.
  intros Ho e' p Hin Hp. rewrite renew_one_lookup in Hp.
  apply fmap_Some in Hp as (p'&Hp'&->). case_decide; exact (Ho e' p' Hin Hp').
Qed.

Lemma renewals_run l w : open_list l w -> foreach renewal l w = Some (tt, renew l w).
Proof.
  revert w. induction l as [|e l IH]; intros w Ho; [done|]. cbn [foreach].
  erewrite M_bind_run by (apply renewal_run; intros p; by apply (Ho e p); left).
  apply IH. intros e' p Hin. apply (open_renew (e :: l) e w Ho e' p). by right.
Qed.

Lemma renewals_null l e p w :
  e ∈ l -> pools w !! pd_connection e = Some p -> m_connection p = false ->
  foreach renewal l w = None.
Proof.
  revert w p. induction l as [|e0 l IH]; intros w p Hin Hp Hc; [by apply not_elem_of_nil in Hin|].
  cbn [foreach]. destruct (renewal e0 w) as [[[] w1]|] eqn:Hr; [|by apply M_bind_None].
  erewrite M_bind_run by exact Hr. apply elem_of_cons in Hin as [->|Hin].
  { by rewrite (renewal_null _ _ _ Hp Hc) in Hr. }
  rewrite renewal_run in Hr.
  - injection Hr as <-. pose proof (renew_one_lookup w e0 (pd_connection e)) as Hl. rewrite Hp in Hl.
    eapply IH; [exact Hin|exact Hl|]. by case_decide.
  - intros p0 Hp0. destruct (m_connection p0) eqn:Hc0; [done|].
    by rewrite (renewal_null _ _ _ Hp0 Hc0) in Hr.
Qed.

Lemma renew_fields l w :
  registry (renew l w) = registry w /\ daemon (renew l w) = daemon w /\
  registry_alive (renew l w) = registry_alive w /\
  (exists notices, sent (renew l w) = sent w ++ notices /\
     Forall (fun m => exists i, m = (Miner i, [z2b Packet.NEW_BLOCK])) notices) /\
  forall i, pools (renew l w) !! i =
    (if decide (i ∈ pd_connection <$> l) then fresh_round else id) <$> pools w !! i.
Proof.
  revert w. induction l as [|e l IH]; intros w.
  { cbn. split_and!; try done; [exists []; by rewrite app_nil_r|]. intros i. by rewrite option_fmap_id. }
  destruct (IH (renew_one w e)) as (Hr&Hd&Ha&(n&Hs&Hn)&Hp). cbn [renew foldl].
  fold (renew l (renew_one w e)). rewrite Hr, Hd, Ha, Hs. split_and!.
  - unfold renew_one. by destruct (alive w e).
  - unfold renew_one. by destruct (alive w e).
  - unfold renew_one. by destruct (alive w e).
  - unfold renew_one. destruct (alive w e); [|by exists n].
    exists ((Miner (pd_connection e), [z2b Packet.NEW_BLOCK]) :: n). cbn. rewrite <-app_assoc.
    split; [done|]. constructor; [by eexists|done].
  - intros i. rewrite Hp, renew_one_lookup, fmap_cons. destruct (pools w !! i) as [p|]; [|done].
    cbn. f_equal. destruct (decide (i = pd_connection e)) as [->|Hne].
    + rewrite (decide_True (P := _ ∈ _ :: _)) by left. by case_decide.
    + case_decide; [rewrite decide_True by (by right); done|].
      rewrite decide_False; [done|]. intros [?|?]%elem_of_cons; done.
Qed.

Lemma daemon_new_round_run w :
  open_list (m_pool_connections (daemon w)) w ->
  daemon_new_round w = Some (tt, renew (m_pool_connections (daemon w))
    (with_daemon (set_new_block true (daemon w)) w)).
Proof.
  intros Ho. unfold daemon_new_round. erewrite M_bind_run by done. erewrite M_bind_run by done.
  by apply renewals_run.
Qed.

(** C30: one closed connection stops the rounds.  A connection that has closed and is
    still owned by the server, which drops it at its next maintenance, makes every new round
    undefined: the daemon connection has it transmit through its null pointer. *)
Theorem new_round_null e p w :
  e ∈ m_pool_connections (daemon w) -> pools w !! pd_connection e = Some p ->
  m_connection p = false -> daemon_new_round w = None.
Proof.
  intros Hin Hp Hc. unfold daemon_new_round. erewrite M_bind_run by done.
  erewrite M_bind_run by done. by apply (renewals_null _ e p).
Qed.

(** The pool is running: the wallet is connected, and no connection it lists has closed. *)
Definition running w : Prop :=
  registry_alive w = true /\ d_connection (daemon w) = true /\
  open_list (m_pool_connections (daemon w)) w.

Lemma open_list_ext l w w' : pools w' = pools w -> open_list l w -> open_list l w'.
Proof. unfold open_list. by intros ->. Qed.

Lemma open_renewed l0 l w : open_list l w -> open_list l (renew l0 w).
Proof.
  revert w. induction l0 as [|e l0 IH]; intros w Ho; [done|]. cbn. apply IH. by apply open_renew.
Qed.

Definition coinbase_message w : packet :=
  Daemon_packet.set_coinbase (Coinbase.Serialize (m_coinbase (registry w))).

Lemma coinbase_bytes w : exists data, get_bytes (coinbase_message w) = Some data.
Proof. by eexists. Qed.

(** The world after the acknowledgment, but for the message at the end. *)
Definition acknowledged w : World :=
  let w1 := with_daemon (set_pending false (daemon w)) w in
  let w2 := renew (m_pool_connections (daemon w)) (with_daemon (set_new_block true (daemon w1)) w1) in
  let w3 := with_registry (write_accounts (registry w2)) w2 in
  with_daemon (set_new_block false (daemon w3)) w3.

Lemma coinbase_set_run data w :
  running w -> 1 < m_current_round (registry w) -> get_bytes (coinbase_message w) = Some data ->
  daemon_process_data [z2b Daemon_packet.COINBASE_SET] w = Some (tt, log Wallet data (acknowledged w)).
Proof.
  intros (Ha&Hc&Ho) Hround Hdata. unfold acknowledged.
  set (w1 := with_daemon (set_pending false (daemon w)) w).
  set (w2 := renew (m_pool_connections (daemon w)) (with_daemon (set_new_block true (daemon w1)) w1)).
  destruct (renew_fields (m_pool_connections (daemon w))
    (with_daemon (set_new_block true (daemon w1)) w1)) as (Hr2&Hd2&_). fold w2 in Hr2, Hd2.
  set (w3 := with_registry (write_accounts (registry w2)) w2).
  set (w4 := with_daemon (set_new_block false (daemon w3)) w3).
  unfold daemon_process_data. erewrite M_bind_run by done. cbn [negb Daemon_packet.is_valid].
  change (Daemon_packet.is_valid _) with true. cbn [negb]. erewrite M_bind_run by done.
  rewrite Ha. cbn [negb].
  assert (Hset : on_coinbase_set w = Some (tt, w3)).
  { unfold on_coinbase_set. erewrite M_bind_run by done.
    erewrite M_bind_run by (apply (daemon_new_round_run w1); exact Ho). done. }
  assert (Hmsg : message (mk_packet Daemon_packet.COINBASE_SET 0 None) w = Some (false, w3)).
  { unfold message. cbn [m_header Z.eqb Pos.eqb Daemon_packet.BLOCK_HEIGHT Daemon_packet.NEW_ROUND
      Daemon_packet.COINBASE_SET]. by erewrite M_bind_run by exact Hset. }
  erewrite M_bind_run by exact Hmsg. unfold reset_daemon. erewrite M_bind_run by done.
  assert (m_new_block (daemon w3) = true) as -> by (cbn; by rewrite Hd2). cbn [when].
  erewrite M_bind_run by done. erewrite M_bind_run by done.
  assert (Hr : (1 <? m_current_round (registry w4)) = true).
  { apply Z.ltb_lt. cbn. by rewrite Hr2. }
  match goal with |- (if ?b then _ else _) _ = _ => change b with (1 <? m_current_round (registry w4)) end.
  rewrite Hr. unfold send_coinbase. erewrite M_bind_run by done.
  apply transmit_wallet_run; [cbn; by rewrite Hd2|].
  cbn [registry with_daemon w4 w3 with_registry]. unfold coinbase_message in Hdata.
  rewrite Hr2. exact Hdata.
Qed.

(** The acknowledgment of a coinbase is answered with the same coinbase.  After the
    first round, [COINBASE_SET] starts a new round for every miner, whose work is dropped, and its
    last message sends [SET_COINBASE] again.  The pool is then as ready for the next
    acknowledgment: a wallet that acknowledges each one keeps the pool starting rounds. *)
Theorem coinbase_echo w :
  running w -> 1 < m_current_round (registry w) ->
  exists w' notices data, daemon_process_data [z2b Daemon_packet.COINBASE_SET] w = Some (tt, w') /\
    get_bytes (coinbase_message w) = Some data /\
    sent w' = sent w ++ notices ++ [(Wallet, data)] /\
    Forall (fun m => exists i, m = (Miner i, [z2b Packet.NEW_BLOCK])) notices /\
    (forall e p, e ∈ m_pool_connections (daemon w) -> pools w !! pd_connection e = Some p ->
       pools w' !! pd_connection e = Some (fresh_round p)) /\
    m_coinbase_pending (daemon w') = false /\ m_new_block (daemon w') = false /\
    acct_dat (registry w') = Some (Database.WriteToDisk (m_account_db (registry w))) /\
    running w' /\ m_current_round (registry w') = m_current_round (registry w) /\
    coinbase_message w' = coinbase_message w.
Proof.
  intros (Ha&Hc&Ho) Hround. destruct (coinbase_bytes w) as [data Hdata].
  set (w1 := with_daemon (set_pending false (daemon w)) w).
  set (w2 := renew (m_pool_connections (daemon w)) (with_daemon (set_new_block true (daemon w1)) w1)).
  destruct (renew_fields (m_pool_connections (daemon w))
    (with_daemon (set_new_block true (daemon w1)) w1)) as (Hr2&Hd2&Ha2&(notices&Hs2&Hn)&Hp2).
  fold w2 in Hr2, Hd2, Ha2, Hs2, Hp2.
  exists (log Wallet data (acknowledged w)), notices, data. split; [by apply coinbase_set_run|].
  unfold acknowledged. fold w1. fold w2. split; [done|].
  split; [cbn; rewrite Hs2; cbn; by rewrite app_assoc|]. split; [done|].
  split; [|split; [|split; [|split; [|split; [|split]]]]].
  - intros e p Hin Hp. cbn. rewrite Hp2, decide_True by (by apply list_elem_of_fmap_2). cbn. by rewrite Hp.
  - cbn. by rewrite Hd2.
  - done.
  - cbn. by rewrite Hr2.
  - split; [cbn; by rewrite Ha2|]. split; [cbn; by rewrite Hd2|].
    cbn [daemon log with_sent with_daemon set_new_block m_pool_connections with_registry].
    rewrite Hd2. apply (open_list_ext _ w2); [done|]. by apply open_renewed.
  - cbn. by rewrite Hr2.
  - unfold coinbase_message. cbn. by rewrite Hr2.
Qed.

(** while a coinbase is pending the block timer does nothing: no block is submitted
    and none requested; and a daemon connection that has lost the wallet still has its timers,
    of which the one for the height transmits through a null pointer. *)
Theorem pending_gate w buffer result :
  (m_coinbase_pending (daemon w) = true -> block_timer_handler false w = Some (tt, w)) /\
  (result = Result.connection_closed \/ result = Result.connection_error \/
   result = Result.connection_aborted \/ result = Result.connection_declined ->
   exists w', connect_handler result buffer w = Some (tt, w') /\
     get_height_timer_handler false w' = None).
Proof.
  split.
  - intros Hp. unfold block_timer_handler. erewrite M_bind_run by done.
    destruct (registry_alive w); [|done]. by rewrite Hp.
  - intros Hres. exists (with_daemon (set_d_connection false (daemon w)) w).
    by destruct Hres as [-> | [-> | [-> | ->]]].
Qed.

(** ** Orphans *)
Definition check_message (hash : Z) : packet := Daemon_packet.check_block (of_val WIDTH1024 hash).

(** The messages of a check, for the records [keys] of the block database. *)
Definition checks (r : Data_registry) (keys : list Z) : list (peer * bytes) :=
  omap (fun k =>
    b ← map_find k (m_block_db r);
    if to_check b (m_current_round r)
    then data ← get_bytes (check_message k); Some (Wallet, data) else None) keys.

Lemma check_bytes hash : exists data, get_bytes (check_message hash) = Some data.
Proof. by eexists. Qed.

Lemma orphan_loop_run keys w :
  d_connection (daemon w) = true ->
  Forall (fun k => is_Some (map_find k (m_block_db (registry w)))) keys ->
  foreach (fun hash =>
    b ← on_registry (get_block_record hash);
    w ← get;
    when (to_check b (m_current_round (registry w))) (transmit_wallet (check_message hash))) keys w =
  Some (tt, with_sent (sent w ++ checks (registry w) keys) w).
Proof.
  revert w. induction keys as [|k keys IH]; intros w Hc Hk.
  { cbn. rewrite app_nil_r. by destruct w. }
  apply Forall_cons in Hk as [[b Hb] Hk]. cbn [foreach checks omap list_omap]. rewrite Hb.
  cbn [mbind option_bind].
  assert (Hrec : on_registry (get_block_record k) w = Some (b, w)).
  { unfold on_registry, get_block_record, Database.GetRecord. rewrite Hb. destruct w as [r].
    by destruct r. }
  destruct (check_bytes k) as [data Hd]. rewrite Hd.
  destruct (to_check b (m_current_round (registry w))) eqn:E.
  - rewrite (M_bind_run _ _ w tt (log Wallet data w)).
    + rewrite IH by done. cbn. by rewrite <-app_assoc.
    + erewrite M_bind_run by exact Hrec. erewrite M_bind_run by done. rewrite E. cbn [when].
      by apply transmit_wallet_run.
  - rewrite (M_bind_run _ _ w tt w).
    + by apply IH.
    + erewrite M_bind_run by exact Hrec. erewrite M_bind_run by done. by rewrite E.
Qed.

(** The check for orphans asks the wallet about exactly the blocks that are not yet
    refunded and at most five rounds old, once each and in the order of their hashes, and
    changes nothing.  Before round 5 the difference of the rounds wraps around: no block of those
    rounds is ever asked about. *)
Theorem orphan_checks w :
  registry_alive w = true -> d_connection (daemon w) = true ->
  map_sorted (m_block_db (registry w)) -> fits 32 (m_current_round (registry w)) ->
  let keys := map_keys (m_block_db (registry w)) in
  orphan_check_timer_handler false w = Some (tt, with_sent (sent w ++ checks (registry w) keys) w) /\
  (5 <= m_current_round (registry w) -> forall b,
     to_check b (m_current_round (registry w)) = true <->
       m_current_round (registry w) <= Block.nRound b + 5 /\ 0 < Block.nCoinbaseValue b) /\
  (m_current_round (registry w) < 5 ->
     (forall k b, map_find k (m_block_db (registry w)) = Some b -> Block.nRound b < 2 ^ 32 - 5) ->
     checks (registry w) keys = []).
Proof.
  intros Ha Hc Hs Hf keys. unfold fits in Hf. split; [|split].
  - unfold orphan_check_timer_handler. erewrite M_bind_run by done. rewrite Ha. cbn [negb].
    apply orphan_loop_run; [done|]. apply Forall_forall. intros k Hk. by apply find_is_Some.
  - intros Hge b. unfold to_check. rewrite wrap_small by (unfold fits; lia).
    rewrite andb_true_iff, Z.leb_le, Z.ltb_lt. lia.
  - intros Hlt Hall. unfold checks. assert (Hnone : forall k b,
      map_find k (m_block_db (registry w)) = Some b -> to_check b (m_current_round (registry w)) = false).
    { intros k b Hb. unfold to_check. apply andb_false_iff. left. apply Z.leb_gt.
      specialize (Hall k b Hb). replace (u32 _) with (m_current_round (registry w) - 5 + 2 ^ 32); [lia|].
      symmetry. unfold wrap. zlia. }
    induction keys as [|k keys IH]; [done|]. cbn [omap list_omap].
    destruct (map_find k (m_block_db (registry w))) as [b|] eqn:Hb; cbn [mbind option_bind]; [|done].
    by rewrite (Hnone k b Hb).
Qed.

(** ** The clean-up of the list *)
Lemma cleanup_loop_app expired l1 l2 :
  Forall (fun e => expired e = false) l1 ->
  cleanup_loop expired (l1 ++ l2) = app l1 <$> cleanup_loop expired l2.
Proof.
  induction 1 as [|e l1 He Hl IH]; cbn [cleanup_loop app]; [by destruct (cleanup_loop expired l2)|].
  rewrite He, IH. by destruct (cleanup_loop expired l2).
Qed.

Lemma cleanup_loop_live expired l :
  Forall (fun e => expired e = false) l -> cleanup_loop expired l = Some l.
Proof. intros Hx. rewrite <-(app_nil_r l) at 1. rewrite cleanup_loop_app by done. cbn. by rewrite app_nil_r. Qed.

Lemma cleanup_loop_sound expired l l' :
  cleanup_loop expired l = Some l' ->
  sublist l' l /\ filter (fun e => expired e = false) l' = filter (fun e => expired e = false) l.
Proof.
  assert (forall n l l', (length l <= n)%nat -> cleanup_loop expired l = Some l' ->
    sublist l' l /\ filter (fun e => expired e = false) l' = filter (fun e => expired e = false) l) as Hn;
    [|by apply (Hn (length l))].
  clear l l'. induction n as [|n IH]; intros [|e l] l' Hl Hx; cbn [length cleanup_loop] in *;
    try lia; try by injection Hx as <-.
  destruct (expired e) eqn:E; [destruct l as [|e' l]; [done|]|];
    apply fmap_Some in Hx as (l1&Hl1&->); apply IH in Hl1 as [Hs Hf]; cbn [length] in *; try lia.
  - split; [by do 2 constructor|]. rewrite !filter_cons, Hf. by destruct (decide (expired e = false)); [congruence|].
  - split; [by constructor|]. by rewrite !filter_cons, Hf.
Qed.

(** The clean-up removes no entry of a live connection, and nothing when there is no other.  Of two
    expired entries in a row it leaves the second, and when the last entry has expired it
    steps past the end of the list. *)
Theorem cleanup_expired w :
  let live e := alive w e = true in
  let l := m_pool_connections (daemon w) in
  (forall w', cleanup_expired_pool_connections w = Some (tt, w') ->
     exists l', w' = with_daemon (set_pool_list l' (daemon w)) w /\ sublist l' l /\
       filter live l' = filter live l) /\
  (Forall live l -> cleanup_expired_pool_connections w = Some (tt, w)) /\
  (forall l1 e e' l2, l = l1 ++ e :: e' :: l2 -> Forall live (l1 ++ l2) -> alive w e = false ->
     cleanup_expired_pool_connections w =
       Some (tt, with_daemon (set_pool_list (l1 ++ e' :: l2) (daemon w)) w)) /\
  (forall l1 e, l = l1 ++ [e] -> Forall live l1 -> alive w e = false ->
     cleanup_expired_pool_connections w = None).
Proof.
  intros live l. unfold cleanup_expired_pool_connections.
  assert (Hlive : forall k, Forall live k -> Forall (fun e => negb (alive w e) = false) k).
  { intros k Hk. eapply Forall_impl; [exact Hk|]. unfold live. by intros e ->. }
  split; [|split; [|split]].
  - intros w' Hx. erewrite M_bind_run in Hx by done. apply M_bind_Some in Hx as (l'&w1&[Hl ->]%lift_inv&[= <-]).
    apply cleanup_loop_sound in Hl as [Hs Hf]. exists l'. split; [done|]. split; [done|].
    rewrite (list_filter_iff live (fun e => negb (alive w e) = false)), Hf.
    + apply list_filter_iff. intros e. unfold live. by destruct (alive w e).
    + intros e. unfold live. by destruct (alive w e).
  - intros Hx%Hlive. erewrite M_bind_run by done. fold l. rewrite cleanup_loop_live by done. by destruct w as [? ? []].
  - intros l1 e e' l2 Hl [Hl1%Hlive Hl2%Hlive]%Forall_app He. erewrite M_bind_run by done. fold l.
    rewrite Hl, cleanup_loop_app by done. cbn [cleanup_loop]. rewrite He. cbn [negb].
    by rewrite cleanup_loop_live.
  - intros l1 e Hl Hl1%Hlive He. erewrite M_bind_run by done. fold l.
    rewrite Hl, cleanup_loop_app by done. cbn [cleanup_loop]. by rewrite He.
Qed.

(** ** Submissions and requests *)
Lemma submit_entry_run i e b p data w :
  d_connection (daemon w) = true -> pools w !! pd_connection e = Some p ->
  get_bytes (Daemon_packet.submit_block (of_val WIDTH512 (hashMerkleRoot b)) (nNonce b)) = Some data ->
  submit_entry i e b w = Some (tt,
    if nHeight b =? m_best_height (registry w) then
      log Wallet data (with_daemon (edit_entry i (set_pd_submit None)
        (set_finder (m_nxsaddress p) (set_submit_hash (GetHash b) (daemon w)))) w)
    else with_daemon (edit_entry i (set_pd_submit None) (set_submit_hash (GetHash b) (daemon w))) w).
Proof.
  intros Hc Hp Hd. unfold submit_entry. erewrite M_bind_run by done. erewrite M_bind_run by done.
  cbn [registry with_daemon]. destruct (nHeight b =? _).
  - erewrite M_bind_run.
    2:{ erewrite M_bind_run by (by apply (pool_lookup _ p)).
        erewrite M_bind_run by (by apply transmit_wallet_run). done. }
    done.
  - erewrite M_bind_run by done. done.
Qed.

(** The entry the submission loop stops at. *)
Definition submits (w : World) (e : Pool_connection_data) : bool :=
  alive w e && match pd_submit_block e with Some _ => true | None => false end.

Lemma submit_loop_run k l w :
  submit_loop k l w =
    match find_if (submits w) l with
    | Some i =>
        match l !! i with
        | Some e => match pd_submit_block e with
                    | Some b => submit_entry (k + i) e b w
                    | None => Some (tt, w)
                    end
        | None => Some (tt, w)
        end
    | None => Some (tt, w)
    end.
Proof.
  revert k. induction l as [|e l IH]; intros k; [done|]. cbn [submit_loop find_if].
  erewrite M_bind_run by done. unfold submits at 1. destruct (alive w e) eqn:He; cbn [negb andb].
  - destruct (pd_submit_block e) as [b|] eqn:Hb.
    + cbn. by rewrite Hb, Nat.add_0_r.
    + rewrite IH. destruct (find_if (submits w) l) as [i|]; [|done]. cbn.
      by rewrite <-Nat.add_succ_comm.
  - rewrite IH. destruct (find_if (submits w) l) as [i|]; [|done]. cbn.
    by rewrite <-Nat.add_succ_comm.
Qed.

(** An entry whose requests were sent, and the messages of a list of entries. *)
Definition served (e : Pool_connection_data) : Pool_connection_data :=
  set_pd_requested 0 (set_pd_waiting (u16 (pd_blocks_waiting e + pd_blocks_requested e)) e).
Definition requested l : nat := sum_list ((fun e => Z.to_nat (pd_blocks_requested e)) <$> l).
Definition request_messages l : list (peer * bytes) :=
  replicate (requested l) (Wallet, [z2b Daemon_packet.GET_BLOCK]).

Definition counts_fit (e : Pool_connection_data) : Prop :=
  fits 16 (pd_blocks_requested e) /\ fits 16 (pd_blocks_waiting e).

Lemma request_loop_run n i e pre l w :
  d_connection (daemon w) = true -> m_pool_connections (daemon w) = pre ++ e :: l -> i = length pre ->
  counts_fit e -> pd_blocks_requested e = Z.of_nat n ->
  request_loop n i w = Some (tt,
    with_sent (sent w ++ replicate n (Wallet, [z2b Daemon_packet.GET_BLOCK]))
      (with_daemon (set_pool_list (pre ++ served e :: l) (daemon w)) w)).
Proof.
  intros Hc Hl -> Hfit Hn. revert e w Hc Hl Hfit Hn. induction n as [|n IH]; intros e w Hc Hl [Hr Hw] Hn.
  { cbn [request_loop replicate]. rewrite app_nil_r. unfold served. rewrite Hn, Z.add_0_r, wrap_small by done.
    destruct w as [r ra d da ps g cl se], d, e. cbn in *. by subst. }
  cbn [request_loop replicate]. erewrite M_bind_run by done.
  set (e1 := set_pd_requested (u16 (pd_blocks_requested e - 1))
    (set_pd_waiting (u16 (pd_blocks_waiting e + 1)) e)).
  match goal with |- (_ ≫= _) (with_daemon ?d _) = _ =>
    assert (Hd : d = set_pool_list (pre ++ e1 :: l) (daemon w)) end.
  { unfold edit_entry. f_equal. rewrite Hl. rewrite alter_app_r_alt by lia. by rewrite Nat.sub_diag. }
  rewrite Hd. erewrite M_bind_run by (by apply transmit_wallet_run).
  unfold fits in *. assert (Hr1 : pd_blocks_requested e1 = Z.of_nat n).
  { cbn. rewrite wrap_small by (unfold fits; lia). lia. }
  rewrite (IH e1); [|done|done| |done].
  - assert (served e1 = served e) as ->.
    { unfold served. rewrite Hr1, Hn. unfold set_pd_requested, set_pd_waiting. cbn.
      rewrite wrap_add_l. do 2 f_equal. lia. }
    do 2 f_equal. unfold log, with_sent, with_daemon. cbn. by rewrite <-app_assoc.
  - split; [rewrite Hr1; unfold fits; lia|]. cbn. auto with width.
Qed.

Lemma request_all_run pre l w :
  d_connection (daemon w) = true -> m_pool_connections (daemon w) = pre ++ l -> Forall counts_fit l ->
  request_all (length pre) l w = Some (tt,
    with_sent (sent w ++ request_messages l) (with_daemon (set_pool_list (pre ++ (served <$> l)) (daemon w)) w)).
Proof.
  revert pre w. induction l as [|e l IH]; intros pre w Hc Hl Hf.
  { cbn. unfold request_messages. cbn. rewrite app_nil_r in Hl |- *. rewrite app_nil_r.
    destruct w as [r ra d da ps g cl se], d. cbn in *. by subst. }
  apply Forall_cons in Hf as [He Hf]. cbn [request_all].
  erewrite M_bind_run.
  2:{ apply (request_loop_run _ _ e pre l); try done. destruct He as [[? ?] _]. lia. }
  specialize (IH (pre ++ [served e])
    (with_sent (sent w ++ replicate (Z.to_nat (pd_blocks_requested e)) (Wallet, [z2b Daemon_packet.GET_BLOCK]))
      (with_daemon (set_pool_list (pre ++ served e :: l) (daemon w)) w))).
  rewrite length_app, Nat.add_1_r in IH. rewrite IH; [|done|by cbn; rewrite <-app_assoc|done].
  do 2 f_equal. unfold with_sent, with_daemon, set_pool_list. cbn. f_equal.
  - by rewrite <-app_assoc.
  - unfold request_messages, requested. cbn. by rewrite <-app_assoc, <-replicate_add.
Qed.

(** The world after the submission loop. *)
Definition submitted w : World :=
  let l := m_pool_connections (daemon w) in
  match find_if (submits w) l with
  | None => w
  | Some i =>
      match e ← l !! i; b ← pd_submit_block e; p ← pools w !! pd_connection e; Some (b, p) with
      | None => w
      | Some (b, p) =>
          let d := edit_entry i (set_pd_submit None) (set_submit_hash (GetHash b) (daemon w)) in
          if nHeight b =? m_best_height (registry w) then
            log Wallet (default [] (get_bytes (Daemon_packet.submit_block
                (of_val WIDTH512 (hashMerkleRoot b)) (nNonce b))))
              (with_daemon (set_finder (m_nxsaddress p) d) w)
          else with_daemon d w
      end
  end.

Lemma submitted_run w :
  d_connection (daemon w) = true ->
  submit_loop 0 (m_pool_connections (daemon w)) w = Some (tt, submitted w) /\
  (Forall counts_fit (m_pool_connections (daemon w)) ->
   Forall counts_fit (m_pool_connections (daemon (submitted w)))) /\
  d_connection (daemon (submitted w)) = true.
Proof.
  intros Hc. rewrite submit_loop_run. unfold submitted.
  destruct (find_if _ _) as [i|] eqn:Hi; [|done].
  apply find_if_Some in Hi as [(e&He&Hs) _]. rewrite He. cbn [mbind option_bind].
  unfold submits, alive in Hs. destruct (pools w !! pd_connection e) as [p|] eqn:Hp; [|done].
  destruct (pd_submit_block e) as [b|] eqn:Hb; [|done]. cbn [mbind option_bind Nat.add].
  erewrite submit_entry_run by done. split; [|split].
  - by destruct (nHeight b =? _).
  - intros Hf. assert (Ha : Forall counts_fit (alter (set_pd_submit None) i (m_pool_connections (daemon w)))).
    { apply Forall_alter; [done|]. by intros x _ Hx. }
    by destruct (nHeight b =? _).
  - by destruct (nHeight b =? _).
Qed.

Lemma block_timer_run w :
  registry_alive w = true -> m_coinbase_pending (daemon w) = false -> d_connection (daemon w) = true ->
  Forall counts_fit (m_pool_connections (daemon w)) ->
  let w1 := submitted w in
  block_timer_handler false w = Some (tt,
    with_sent (sent w1 ++ request_messages (m_pool_connections (daemon w1)))
      (with_daemon (set_pool_list (served <$> m_pool_connections (daemon w1)) (daemon w1)) w1)).
Proof.
  intros Ha Hp Hc Hf w1. unfold block_timer_handler. erewrite M_bind_run by done.
  rewrite Ha, Hp. cbn [negb]. destruct (submitted_run w Hc) as (Hs&Hf1&Hc1).
  erewrite M_bind_run by exact Hs. erewrite M_bind_run by done.
  by apply (request_all_run []); [| |apply Hf1].
Qed.

(** Without a socket the first transmission is through a null pointer. *)
Lemma transmit_wallet_null pk w : d_connection (daemon w) = false -> transmit_wallet pk w = None.
Proof. intros Hc. unfold transmit_wallet, gets, mbind, M_bind. by rewrite Hc. Qed.

Lemma request_loop_null n i w :
  d_connection (daemon w) = false -> request_loop (S n) i w = None.
Proof.
  intros Hc. cbn [request_loop]. erewrite M_bind_run by done. apply M_bind_None.
  by apply transmit_wallet_null.
Qed.

Lemma request_all_null k l w :
  d_connection (daemon w) = false -> (0 < requested l)%nat -> request_all k l w = None.
Proof.
  intros Hc. revert k. induction l as [|e l IH]; intros k Hn; [cbn in Hn; lia|].
  cbn [request_all]. change (requested (e :: l)) with (Z.to_nat (pd_blocks_requested e) + requested l)%nat in Hn.
  destruct (Z.to_nat (pd_blocks_requested e)) as [|n].
  - cbn [request_loop]. erewrite M_bind_run by done. by apply IH.
  - by apply M_bind_None, request_loop_null.
Qed.

(** The block a tick would submit. *)
Definition submission w : option CBlock :=
  let l := m_pool_connections (daemon w) in
  i ← find_if (submits w) l; e ← l !! i; pd_submit_block e.

Lemma submit_loop_null w :
  d_connection (daemon w) = false ->
  match submission w with
  | Some b =>
      if nHeight b =? m_best_height (registry w) then submit_loop 0 (m_pool_connections (daemon w)) w = None
      else exists i, submit_loop 0 (m_pool_connections (daemon w)) w =
        Some (tt, with_daemon (edit_entry i (set_pd_submit None) (set_submit_hash (GetHash b) (daemon w))) w)
  | None => submit_loop 0 (m_pool_connections (daemon w)) w = Some (tt, w)
  end.
Proof.
  intros Hc. rewrite submit_loop_run. unfold submission. cbv zeta. destruct (find_if _ _) as [i|] eqn:Hi; [|done].
  cbn [mbind option_bind].
  apply find_if_Some in Hi as [(e&He&Hs) _]. rewrite He. cbn [mbind option_bind].
  unfold submits, alive in Hs. destruct (pools w !! pd_connection e) as [p|] eqn:Hp; [|done].
  destruct (pd_submit_block e) as [b|] eqn:Hb; [|done]. unfold submit_entry.
  destruct (nHeight b =? m_best_height (registry w)) eqn:Hh.
  - erewrite M_bind_run by done. erewrite M_bind_run by done. cbn [registry with_daemon]. rewrite Hh.
    apply M_bind_None. erewrite M_bind_run by (by apply (pool_lookup _ p)). apply M_bind_None.
    by apply transmit_wallet_null.
  - exists i. erewrite M_bind_run by done. erewrite M_bind_run by done. cbn [registry with_daemon].
    rewrite Hh. by erewrite M_bind_run by done.
Qed.

Lemma requested_edit i b d : requested (m_pool_connections (edit_entry i (set_pd_submit b) d)) =
  requested (m_pool_connections d).
Proof.
  unfold requested. f_equal. cbn [edit_entry set_pool_list m_pool_connections].
  apply list_eq. intros j. rewrite !list_lookup_fmap, list_lookup_alter. case_decide; [|done].
  subst. by destruct (m_pool_connections d !! j).
Qed.

(** C23: a tick of the block timer, in every state.  It does nothing when it was canceled, when
    the registry is gone and while a coinbase is pending.  Otherwise, with the wallet connected and
    the counts in 16 bits, at most one block is submitted, that of the first live entry that has
    one: if it is of the current height it goes to the wallet and its miner becomes the last
    finder; if not, only its hash is noted; then every entry sends exactly the requests it
    counted, and they wait for a block each.  Once the wallet is lost, a tick with a block of the
    current height to submit or a request to send is undefined. *)
Theorem block_tick canceled w :
  (canceled = true \/ registry_alive w = false \/ m_coinbase_pending (daemon w) = true ->
   block_timer_handler canceled w = Some (tt, w)) /\
  (registry_alive w = true -> m_coinbase_pending (daemon w) = false -> d_connection (daemon w) = true ->
   Forall counts_fit (m_pool_connections (daemon w)) ->
   let w1 := submitted w in
   block_timer_handler false w = Some (tt,
     with_sent (sent w1 ++ request_messages (m_pool_connections (daemon w1)))
       (with_daemon (set_pool_list (served <$> m_pool_connections (daemon w1)) (daemon w1)) w1))) /\
  (registry_alive w = true -> m_coinbase_pending (daemon w) = false -> d_connection (daemon w) = false ->
   (0 < requested (m_pool_connections (daemon w)))%nat \/
   (exists b, submission w = Some b /\ nHeight b = m_best_height (registry w)) ->
   block_timer_handler false w = None).
Proof.
  split; [|split; [apply block_timer_run|]].
  - intros Hno. unfold block_timer_handler. destruct canceled; [done|]. erewrite M_bind_run by done.
    destruct (registry_alive w); [|done]. destruct Hno as [?|[?|Hp]]; [done..|]. by rewrite Hp.
  - intros Ha Hp Hc Hsend. unfold block_timer_handler. erewrite M_bind_run by done.
    rewrite Ha, Hp. cbn [negb]. pose proof (submit_loop_null w Hc) as Hs.
    destruct (submission w) as [b|].
    + destruct (Z.eqb_spec (nHeight b) (m_best_height (registry w))) as [Hh|Hh]; [by apply M_bind_None|].
      destruct Hsend as [Hn|(b'&[= <-]&?)]; [|done]. destruct Hs as [i Hs].
      erewrite M_bind_run by exact Hs. erewrite M_bind_run by done.
      apply request_all_null; [done|]. cbn [daemon with_daemon]. by rewrite requested_edit.
    + destruct Hsend as [Hn|(b'&?&_)]; [|done]. erewrite M_bind_run by exact Hs.
      erewrite M_bind_run by done. by apply request_all_null.
Qed.

(** A stale block takes the place of the one in flight.  A tick that finds a
    block of another height submits nothing and leaves the last finder, but notes its hash as the
    one submitted; when the wallet then accepts the block sent before, the round is paid under
    the hash of the stale one. *)
Theorem stale_submission i e b p w :
  let l := m_pool_connections (daemon w) in
  find_if (submits w) l = Some i -> l !! i = Some e -> pd_submit_block e = Some b ->
  pools w !! pd_connection e = Some p -> nHeight b <> m_best_height (registry w) ->
  d_connection (daemon w) = true ->
  exists w', submit_loop 0 l w = Some (tt, w') /\ sent w' = sent w /\
    m_last_blockfinder (daemon w') = m_last_blockfinder (daemon w) /\
    m_hash_submit_block (daemon w') = GetHash b /\
    forall r, update_balances (m_round_reward (daemon w')) (m_hash_submit_block (daemon w'))
        (m_last_blockfinder (daemon w')) (registry w') = Some r ->
      is_Some (map_find (GetHash b) (m_block_db r)).
Proof.
  intros l Hi He Hb Hp Hh Hc. exists (submitted w). split; [by apply submitted_run|].
  unfold submitted. fold l. rewrite Hi, He. cbn [mbind option_bind]. rewrite Hb. cbn [mbind option_bind].
  rewrite Hp. cbn [mbind option_bind]. rewrite (proj2 (Z.eqb_neq _ _) Hh).
  split; [done|]. split; [done|]. split; [done|]. intros r Hup. unfold update_balances in Hup.
  apply bind_Some in Hup as ([[? ?] ?]&_&Hup). destruct (total_weight _) as [? ?].
  apply bind_Some in Hup as ([[? ?] ?]&_&Hup). injection Hup as <-.
  cbn [m_block_db write_accounts write_blocks set_files set_blocks]. unfold Database.UpdateRecord.
  rewrite find_insert_eq. by eexists.
Qed.

Context `{Address_hash} `{Gmp} `{Libm}.

(** The count of a connection and its entry, alone in the list, and the room for its score. *)
Definition alone (self : nat) (score n k req : Z) w : Prop :=
  (exists p, pools w !! self = Some p /\ has_room score p /\ m_num_blocks_requested p = n) /\
  (exists e, m_pool_connections (daemon w) = [e] /\ pd_connection e = self /\
     pd_blocks_requested e = req /\ pd_blocks_waiting e = k /\ pd_submit_block e = None) /\
  registry_alive w = true /\ m_coinbase_pending (daemon w) = false /\ d_connection (daemon w) = true.

Lemma alone_request self s n k w (Q : unit -> World -> Prop) :
  alone self (1 + s) n k 0 w -> 0 <= s ->
  (forall w', alone self s (u16 (n + 1)) k (u16 (n + 1)) w' -> sent w' = sent w -> Q tt w') ->
  runs (get_block_request self) w Q.
Proof.
  intros ((p&Hp&Hu&Hn)&(e&Hl&He&Hreq&Hk&Hsub)&Ha&Hpend&Hc) Hs HQ.
  unfold get_block_request. step. step. rewrite Hn. step. step. step.
  pose proof (edit_lookup self (set_num (u16 (n + 1))) p w Hp) as Hp1.
  set (w1 := edit_pool self _ w) in *.
  set (w2 := with_daemon (edit_entry 0 (set_pd_requested (u16 (n + 1))) (daemon w1)) w1).
  exists tt, w2. split.
  { cbn [request_block daemon_list]. unfold daemon_request_block.
    erewrite M_bind_run; [done|]. apply find_pool_connection_run. cbn [daemon w1 edit_pool with_pools].
    rewrite Hl. cbn [find_if]. unfold has_address. rewrite He, Hp1.
    by rewrite bool_decide_eq_true_2. }
  step. eapply runs_this; [exact Hp1|].
  assert (Hfin : forall w', similar self w' w2 -> (exists p', pools w' !! self = Some p' /\
    same_pool (set_num (u16 (n + 1)) p) p' /\ has_room s p') -> Q tt w').
  { intros w' (_&Hd&Hsent&_&_&Hra&_)%similar_fields (p'&Hp'&[d ->]&Hup'). apply HQ.
    - split; [exists (set_ddos (Some d) (set_num (u16 (n + 1)) p)); by split_and!|].
      rewrite Hd, Hra. split; [|by split_and!].
      exists (set_pd_requested (u16 (n + 1)) e). split; [|by split_and!]. cbn. by rewrite Hl.
    - by rewrite Hsent. }
  assert (Hu1 : has_room (1 + s) (set_num (u16 (n + 1)) p)) by exact Hu.
  destruct Hu as [Hup (d&Hd&Hok)]. cbn [m_ddos set_num]. rewrite Hd.
  eapply (runs_rSCORE_add self 1 s (set_num (u16 (n + 1)) p)); [exact Hp1|exact Hu1|lia..|].
  intros w' p' Hw' Hp' Hsp Hr. apply Hfin; [done|by exists p'].
Qed.

Lemma alone_tick self s n k req w (Q : unit -> World -> Prop) :
  alone self s n k req w -> fits 16 req -> fits 16 k ->
  (forall w', alone self s n (u16 (k + req)) 0 w' ->
     sent w' = sent w ++ replicate (Z.to_nat req) (Wallet, [z2b Daemon_packet.GET_BLOCK]) -> Q tt w') ->
  runs (block_timer_handler false) w Q.
Proof.
  intros ((p&Hp&Hu&Hn)&(e&Hl&He&Hreq&Hk&Hsub)&Ha&Hpend&Hc) Hfr Hfk HQ.
  assert (Hsubm : submitted w = w).
  { unfold submitted. rewrite Hl. cbn [find_if]. unfold submits. rewrite Hsub, andb_false_r. done. }
  eexists tt, _. split.
  { apply block_timer_run; [done..|]. rewrite Hl. constructor; [|done]. split; congruence. }
  rewrite Hsubm, Hl. apply HQ.
  - split; [by exists p|]. split; [|by split_and!]. exists (served e). cbn. rewrite Hreq, Hk. by split_and!.
  - cbn. unfold request_messages, requested. cbn. by rewrite Hreq, Nat.add_0_r.
Qed.

(** A request is counted again by the next one.  [GET_BLOCK] counts a connection's
    open requests and sets the whole count in its entry, which the timer has already served.  A
    lone miner with [n] open requests that asks for two blocks, a tick apart, makes the pool ask
    the wallet for [2 n + 3]. *)
Theorem request_overcount self n k w :
  alone self 2 n k 0 w -> 0 <= n -> 0 <= k -> n + 2 < 2 ^ 16 -> k + 2 * n + 3 < 2 ^ 16 ->
  exists w', (get_block_request self ;; block_timer_handler false ;;
              get_block_request self ;; block_timer_handler false) w = Some (tt, w') /\
    alone self 0 (n + 2) (k + 2 * n + 3) 0 w' /\
    sent w' = sent w ++ replicate (Z.to_nat (2 * n + 3)) (Wallet, [z2b Daemon_packet.GET_BLOCK]).
Proof.
  intros Hal Hn Hk Hn2 Hk2.
  enough (Hr : runs (get_block_request self ;; block_timer_handler false ;;
    get_block_request self ;; block_timer_handler false) w (fun _ w' =>
      alone self 0 (n + 2) (k + 2 * n + 3) 0 w' /\
      sent w' = sent w ++ replicate (Z.to_nat (2 * n + 3)) (Wallet, [z2b Daemon_packet.GET_BLOCK]))).
  { destruct Hr as ([]&w'&Hr&HQ). by exists w'. }
  step. eapply (alone_request self 1); [done|lia|]. intros w1 Hal1 Hs1. rewrite wrap_small in Hal1 by (unfold fits; lia).
  step. eapply alone_tick; [done|unfold fits; lia..|]. intros w2 Hal2 Hs2.
  rewrite wrap_small in Hal2 by (unfold fits; lia).
  step. eapply (alone_request self 0); [done|lia|]. intros w3 Hal3 Hs3. rewrite wrap_small in Hal3 by (unfold fits; lia).
  eapply alone_tick; [done|unfold fits; lia..|]. intros w4 Hal4 Hs4.
  rewrite wrap_small in Hal4 by (unfold fits; lia).
  replace (n + 1 + 1) with (n + 2) in * by lia.
  replace (k + (n + 1) + (n + 2)) with (k + 2 * n + 3) in Hal4 by lia. split; [done|].
  rewrite Hs4, Hs3, Hs2, Hs1, <-app_assoc, <-replicate_add. do 2 f_equal. lia.
Qed.
End rounds.

(** ** The block a round was won with *)
Section won.
Context `{Platform} `{Block_hash} `{Std_sort}.

(** The end of [process_data] after a new round. *)
Lemma reset_daemon_run data w :
  m_new_block (daemon w) = true -> d_connection (daemon w) = true ->
  get_bytes (coinbase_message w) = Some data ->
  reset_daemon w = Some (tt,
    if 1 <? m_current_round (registry w) then log Wallet data (with_daemon (set_new_block false (daemon w)) w)
    else with_daemon (set_pending false (set_new_block false (daemon w))) w).
Proof.
  intros Hnew Hc Hdata. unfold reset_daemon. erewrite M_bind_run by done. rewrite Hnew. cbn [when].
  erewrite M_bind_run by done. erewrite M_bind_run by done. cbn [registry with_daemon].
  destruct (1 <? m_current_round (registry w)); [|done]. unfold send_coinbase.
  erewrite M_bind_run by done. by apply transmit_wallet_run.
Qed.

(** The registry and the world that [GOOD] leaves, but for the message at the end. *)
Definition next_round paid : Data_registry :=
  let r2 := clear_shares paid in set_round (u32 (m_current_round r2 + 1)) r2.
Definition paid_world paid w : World :=
  renew (m_pool_connections (daemon w))
    (with_daemon (set_new_block true (daemon w)) (with_registry (next_round paid) w)).

Lemma good_run paid w :
  running w ->
  update_balances (m_round_reward (daemon w)) (m_hash_submit_block (daemon w)) (m_last_blockfinder (daemon w))
    (registry w) = Some paid ->
  connect_handler Result.receive_ok [z2b Daemon_packet.GOOD] w = reset_daemon (paid_world paid w).
Proof.
  intros (Ha&_&Ho) Hup. cbn [connect_handler]. unfold daemon_process_data. erewrite M_bind_run by done.
  change (Daemon_packet.is_valid _) with true. cbn [negb]. erewrite M_bind_run by done.
  rewrite Ha. cbn [negb]. assert (Hg : on_good w = Some (tt, paid_world paid w)).
  { unfold on_good. erewrite M_bind_run by done.
    erewrite M_bind_run by (unfold lift; by rewrite Hup).
    erewrite M_bind_run by done. erewrite M_bind_run by done. erewrite M_bind_run by done.
    apply (daemon_new_round_run (with_registry (next_round paid) w)). exact Ho. }
  assert (Hmsg : message (mk_packet Daemon_packet.GOOD 0 None) w = Some (false, paid_world paid w)).
  { unfold message. cbn [m_header Z.eqb Pos.eqb Daemon_packet.BLOCK_HEIGHT Daemon_packet.NEW_ROUND
      Daemon_packet.COINBASE_SET Daemon_packet.COINBASE_FAIL Daemon_packet.BLOCK_REWARD
      Daemon_packet.ORPHAN_BLOCK Daemon_packet.GOOD_BLOCK Daemon_packet.GOOD].
    by erewrite M_bind_run by exact Hg. }
  change (mk_packet (b2z (z2b Daemon_packet.GOOD)) 0 None) with (mk_packet Daemon_packet.GOOD 0 None).
  by erewrite M_bind_run by exact Hmsg.
Qed.

End won.

(** ** Witnesses *)
Lemma example_entries p e : e ∈ m_pool_connections (daemon (example_world p)) -> e = example_entry 0 \/ e = example_entry 1.
Proof.
  intros [->|[->|He]%elem_of_cons]%elem_of_cons; [by left|by right|by apply not_elem_of_nil in He].
Qed.

Lemma example_open p :
  m_connection p = true -> open_list (m_pool_connections (daemon (example_world p))) (example_world p).
Proof.
  intros Hc e q He Hq. apply example_entries in He as [-> | ->]; cbn [pd_connection example_entry] in Hq.
  - rewrite example_miner in Hq. by injection Hq as <-.
  - cbn in Hq. rewrite lookup_insert_ne, lookup_singleton_eq in Hq by done. by injection Hq as <-.
Qed.

Lemma new_round_null_witness :
  daemon_new_round (example_world (close_pool example_pool)) = None.
Proof.
  apply (new_round_null (example_entry 0) (close_pool example_pool)
    (example_world (close_pool example_pool))); [by left|apply example_miner|reflexivity].
Defined.

Lemma coinbase_echo_witness :
  let _ := zero_platform in let _ := zero_hash in let _ := insertion_sort in
  exists w', daemon_process_data [z2b Daemon_packet.COINBASE_SET] (example_world example_pool) =
      Some (tt, w') /\ running w'.
Proof.
  pose (P := zero_platform). pose (B := zero_hash). pose (S := insertion_sort).
  assert (Hrun : running (example_world example_pool)).
  { split; [reflexivity|]. split; [reflexivity|]. by apply example_open. }
  destruct (coinbase_echo (example_world example_pool) Hrun ltac:(by vm_compute))
    as (w'&notices&data&Hr&_&_&_&_&_&_&_&Hrun'&_).
  exists w'. exact (conj Hr Hrun').
Defined.

Lemma orphan_checks_witness :
  let _ := zero_platform in
  let w := example_world example_pool in
  orphan_check_timer_handler false w =
    Some (tt, with_sent (sent w ++ checks (registry w) (map_keys (m_block_db (registry w)))) w).
Proof.
  pose (P := zero_platform).
  refine (proj1 (orphan_checks (example_world example_pool) _ _ _ _)); by vm_compute.
Defined.

Lemma block_tick_witness :
  let _ := zero_hash in
  exists w', block_timer_handler false (example_world example_pool) = Some (tt, w') /\ sent w' = [].
Proof.
  pose (B := zero_hash). eexists. split.
  - apply (proj1 (proj2 (block_tick false (example_world example_pool))) eq_refl eq_refl eq_refl).
    repeat constructor; vm_compute; congruence.
  - reflexivity.
Defined.

(** The first miner submits a block of height 6, when the height is 7. *)
Definition stale_entry : Pool_connection_data :=
  mk_pool_data 0 0 0 (Some (mk_block 1 0 0 1 6 70000000 0)).
Definition stale_world : World :=
  with_daemon (set_pool_list [stale_entry] example_daemon) (example_world example_pool).

Lemma stale_submission_witness :
  let _ := zero_platform in let _ := zero_hash in
  exists w', submit_loop 0 [stale_entry] stale_world = Some (tt, w') /\ sent w' = [] /\
    m_hash_submit_block (daemon w') = 0.
Proof.
  pose (P := zero_platform). pose (B := zero_hash).
  destruct (stale_submission 0 stale_entry (mk_block 1 0 0 1 6 70000000 0) example_pool stale_world
    eq_refl eq_refl eq_refl (example_miner _) ltac:(by vm_compute) eq_refl) as (w'&Hr&Hs&_&Hh&_).
  exists w'. exact (conj Hr (conj Hs Hh)).
Defined.

Definition lone_world : World :=
  with_daemon (set_pool_list [example_entry 0] example_daemon) (example_world example_pool).

Lemma request_overcount_witness :
  let _ := zero_platform in let _ := zero_hash in let _ := sum_hash in
  let _ := gmp_Z in let _ := unit_pow in
  exists w', (get_block_request 0 ;; block_timer_handler false ;;
              get_block_request 0 ;; block_timer_handler false) lone_world = Some (tt, w') /\
    sent w' = replicate 3 (Wallet, [z2b Daemon_packet.GET_BLOCK]).
Proof.
  pose (P := zero_platform). pose (B := zero_hash). pose (A := sum_hash). pose (G := gmp_Z).
  pose (L := unit_pow).
  destruct (request_overcount 0 0 0 lone_world) as (w'&Hr&_&Hs); [|lia|lia|lia|lia|].
  - split; [exists example_pool; split; [apply example_miner|split; [by apply (has_room_le 10), example_up|reflexivity]]|].
    split; [by exists (example_entry 0)|]. by split_and!.
  - exists w'. exact (conj Hr Hs).
Defined.

Definition won_world : World :=
  mk_world (example_registry 0) true (mk_daemon true [] false false 1000 [Byte.x42] 5) true ∅
    static_globals 0 [].

