(* ===== verification/Server.v ===== *)
(** * The server: [src/src/server.cpp], and every run of the pool

    The server accepts connections and drops the closed ones.  Its events, with those of the
    connections and the timers, make the step relation of the whole pool; the theorems are
    invariants of every reachable world, by induction on the steps. *)
From S2P Require Import Prelude Bytes StdMap Float64 Uint Packet Coinbase LLD CBlock Ddos Banned.
From S2P Require Import Base58 Prime Registry Payout World Daemon_queue Pool_conn Pool_shares Pool_sessions Daemon_conn Daemon_rounds.

(** ** The server's part *)

(** The handler of an accepted socket: a new connection, owned by the server. *)
Definition accept (self : nat) : handler :=
  modify (fun w => with_pools (<[self := new_pool w]> (pools w)) w).

(** [remove_if] and [erase]: the closed connections are no longer owned, so they expire. *)
Definition maintenance_timer_handler (canceled : bool) : handler :=
  if canceled then mret tt else
  modify (fun w => with_pools (filter (fun e => closed e.2 = false) (pools w)) w).

(** ** The runs of the pool *)
Inductive event :=
  | Accept (self : nat)
  | Miner_event (self : nat) (address : bytes) (result : Result.Code) (buffer : bytes)
  | Wallet_event (result : Result.Code) (buffer : bytes)
  | Block_timer (canceled : bool)
  | Height_timer (canceled : bool)
  | Orphan_timer (canceled : bool)
  | Persistance_timer (canceled : bool)
  | Maintenance_timer (canceled : bool)
  | Clock (now : Z).

Section runs.
Context `{Platform} `{Block_hash} `{Address_hash} `{Gmp} `{Libm} `{Std_sort}.

Definition handle (e : event) : handler :=
  match e with
  | Accept self => accept self
  | Miner_event self address result buffer => init_connection_handler self address result buffer
  | Wallet_event result buffer => connect_handler result buffer
  | Block_timer canceled => block_timer_handler canceled
  | Height_timer canceled => get_height_timer_handler canceled
  | Orphan_timer canceled => orphan_check_timer_handler canceled
  | Persistance_timer canceled => modify_registry (persistance_handler canceled)
  | Maintenance_timer canceled => maintenance_timer_handler canceled
  | Clock now => modify (with_clock now)
  end.

(** A new connection is a new object. *)
Definition possible (e : event) (w : World) : Prop :=
  match e with Accept self => pools w !! self = None | _ => True end.

Inductive step_to (w w' : World) : Prop :=
  | step_event e : possible e w -> handle e w = Some (tt, w') -> step_to w w'.

(** The world when [Server::run] has connected to the wallet: [m_round_reward] is not initialised. *)
Inductive started : World -> Prop :=
  | started_world config acct blk bans r reward now :
      new_registry config acct blk bans = Some r ->
      started (mk_world r true (mk_daemon true [] false false reward [] 0) true ∅ static_globals now []).

Inductive reachable (w0 : World) : World -> Prop :=
  | reachable_start : reachable w0 w0
  | reachable_step w w' : reachable w0 w -> step_to w w' -> reachable w0 w'.
End runs.

(** ** Invariants of handlers *)
Definition keeps {A} (I : World -> Prop) (m : M World A) : Prop :=
  forall w a w', I w -> m w = Some (a, w') -> I w'.

Section keeps.
Context (I : World -> Prop).

Lemma keeps_bind {A B} (m : M World A) (f : A -> M World B) :
  keeps I m -> (forall a, keeps I (f a)) -> keeps I (m ≫= f).
Proof. intros Hm Hf w b w' Hw (a&w1&H1&H2)%M_bind_Some. eapply Hf; [|exact H2]. by eapply Hm. Qed.
Lemma keeps_ret {A} (a : A) : keeps I (mret a).
Proof. by intros w ? w' Hw [= _ <-]. Qed.
Lemma keeps_get : keeps I get.
Proof. by intros w ? w' Hw [= _ <-]. Qed.
Lemma keeps_gets {A} (f : World -> A) : keeps I (gets f).
Proof. by intros w ? w' Hw [= _ <-]. Qed.
Lemma keeps_lift {A} (o : option A) : keeps I (lift o).
Proof. by intros w ? w' Hw [_ ->]%lift_inv. Qed.
Lemma keeps_undefined {A} : keeps I (undefined : M World A).
Proof. done. Qed.
Lemma keeps_this self : keeps I (this self).
Proof. by intros w ? w' Hw [_ ->]%this_inv. Qed.
Lemma keeps_when b m : keeps I m -> keeps I (when b m).
Proof. intros Hm. destruct b; [done|apply keeps_ret]. Qed.
Lemma keeps_foreach {A} (f : A -> handler) l : (forall x, keeps I (f x)) -> keeps I (foreach f l).
Proof. intros Hf. induction l as [|x l IH]; [apply keeps_ret|]. by apply keeps_bind. Qed.
Lemma keeps_modify f : (forall w, I w -> I (f w)) -> keeps I (modify f).
Proof. intros Hf w a w' Hw [= _ <-]. by apply Hf. Qed.
Lemma keeps_modify_pool self f : (forall w, I w -> I (edit_pool self f w)) -> keeps I (modify_pool self f).
Proof. intros Hf w a w' Hw [_ ->]%modify_pool_inv. by apply Hf. Qed.
Lemma keeps_transmit_miner self pk :
  (forall data w, I w -> I (log (Miner self) data w)) -> keeps I (transmit_miner self pk).
Proof. intros Hf w a w' Hw (p&data&_&_&_&->)%transmit_miner_inv. by apply Hf. Qed.
Lemma keeps_transmit_wallet pk : (forall data w, I w -> I (log Wallet data w)) -> keeps I (transmit_wallet pk).
Proof. intros Hf w a w' Hw (data&_&_&->)%transmit_wallet_inv. by apply Hf. Qed.
Lemma keeps_on_registry {A} (f : Data_registry -> A * Data_registry) :
  (forall w, I w -> I (with_registry (f (registry w)).2 w)) -> keeps I (on_registry f).
Proof.
  intros Hf w a w' Hw Hr. unfold on_registry in Hr. destruct (f (registry w)) as [b r] eqn:E.
  injection Hr as _ <-. specialize (Hf w Hw). by rewrite E in Hf.
Qed.
End keeps.

(** ** A registry without shares *)
Section dull.
Context `{Platform} `{Std_sort}.
Implicit Types (r : Data_registry).

Definition dull (db : smap bytes Account.t) : Prop := Forall (fun e => Account.nRoundShares e.2 = 0) db.
Definition dull_registry r : Prop := dull (m_account_db r) /\ 0 < get_min_share (m_config r).

Lemma dull_insert k a db : dull db -> Account.nRoundShares a = 0 -> dull (map_insert k a db).
Proof. intros Hdb Ha. by apply Forall_map_insert. Qed.

Lemma dull_find k a db : dull db -> map_find k db = Some a -> Account.nRoundShares a = 0.
Proof.
  induction 1 as [|[k' a'] db Ha Hd IH]; cbn; [done|]. intros Hf.
  split_cases; [by apply IH|done|by injection Hf as <-].
Qed.

Lemma get_account_dull k r :
  dull_registry r -> Account.nRoundShares (get_account k r).1 = 0 /\ dull_registry (get_account k r).2.
Proof.
  intros [Hd Hm]. unfold get_account, Database.GetRecord.
  destruct (map_find k (m_account_db r)) as [a|] eqn:E; cbn.
  - split; [by apply (dull_find k a (m_account_db r))|by destruct r].
  - split; [done|]. split; [by apply dull_insert|done].
Qed.

Lemma update_account_dull a r :
  dull_registry r -> Account.nRoundShares a = 0 -> dull_registry (update_account a r).
Proof. intros [Hd Hm] Ha. split; [by apply dull_insert|done]. Qed.

(** Reads one account of a dull registry. *)
Ltac read_account k r :=
  let Ha := fresh "Ha" in let Hr := fresh "Hr" in
  match goal with
  | Hd : dull_registry r |- _ => pose proof (get_account_dull k r Hd) as [Ha Hr];
      destruct (get_account k r) as [? ?]; cbn [fst snd] in Ha, Hr
  end.

Lemma sum_weights_dull keys n r : dull_registry r -> dull_registry (sum_weights keys n r).2.
Proof.
  revert n r. induction keys as [|k keys IH]; intros n r Hd; [done|]. cbn [sum_weights].
  read_account k r. by apply IH.
Qed.

Lemma credit_account_dull W reward k st st' :
  dull_registry st.2 -> credit_account W reward k st = Some st' -> dull_registry st'.2.
Proof.
  destruct st as [[n credits] r]. cbn [snd]. intros Hd. unfold credit_account. read_account k r.
  destruct (Coinbase.find_address k (m_coinbase _)).
  - destruct (Coinbase.get_map_outputs _ _) as [v c].
    destruct (_ =? 0).
    + intros [= <-]. by apply update_account_dull.
    + intros (x&_&[= <-])%bind_Some. apply update_account_dull; [by apply update_account_dull|done].
  - destruct (_ =? 0); [by intros [= <-]|].
    intros (x&_&[= <-])%bind_Some. by apply update_account_dull.
Qed.

Lemma credit_accounts_dull W reward keys st st' :
  dull_registry st.2 -> credit_accounts W reward keys st = Some st' -> dull_registry st'.2.
Proof.
  revert st. induction keys as [|k keys IH]; intros st Hd; [by intros [= <-]|].
  cbn [credit_accounts]. intros (st1&H1&H2)%bind_Some. eapply IH; [|exact H2].
  by eapply credit_account_dull.
Qed.

Lemma pay_finder_dull last reward r st :
  dull_registry r -> pay_finder last reward r = Some st -> dull_registry st.2.
Proof.
  intros Hd. unfold pay_finder. case_decide; [by intros [= <-]|].
  intros (c&_&Hr)%bind_Some. read_account last r. injection Hr as <-. by apply update_account_dull.
Qed.

Lemma update_balances_dull reward hash last r r' :
  dull_registry r -> update_balances reward hash last r = Some r' -> dull_registry r'.
Proof.
  intros Hd. unfold update_balances. intros ([[n c] r1]&H1&Hr)%bind_Some.
  pose proof (pay_finder_dull _ _ _ _ Hd H1) as Hd1. cbn [snd] in Hd1.
  unfold total_weight in Hr. pose proof (sum_weights_dull (Database.GetKeys (m_account_db r1)) 0 r1 Hd1) as Hd2.
  destruct (sum_weights _ _ r1) as [W r2]. cbn [snd] in Hd2.
  apply bind_Some in Hr as ([[T c2] r3]&H3&Hr).
  pose proof (credit_accounts_dull _ _ _ (_, _, r2) (_, _, r3) Hd2 H3) as Hd3. cbn [snd] in Hd3.
  injection Hr as <-. destruct (T <? n); [|exact Hd3].
  read_account last r3. by apply (update_account_dull (add_balance _ _)).
Qed.

Lemma clear_shares_dull r : dull_registry r -> dull_registry (clear_shares r).
Proof.
  unfold clear_shares. generalize (Database.GetKeys (m_account_db r)) as keys. intros keys.
  revert r. induction keys as [|k keys IH]; intros r Hd; [done|]. cbn [clear_loop].
  read_account k r. apply IH. by apply update_account_dull.
Qed.

Lemma adjust_accounts_dull f m r :
  (forall v a, Account.nRoundShares (f v a) = Account.nRoundShares a) ->
  dull_registry r -> dull_registry (adjust_accounts f m r).
Proof.
  intros Hf. revert r. induction m as [|[k v] m IH]; intros r Hd; [done|]. cbn [adjust_accounts].
  read_account k r. apply IH, update_account_dull; [done|]. by rewrite Hf.
Qed.

Lemma refund_payouts_dull hash r : dull_registry r -> dull_registry (refund_payouts hash r).
Proof.
  intros Hd. unfold refund_payouts. destruct (Database.GetRecord hash (m_block_db r)) as [b db].
  destruct (_ =? 0); [exact Hd|]. unfold remove_credits, refund_outputs.
  apply (adjust_accounts_dull add_balance (Coinbase.mapOutputs (Block.cCoinbase b))); [done|].
  by apply (adjust_accounts_dull deduct).
Qed.

Lemma add_payout_dull k r : dull_registry r -> dull_registry (add_payout k r).
Proof.
  intros Hd. unfold add_payout. read_account k r. destruct (0 <? _); [|done].
  destruct (Coinbase.AddTransaction _ _ _) as [n c]. by destruct (n <? 0).
Qed.

Lemma build_coinbase_dull reward last r : dull_registry r -> dull_registry (build_coinbase reward last r).
Proof.
  intros Hd. unfold build_coinbase. cbv zeta. set (r0 := set_coinbase_of _ (set_coinbase_of _ r)).
  assert (Hfold : forall l r, dull_registry r -> dull_registry (foldl (fun r name => add_payout name r) r l)).
  { induction l as [|k l IH]; intros r1 Hd1; [done|]. by apply IH, add_payout_dull. }
  specialize (Hfold (get_sorted_accounts r0) r0 Hd).
  by destruct (Coinbase.IsComplete _).
Qed.
End dull.

(** ** The invariant of a run *)

(** A connection in order: without a socket it counts as closed, its filter and its count are in
    range, its blocks are sorted, and the minimum share is positive. *)
Definition pool_ok (p : Pool_connection) : Prop :=
  (m_connection p = false -> closed p = true) /\
  (forall d, m_ddos p = Some d -> filter_ok d) /\
  fits 16 (m_num_blocks_requested p) /\ map_sorted (m_blocks_requested p) /\ 0 < m_min_share p.

Record Inv (w : World) : Prop := mk_inv {
  inv_registry : dull_registry (registry w);
  inv_alive : registry_alive w = true;
  inv_globals : globals w = static_globals;
  inv_pools : forall i p, pools w !! i = Some p -> pool_ok p;
  inv_entries : Forall counts_fit (m_pool_connections (daemon w));
}.

Lemma inv_log to data w : Inv w -> Inv (log to data w).
Proof. intros [? ? ? ? ?]. by split. Qed.

Lemma inv_with_registry r w : Inv w -> dull_registry r -> Inv (with_registry r w).
Proof. intros [? ? ? ? ?]. by split. Qed.

Lemma inv_with_daemon d w : Inv w -> Forall counts_fit (m_pool_connections d) -> Inv (with_daemon d w).
Proof. intros [? ? ? ? ?]. by split. Qed.

Lemma inv_edit self f w :
  (forall p, pools w !! self = Some p -> pool_ok p -> pool_ok (f p)) -> Inv w -> Inv (edit_pool self f w).
Proof.
  intros Hf [? ? ? Hp ?]. split; try done. intros i p Hi. cbn in Hi.
  apply lookup_alter_Some in Hi as [(<-&q&Hq&->)|[_ Hi]]; [|by eapply Hp]. apply Hf; [done|by eapply Hp].
Qed.

Lemma counts_edit i f d :
  (forall e, counts_fit e -> counts_fit (f e)) -> Forall counts_fit (m_pool_connections d) ->
  Forall counts_fit (m_pool_connections (edit_entry i f d)).
Proof. intros Hf Hd. apply Forall_alter; [done|]. intros e _. apply Hf. Qed.

(** Takes a handler apart. *)
Ltac keep_step :=
  match goal with
  | |- keeps _ (_ ≫= _) => apply keeps_bind; [|intros ?]
  | |- keeps _ (mret _) => apply keeps_ret
  | |- keeps _ get => apply keeps_get
  | |- keeps _ (gets _) => apply keeps_gets
  | |- keeps _ (lift _) => apply keeps_lift
  | |- keeps _ undefined => apply keeps_undefined
  | |- keeps _ (this _) => apply keeps_this
  | |- keeps _ (when _ _) => apply keeps_when
  | |- keeps _ (foreach _ _) => apply keeps_foreach; intros ?
  | |- keeps _ (if ?b then _ else _) => destruct b
  | |- keeps _ (match ?o with Some _ => _ | None => _ end) => destruct o
  | |- keeps Inv (transmit_miner _ _) => apply keeps_transmit_miner; intros; by apply inv_log
  | |- keeps Inv (transmit_wallet _) => apply keeps_transmit_wallet; intros; by apply inv_log
  | |- keeps Inv (modify_daemon (set_pending _)) => apply keeps_modify; intros ? [? ? ? ? ?]; by split
  | |- keeps Inv (modify_daemon (set_new_block _)) => apply keeps_modify; intros ? [? ? ? ? ?]; by split
  | |- keeps Inv (modify_daemon (set_reward _)) => apply keeps_modify; intros ? [? ? ? ? ?]; by split
  | |- keeps Inv (modify_daemon (set_finder _)) => apply keeps_modify; intros ? [? ? ? ? ?]; by split
  | |- keeps Inv (modify_daemon (set_submit_hash _)) => apply keeps_modify; intros ? [? ? ? ? ?]; by split
  | |- keeps Inv (modify_daemon (set_d_connection _)) => apply keeps_modify; intros ? [? ? ? ? ?]; by split
  | |- keeps Inv (modify_registry _) =>
      apply keeps_modify; intros ? ?Hi; apply inv_with_registry; [done|destruct Hi as [?Hr _ _ _ _]]
  | |- keeps Inv (modify_pool _ _) => apply keeps_modify_pool; intros ? ?Hi; apply inv_edit; [intros ? _ ?|done]
  end.
Create HintDb keeps.
Ltac keep := repeat first [solve [eauto with keeps]|keep_step].

Section handlers.
Context `{Platform} `{Block_hash} `{Address_hash} `{Gmp} `{Libm} `{Std_sort}.

Lemma keeps_rSCORE_add self n : 0 <= n -> keeps Inv (rSCORE_add self n).
Proof.
  intros Hn w u w' Hw Hr. unfold rSCORE_add in Hr. unrun. apply modify_pool_inv in Hr as [_ ->].
  apply inv_edit; [|done]. intros q Hq (H1'&H2'&H3'&H4'&H5'). assert (a = q) as -> by congruence.
  split_and!; try done. intros d2 [= <-]. eapply add_rSCORE_inv; [by apply H2'|done..].
Qed.

Lemma keeps_ddos_Ban self : keeps Inv (ddos_Ban self).
Proof.
  intros w u w' Hw Hr. unfold ddos_Ban in Hr. unrun. apply modify_pool_inv in Hr as [_ ->].
  apply inv_edit; [|done]. intros q Hq (H1'&H2'&H3'&H4'&H5'). assert (a = q) as -> by congruence.
  split_and!; try done. intros d2 [= <-]. eapply Ban_inv; [by apply H2'|done].
Qed.
Hint Resolve keeps_rSCORE_add keeps_ddos_Ban : keeps.
Hint Extern 1 (0 <= _) => lia : keeps.

Lemma keeps_score self n : 0 <= n -> keeps Inv (score self n).
Proof. intros Hn. unfold score. keep. Qed.
Lemma keeps_answer self h : keeps Inv (answer self h).
Proof. unfold answer. keep. Qed.
Lemma keeps_send_height self : keeps Inv (send_height self).
Proof. unfold send_height. keep. Qed.
Hint Resolve keeps_score keeps_answer keeps_send_height : keeps.

Lemma keeps_ddos_invalid_header self pk : keeps Inv (ddos_invalid_header self pk).
Proof. unfold ddos_invalid_header. keep. Qed.

Lemma keeps_new_round self h : keeps Inv (new_round self h).
Proof.
  unfold new_round. keep; match goal with Hp : pool_ok _ |- _ => destruct Hp as (?&?&?&?&?) end;
    by split_and!.
Qed.

Lemma keeps_add_block self b : keeps Inv (add_block self b).
Proof.
  unfold add_block. keep; match goal with Hp : pool_ok _ |- _ => destruct Hp as (?&?&?&?&?) end;
    split_and!; try done; cbn; auto with width.
Qed.
Hint Resolve keeps_ddos_invalid_header keeps_new_round keeps_add_block : keeps.

(** ** The handlers of a miner's connection *)

(** [claimed] is the value of a wide integer. *)
Lemma SetBytes_wf n data pn : SetBytes n data = Some pn -> wf_words n pn.
Proof.
  revert data pn. induction n as [|n IH]; intros data pn Hs; [by injection Hs as <-|].
  destruct data as [|b0 [|b1 [|b2 [|b3 data]]]]; try done. cbn [SetBytes] in Hs.
  apply bind_Some in Hs as (q&Hq&[= <-]). destruct (IH _ _ Hq) as [<- Hf].
  split; [done|]. constructor; [apply be32_fits|done].
Qed.

Lemma claimed_nonneg data origin n :
  SetBytes WIDTH1024 data = Some origin -> 0 <= claimed origin n.
Proof.
  intros Ho. destruct (SetBytes_wf _ _ _ Ho) as [Hl Hf].
  assert (Hwf : wf_words WIDTH1024 (add64 origin n)).
  { unfold add64. rewrite Hl. apply add_words_wf; [by split|]. apply assign64_wf. unfold WIDTH1024. lia. }
  unfold claimed. destruct Hwf as [_ Hwf]. apply val_fits in Hwf. unfold fits in Hwf. lia.
Qed.

Context `{!Gmp_laws}.

(** No number passes before [InitializePrimes]: the share is refused, or undefined for 0. *)
Lemma keeps_check_share self b origin n data :
  SetBytes WIDTH1024 data = Some origin -> keeps Inv (check_share self b origin n).
Proof.
  intros Ho w u w' Hw Hr. unfold check_share in Hr. apply M_bind_Some in Hr as (p&w0&Hp&Hr).
  apply this_inv in Hp as [Hp ->]. apply M_bind_Some in Hr as (g&w0&[= <- <-]&Hr). cbv zeta in Hr.
  case_bool_decide.
  { refine (_ w u w' Hw Hr). change (keeps Inv (answer self Packet.REJECT ;; score self 5)). keep. }
  fold (claimed origin n) in Hr. apply M_bind_Some in Hr as (d&w0&[Hd ->]%lift_inv&Hr).
  assert (d = f64_of_Z 0) as ->.
  { rewrite (inv_globals _ Hw) in Hd. pose proof (claimed_nonneg _ _ n Ho) as Hc.
    destruct (decide (claimed origin n = 0)) as [Hz|Hz].
    - exfalso. rewrite Hz in Hd. unfold gmp_verification, gmp_prime_test, gmp_divisor, gmp_fermat in Hd.
      cbn [PRIME_SIEVE static_globals forallb negb zTwo] in Hd. by rewrite powm_zero_law in Hd.
    - rewrite static_verification in Hd by lia. by injection Hd as <-. }
  apply M_bind_Some in Hr as (bits&w0&[Hbits ->]%lift_inv&Hr).
  change (set_bits (f64_of_Z 0)) with (Some 0) in Hbits. injection Hbits as <-.
  destruct (inv_pools _ Hw _ _ Hp) as (_&_&_&_&Hm). rewrite (proj2 (Z.leb_gt _ _)) in Hr by done.
  refine (_ w u w' Hw Hr). change (keeps Inv (score self 5 ;; answer self Packet.REJECT)). keep.
Qed.

Lemma keeps_submit_share self pk : keeps Inv (submit_share self pk).
Proof.
  unfold submit_share. do 2 (keep_step; [keep|]). keep_step; [keep|]. keep_step; [keep|].
  intros w u w' Hw Hr. apply M_bind_Some in Hr as (origin&w0&[Ho ->]%lift_inv&Hr).
  revert w u w' Hw Hr. match goal with |- forall w u w', Inv w -> ?m w = _ -> _ => change (keeps Inv m) end.
  cbv zeta. keep_step; [keep|]. keep_step; [keep|]. by eapply keeps_check_share.
Qed.
Hint Resolve keeps_submit_share : keeps.

(** Finishes the updates of a connection and of the registry. *)
Ltac in_order :=
  match goal with
  | Hp : pool_ok _ |- pool_ok _ =>
      destruct Hp as (?&?&?&?&?); split_and!; try done; cbn; auto with width
  | Hr : dull_registry _ |- dull_registry _ =>
      first [exact Hr | by apply update_account_dull | by apply refund_payouts_dull
            | by apply clear_shares_dull | by apply build_coinbase_dull]
  end.

Lemma keeps_add self : keeps Inv (add_pool_connection self).
Proof.
  apply keeps_modify. intros w Hw. apply inv_with_daemon; [done|]. cbn.
  apply Forall_app. split; [apply (inv_entries _ Hw)|]. by repeat constructor.
Qed.

Lemma keeps_request_block n ip : fits 16 n -> keeps Inv (request_block n ip).
Proof.
  intros Hn. cbn [request_block daemon_list]. unfold daemon_request_block, find_pool_connection. keep.
  apply keeps_modify. intros w Hw. apply inv_with_daemon; [done|].
  apply counts_edit; [|apply (inv_entries _ Hw)]. by intros e [? ?].
Qed.

Lemma keeps_submit_block b ip : keeps Inv (submit_block b ip).
Proof.
  cbn [submit_block daemon_list]. unfold daemon_submit_block, find_pool_connection. keep.
  apply keeps_modify. intros w Hw. apply inv_with_daemon; [done|].
  apply counts_edit; [|apply (inv_entries _ Hw)]. by intros e [? ?].
Qed.
Hint Resolve keeps_add keeps_request_block keeps_submit_block : keeps.
Hint Extern 1 (fits _ _) => auto with width : keeps.

Lemma keeps_login self pk : keeps Inv (login self pk).
Proof. unfold login. keep; in_order. Qed.

Lemma keeps_get_block_request self : keeps Inv (get_block_request self).
Proof. unfold get_block_request. keep. in_order. Qed.

Lemma keeps_get_balance self : keeps Inv (get_balance self).
Proof.
  unfold get_balance. keep. apply keeps_on_registry. intros w Hw. apply inv_with_registry; [done|].
  by apply get_account_dull, inv_registry.
Qed.

Lemma keeps_requests self pk : keeps Inv (requests self pk).
Proof.
  unfold requests, get_payout, submit_pps. keep; [apply keeps_get_block_request|apply keeps_get_balance].
Qed.
Hint Resolve keeps_login keeps_requests : keeps.

Lemma keeps_process_data self buffer : keeps Inv (process_data self buffer).
Proof. unfold process_data. keep. in_order. Qed.
Hint Resolve keeps_process_data : keeps.

Lemma new_filter_pool p address now :
  pool_ok p -> pool_ok (set_ddos (Some (new_filter 30 address now)) p).
Proof.
  intros (?&?&?&?&?). split_and!; try done. intros d [= <-]. by apply new_filter_ok; lia.
Qed.

Lemma keeps_init_connection_handler self address result buffer :
  keeps Inv (init_connection_handler self address result buffer).
Proof.
  unfold init_connection_handler. destruct result; keep; first [by apply new_filter_pool|in_order].
Qed.

(** ** The handlers of the wallet's connection *)
Lemma keeps_daemon_new_round : keeps Inv daemon_new_round.
Proof. unfold daemon_new_round. keep. Qed.
Hint Resolve keeps_daemon_new_round : keeps.

Lemma keeps_edit_entry i f :
  (forall e, counts_fit e -> counts_fit (f e)) -> keeps Inv (modify_daemon (edit_entry i f)).
Proof.
  intros Hf. apply keeps_modify. intros w Hw. apply inv_with_daemon; [done|].
  apply counts_edit; [done|apply (inv_entries _ Hw)].
Qed.

Lemma keeps_submit_loop k l : keeps Inv (submit_loop k l).
Proof.
  revert k. induction l as [|e l IH]; intros k; cbn [submit_loop]; unfold submit_entry; keep.
  apply keeps_edit_entry. by intros ? [? ?].
Qed.

Lemma keeps_request_loop n i : keeps Inv (request_loop n i).
Proof.
  induction n as [|n IH]; cbn [request_loop]; keep. apply keeps_edit_entry.
  intros e [? ?]. split; cbn; auto with width.
Qed.

Lemma keeps_request_all k l : keeps Inv (request_all k l).
Proof.
  revert k. induction l as [|e l IH]; intros k; cbn [request_all]; keep. apply keeps_request_loop.
Qed.
Hint Resolve keeps_submit_loop keeps_request_all : keeps.

Lemma keeps_timers canceled :
  keeps Inv (block_timer_handler canceled) /\ keeps Inv (get_height_timer_handler canceled) /\
  keeps Inv (orphan_check_timer_handler canceled).
Proof.
  split; [|split].
  - unfold block_timer_handler. keep.
  - unfold get_height_timer_handler. keep.
  - unfold orphan_check_timer_handler. keep. apply keeps_on_registry. intros w Hw.
    apply inv_with_registry; [done|]. unfold get_block_record.
    destruct (Database.GetRecord _ _). exact (inv_registry _ Hw).
Qed.

Lemma keeps_get_block_record hash : keeps Inv (on_registry (get_block_record hash)).
Proof.
  apply keeps_on_registry. intros w Hw. apply inv_with_registry; [done|]. unfold get_block_record.
  destruct (Database.GetRecord _ _). exact (inv_registry _ Hw).
Qed.
Hint Resolve keeps_get_block_record : keeps.

Lemma keeps_on_good : keeps Inv on_good.
Proof.
  intros w u w' Hw Hr. unfold on_good in Hr. apply M_bind_Some in Hr as (w1&w2&[= <- <-]&Hr).
  apply M_bind_Some in Hr as (r&w0&[Hup ->]%lift_inv&Hr).
  apply M_bind_Some in Hr as (u1&w1&[= <- <-]&Hr).
  assert (Hk : keeps Inv (modify_registry clear_shares ;;
    modify_registry (fun r => set_round (u32 (m_current_round r + 1)) r) ;; daemon_new_round))
    by (keep; in_order).
  eapply Hk; [|exact Hr]. apply inv_with_registry; [done|].
  by eapply update_balances_dull; [apply (inv_registry _ Hw)|].
Qed.
Hint Resolve keeps_on_good : keeps.

Lemma keeps_on_block_data data : keeps Inv (on_block_data data).
Proof.
  unfold on_block_data. keep. apply keeps_edit_entry. intros e [? ?]. split; cbn; auto with width.
Qed.
Hint Resolve keeps_on_block_data : keeps.

Lemma keeps_message pk : keeps Inv (message pk).
Proof.
  unfold message, on_block_height, on_coinbase_set, on_block_reward, on_orphan_block, on_good_block,
    send_coinbase. keep; in_order.
Qed.

Lemma keeps_connect_handler result buffer : keeps Inv (connect_handler result buffer).
Proof.
  assert (Hd : keeps Inv (daemon_process_data buffer)).
  { unfold daemon_process_data, reset_daemon, send_coinbase. keep. apply keeps_message. }
  unfold connect_handler. destruct result; keep.
Qed.

(** ** Every event keeps the invariant *)
Lemma accept_inv self w : Inv w -> Inv (with_pools (<[self := new_pool w]> (pools w)) w).
Proof.
  intros [[Hd Hm] Ha Hg Hp He]. split; try done. intros i p Hl. cbn in Hl.
  apply lookup_insert_Some in Hl as [(<-&<-)|[_ Hi]].
  - unfold new_pool. rewrite Ha. by split_and!.
  - by eapply Hp.
Qed.

Lemma handle_keeps e : keeps Inv (handle e).
Proof.
  destruct e; cbn [handle].
  - apply keeps_modify. intros w Hw. by apply accept_inv.
  - apply keeps_init_connection_handler.
  - apply keeps_connect_handler.
  - apply keeps_timers.
  - apply keeps_timers.
  - apply keeps_timers.
  - keep. by destruct canceled.
  - unfold maintenance_timer_handler. keep. apply keeps_modify. intros w [? ? ? Hp ?]. split; try done.
    intros i p [Hi _]%map_lookup_filter_Some. by eapply Hp.
  - apply keeps_modify. intros w [? ? ? ? ?]. by split.
Qed.

Lemma started_inv w : started w -> dull_registry (registry w) -> Inv w.
Proof. intros [config acct blk bans r reward now _] Hd. by split. Qed.
End handlers.

(** ** Properties *)
Section properties.
Context `{Platform} `{Block_hash} `{Address_hash} `{Gmp} `{!Gmp_laws} `{Libm} `{Std_sort}.

Lemma reachable_inv w0 w :
  started w0 -> dull_registry (registry w0) -> reachable w0 w -> Inv w.
Proof.
  intros Hs Hd. induction 1 as [|w w' _ IH [e _ He]]; [by apply started_inv|].
  by eapply handle_keeps.
Qed.

(** C1: nobody ever earns a share.  In the program as it is nothing calls
    [InitializePrimes]; so from a start whose accounts have no shares, with a positive minimum
    share, no run of events, whatever is submitted, reaches a state where an account has one. *)
Theorem no_shares_ever w0 w :
  started w0 -> dull_registry (registry w0) -> reachable w0 w ->
  weights (m_account_db (registry w)) = 0 /\
  forall k a, map_find k (m_account_db (registry w)) = Some a -> Account.nRoundShares a = 0.
Proof.
  intros Hs Hd Hr. destruct (reachable_inv _ _ Hs Hd Hr) as [[Hdull _] _ _ _ _]. split.
  - unfold weights. induction Hdull as [|[k a] db Ha _ IH]; [done|]. cbn in *. lia.
  - intros k a Ha. by eapply dull_find.
Qed.
End properties.

(** ** Witnesses: a miner connects and asks for a block before it has logged in *)
Definition start_world : World :=
  mk_world (mk_registry [] [] None None new_banned Coinbase.new 0 1 (mk_config 0 1 true 10)) true
    (mk_daemon true [] false false 0 [] 0) true ∅ static_globals 5000000000 [].

Definition example_events : list event :=
  [Accept 0; Miner_event 0 [Byte.x31] Result.connection_ok [];
   Miner_event 0 [Byte.x31] Result.receive_ok [z2b Packet.GET_BLOCK]].

Section example.
Context `{Platform} `{Block_hash} `{Address_hash} `{Gmp} `{Libm} `{Std_sort}.

(** A list of events, none of which accepts a connection already there. *)
Fixpoint run (events : list event) (w : World) : option World :=
  match events with
  | [] => Some w
  | e :: events' =>
      match e with
      | Accept self => if decide (pools w !! self = None) then '(_, w') ← handle e w; run events' w' else None
      | _ => '(_, w') ← handle e w; run events' w'
      end
  end.

Lemma run_reachable w0 events w w' : reachable w0 w -> run events w = Some w' -> reachable w0 w'.
Proof.
  revert w. induction events as [|e events IH]; intros w Hr Hw; [by injection Hw as <-|].
  assert (He : possible e w /\ exists w1, handle e w = Some (tt, w1) /\ run events w1 = Some w').
  { destruct e; cbn [run] in Hw; [case_decide; [|done]|..];
      (split; [done|]); apply bind_Some in Hw as ([[] w1]&Hh&Hw); by exists w1. }
  destruct He as (Hp&w1&Hh&Hw1). eapply IH; [|exact Hw1]. eapply reachable_step; [exact Hr|].
  by exists e.
Qed.

Lemma start_started : started start_world.
Proof. by apply (started_world (mk_config 0 1 true 10) None None (None, None)). Qed.
End example.

Lemma no_shares_ever_witness :
  let _ := zero_platform in let _ := zero_hash in let _ := sum_hash in let _ := gmp_Z in
  let _ := unit_pow in let _ := insertion_sort in
  exists w, run example_events start_world = Some w /\ weights (m_account_db (registry w)) = 0.
Proof.
  pose (P := zero_platform). pose (B := zero_hash). pose (A := sum_hash). pose (G := gmp_Z).
  pose (L := unit_pow). pose (S := insertion_sort). pose (Laws := gmp_Z_laws).
  assert (E1 : is_Some (run example_events start_world)) by (vm_compute; by eexists).
  destruct (run example_events start_world) as [w|] eqn:E; [|by destruct E1].
  exists w. refine (conj E (proj1 (no_shares_ever start_world w _ _ _))).
  - apply start_started.
  - by repeat constructor.
  - by eapply run_reachable; [apply reachable_start|exact E].
Defined.
