(* ===== verification/Runs.v ===== *)
(** * Runs of the server: what adds up along the events

    Invariants of the connections that grow with the number of events, for all handlers of
    [Server] at once ([handle_raises]); with them, what a request can add to the score of a
    connection, and what the set of submitted numbers of a connection keeps. *)
From S2P Require Import Prelude Bytes StdMap Float64 Uint Packet Coinbase LLD CBlock Ddos Banned.
From S2P Require Import Base58 Prime Registry Payout World Daemon_queue Pool_conn Pool_shares Pool_sessions Daemon_conn Daemon_rounds Server.

(** ** The events that begin a round or make a connection *)

(** The messages of the wallet that call [new_round]. *)
Definition round_message (pk : packet) : bool :=
  (m_header pk =? Daemon_packet.COINBASE_SET) || (m_header pk =? Daemon_packet.BLOCK_REWARD) ||
  (m_header pk =? Daemon_packet.GOOD).

Definition begins_round (e : event) : bool :=
  match e with
  | Wallet_event _ buffer =>
      match Daemon_packet.parse buffer with Some pk => round_message pk | None => false end
  | _ => false
  end.

(** ** Invariants of every connection, with a total that events may raise *)
(** What the invariant may depend on: the filter and the submitted numbers, which only grow
    between two rounds. *)
Class Graded (P : Z -> nat -> Pool_connection -> Prop) : Prop := {
  graded_mono : forall K K' i p, K <= K' -> P K i p -> P K' i p;
  graded_same : forall K i p p',
    m_ddos p' = m_ddos p -> m_primes p ⊆ m_primes p' -> P K i p -> P K i p';
  graded_score : forall K i p d d' n now, 0 <= K -> 0 <= n -> P K i p -> m_ddos p = Some d ->
    add_rSCORE n now d = Some d' -> P (K + n) i (set_ddos (Some d') p);
  graded_ban : forall K i p d d' now, 0 <= K -> P K i p -> m_ddos p = Some d ->
    Ban now d = Some d' -> P K i (set_ddos (Some d') p);
  graded_filter : forall K i p a now, 0 <= K -> P K i p ->
    P K i (set_ddos (Some (new_filter 30 a now)) p);
}.

Section graded.
Context (P : Z -> nat -> Pool_connection -> Prop).

Definition each (K : Z) (w : World) : Prop := forall i p, pools w !! i = Some p -> P K i p.

(** At most [n] is added. *)
Definition raises {A} (n : Z) (m : M World A) : Prop :=
  forall K w a w', 0 <= K -> each K w -> m w = Some (a, w') -> each (K + n) w'.

(** A new round does not break the invariant. *)
Definition round_proof : Prop := forall K i p, P K i p -> P K i (set_primes ∅ p).

Context `{!Graded P}.

Lemma each_mono K K' w : K <= K' -> each K w -> each K' w.
Proof. intros Hle Hw i p Hi. by eapply graded_mono, Hw. Qed.

Lemma raises_le {A} n n' (m : M World A) : n <= n' -> raises n m -> raises n' m.
Proof. intros Hle Hm K w a w' HK Hw Hr. eapply each_mono; [|by eapply Hm]. lia. Qed.

Lemma raises_left {A B} n (m : M World A) (f : A -> M World B) :
  0 <= n -> raises n m -> (forall a, raises 0 (f a)) -> raises n (m ≫= f).
Proof.
  intros Hn Hm Hf K w b w' HK Hw (a&w1&H1&H2)%M_bind_Some.
  replace (K + n) with (K + n + 0) by lia. eapply Hf; [|by eapply Hm|exact H2]. lia.
Qed.

Lemma raises_right {A B} n (m : M World A) (f : A -> M World B) :
  raises 0 m -> (forall a, raises n (f a)) -> raises n (m ≫= f).
Proof.
  intros Hm Hf K w b w' HK Hw (a&w1&H1&H2)%M_bind_Some.
  eapply Hf; [exact HK| |exact H2]. replace K with (K + 0) by lia. by eapply Hm.
Qed.

(** A step that does not touch the connections. *)
Lemma raises_apart {A} (m : M World A) :
  (forall w a w', m w = Some (a, w') -> pools w' = pools w) -> raises 0 m.
Proof. intros Hm K w a w' HK Hw Hr i p Hi. rewrite Z.add_0_r. apply Hw. by rewrite <-(Hm _ _ _ Hr). Qed.

Lemma raises_lift {A B} n (o : option A) (f : A -> M World B) :
  (forall a, o = Some a -> raises n (f a)) -> raises n (lift o ≫= f).
Proof.
  intros Hf K w b w' HK Hw (a&w1&[Ho ->]%lift_inv&Hr)%M_bind_Some. by eapply Hf.
Qed.

Lemma raises_when n b m : 0 <= n -> raises n m -> raises n (when b m).
Proof.
  intros Hn Hm. destruct b; [done|]. apply (raises_le 0); [done|]. by apply raises_apart; intros ? ? ? [= _ <-].
Qed.

Lemma raises_modify_pool self f :
  (forall p, m_ddos (f p) = m_ddos p /\ m_primes p ⊆ m_primes (f p)) -> raises 0 (modify_pool self f).
Proof.
  intros Hf K w a w' HK Hw [_ ->]%modify_pool_inv i p Hi. rewrite Z.add_0_r. cbn in Hi.
  apply lookup_alter_Some in Hi as [(<-&q&Hq&->)|[_ Hi]]; [|by apply Hw].
  destruct (Hf q). by eapply graded_same, Hw.
Qed.

(** An update of the filter. *)
Lemma raises_edit (n : Z) self f K w :
  0 <= n -> (forall q, pools w !! self = Some q -> P K self q -> P (K + n) self (f q)) ->
  each K w -> each (K + n) (edit_pool self f w).
Proof.
  intros Hn Hf Hw i p Hi. cbn in Hi. apply lookup_alter_Some in Hi as [(<-&q&Hq&->)|[_ Hi]].
  - by apply Hf, Hw.
  - eapply graded_mono; [|by apply Hw]. lia.
Qed.

Lemma raises_rSCORE_add self n : 0 <= n -> raises n (rSCORE_add self n).
Proof.
  intros Hn K w u w' HK Hw Hr. unfold rSCORE_add in Hr. unrun. apply modify_pool_inv in Hr as [_ ->].
  apply raises_edit; [done| |done]. intros q Hq HP. assert (a = q) as -> by congruence.
  by eapply graded_score.
Qed.

Lemma raises_ddos_Ban self : raises 0 (ddos_Ban self).
Proof.
  intros K w u w' HK Hw Hr. unfold ddos_Ban in Hr. unrun. apply modify_pool_inv in Hr as [_ ->].
  apply raises_edit; [done| |done]. intros q Hq HP. assert (a = q) as -> by congruence.
  rewrite Z.add_0_r. by eapply graded_ban.
Qed.

Lemma raises_new_filter self a now : raises 0 (modify_pool self (set_ddos (Some (new_filter 30 a now)))).
Proof.
  intros K w u w' HK Hw [_ ->]%modify_pool_inv. apply raises_edit; [done| |done]. intros q _ HP.
  rewrite Z.add_0_r. by apply graded_filter.
Qed.
End graded.

(** Takes a handler apart that adds nothing. *)
Create HintDb raises.
Ltac apart :=
  lazymatch goal with
  | |- raises ?P _ (mret _) => idtac | |- raises ?P _ get => idtac | |- raises ?P _ (gets _) => idtac
  | |- raises ?P _ (lift _) => idtac | |- raises ?P _ undefined => idtac | |- raises ?P _ (this _) => idtac
  | |- raises ?P _ (modify (with_registry _)) => idtac | |- raises ?P _ (modify_registry _) => idtac | |- raises ?P _ (modify_daemon _) => idtac
  | |- raises ?P _ (transmit_miner _ _) => idtac | |- raises ?P _ (transmit_wallet _) => idtac
  end;
  let Hr := fresh "Hr" in
  match goal with |- raises ?P _ _ => apply (raises_apart P) end; intros ? ? ? Hr;
  first [by injection Hr as _ <- | by apply lift_inv in Hr as [_ ->] | by apply this_inv in Hr as [_ ->]
        | done | by apply transmit_miner_inv in Hr as (?&?&_&_&_&->)
        | by apply transmit_wallet_inv in Hr as (?&_&_&->)].
Ltac rise0 :=
  lazymatch goal with
  | |- raises ?P _ (_ ≫= _) => apply (raises_right P); [rise0|intros ?; rise0]
  | |- raises ?P _ (when _ _) => apply (raises_when P); [done|rise0]
  | |- raises ?P _ (if ?b then _ else _) => destruct b; rise0
  | |- raises ?P _ (match ?o with Some _ => _ | None => _ end) => destruct o; rise0
  | |- raises ?P _ (modify_pool _ (set_ddos _)) => apply (raises_new_filter P)
  | |- raises ?P _ (modify_pool _ _) => apply (raises_modify_pool P); intros ?; split; [done|cbn; set_solver]
  | |- _ => first [apart | solve [auto with raises nocore]]
  end.

(** Takes a handler apart; on a sequence, one of the two parts raises the total. *)
Ltac rise :=
  first
    [ solve [auto with raises nocore]
    | match goal with |- raises ?P _ _ => solve [apply (raises_le P 0); [lia|rise0]] end
    | lazymatch goal with
      | |- raises ?P _ (_ ≫= _) =>
          first [apply (raises_right P); [solve [rise0]|intros ?; rise] | apply (raises_left P); [lia|rise|intros ?; rise0]]
      | |- raises ?P _ (when _ _) => apply (raises_when P); [lia|rise]
      | |- raises ?P _ (if ?b then _ else _) => destruct b; rise
      | |- raises ?P _ (match ?o with Some _ => _ | None => _ end) => destruct o; rise
      | |- raises ?P ?n (rSCORE_add _ ?k) => apply (raises_le P k); [lia|apply (raises_rSCORE_add P); lia]
      end ].

Section handlers.
Context `{Platform} `{Block_hash} `{Address_hash} `{Gmp} `{Libm} `{Std_sort}.
Context (P : Z -> nat -> Pool_connection -> Prop) `{!Graded P}.

Lemma raises_foreach {A} (f : A -> handler) l : (forall x, raises P 0 (f x)) -> raises P 0 (foreach f l).
Proof.
  intros Hf. induction l as [|x l IH]; cbn [foreach]; [apart|]. apply (raises_right P); [apply Hf|done].
Qed.
Hint Resolve raises_ddos_Ban raises_new_filter : raises.

Lemma raises_on_registry {A} (f : Data_registry -> A * Data_registry) : raises P 0 (on_registry f).
Proof.
  apply raises_apart. intros w a w' Hr. unfold on_registry in Hr. destruct (f (registry w)).
  by injection Hr as _ <-.
Qed.
Hint Resolve raises_on_registry : raises.

(** *** A miner's connection *)
Lemma raises_score self n : 0 <= n <= 10 -> raises P 10 (score self n).
Proof. intros Hn. unfold score. rise. Qed.
Lemma raises_answer self h : raises P 0 (answer self h).
Proof. unfold answer. apart. Qed.
Lemma raises_send_height self : raises P 0 (send_height self).
Proof. unfold send_height. rise. Qed.
Hint Resolve raises_answer raises_send_height : raises.
Hint Extern 1 (raises P 10 (score _ _)) => (apply raises_score; lia) : raises.

Lemma raises_ddos_invalid_header self pk : raises P 0 (ddos_invalid_header self pk).
Proof. unfold ddos_invalid_header. rise. Qed.
Lemma raises_add_block self b : raises P 0 (add_block self b).
Proof. unfold add_block. rise. Qed.
Lemma raises_api self n ip b :
  raises P 0 (add_pool_connection self) /\ raises P 0 (request_block n ip) /\ raises P 0 (submit_block b ip).
Proof.
  split; [|split]; apply (raises_apart P); intros w a w' Hr.
  - by apply add_pool_connection_frame in Hr as [? _].
  - by apply request_block_frame in Hr as [? _].
  - by apply submit_block_frame in Hr as [? _].
Qed.
Lemma raises_add_pool_connection self : raises P 0 (add_pool_connection self).
Proof. apply (raises_api self 0 [] empty_block). Qed.
Lemma raises_request_block n ip : raises P 0 (request_block n ip).
Proof. apply (raises_api 0 n ip empty_block). Qed.
Lemma raises_submit_block b ip : raises P 0 (submit_block b ip).
Proof. apply (raises_api 0 0 ip b). Qed.
Hint Resolve raises_ddos_invalid_header raises_add_block raises_add_pool_connection
  raises_request_block raises_submit_block : raises.

Lemma raises_accept_share self b n h d : raises P 0 (accept_share self b n h d).
Proof. unfold accept_share. rise. Qed.
Hint Resolve raises_accept_share : raises.
Lemma raises_check_share self b o n : raises P 10 (check_share self b o n).
Proof. unfold check_share. rise. Qed.
Hint Resolve raises_check_share : raises.
Lemma raises_submit_share self pk : raises P 10 (submit_share self pk).
Proof. unfold submit_share. rise. Qed.
Lemma raises_login self pk : raises P 10 (login self pk).
Proof. unfold login. rise. Qed.
Hint Resolve raises_submit_share raises_login : raises.
Lemma raises_requests self pk : raises P 10 (requests self pk).
Proof. unfold requests, get_block_request, get_balance, get_payout, submit_pps. rise. Qed.
Hint Resolve raises_requests : raises.
Lemma raises_process_data self buffer : raises P 10 (process_data self buffer).
Proof. unfold process_data. rise. Qed.
Hint Resolve raises_process_data : raises.
Lemma raises_init_connection_handler self address result buffer :
  raises P 10 (init_connection_handler self address result buffer).
Proof. unfold init_connection_handler. destruct result; rise. Qed.

(** *** The wallet's connection *)
Lemma raises_new_round self h : round_proof P -> raises P 0 (new_round self h).
Proof.
  intros Hr. unfold new_round. apply (raises_right P); [|intros ?; rise0].
  intros K w u w' HK Hw [_ ->]%modify_pool_inv. apply (raises_edit P); [done| |done].
  intros q _ HP. rewrite Z.add_0_r. by apply Hr.
Qed.

Lemma raises_daemon_new_round : round_proof P -> raises P 0 daemon_new_round.
Proof.
  intros Hr. unfold daemon_new_round. apply (raises_right P); [rise0|intros ?].
  apply (raises_right P); [rise0|intros ?]. apply raises_foreach. intros e.
  apply (raises_right P); [rise0|intros ?]. apply (raises_when P); [done|]. by apply raises_new_round.
Qed.

Lemma raises_request_loop n i : raises P 0 (request_loop n i).
Proof. induction n as [|n IH]; cbn [request_loop]; rise0. Qed.
Lemma raises_request_all k l : raises P 0 (request_all k l).
Proof.
  revert k. induction l as [|e l IH]; intros k; cbn [request_all]; [rise0|].
  apply (raises_right P); [apply raises_request_loop|done].
Qed.
Lemma raises_submit_loop k l : raises P 0 (submit_loop k l).
Proof.
  revert k. induction l as [|e l IH]; intros k; cbn [submit_loop]; unfold submit_entry; rise0.
Qed.
Hint Resolve raises_request_all raises_submit_loop : raises.

Lemma raises_timers canceled :
  raises P 0 (block_timer_handler canceled) /\ raises P 0 (get_height_timer_handler canceled) /\
  raises P 0 (orphan_check_timer_handler canceled).
Proof.
  split; [|split].
  - unfold block_timer_handler. rise0.
  - unfold get_height_timer_handler. rise0.
  - unfold orphan_check_timer_handler. destruct canceled; [rise0|].
    apply (raises_right P); [rise0|intros ?]. case_match; [rise0|]. apply raises_foreach. intros ?. rise0.
Qed.

Lemma raises_message pk : round_message pk = false \/ round_proof P -> raises P 0 (message pk).
Proof.
  intros Hr. assert (Hround : round_message pk = true -> raises P 0 daemon_new_round).
  { intros Hpk. apply raises_daemon_new_round. destruct Hr; [congruence|done]. }
  unfold round_message in Hround. unfold message, on_block_height, on_orphan_block, on_good_block,
    on_block_data, on_coinbase_set, on_block_reward, on_good, send_coinbase. cbv zeta.
  destruct (m_header pk =? Daemon_packet.COINBASE_SET), (m_header pk =? Daemon_packet.BLOCK_REWARD),
    (m_header pk =? Daemon_packet.GOOD); try specialize (Hround eq_refl); rise0.
Qed.

Lemma raises_connect_handler result buffer :
  begins_round (Wallet_event result buffer) = false \/ round_proof P ->
  raises P 0 (connect_handler result buffer).
Proof.
  intros Hr. assert (Hd : raises P 0 (daemon_process_data buffer)).
  { unfold daemon_process_data, reset_daemon, send_coinbase. apply (raises_lift P). intros pk Hpk.
    cbn [begins_round] in Hr. rewrite Hpk in Hr. pose proof (raises_message pk Hr). rise0. }
  unfold connect_handler. destruct result; rise0.
Qed.

(** ** Every event *)

(** An event that the invariant allows. *)
Definition admitted (e : event) : Prop :=
  (forall i, e = Accept i -> forall K w, 0 <= K -> P K i (new_pool w)) /\
  (begins_round e = false \/ round_proof P).

Lemma handle_raises e : admitted e -> raises P 10 (handle e).
Proof.
  intros [Hnew Hround].
  assert (Hacc : forall n, e = Accept n -> raises P 0 (accept n)).
  { intros n -> K w u w' HK Hw [= <- <-] i p Hi. rewrite Z.add_0_r. cbn in Hi.
    apply lookup_insert_Some in Hi as [(<-&<-)|[_ Hi]]; [by apply Hnew|by apply Hw]. }
  destruct e as [n|self address result buffer|result buffer|c|c|c|c|c|now]; cbn [handle];
    [..|apply (raises_le P 0); [lia|]].
  2:{ apply raises_init_connection_handler. }
  all: apply (raises_le P 0); [lia|].
  - by apply Hacc.
  - by apply raises_connect_handler.
  - apply raises_timers.
  - apply raises_timers.
  - apply raises_timers.
  - rise0.
  - unfold maintenance_timer_handler. destruct c; [rise0|].
    intros K w u w' HK Hw [= <- <-] i p [Hi _]%map_lookup_filter_Some. rewrite Z.add_0_r. by apply Hw.
  - by apply (raises_apart P); intros ? ? ? [= _ <-].
Qed.
End handlers.

(** ** The scores of a run *)

(** The filter of a connection is in order and its score is at most [K]; nothing adds to the other. *)
Definition scored (K : Z) (i : nat) (p : Pool_connection) : Prop :=
  forall d, m_ddos p = Some d ->
    filter_ok d /\ score_sum (rSCORE d) <= K /\ score_sum (cSCORE d) <= 0.

#[export] Instance scored_graded : Graded scored.
Proof.
  split.
  - intros K K' i p Hle Hp d Hd. destruct (Hp d Hd) as (?&?&?). split_and!; [done|lia|done].
  - intros K i p p' Hd _ Hp d Hd'. apply Hp. congruence.
  - intros K i p d d' n now _ Hn Hp Hd Hadd d2 [= <-]. destruct (Hp d Hd) as (Hok&Hr&Hc).
    destruct (add_rSCORE_inv _ _ _ _ Hok Hn Hadd) as (Hok'&Hr'&->). split_and!; [done|lia|done].
  - intros K i p d d' now _ Hp Hd Hban d2 [= <-]. destruct (Hp d Hd) as (Hok&Hr&Hc).
    destruct (Ban_inv _ _ _ Hok Hban) as (Hok'&Hr'&Hc'). split_and!; [done|lia..].
  - intros K i p a now HK Hp d [= <-]. unfold new_filter. cbn [rSCORE cSCORE].
    rewrite new_score_sum. split; [apply new_filter_ok; lia|lia].
Qed.

Lemma scored_admits `{Platform} e : admitted scored e.
Proof. split; [by intros i _ K w HK d|]. right. by intros K i p Hp. Qed.

Section properties.
Context `{Platform} `{Block_hash} `{Address_hash} `{Gmp} `{!Gmp_laws} `{Libm} `{Std_sort}.

(** [w] is reached by [n] events. *)
Inductive reached (w0 : World) : nat -> World -> Prop :=
  | reached_start : reached w0 0 w0
  | reached_event n w w' : reached w0 n w -> step_to w w' -> reached w0 (S n) w'.

Lemma reachable_reached w0 w : reachable w0 w <-> exists n, reached w0 n w.
Proof.
  split.
  - induction 1 as [|w w' _ [n Hn] Hs]; [by exists 0%nat; constructor|]. exists (S n). by econstructor.
  - intros [n Hn]. induction Hn as [|n w w' _ IH Hs]; [constructor|by econstructor].
Qed.

Lemma reached_scored w0 n w : started w0 -> reached w0 n w -> each scored (10 * Z.of_nat n) w.
Proof.
  intros Hs. induction 1 as [|n w w' _ IH [e _ He]].
  - destruct Hs. intros i p Hi. cbn in Hi. by rewrite lookup_empty in Hi.
  - replace (10 * Z.of_nat (S n)) with (10 * Z.of_nat n + 10) by lia.
    eapply (handle_raises scored e); [apply scored_admits|lia|exact IH|exact He].
Qed.

(** C2: what holds of every connection after any [n] events, whatever the miners and the wallet
    send and in whatever order, from a start whose accounts have no shares with a positive minimum
    share.  A connection without its socket is marked closed, so the server drops it; its count of
    requests and the counts of its entry stay in 16 bits; its blocks are a map.  Its filter has its
    slots and its score is at most [10 n]: as long as that and [k] more stay within an [int],
    scoring a request by [k] and banning are defined, whatever the clock says. *)
Theorem connections_in_order w0 n w :
  started w0 -> dull_registry (registry w0) -> reached w0 n w ->
  Forall counts_fit (m_pool_connections (daemon w)) /\
  forall i p, pools w !! i = Some p ->
    (m_connection p = false -> closed p = true) /\
    fits 16 (m_num_blocks_requested p) /\ map_sorted (m_blocks_requested p) /\
    (forall d, m_ddos p = Some d ->
       filter_ok d /\ 0 <= score_sum (rSCORE d) <= 10 * Z.of_nat n /\
       forall k now, 0 <= k -> 10 * Z.of_nat n + k < 2 ^ 31 - 1 ->
         is_Some (add_rSCORE k now d) /\ is_Some (Ban now d)).
Proof.
  intros Hs Hd Hr. assert (Hrw : reachable w0 w) by (apply reachable_reached; by exists n).
  destruct (reachable_inv _ _ Hs Hd Hrw) as [_ _ _ Hp He]. split; [done|].
  intros i p Hi. destruct (Hp i p Hi) as (Hc&_&Hn&Hb&_). split; [done|]. split; [done|]. split; [done|].
  intros d Hd'. destruct (reached_scored _ _ _ Hs Hr i p Hi d Hd') as (Hok&Hsum&Hcsum).
  split; [done|]. split; [split; [apply slots_total_nonneg, Hok|done]|]. intros k now Hk Hroom. split.
  - destruct (add_rSCORE_ok k now d Hok Hk) as (d'&->&_); [split; lia|by eexists].
  - destruct (Ban_ok now d Hok) as (d'&->&_); [split; lia|by eexists].
Qed.
End properties.

(** ** The numbers of a connection *)

(** The connection [self] has the number [n] on record. *)
Definition recorded (self : nat) (n K : Z) (i : nat) (p : Pool_connection) : Prop :=
  i = self -> n ∈ m_primes p.

#[export] Instance recorded_graded self n : Graded (recorded self n).
Proof. split; unfold recorded; cbn; by auto. Qed.

(** The event neither begins a round nor makes [self] anew. *)
Definition within_round (self : nat) (e : event) : Prop :=
  e <> Accept self /\ begins_round e = false.

Section once.
Context `{Platform} `{Block_hash} `{Address_hash} `{Gmp} `{Libm} `{Std_sort}.

Lemma run_recorded self n events w w' :
  Forall (within_round self) events -> run events w = Some w' ->
  (forall p, pools w !! self = Some p -> n ∈ m_primes p) ->
  forall p, pools w' !! self = Some p -> n ∈ m_primes p.
Proof.
  intros He Hr Hw. enough (Hk : exists K, 0 <= K /\ each (recorded self n) K w').
  { destruct Hk as (K&_&Hk). intros p Hp. by eapply Hk. }
  assert (Hw0 : exists K, 0 <= K /\ each (recorded self n) K w).
  { exists 0. split; [done|]. by intros i p Hi ->; apply Hw. }
  clear Hw. revert w Hr Hw0. induction He as [|e events [Hne Hb] _ IH]; intros w Hr Hw.
  { by injection Hr as <-. }
  assert (Hstep : exists w1, handle e w = Some (tt, w1) /\ run events w1 = Some w').
  { destruct e; cbn [run] in Hr; [case_decide; [|done]|..];
      apply bind_Some in Hr as ([[] w1]&Hh&Hr); by exists w1. }
  destruct Hstep as (w1&Hh&Hr1), Hw as (K&HK&Hw). apply (IH w1 Hr1). exists (K + 10). split; [lia|].
  eapply (handle_raises (recorded self n) e); [|exact HK|exact Hw|exact Hh]. split; [|by left].
  intros i -> K' w2 _ ->. by destruct Hne.
Qed.

(** C12: a number is credited once in a round.  After a share of a connection was answered with
    [ACCEPT] or [BLOCK], let any events happen except a message of the wallet that begins a round
    or a new connection in the place of this one: other shares of the same miner, logins,
    balances, timers, heights, blocks.  From then on every packet that claims the same number, by
    whatever block and nonce, is refused when it is handled: no account changes, nothing reaches
    the daemon, and the answer is [REJECT], or [STALE] for a block of another height. *)
Theorem share_once self pk pk' p w w1 w2 w3 h events n :
  pools w !! self = Some p -> submit_share self pk w = Some (tt, w1) ->
  sent w1 = sent w ++ [(Miner self, [z2b h])] -> h = Packet.ACCEPT \/ h = Packet.BLOCK ->
  Forall (within_round self) events -> run events w1 = Some w2 ->
  claims pk n -> claims pk' n -> submit_share self pk' w2 = Some (tt, w3) ->
  refused self w2 w3.
Proof.
  intros Hp Hs Hsent Hh He Hr Hn Hn' Hs'.
  destruct (accepted_recorded _ _ _ _ _ _ Hp Hs Hsent Hh) as (n1&p1&Hn1&Hp1&Hin).
  assert (n1 = n) as -> by by eapply claims_inj.
  assert (Hw1 : forall q, pools w1 !! self = Some q -> n ∈ m_primes q) by (intros q Hq; congruence).
  destruct (pools w2 !! self) as [p2|] eqn:Hp2.
  - eapply recorded_refused; [exact Hp2|exact Hn'| |exact Hs']. by eapply run_recorded.
  - exfalso. unfold submit_share in Hs'. unrun. congruence.
Qed.
End once.

(** ** Witnesses *)
Section example.
Context `{Platform} `{Block_hash} `{Address_hash} `{Gmp} `{Libm} `{Std_sort}.

Lemma run_reached w0 n events w w' :
  reached w0 n w -> run events w = Some w' -> reached w0 (n + length events) w'.
Proof.
  revert n w. induction events as [|e events IH]; intros n w Hn Hr.
  { injection Hr as <-. by rewrite Nat.add_0_r. }
  assert (He : possible e w /\ exists w1, handle e w = Some (tt, w1) /\ run events w1 = Some w').
  { destruct e; cbn [run] in Hr; [case_decide; [|done]|..];
      (split; [done|]); apply bind_Some in Hr as ([[] w1]&Hh&Hr); by exists w1. }
  destruct He as (Hp&w1&Hh&Hr1). cbn [length]. rewrite Nat.add_succ_r. apply (IH (S n) w1); [|done].
  eapply reached_event; [exact Hn|]. by exists e.
Qed.
End example.

Lemma connections_in_order_witness :
  let _ := zero_platform in let _ := zero_hash in let _ := sum_hash in let _ := gmp_Z in
  let _ := unit_pow in let _ := insertion_sort in
  exists w, run example_events start_world = Some w /\
    forall p d, pools w !! 0%nat = Some p -> m_ddos p = Some d ->
      0 <= score_sum (rSCORE d) <= 30 /\ is_Some (add_rSCORE 10 0 d).
Proof.
  pose (P := zero_platform). pose (B := zero_hash). pose (A := sum_hash). pose (G := gmp_Z).
  pose (L := unit_pow). pose (S := insertion_sort). pose (Laws := gmp_Z_laws).
  assert (E1 : is_Some (run example_events start_world)) by (vm_compute; by eexists).
  destruct (run example_events start_world) as [w|] eqn:E; [|by destruct E1].
  exists w. split; [exact E|]. intros p d Hp Hd.
  destruct (connections_in_order start_world 3 w start_started ltac:(by repeat constructor)
    (run_reached start_world 0 example_events start_world w (reached_start _) E)) as [_ Hi].
  destruct (Hi 0%nat p Hp) as (_&_&_&Hf). destruct (Hf d Hd) as (_&Hsum&Hk).
  exact (conj Hsum (proj1 (Hk 10 0 ltac:(lia) ltac:(lia)))).
Defined.

(** Another share of the same miner, for the nonce 101, and then a message of the wallet. *)
Definition later_events : list event :=
  [Miner_event 0 [] Result.receive_ok
     (z2b Packet.SUBMIT_SHARE :: uint2bytes 136 ++ replicate 128 Byte.x00 ++ uint2bytes64 101);
   Clock 6000000000;
   Wallet_event Result.receive_ok [z2b Daemon_packet.FAIL]].

Lemma share_once_witness :
  let _ := zero_platform in let _ := zero_hash in let _ := sum_hash in let _ := gmp_Z in
  let _ := unit_pow in let _ := insertion_sort in
  exists w1 w2 w3, submit_share 0 example_share (initialized (example_world mining_pool)) = Some (tt, w1) /\
    run later_events w1 = Some w2 /\ submit_share 0 example_share w2 = Some (tt, w3) /\
    map (fun m => m.2) (sent w2) = [[z2b Packet.ACCEPT]; [z2b Packet.ACCEPT]] /\ refused 0 w2 w3.
Proof.
  pose (P := zero_platform). pose (B := zero_hash). pose (A := sum_hash). pose (G := gmp_Z).
  pose (L := unit_pow). pose (S := insertion_sort). pose (w := initialized (example_world mining_pool)).
  destruct (submit_share 0 example_share w) as [[[] w1]|] eqn:E.
  2:{ exfalso. vm_compute in E. discriminate E. }
  assert (Hs : sent w1 = [(Miner 0, [z2b Packet.ACCEPT])]).
  { apply (f_equal (fun o => match o with Some (_, w) => sent w | None => [] end)) in E.
    rewrite <-E. by vm_compute. }
  assert (E0 : w1 = match submit_share 0 example_share w with Some (_, w1) => w1 | None => w end)
    by by rewrite E.
  destruct (run later_events w1) as [w2|] eqn:E2.
  2:{ exfalso. rewrite E0 in E2. vm_compute in E2. discriminate E2. }
  assert (E3 : w2 = default w (run later_events w1)) by by rewrite E2.
  destruct (submit_share 0 example_share w2) as [[[] w3]|] eqn:E4.
  2:{ exfalso. rewrite E3, E0 in E4. vm_compute in E4. discriminate E4. }
  assert (Hc : claims example_share 97).
  { exists (replicate 128 Byte.x00 ++ uint2bytes64 97), (replicate 32 0). split; [done|].
    split; by vm_compute. }
  exists w1, w2, w3. split; [exact E|]. split; [exact E2|]. split; [exact E4|]. split.
  { rewrite E3, E0. by vm_compute. }
  refine (share_once 0 example_share example_share mining_pool w w1 w2 w3 Packet.ACCEPT later_events 97
    (example_miner _) E Hs (or_introl eq_refl) _ E2 Hc Hc E4).
  by repeat constructor.
Defined.
