(* ===== verification/Endpoint.v ===== *)
(** * Endpoints: [src/src/network/endpoint.hpp]

    An [Endpoint] is a transport protocol and, when that is UDP or TCP, an address and a port.
    The union of the two kinds of endpoint of asio, which have one representation, is
    [m_endpoint], [None] while nothing was assigned to it.  [None] as a result is a failed
    [assert] or an exception of asio, neither of which is caught. *)
From S2P Require Import Prelude Bytes.

(** ** Addresses of asio *)
Inductive address :=
  | ipv4 (addr : bytes)
  | ipv6 (addr : bytes) (scope_id : Z).

(** The parser and the printer of the library. *)
Class Address_text := {
  make_address : bytes -> option address;
  to_string : address -> bytes;
}.

Definition to_uint (addr : bytes) : Z := foldl (fun n c => n * 256 + b2z c) 0 addr.

(** The sign of [memcmp]. *)
Fixpoint memcmp (a b : bytes) : comparison :=
  match a, b with
  | x :: a', y :: b' => match b2z x ?= b2z y with Eq => memcmp a' b' | c => c end
  | _, _ => Eq
  end.

Definition is_v6_address (a : address) : bool := match a with ipv6 _ _ => true | ipv4 _ => false end.

Definition is_multicast_address (a : address) : bool :=
  match a with
  | ipv4 addr => Z.land (to_uint addr) 0xF0000000 =? 0xE0000000
  | ipv6 addr _ => match addr with x :: _ => b2z x =? 0xff | [] => false end
  end.

Definition address_eqb (a1 a2 : address) : bool :=
  match a1, a2 with
  | ipv4 x, ipv4 y => to_uint x =? to_uint y
  | ipv6 x s, ipv6 y t => match memcmp x y with Eq => s =? t | _ => false end
  | _, _ => false
  end.

Definition address_ltb (a1 a2 : address) : bool :=
  match a1, a2 with
  | ipv4 _, ipv6 _ _ => true
  | ipv6 _ _, ipv4 _ => false
  | ipv4 x, ipv4 y => to_uint x <? to_uint y
  | ipv6 x s, ipv6 y t => match memcmp x y with Lt => true | Gt => false | Eq => s <? t end
  end.

(** An endpoint of asio. *)
Definition base : Type := address * Z.
Definition base_eqb (e1 e2 : base) : bool := address_eqb e1.1 e2.1 && (e1.2 =? e2.2).
Definition base_ltb (e1 e2 : base) : bool :=
  if address_ltb e1.1 e2.1 then true
  else if negb (address_eqb e1.1 e2.1) then false else e1.2 <? e2.2.

(** ** Endpoints *)
Inductive Transport_protocol := tcp | udp | none.
Definition protocol_value (p : Transport_protocol) : Z :=
  match p with tcp => 6 | udp => 17 | none => 255 end.

#[export] Instance Transport_protocol_eq_dec : EqDecision Transport_protocol.
Proof. solve_decision. Defined.

Record Endpoint := mk_endpoint {
  m_protocol : Transport_protocol;
  m_endpoint : option base;
}.

Definition new_endpoint : Endpoint := mk_endpoint none None.

Definition is_udp (e : Endpoint) : bool := bool_decide (m_protocol e = udp).
Definition is_tcp (e : Endpoint) : bool := bool_decide (m_protocol e = tcp).
Definition is_valid (e : Endpoint) : bool := negb (bool_decide (m_protocol e = none)).

(** TCP has no multicast addresses. *)
Definition init_ip_endpoint (ip_address : address) (port : Z) (e : Endpoint) : Endpoint :=
  match m_protocol e with
  | udp => mk_endpoint udp (Some (ip_address, port))
  | tcp => if is_multicast_address ip_address then mk_endpoint none (m_endpoint e)
           else mk_endpoint tcp (Some (ip_address, port))
  | none => e
  end.

Definition with_scope (scope : Z) (a : address) : address :=
  match a with
  | ipv6 addr s => if negb (scope =? 0) then ipv6 addr scope else a
  | ipv4 _ => a
  end.

(** The constructors from an endpoint of asio, for UDP and for TCP. *)
Definition of_base (p : Transport_protocol) (b : base) (scope : Z) : Endpoint :=
  mk_endpoint p (Some (with_scope scope b.1, b.2)).

(** The constructor from a string: when it is not an address the default one is used. *)
Definition of_string `{Address_text} (p : Transport_protocol) (s : bytes) (port scope : Z) : Endpoint :=
  match make_address s with
  | Some a => init_ip_endpoint (with_scope scope a) port (mk_endpoint p None)
  | None => init_ip_endpoint (ipv4 (replicate 4 (z2b 0))) port (mk_endpoint none None)
  end.

(** The constructor from a range of bytes. *)
Definition of_bytes (p : Transport_protocol) (l : bytes) (port scope : Z) : option Endpoint :=
  if bool_decide (p = none) then None else
  if (length l =? 4)%nat then Some (init_ip_endpoint (ipv4 l) port (mk_endpoint p None)) else
  if (length l =? 16)%nat then Some (init_ip_endpoint (ipv6 l scope) port (mk_endpoint p None)) else
  Some (mk_endpoint none None).

(** Assignment, which is also copying when [e] is new. *)
Definition assign (other e : Endpoint) : Endpoint :=
  mk_endpoint (m_protocol other) (if is_valid other then m_endpoint other else m_endpoint e).

(** [call_on_base_address] after the assertions. *)
Definition get_base (e : Endpoint) : option base := if is_valid e then m_endpoint e else None.

Definition get_udp_base (e : Endpoint) : option base := if is_udp e then m_endpoint e else None.
Definition get_tcp_base (e : Endpoint) : option base := if is_tcp e then m_endpoint e else None.

Definition port (e : Endpoint) : option Z := snd <$> get_base e.
Definition set_port (n : Z) (e : Endpoint) : option Endpoint :=
  b ← get_base e; Some (mk_endpoint (m_protocol e) (Some (b.1, n))).
Definition address_string `{Address_text} (e : Endpoint) : option bytes := to_string ∘ fst <$> get_base e.

(** [to_v4] and [to_v6] throw for the other kind. *)
Definition address_v4_bytes (e : Endpoint) : option bytes :=
  b ← get_base e; match b.1 with ipv4 addr => Some addr | ipv6 _ _ => None end.
Definition address_v6_bytes (e : Endpoint) : option bytes :=
  b ← get_base e; match b.1 with ipv6 addr _ => Some addr | ipv4 _ => None end.

Definition is_v6 (e : Endpoint) : option bool := is_v6_address ∘ fst <$> get_base e.
Definition is_v4 (e : Endpoint) : option bool := negb ∘ is_v6_address ∘ fst <$> get_base e.
Definition is_multicast (e : Endpoint) : option bool := is_multicast_address ∘ fst <$> get_base e.

Definition scope_id (e : Endpoint) : option Z :=
  b ← get_base e; Some match b.1 with ipv6 _ s => s | ipv4 _ => 0 end.
Definition set_scope_id (scope : Z) (e : Endpoint) : option Endpoint :=
  b ← get_base e;
  match b.1 with
  | ipv6 addr s => Some (if negb (s =? scope) then init_ip_endpoint (ipv6 addr scope) b.2 e else e)
  | ipv4 _ => Some e
  end.

Definition endpoint_eqb (e1 e2 : Endpoint) : option bool :=
  if bool_decide (m_protocol e1 = m_protocol e2) then
    if is_valid e1 then b1 ← m_endpoint e1; b2 ← m_endpoint e2; Some (base_eqb b1 b2) else Some false
  else Some false.

Definition endpoint_ltb (e1 e2 : Endpoint) : option bool :=
  if bool_decide (m_protocol e1 = m_protocol e2) then
    if is_valid e1 then b1 ← m_endpoint e1; b2 ← m_endpoint e2; Some (base_ltb b1 b2) else Some false
  else Some (protocol_value (m_protocol e1) <? protocol_value (m_protocol e2)).

(** [Protocol_description::update_port]: the port of the destination becomes the source's. *)
Definition update_port (source : base) (destination : Endpoint) : option Endpoint :=
  set_port source.2 destination.

Example loopback_and_multicast :
  endpoint_ltb (of_base tcp (ipv4 (z2b <$> [127; 0; 0; 1]), 80) 0) (of_base tcp (ipv4 (z2b <$> [127; 0; 0; 1]), 81) 0) =
    Some true /\
  m_protocol (init_ip_endpoint (ipv4 (z2b <$> [224; 0; 0; 1])) 80 (mk_endpoint tcp None)) = none.
Proof. vm_compute. auto. Qed.

(** ** The order as a lexicographic one *)
Fixpoint lexcmp (a b : list Z) : comparison :=
  match a, b with
  | [], [] => Eq
  | [], _ :: _ => Lt
  | _ :: _, [] => Gt
  | x :: a', y :: b' => match x ?= y with Eq => lexcmp a' b' | c => c end
  end.

Definition address_key (a : address) : list Z :=
  match a with ipv4 addr => [4; to_uint addr] | ipv6 addr s => 6 :: (b2z <$> addr) ++ [s] end.

Definition key (e : Endpoint) : list Z :=
  protocol_value (m_protocol e) ::
  match m_protocol e, m_endpoint e with
  | none, _ | _, None => []
  | _, Some b => address_key b.1 ++ [b.2]
  end.

(** The sizes of the addresses, and something in the union of a valid endpoint. *)
Definition wf_address (a : address) : Prop :=
  match a with ipv4 addr => length addr = 4%nat | ipv6 addr _ => length addr = 16%nat end.
Definition wf_endpoint (e : Endpoint) : Prop :=
  m_protocol e <> none -> exists b, m_endpoint e = Some b /\ wf_address b.1.

Lemma lexcmp_eq a b : lexcmp a b = Eq <-> a = b.
Proof.
  revert b. induction a as [|x a IH]; intros [|y b]; cbn; try done.
  destruct (Z.compare_spec x y) as [->|?|?].
  - rewrite IH. split; [by intros ->|by intros [= ->]].
  - split; [done|]. intros [= -> _]. lia.
  - split; [done|]. intros [= -> _]. lia.
Qed.

Lemma lexcmp_antisym a b : lexcmp b a = CompOpp (lexcmp a b).
Proof.
  revert b. induction a as [|x a IH]; intros [|y b]; cbn; try done.
  rewrite (Z.compare_antisym x y). by destruct (x ?= y); cbn; rewrite ?IH.
Qed.

Lemma lexcmp_trans a b c : lexcmp a b = Lt -> lexcmp b c = Lt -> lexcmp a c = Lt.
Proof.
  revert b c. induction a as [|x a IH]; intros [|y b] [|z c]; cbn; try done.
  destruct (Z.compare_spec x y), (Z.compare_spec y z), (Z.compare_spec x z); try done; try lia.
  apply IH.
Qed.

Lemma lexcmp_app a b c d : length a = length b ->
  lexcmp (a ++ c) (b ++ d) = match lexcmp a b with Eq => lexcmp c d | r => r end.
Proof.
  revert b. induction a as [|x a IH]; intros [|y b] Hl; try done; injection Hl as Hl; cbn.
  rewrite (IH b Hl). by destruct (x ?= y).
Qed.

Lemma memcmp_lexcmp a b : length a = length b -> memcmp a b = lexcmp (b2z <$> a) (b2z <$> b).
Proof.
  revert b. induction a as [|x a IH]; intros [|y b] Hl; try done; injection Hl as Hl; cbn.
  by rewrite (IH b Hl).
Qed.

Ltac tests :=
  repeat match goal with
  | |- context [?x =? ?y] => destruct (Z.eqb_spec x y)
  | |- context [?x <? ?y] => destruct (Z.ltb_spec x y)
  end; cbn.

Lemma base_compare b1 b2 :
  wf_address b1.1 -> wf_address b2.1 ->
  let c := lexcmp (address_key b1.1 ++ [b1.2]) (address_key b2.1 ++ [b2.2]) in
  base_ltb b1 b2 = (match c with Lt => true | _ => false end) /\
  base_eqb b1 b2 = (match c with Eq => true | _ => false end).
Proof.
  destruct b1 as [[x|x s] p], b2 as [[y|y t] q]; cbn [fst snd wf_address]; intros Hx Hy;
    unfold base_ltb, base_eqb; cbn [fst snd address_ltb address_eqb address_key app lexcmp];
    rewrite ?Z.compare_refl; try done.
  - destruct (Z.compare_spec (to_uint x) (to_uint y)), (Z.compare_spec p q);
      tests; (done || lia).
  - rewrite <-!app_assoc, lexcmp_app, memcmp_lexcmp by (rewrite ?length_fmap; congruence).
    cbn [app lexcmp]. destruct (lexcmp (b2z <$> x) (b2z <$> y)); [|done..].
    destruct (Z.compare_spec s t), (Z.compare_spec p q); tests; (done || lia).
Qed.

Lemma endpoint_compare e1 e2 :
  wf_endpoint e1 -> wf_endpoint e2 ->
  let c := lexcmp (key e1) (key e2) in
  endpoint_ltb e1 e2 = Some (match c with Lt => true | _ => false end) /\
  endpoint_eqb e1 e2 = Some (is_valid e1 && match c with Eq => true | _ => false end).
Proof.
  destruct e1 as [p1 b1], e2 as [p2 b2]. unfold wf_endpoint, endpoint_ltb, endpoint_eqb, is_valid, key.
  cbn [m_protocol m_endpoint lexcmp]. intros H1 H2.
  destruct (decide (p1 = p2)) as [->|Hp].
  - rewrite bool_decide_eq_true_2, Z.compare_refl by done.
    destruct (decide (p2 = none)) as [->|Hn]; [done|]. rewrite bool_decide_eq_false_2 by done.
    destruct (H1 Hn) as (c1&->&Hc1), (H2 Hn) as (c2&->&Hc2). cbn [mbind option_bind negb andb].
    destruct (base_compare c1 c2 Hc1 Hc2) as [-> ->]. by destruct p2.
  - rewrite bool_decide_eq_false_2 by done. destruct p1, p2; try done; cbn; auto.
Qed.

(** ** Properties *)

(** [operator<] is a strict total order of the endpoints up to [operator==], with one
    exception: no two invalid endpoints are equal, and neither is less.  Neither operator fails. *)
Theorem endpoint_order e1 e2 e3 :
  wf_endpoint e1 -> wf_endpoint e2 -> wf_endpoint e3 ->
  let lt a b := endpoint_ltb a b = Some true in
  is_Some (endpoint_ltb e1 e2) /\ is_Some (endpoint_eqb e1 e2) /\
  ~ lt e1 e1 /\ (lt e1 e2 -> lt e2 e3 -> lt e1 e3) /\
  (lt e1 e2 \/ lt e2 e1 \/ endpoint_eqb e1 e2 = Some true \/ (is_valid e1 = false /\ is_valid e2 = false)) /\
  (endpoint_eqb e1 e2 = Some true -> ~ lt e1 e2).
Proof.
  intros H1 H2 H3 lt. unfold lt.
  destruct (endpoint_compare e1 e2) as [-> ->]; [done..|].
  destruct (endpoint_compare e1 e1) as [-> _]; [done..|].
  destruct (endpoint_compare e2 e3) as [-> _]; [done..|].
  destruct (endpoint_compare e1 e3) as [-> _]; [done..|].
  destruct (endpoint_compare e2 e1) as [-> _]; [done..|].
  rewrite (proj2 (lexcmp_eq (key e1) (key e1))), (lexcmp_antisym (key e1) (key e2)) by done.
  split; [done|]. split; [done|]. split; [done|]. split; [|split].
  - destruct (lexcmp (key e1) (key e2)) eqn:E1, (lexcmp (key e2) (key e3)) eqn:E2; try done.
    by rewrite (lexcmp_trans _ _ _ E1 E2).
  - destruct (lexcmp (key e1) (key e2)) eqn:E; cbn; auto.
    apply lexcmp_eq in E. destruct (is_valid e1) eqn:Hv; [auto|]. right; right; right. split; [done|].
    unfold key, is_valid in *. injection E as Hp _. by destruct (m_protocol e1), (m_protocol e2).
  - by destruct (lexcmp (key e1) (key e2)), (is_valid e1).
Qed.

(** The endpoints of the program, made from strings: when the string is an address that is not
    for multicast the endpoint has that address and port; any other string, so the name of a host,
    makes an endpoint that is not valid, on which every accessor fails an assertion. *)
Theorem endpoint_of_string `{Address_text} s n scope :
  let e := of_string tcp s n scope in
  match make_address s with
  | Some a =>
      if is_multicast_address a then m_protocol e = none
      else get_tcp_base e = Some (with_scope scope a, n) /\ port e = Some n /\
           address_string e = Some (to_string (with_scope scope a)) /\
           is_v6 e = Some (is_v6_address a)
  | None => m_protocol e = none
  end /\
  (m_protocol e = none ->
   get_tcp_base e = None /\ port e = None /\ address_string e = None /\ is_v6 e = None /\
   forall source, update_port source e = None).
Proof.
  unfold of_string, init_ip_endpoint. cbn [m_protocol].
  destruct (make_address s) as [a|]; cbn [m_protocol]; [|by split].
  assert (is_multicast_address (with_scope scope a) = is_multicast_address a) as ->.
  { destruct a; cbn; [done|]. by case_match. }
  destruct (is_multicast_address a); [by split|]. split; [|done].
  split; [done|]. split; [done|]. split; [done|]. cbn. f_equal. destruct a; cbn; [done|]. by case_match.
Qed.
