(* ===== verification/Network.v ===== *)
(** * Connections, listeners and timers: [src/src/network/tcp/], [src/src/chrono/timer.hpp]

    What the classes make of asio.  Asio itself is the environment: the completion of an operation
    is an event, with the error code and the data it brings.  [Connection] is [Connection_impl]:
    the calls of a connection's handler, in order.  [Socket] is [Socket_impl] with
    [Protocol_description]: listening and accepting.  [Timer] is [chrono::Timer].  An operation
    that throws ends the program, which is [None]. *)
From S2P Require Import Prelude Bytes Uint Packet StdMap Float64 LLD CBlock Ddos Banned Registry.
From S2P Require Import Payout Coinbase World.

(** The error codes the program tells apart. *)
Inductive error_code := eof | connection_reset | other_error.

Module Connection.

(** A call of [m_connection_handler]; [None] is a null [Shared_payload]. *)
Definition call : Type := Result.Code * option bytes.

Inductive operation := no_operation | connecting | receiving.

(** [referenced]: a [shared_ptr] of the program owns the connection.  [posted] are the payloads of
    the transmit lambdas that have not run, each owning it too.  [sent] are the payloads that were
    given to the socket, with the number of their bytes it took; [incoming] is what has arrived from the peer and is not read yet. *)
Record connection := mk_connection {
  referenced : bool;
  is_open : bool;
  pending : operation;
  posted : list bytes;
  sent : list (bytes * nat);
  incoming : bytes;
  calls : list call;
}.

(** [weak_self.lock()] succeeds. *)
Definition alive (c : connection) : bool :=
  referenced c || negb (bool_decide (posted c = [])).

Section connection.
(** The program's handler: whether it still owns the connection after these calls. *)
Context (keeps : list call -> bool).

Definition call_handler (result : Result.Code) (payload : option bytes) (c : connection) : connection :=
  let calls := calls c ++ [(result, payload)] in
  mk_connection (referenced c && keeps calls) (is_open c) (pending c) (posted c) (sent c) (incoming c) calls.

(** [async_receive] *)
Definition receive (c : connection) : connection :=
  mk_connection (referenced c) (is_open c) receiving (posted c) (sent c) (incoming c) (calls c).

Definition completed (c : connection) : connection :=
  mk_connection (referenced c) (is_open c) no_operation (posted c) (sent c) (incoming c) (calls c).

(** [close], which the destructor calls. *)
Definition close (c : connection) : connection :=
  if is_open c then
    mk_connection (referenced c) false no_operation (posted c) (sent c) (incoming c) (calls c)
  else c.

(** The end of a scope that held the connection. *)
Definition release (c : connection) : connection := if alive c then c else close c.

(** [initialise_socket] and [connect]: the results of [open] and [bind]. *)
Definition initialise_socket (open_error bind_error : option error_code) : Result.Code * bool :=
  match open_error with
  | Some _ => (Result.error, false)
  | None => match bind_error with
            | Some _ => (Result.error, false)
            | None => (Result.ok, true)
            end
  end.

Definition connect (open_error bind_error : option error_code) : option connection :=
  match initialise_socket open_error bind_error with
  | (Result.ok, o) => Some (mk_connection true o connecting [] [] [] [])
  | _ => None
  end.

(** The completion of [async_connect]. *)
Definition on_connect (error : option error_code) (c : connection) : connection :=
  let c := completed c in
  if alive c then
    match error with
    | None => release (receive (call_handler Result.connection_ok None c))
    | Some _ => release (call_handler Result.connection_declined None c)
    end
  else c.

(** The completion of [async_receive]: [available] may throw, and [receive] fills the buffer. *)
Definition on_receive (error : option error_code) (available : option nat) (read_error : option error_code)
  (c : connection) : option connection :=
  let c := completed c in
  if alive c then
    match error with
    | None =>
        length ← available;
        if (length =? 0)%nat then Some (release (call_handler Result.connection_closed None c))
        else match read_error with
             | None =>
                 let receive_buffer := take length (incoming c) in
                 let c := mk_connection (referenced c) (is_open c) (pending c) (posted c) (sent c)
                   (drop length (incoming c)) (calls c) in
                 Some (release (receive (call_handler Result.receive_ok (Some receive_buffer) c)))
             | Some _ => Some (release (call_handler Result.connection_aborted None c))
             end
    | Some eof | Some connection_reset => Some (release (call_handler Result.connection_closed None c))
    | Some _ => Some (release (call_handler Result.connection_aborted None c))
    end
  else Some c.

(** [handle_accept] on the socket of a new connection; [local_endpoint] throws on a socket that is
    not connected any more. *)
Definition handle_accept (local_endpoint_ok : bool) : option connection :=
  if local_endpoint_ok then
    Some (release (receive (call_handler Result.connection_ok None
      (mk_connection true true no_operation [] [] [] []))))
  else None.

(** [transmit] posts a lambda, which owns the connection until it has run.  [asio::post] without an
    executor posts to the threads of asio's own system context, two for each processor: which of
    the lambdas comes next to the socket is not determined, nor is it by the io_context. *)
Definition transmit (tx_buffer : bytes) (c : connection) : connection :=
  mk_connection (referenced c) (is_open c) (pending c) (posted c ++ [tx_buffer]) (sent c) (incoming c) (calls c).

(** The lambda at [i] runs, and [async_send] takes [n] bytes: it may not transmit all of the data,
    and its completion does not look. *)
Definition run_posted (i n : nat) (c : connection) : connection :=
  match posted c !! i with
  | None => c
  | Some payload =>
      release (mk_connection (referenced c) (is_open c) (pending c) (delete i (posted c))
        (if is_open c then sent c ++ [(payload, n)] else sent c) (incoming c) (calls c))
  end.

(** The program resets its last [shared_ptr]. *)
Definition drop_reference (c : connection) : connection :=
  release (mk_connection false (is_open c) (pending c) (posted c) (sent c) (incoming c) (calls c)).

Definition arrive (data : bytes) (c : connection) : connection :=
  mk_connection (referenced c) (is_open c) (pending c) (posted c) (sent c) (incoming c ++ data) (calls c).

Inductive event :=
  | Connected (error : option error_code)
  | Received (error : option error_code) (available : option nat) (read_error : option error_code)
  | Transmit (tx_buffer : bytes)
  | Run_posted (i n : nat)
  | Drop
  | Arrive (data : bytes).

Definition handle (e : event) (c : connection) : option connection :=
  match e with
  | Connected error => Some (on_connect error c)
  | Received error available read_error => on_receive error available read_error c
  | Transmit tx_buffer => Some (transmit tx_buffer c)
  | Run_posted i n => Some (run_posted i n c)
  | Drop => Some (drop_reference c)
  | Arrive data => Some (arrive data c)
  end.

(** Asio completes an operation once, the program transmits through a [shared_ptr] it has, and as
    many bytes as [available] says can be read. *)
Definition possible (e : event) (c : connection) : Prop :=
  match e with
  | Connected _ => pending c = connecting
  | Received _ available _ => pending c = receiving /\
      match available with Some n => (n <= length (incoming c))%nat | None => True end
  | Transmit _ | Drop => referenced c = true
  | Run_posted i n => exists payload, posted c !! i = Some payload /\ (n <= length payload)%nat
  | Arrive _ => True
  end.

Inductive reachable : connection -> Prop :=
  | reachable_connect c : connect None None = Some c -> reachable c
  | reachable_accept c : handle_accept true = Some c -> reachable c
  | reachable_event e c c' : reachable c -> possible e c -> handle e c = Some c' -> reachable c'.

(** A run of events, each possible when it comes. *)
Inductive run : connection -> list event -> connection -> Prop :=
  | run_nil c : run c [] c
  | run_cons e es c c1 c2 : possible e c -> handle e c = Some c1 -> run c1 es c2 -> run c (e :: es) c2.
End connection.

(** ** The order of the calls *)
Definition received (data : bytes) : call := (Result.receive_ok, Some data).

(** A connection that is up delivers what it reads, in pieces that are not empty. *)
Inductive well_ordered : operation -> list call -> Prop :=
  | order_connecting : well_ordered connecting []
  | order_declined : well_ordered no_operation [(Result.connection_declined, None)]
  | order_up chunks : Forall (fun d => d <> []) chunks ->
      well_ordered receiving ((Result.connection_ok, None) :: (received <$> chunks))
  | order_down chunks result : Forall (fun d => d <> []) chunks ->
      result = Result.connection_closed \/ result = Result.connection_aborted ->
      well_ordered no_operation ((Result.connection_ok, None) :: (received <$> chunks) ++ [(result, None)]).
End Connection.

Module Socket.

(** [m_acceptor] is open; an [async_accept] waits on it; the [shared_ptr] of the socket is held;
    the connections that were handed to the program. *)
Record listener := mk_listener {
  held : bool;
  acceptor_open : bool;
  accepting : bool;
  accepted : list nat;
}.

Definition new_listener : listener := mk_listener true false false [].

(** [Protocol_description::close_acceptor]; the operation that waits is aborted. *)
Definition close_acceptor (l : listener) : listener :=
  if acceptor_open l then mk_listener (held l) false false (accepted l) else l.

Definition stop_listen (l : listener) : listener := close_acceptor l.

Definition accept (l : listener) : listener := mk_listener (held l) (acceptor_open l) true (accepted l).

(** [bind_acceptor] *)
Definition bind_acceptor (bind_error : option error_code) (l : listener) : Result.Code * listener :=
  match bind_error with
  | Some _ => (Result.socket_error, close_acceptor l)
  | None => (Result.ok, l)
  end.

(** [listen], with the results of [open], [bind] and [listen] of the acceptor. *)
Definition listen (open_error bind_error listen_error : option error_code) (l : listener)
  : Result.Code * listener :=
  if acceptor_open l then (Result.socket_error, l) else
  match open_error with
  | Some _ => (Result.socket_error, l)
  | None =>
      let l := mk_listener (held l) true (accepting l) (accepted l) in
      let '(bound, l) := bind_acceptor bind_error l in
      match bound with
      | Result.ok =>
          match listen_error with
          | Some _ => (Result.socket_error, close_acceptor l)
          | None => (Result.socket_ok, accept l)
          end
      | _ => (Result.socket_error, close_acceptor l)
      end
  end.

(** The completion of [async_accept] for the connection [id]; [remote_endpoint] of its socket throws
    when the peer has gone, and so does [local_endpoint] in [handle_accept]. *)
Definition on_accept (error : option error_code) (remote_ok : bool) (id : nat) (l : listener)
  : option listener :=
  let l := mk_listener (held l) (acceptor_open l) false (accepted l) in
  match error with
  | None =>
      if held l then
        if remote_ok
        then Some (accept (mk_listener (held l) (acceptor_open l) (accepting l) (accepted l ++ [id])))
        else None
      else Some l
  | Some _ => Some l
  end.

(** [connect] of an outgoing socket: null when the socket cannot be initialised. *)
Definition connect (open_error bind_error : option error_code) : option Connection.connection :=
  Connection.connect open_error bind_error.

Inductive event :=
  | Accepted (error : option error_code) (remote_ok : bool) (id : nat)
  | Listen (open_error bind_error listen_error : option error_code).

Definition handle (e : event) (l : listener) : option listener :=
  match e with
  | Accepted error remote_ok id => on_accept error remote_ok id l
  | Listen o b s => Some (listen o b s l).2
  end.

(** Only an operation that waits completes. *)
Definition possible (e : event) (l : listener) : Prop :=
  match e with Accepted _ _ _ => accepting l = true | Listen _ _ _ => True end.

(** A run of events, each possible when it comes. *)
Inductive run : listener -> list event -> listener -> Prop :=
  | run_nil l : run l [] l
  | run_cons e es l l1 l2 : possible e l -> handle e l = Some l1 -> run l1 es l2 -> run l (e :: es) l2.
End Socket.

Module Timer.

(** The handlers by number, in the order of their [start]: one may wait for the timer, some are
    posted with their [canceled], some have been called. *)
Record timer := mk_timer {
  next : nat;
  waiting : option nat;
  posted : list (nat * bool);
  called : list (nat * bool);
}.

Definition new_timer : timer := mk_timer 0 None [] [].

(** [cancel]: the operation that waits completes with an error.  Asio does not take back one that
    has completed. *)
Definition cancel (t : timer) : timer :=
  match waiting t with
  | Some h => mk_timer (next t) None (posted t ++ [(h, true)]) (called t)
  | None => t
  end.

(** [start_int] *)
Definition start (t : timer) : timer :=
  let t := cancel t in
  mk_timer (S (next t)) (Some (next t)) (posted t) (called t).

(** The time has come. *)
Definition expire (t : timer) : timer :=
  match waiting t with
  | Some h => mk_timer (next t) None (posted t ++ [(h, false)]) (called t)
  | None => t
  end.

(** The io_context runs the next handler. *)
Definition run_posted (t : timer) : timer :=
  match posted t with
  | [] => t
  | h :: posted' => mk_timer (next t) (waiting t) posted' (called t ++ [h])
  end.

Inductive event := Start | Cancel | Expire | Run.

Definition handle (t : timer) (e : event) : timer :=
  match e with Start => start t | Cancel => cancel t | Expire => expire t | Run => run_posted t end.
End Timer.

(** ** Lemmas *)
(** The bytes of the payloads. *)
Definition delivered (cs : list Connection.call) : bytes := concat (default [] ∘ snd <$> cs).
#[local] Arguments delivered : simpl never.

Section connection.
Context (keeps : list Connection.call -> bool).
Import Connection.

(** What holds of every connection. *)
Definition orderly (c : connection) : Prop :=
  exists op, well_ordered op (calls c) /\
    if alive c then pending c = op /\ is_open c = true
    else pending c = no_operation /\ is_open c = false.

Lemma release_orderly c op :
  well_ordered op (calls c) -> pending c = op -> is_open c = true -> orderly (release c).
Proof.
  intros Hw Hp Ho. exists op. unfold release. destruct (alive c) eqn:E; [by rewrite E|].
  unfold close. rewrite Ho. split; [done|]. unfold alive in *. cbn [referenced posted]. by rewrite E.
Qed.

Lemma alive_orderly c : orderly c -> alive c = true -> well_ordered (pending c) (calls c) /\ is_open c = true.
Proof. intros (op&Hw&Hc) Ha. rewrite Ha in Hc. by destruct Hc as [-> ?]. Qed.

(** A lambda that waits owns the connection. *)
Lemma posted_alive c i d : posted c !! i = Some d -> alive c = true.
Proof. intros H. unfold alive. destruct (posted c); [done|]. apply orb_true_r. Qed.

Lemma well_ordered_connecting cs : well_ordered connecting cs -> cs = [].
Proof. by inversion 1. Qed.

(** The next call of a connection that is receiving. *)
Lemma well_ordered_next cs r p :
  well_ordered receiving cs ->
  (r = Result.connection_closed \/ r = Result.connection_aborted) /\ p = None ->
  well_ordered no_operation (cs ++ [(r, p)]).
Proof. intros H [Hr ->]. inversion H; subst. cbn. by constructor. Qed.

Lemma well_ordered_data cs d :
  well_ordered receiving cs -> d <> [] -> well_ordered receiving (cs ++ [(Result.receive_ok, Some d)]).
Proof.
  intros H Hd. inversion H; subst. cbn. change [(_, Some d)] with (received <$> [d]).
  rewrite <-fmap_app. constructor. apply Forall_app. split; [done|by repeat constructor].
Qed.

Lemma handle_orderly e c c' :
  orderly c -> possible e c -> handle keeps e c = Some c' -> orderly c'.
Proof.
  intros Ho Hp Hh. destruct e as [error|error available read_error|d|i n| |d]; cbn in Hh, Hp.
  - injection Hh as <-. unfold on_connect. change (alive (completed c)) with (alive c).
    destruct (alive c) eqn:Ha.
    + destruct (alive_orderly c Ho Ha) as [Hw Hopen]. rewrite Hp in Hw. apply well_ordered_connecting in Hw.
      destruct error; eapply release_orderly; cbn; rewrite ?Hw; try done; [constructor|].
      by apply (order_up []).
    + destruct Ho as (op&Hw&Hc). rewrite Ha in Hc. exists op. split; [done|].
      change (alive (completed c)) with (alive c). rewrite Ha. by destruct Hc.
  - destruct Hp as [Hp Hav]. unfold on_receive in Hh. change (alive (completed c)) with (alive c) in Hh.
    destruct (alive c) eqn:Ha.
    + destruct (alive_orderly c Ho Ha) as [Hw Hopen]. rewrite Hp in Hw.
      assert (forall r, r = Result.connection_closed \/ r = Result.connection_aborted ->
        orderly (release (call_handler keeps r None (completed c)))) as Hend.
      { intros r Hr. eapply release_orderly; cbn; [|done..]. by apply well_ordered_next. }
      destruct error as [[]|]; try (injection Hh as <-; apply Hend; auto; fail).
      destruct available as [n|]; [|done]. cbn [mbind option_bind] in Hh.
      destruct (Nat.eqb_spec n 0); [injection Hh as <-; apply Hend; auto|].
      destruct read_error; injection Hh as <-; [apply Hend; auto|].
      apply (release_orderly _ receiving); cbn; [|done..]. apply well_ordered_data; [exact Hw|].
      intros H%(f_equal length). rewrite length_take in H. cbn in H. lia.
    + injection Hh as <-. destruct Ho as (op&Hw&Hc). exists op. rewrite Ha in Hc. split; [done|].
      change (alive (completed c)) with (alive c). rewrite Ha. by destruct Hc.
  - injection Hh as <-. destruct Ho as (op&Hw&Hc). exists op. split; [done|].
    unfold alive in *. cbn. rewrite Hp in *. done.
  - injection Hh as <-. destruct Hp as (d&Hd&_). unfold run_posted. rewrite Hd.
    destruct (alive_orderly c Ho (posted_alive c i d Hd)) as [Hw Hopen]. by eapply release_orderly.
  - injection Hh as <-. assert (alive c = true) as Ha by (unfold alive; by rewrite Hp).
    destruct (alive_orderly c Ho Ha) as [Hw Hopen]. by eapply release_orderly.
  - by injection Hh as <-.
Qed.

Lemma delivered_snoc cs r p : delivered (cs ++ [(r, p)]) = delivered cs ++ default [] p.
Proof. unfold delivered. rewrite fmap_app, concat_app. cbn. by rewrite app_nil_r. Qed.

Lemma release_same c :
  calls (release c) = calls c /\ incoming (release c) = incoming c /\ sent (release c) = sent c /\
  posted (release c) = posted c.
Proof. unfold release, close. by destruct (alive c), (is_open c). Qed.

(** What a completion leaves alone. *)
Lemma on_receive_data error available read_error c c' :
  on_receive keeps error available read_error c = Some c' ->
  delivered (calls c') ++ incoming c' = delivered (calls c) ++ incoming c /\
  sent c' = sent c /\ posted c' = posted c /\ (alive c = false -> calls c' = calls c).
Proof.
  unfold on_receive. change (alive (completed c)) with (alive c).
  destruct (alive c); [|by intros [= <-]]. intros H.
  assert (forall r, c' = release (call_handler keeps r None (completed c)) ->
    delivered (calls c') ++ incoming c' = delivered (calls c) ++ incoming c /\
    sent c' = sent c /\ posted c' = posted c) as Hend.
  { intros r ->. destruct (release_same (call_handler keeps r None (completed c))) as (->&->&->&->).
    cbn. by rewrite delivered_snoc, app_nil_r. }
  assert (delivered (calls c') ++ incoming c' = delivered (calls c) ++ incoming c /\
    sent c' = sent c /\ posted c' = posted c) as (?&?&?); [|by split_and!].
  destruct error as [[]|]; try (injection H as H; by eapply Hend).
  destruct available as [n|]; [|done]. cbn [mbind option_bind] in H.
  destruct (n =? 0)%nat; [injection H as H; by eapply Hend|].
  destruct read_error; injection H as H; [by eapply Hend|]. subst c'.
  match goal with |- context [release ?d] => destruct (release_same d) as (->&->&->&->) end.
  cbn. split_and!; [|done..]. rewrite delivered_snoc, <-app_assoc. cbn. by rewrite take_drop.
Qed.

Lemma handle_data e c c' :
  orderly c -> possible e c -> handle keeps e c = Some c' ->
  delivered (calls c') ++ incoming c' =
    delivered (calls c) ++ incoming c ++ match e with Arrive d => d | _ => [] end /\
  (sent c').*1 ++ posted c' ≡ₚ (sent c).*1 ++ posted c ++ match e with Transmit d => [d] | _ => [] end /\
  (alive c = false -> calls c' = calls c).
Proof.
  intros Ho Hp Hh. destruct e as [error|error available read_error|d|i n| |d]; cbn in Hh, Hp; rewrite ?app_nil_r.
  - injection Hh as <-. unfold on_connect. change (alive (completed c)) with (alive c).
    destruct (alive c); [|done].
    destruct error; match goal with |- context [release ?d] => destruct (release_same d) as (->&->&->&->) end;
      cbn; by rewrite delivered_snoc, app_nil_r.
  - destruct (on_receive_data _ _ _ _ _ Hh) as (->&->&->&?). done.
  - injection Hh as <-. cbn. by rewrite app_assoc.
  - injection Hh as <-. destruct Hp as (d&Hd&_). unfold run_posted. rewrite Hd.
    destruct (alive_orderly c Ho (posted_alive c i d Hd)) as [_ ->].
    match goal with |- context [release ?d] => destruct (release_same d) as (->&->&->&->) end.
    cbn. split_and!; [done| |done]. rewrite fmap_app, <-app_assoc. f_equiv. symmetry.
    by apply delete_Permutation.
  - injection Hh as <-. unfold drop_reference.
    match goal with |- context [release ?d] => destruct (release_same d) as (->&->&->&->) end. done.
  - injection Hh as <-. cbn. by rewrite <-?app_assoc.
Qed.

Lemma reachable_orderly c : reachable keeps c -> orderly c.
Proof.
  induction 1 as [c H|c H|e c c' _ IH Hp Hh].
  - injection H as <-. exists connecting. split; [constructor|done].
  - injection H as <-. eapply release_orderly; cbn; [|done..]. by apply (order_up []).
  - by eapply handle_orderly.
Qed.
End connection.

(** ** Lemmas on listeners and timers *)
(** A listener that is open and does not accept. *)
Definition deaf (l : Socket.listener) : Prop :=
  Socket.acceptor_open l = true /\ Socket.accepting l = false.

Lemma deaf_run l es l' :
  deaf l -> Socket.run l es l' -> l' = l.
Proof.
  intros Hd Hr. induction Hr as [l|e es l l1 l2 Hp Hh _ IH]; [done|].
  destruct Hd as [Ho Ha]. destruct e as [error ok id|o b s]; cbn in Hp, Hh; [congruence|].
  unfold Socket.listen in Hh. rewrite Ho in Hh. injection Hh as <-. by apply IH.
Qed.

(** The handlers of a timer, in the order they are called or will be. *)
Definition handlers (t : Timer.timer) : list nat :=
  (fst <$> Timer.called t) ++ (fst <$> Timer.posted t) ++ option_list (Timer.waiting t).

Lemma handlers_handle t e :
  handlers t = seq 0 (Timer.next t) -> handlers (Timer.handle t e) = seq 0 (Timer.next (Timer.handle t e)).
Proof.
  assert (forall c, handlers (match Timer.waiting t with
      | Some h => Timer.mk_timer (Timer.next t) None (Timer.posted t ++ [(h, c)]) (Timer.called t)
      | None => t end) = handlers t) as Hc.
  { intros c. unfold handlers. destruct (Timer.waiting t) eqn:E; [|by rewrite E]. cbn.
    by rewrite fmap_app, app_nil_r. }
  intros H. destruct e; cbn [Timer.handle].
  - unfold Timer.start, Timer.cancel. specialize (Hc true).
    set (t' := match Timer.waiting t with Some _ => _ | None => t end) in *.
    assert (Timer.next t' = Timer.next t /\ Timer.waiting t' = None) as [En Ew].
    { unfold t'. destruct (Timer.waiting t) eqn:E; [done|by rewrite E]. }
    unfold handlers in *. cbn [Timer.called Timer.posted Timer.waiting Timer.next option_list].
    rewrite Ew in Hc. cbn [option_list] in Hc. rewrite app_nil_r in Hc.
    by rewrite app_assoc, Hc, H, En, seq_S.
  - unfold Timer.cancel. rewrite (Hc true), H. by destruct (Timer.waiting t).
  - unfold Timer.expire. rewrite (Hc false), H. by destruct (Timer.waiting t).
  - unfold Timer.run_posted. destruct (Timer.posted t) as [|h rest] eqn:E; [done|].
    unfold handlers in *. rewrite E in H. cbn in *. by rewrite fmap_app, <-app_assoc.
Qed.

(** ** Properties *)

(** C3: the handler of a connection is called in the order its users rely on:
    once with [connection_ok] or [connection_declined]; after the former with [receive_ok] and a
    payload that is not empty, any number of times; at last at most once with
    [connection_closed] or [connection_aborted].  The payloads are the bytes of the peer, none
    lost, repeated or moved.  Each payload that is transmitted is given to the socket once, also when
    the program drops the connection before; and when nothing owns the connection any more its
    socket is closed and the handler is not called again. *)
Theorem connection_protocol keeps c :
  Connection.reachable keeps c ->
  (exists op, Connection.well_ordered op (Connection.calls c) /\
     if Connection.alive c
     then Connection.pending c = op /\ Connection.is_open c = true
     else Connection.pending c = Connection.no_operation /\ Connection.is_open c = false) /\
  forall e c', Connection.possible e c -> Connection.handle keeps e c = Some c' ->
    delivered (Connection.calls c') ++ Connection.incoming c' =
      delivered (Connection.calls c) ++ Connection.incoming c ++
        match e with Connection.Arrive d => d | _ => [] end /\
    (Connection.sent c').*1 ++ Connection.posted c' ≡ₚ
      (Connection.sent c).*1 ++ Connection.posted c ++
        match e with Connection.Transmit d => [d] | _ => [] end /\
    (Connection.alive c = false -> Connection.calls c' = Connection.calls c).
Proof.
  intros H. pose proof (reachable_orderly keeps c H) as Ho. split; [exact Ho|].
  intros e c'. by apply handle_data.
Qed.

Lemma connection_protocol_witness :
  let keeps := fun cs : list Connection.call => (length cs <? 2)%nat in
  let c := Connection.mk_connection true true Connection.receiving [] [] [] [(Result.connection_ok, None)] in
  Connection.reachable keeps c /\ exists op, Connection.well_ordered op (Connection.calls c).
Proof.
  intros keeps c. assert (Connection.reachable keeps c) as H by by apply Connection.reachable_accept.
  split; [exact H|]. destruct (proj1 (connection_protocol keeps c H)) as (op&Hw&_). by exists op.
Defined.

(** The order of two transmissions is not kept, and neither need be sent whole.  After both the
    second lambda may run before the first, and [async_send] may take any number of the bytes. *)
Theorem transmit_order keeps c d1 d2 n1 n2 :
  Connection.referenced c = true -> Connection.is_open c = true -> Connection.posted c = [] ->
  (n1 <= length d1)%nat -> (n2 <= length d2)%nat ->
  (exists c', Connection.run keeps c
     [Connection.Transmit d1; Connection.Transmit d2; Connection.Run_posted 0 n1; Connection.Run_posted 0 n2] c' /\
     Connection.sent c' = Connection.sent c ++ [(d1, n1); (d2, n2)]) /\
  (exists c', Connection.run keeps c
     [Connection.Transmit d1; Connection.Transmit d2; Connection.Run_posted 1 n2; Connection.Run_posted 0 n1] c' /\
     Connection.sent c' = Connection.sent c ++ [(d2, n2); (d1, n1)]).
Proof.
  destruct c as [r o op po se inc cs]. cbn. intros -> -> -> H1 H2.
  split; eexists; (split; [repeat (eapply Connection.run_cons; [cbn; by eauto|reflexivity|]); apply Connection.run_nil|]);
    cbn; by rewrite <-app_assoc.
Qed.

(** C38: a connection delivers what has arrived, not packets, and the protocols do
    not look for their ends.  Two packets that arrive together come as one payload: with data in
    the first, the second becomes part of its data and is lost; two requests, of one byte each,
    make both constructors read outside the payload.  A packet that arrives in two pieces is read
    as one whose data is too short, or not at all. *)
Theorem segments_not_packets keeps c p q bp bq :
  well_framed p -> well_framed q -> get_bytes p = Some bp -> get_bytes q = Some bq ->
  Connection.referenced c = true -> Connection.incoming c = [] ->
  (exists c', Connection.handle keeps (Connection.Received None (Some (length (bp ++ bq))) None)
       (Connection.arrive bq (Connection.arrive bp c)) = Some c' /\
     Connection.calls c' = Connection.calls c ++ [Connection.received (bp ++ bq)]) /\
  (forall d, m_data p = Some d ->
     Packet.parse (bp ++ bq) = Some (mk_packet (m_header p) (m_length p) (Some (d ++ bq))) /\
     Daemon_packet.parse (bp ++ bq) = Packet.parse (bp ++ bq) /\
     (forall k, (5 <= k)%nat ->
        Packet.parse (take k bp) = Some (mk_packet (m_header p) (m_length p) (Some (take (k - 5) d)))) /\
     (forall k, (2 <= k < 5)%nat -> Packet.parse (take k bp) = None)) /\
  (m_data p = None -> m_data q = None ->
     Packet.parse (bp ++ bq) = None /\ Daemon_packet.parse (bp ++ bq) = None).
Proof.
  intros Hp Hq Ep Eq Hr Hi. split_and!.
  - assert (0 < length (bp ++ bq))%nat as Hl.
    { destruct (read_get_bytes p bp Hp Ep) as [_ [rest ->]]. cbn. lia. }
    eexists. cbn [Connection.handle]. unfold Connection.on_receive.
    assert (Connection.alive (Connection.completed (Connection.arrive bq (Connection.arrive bp c))) = true)
      as -> by (unfold Connection.alive; cbn; by rewrite Hr).
    cbn [mbind option_bind]. destruct (Nat.eqb_spec (length (bp ++ bq)) 0) as [|_]; [lia|].
    split; [done|].
    match goal with |- context [Connection.release ?d] => destruct (release_same d) as (->&_) end.
    cbn. rewrite Hi. cbn [app]. by rewrite take_ge.
  - intros d Hd. pose proof (well_framed_header p Hp) as Hh. unfold well_framed in Hp. rewrite Hd in Hp.
    destruct Hp as (H7&Hl&H32). unfold get_bytes in Ep. rewrite Hd in Ep.
    rewrite (proj2 (Z.ltb_lt (m_header p) 128)) in Ep by (unfold fits in H7; lia).
    injection Ep as <-. pose proof (z2b_header _ 8 Hh ltac:(lia)) as Hz.
    assert (forall t, Packet.parse (z2b (m_header p) :: z2b (m_length p ≫ 24) :: z2b (m_length p ≫ 16) ::
      z2b (m_length p ≫ 8) :: z2b (m_length p) :: t) = Some (mk_packet (m_header p) (m_length p) (Some t)))
      as Hparse.
    { intros t. unfold Packet.parse, read_payload. by rewrite Hz, be32_uint2bytes, wrap_small. }
    split_and!; [apply Hparse|done| |].
    + intros k Hk. do 5 (destruct k as [|k]; [lia|]). cbn [take]. rewrite Hparse.
      by replace (S (S (S (S (S k)))) - 5)%nat with k by lia.
    + intros k Hk. unfold Packet.parse. rewrite read_payload_None. rewrite length_take. cbn. lia.
  - intros Hd1 Hd2. unfold get_bytes in *. unfold well_framed in *. rewrite Hd1 in *. rewrite Hd2 in *.
    destruct Hp as [Hp _], Hq as [Hq _].
    rewrite (proj2 (Z.ltb_ge (m_header p) 128)) in Ep by lia. rewrite (proj2 (Z.ltb_ge (m_header q) 128)) in Eq by lia.
    by injection Ep as <-; injection Eq as <-.
Qed.

Lemma segments_not_packets_witness :
  Packet.parse ([z2b Packet.GET_BALANCE] ++ [z2b Packet.GET_PAYOUT]) = None.
Proof.
  apply (segments_not_packets (fun _ => true)
    (Connection.mk_connection true true Connection.receiving [] [] [] [])
    (Packet.get_packet Packet.GET_BALANCE) (Packet.get_packet Packet.GET_PAYOUT)
    [z2b Packet.GET_BALANCE] [z2b Packet.GET_PAYOUT]); try reflexivity; repeat split; vm_compute; congruence.
Defined.

(** A listening socket accepts one connection after the other for as long as [async_accept]
    brings none of its errors.  The first error, such as too many open files, ends it for good:
    the acceptor stays open, no connection is accepted any more, and [listen] refuses to begin
    again.  A peer that has gone when its connection is handled ends the program. *)
Theorem accept_loop l :
  Socket.held l = true -> Socket.acceptor_open l = true -> Socket.accepting l = true ->
  (forall ids, exists l', Socket.run l ((fun id => Socket.Accepted None true id) <$> ids) l' /\
     Socket.accepted l' = Socket.accepted l ++ ids /\ Socket.accepting l' = true) /\
  (forall error ok id es l1 l2,
     Socket.handle (Socket.Accepted (Some error) ok id) l = Some l1 -> Socket.run l1 es l2 ->
     Socket.accepted l2 = Socket.accepted l /\
     forall o b s, (Socket.listen o b s l2).1 = Result.socket_error) /\
  (forall id, Socket.handle (Socket.Accepted None false id) l = None).
Proof.
  intros Hh Ho Ha. split_and!.
  - intros ids. revert l Hh Ho Ha. induction ids as [|id ids IH]; intros l Hh Ho Ha.
    + exists l. rewrite app_nil_r. split; [constructor|done].
    + destruct (IH (Socket.mk_listener (Socket.held l) (Socket.acceptor_open l) true (Socket.accepted l ++ [id])))
        as (l'&Hr&Hacc&Hl'); [done..|]. exists l'. cbn in Hacc. rewrite Hacc, <-app_assoc.
      split; [|done]. econstructor; [exact Ha| |exact Hr]. cbn. unfold Socket.on_accept. by rewrite Hh.
  - intros error ok id es l1 l2 [= <-] Hr.
    apply deaf_run in Hr as ->; [|by split]. cbn. split; [done|]. intros o b s. unfold Socket.listen. cbn.
    by rewrite Ho.
  - intros id. cbn. unfold Socket.on_accept. cbn. by rewrite Hh.
Qed.

Lemma accept_loop_witness :
  exists l', Socket.run (Socket.listen None None None Socket.new_listener).2
    [Socket.Accepted None true 4] l' /\ Socket.accepted l' = [4%nat].
Proof.
  destruct (proj1 (accept_loop (Socket.listen None None None Socket.new_listener).2 eq_refl eq_refl eq_refl) [4%nat])
    as (l'&H1&H2&_). exists l'. exact (conj H1 H2).
Defined.

(** Every handler given to a timer is called exactly once and in the order of the starts.
    The one that waits is told [canceled] when the timer is started again or canceled, and not
    when its time has come; a handler that was posted already is not taken back; and when the
    io_context has run what is posted, only the handler that waits is left. *)
Theorem timer_once es :
  let t := foldl Timer.handle Timer.new_timer es in
  handlers t = seq 0 (Timer.next t) /\
  (forall h, Timer.waiting t = Some h ->
     Timer.posted (Timer.start t) = Timer.posted t ++ [(h, true)] /\
     Timer.posted (Timer.cancel t) = Timer.posted t ++ [(h, true)] /\
     Timer.posted (Timer.expire t) = Timer.posted t ++ [(h, false)]) /\
  Timer.called (foldl Timer.handle t (replicate (length (Timer.posted t)) Timer.Run)) =
    Timer.called t ++ Timer.posted t.
Proof.
  cbn zeta. set (t := foldl _ _ es). split_and!.
  - unfold t. clear t. induction es as [|e es IH] using rev_ind; [done|].
    rewrite foldl_app. cbn [foldl]. by apply handlers_handle.
  - intros h Hw. unfold Timer.start, Timer.cancel, Timer.expire. by rewrite Hw.
  - generalize t. clear t. intros t. remember (length (Timer.posted t)) as n eqn:En. revert t En.
    induction n as [|n IH]; intros t En; cbn [replicate foldl].
    + destruct (Timer.posted t); [by rewrite app_nil_r|done].
    + destruct (Timer.posted t) as [|h rest] eqn:E; [done|]. injection En as En.
      rewrite IH; cbn [Timer.handle]; unfold Timer.run_posted; rewrite E; cbn; [|done].
      by rewrite <-app_assoc.
Qed.
