(* ===== verification/System.v ===== *)
(** * The system: the pool and its connections together

    [Server] runs the handlers on any result and any bytes; [Network] runs a connection against any
    handler.  Here the two run together, for the connection to the wallet and those of the miners:
    what a connection calls is the handler of [Server], what the handler transmits goes to the
    connection, and the connection is dropped when the handler resets its pointer.
    [system_refines]: each run of the system is a run of both, and the handlers are called on
    connections that are up. *)
From S2P Require Import Prelude Bytes StdMap Float64 Uint Packet Coinbase LLD CBlock Ddos Banned.
From S2P Require Import Base58 Prime Registry Payout World Daemon_queue Pool_conn Pool_shares Daemon_conn Network Server.

#[export] Instance peer_eq_dec : EqDecision peer.
Proof. solve_decision. Defined.
#[export] Instance peer_countable : Countable peer.
Proof.
  apply (inj_countable' (fun who => match who with Wallet => None | Miner i => Some i end)
    (fun o => match o with None => Wallet | Some i => Miner i end)). by intros [].
Defined.

(** ** What the handlers leave alone *)

(** A change of a pool connection that neither closes nor opens it. *)
Definition gentle (f : Pool_connection -> Pool_connection) : Prop :=
  forall p, m_connection (f p) = m_connection p /\ closed (f p) = closed p /\
    (is_Some (m_ddos p) -> is_Some (m_ddos (f p))).

(** What is kept by every step of a handler that does not close the connection to [who]. *)
Record steady (who : peer) (I : World -> Prop) : Prop := mk_steady {
  steady_alive : forall w, I w -> daemon_alive w = true;
  steady_registry : forall r w, I w -> I (with_registry r w);
  steady_daemon : forall d w,
    (who = Wallet -> d_connection d = d_connection (daemon w)) -> I w -> I (with_daemon d w);
  steady_wallet : forall data w, I w -> d_connection (daemon w) = true -> I (log Wallet data w);
  steady_miner : forall i p data w,
    I w -> pools w !! i = Some p -> m_connection p = true -> I (log (Miner i) data w);
  steady_other : forall i p w, Miner i <> who -> I w -> I (with_pools (<[i := p]> (pools w)) w);
  steady_self : forall i f w, Miner i = who -> gentle f -> I w -> I (edit_pool i f w);
  steady_maintenance : forall w,
    I w -> I (with_pools (filter (fun e => closed e.2 = false) (pools w)) w);
  steady_clock : forall t w, I w -> I (with_clock t w);
}.

Section steady.
Context (who : peer) (I : World -> Prop) (HI : steady who I).
Context `{Platform} `{Block_hash} `{Address_hash} `{Gmp} `{Libm} `{Std_sort}.

Lemma edit_other i f w p :
  pools w !! i = Some p -> edit_pool i f w = with_pools (<[i := f p]> (pools w)) w.
Proof.
  intros Hp. unfold edit_pool. f_equal. apply map_eq. intros j. destruct (decide (i = j)) as [<-|Hj].
  - by rewrite lookup_alter_eq, lookup_insert_eq, Hp.
  - by rewrite lookup_alter_ne, lookup_insert_ne.
Qed.

Lemma kept_pool i f : gentle f -> keeps I (modify_pool i f).
Proof.
  intros Hf w u w' Hw [[p Hp] ->]%modify_pool_inv. destruct (decide (Miner i = who)) as [Hi|Hi].
  - by apply (steady_self _ _ HI).
  - rewrite (edit_other _ _ _ _ Hp). by apply (steady_other _ _ HI).
Qed.

Lemma kept_other i f : Miner i <> who -> keeps I (modify_pool i f).
Proof.
  intros Hi w u w' Hw [[p Hp] ->]%modify_pool_inv. rewrite (edit_other _ _ _ _ Hp).
  by apply (steady_other _ _ HI).
Qed.

Lemma kept_miner i pk : keeps I (transmit_miner i pk).
Proof.
  intros w u w' Hw (p&data&Hp&Hc&_&->)%transmit_miner_inv. by eapply (steady_miner _ _ HI).
Qed.

Lemma kept_wallet pk : keeps I (transmit_wallet pk).
Proof.
  intros w u w' Hw (data&Hc&_&->)%transmit_wallet_inv. by apply (steady_wallet _ _ HI).
Qed.

Lemma kept_registry f : keeps I (modify_registry f).
Proof. apply keeps_modify. intros w. apply (steady_registry _ _ HI). Qed.

Lemma kept_daemon f :
  (who = Wallet -> forall d, d_connection (f d) = d_connection d) -> keeps I (modify_daemon f).
Proof. intros Hf. apply keeps_modify. intros w. apply (steady_daemon _ _ HI). intros Hw. by apply Hf. Qed.

Lemma kept_on_registry {A} (f : Data_registry -> A * Data_registry) : keeps I (on_registry f).
Proof. apply keeps_on_registry. intros w. apply (steady_registry _ _ HI). Qed.

(** A branch on whether the daemon connection is there takes the branch where it is. *)
Lemma kept_get {A} (f : World -> M World A) :
  (forall w, daemon_alive w = true -> keeps I (f w)) -> keeps I (get ≫= f).
Proof.
  intros Hf w a w' Hw Hr. apply M_bind_Some in Hr as (w1&w2&[= <- <-]&Hr).
  eapply Hf; [by apply (steady_alive _ _ HI)|exact Hw|exact Hr].
Qed.

Ltac kept_step :=
  match goal with
  | |- keeps _ (get ≫= _) => apply kept_get; intros ? ->; cbn [negb]
  | |- keeps _ (_ ≫= _) => apply keeps_bind; [|intros ?]
  | |- keeps _ (mret _) => apply keeps_ret
  | |- keeps _ get => apply keeps_get
  | |- keeps _ (gets _) => apply keeps_gets
  | |- keeps _ (lift _) => apply keeps_lift
  | |- keeps _ undefined => apply keeps_undefined
  | |- keeps _ (this _) => apply keeps_this
  | |- keeps _ (when _ _) => apply keeps_when
  | |- keeps _ (foreach _ _) => apply keeps_foreach; intros ?
  | |- keeps _ (if ?b then _ else _) => destruct b
  | |- keeps _ (match ?o with Some _ => _ | None => _ end) => destruct o
  | |- keeps _ (transmit_miner _ _) => apply kept_miner
  | |- keeps _ (transmit_wallet _) => apply kept_wallet
  | |- keeps _ (modify_registry _) => apply kept_registry
  | |- keeps _ (modify (with_registry _)) => apply keeps_modify; intros ?; apply (steady_registry _ _ HI)
  | |- keeps _ (modify_daemon _) => apply kept_daemon; done
  | |- keeps _ (on_registry _) => apply kept_on_registry
  | |- keeps _ (modify_pool _ _) => apply kept_pool; by intros []
  end.
Create HintDb kept.
Ltac kept := cbv zeta; repeat first [solve [eauto with kept]|kept_step].

Lemma kept_score i n : keeps I (score i n).
Proof. unfold score, rSCORE_add. kept. Qed.
Lemma kept_ddos_Ban i : keeps I (ddos_Ban i).
Proof. unfold ddos_Ban. kept. Qed.
Lemma kept_answer i h : keeps I (answer i h).
Proof. unfold answer. kept. Qed.
Lemma kept_send_height i : keeps I (send_height i).
Proof. unfold send_height. kept. Qed.
Hint Resolve kept_score kept_ddos_Ban kept_answer kept_send_height : kept.

Lemma kept_ddos_invalid_header i pk : keeps I (ddos_invalid_header i pk).
Proof. unfold ddos_invalid_header. kept. Qed.
Lemma kept_new_round i h : keeps I (new_round i h).
Proof. unfold new_round. kept. Qed.
Lemma kept_add_block i b : keeps I (add_block i b).
Proof. unfold add_block. kept. Qed.
Hint Resolve kept_ddos_invalid_header kept_new_round kept_add_block : kept.

Lemma kept_submit_block b ip : keeps I (submit_block b ip).
Proof. cbn [submit_block daemon_list]. unfold daemon_submit_block, find_pool_connection. kept. Qed.
Lemma kept_request_block n ip : keeps I (request_block n ip).
Proof. cbn [request_block daemon_list]. unfold daemon_request_block, find_pool_connection. kept. Qed.
Hint Resolve kept_submit_block kept_request_block : kept.

Lemma kept_check_share i b origin n : keeps I (check_share i b origin n).
Proof. unfold check_share, accept_share. kept. Qed.
Hint Resolve kept_check_share : kept.

Lemma kept_requests i pk : keeps I (requests i pk).
Proof.
  unfold requests, get_block_request, get_balance, get_payout, submit_pps, submit_share, rSCORE_add.
  kept.
Qed.
Lemma kept_login i pk : keeps I (login i pk).
Proof. unfold login. kept. Qed.
Hint Resolve kept_requests kept_login : kept.

Lemma kept_process_data i buffer : keeps I (process_data i buffer).
Proof. unfold process_data. kept. Qed.

(** ** The wallet's connection and the timers *)
Lemma kept_daemon_new_round : keeps I daemon_new_round.
Proof. unfold daemon_new_round. kept. Qed.
Lemma kept_submit_loop k l : keeps I (submit_loop k l).
Proof. revert k. induction l as [|e l IH]; intros k; cbn [submit_loop]; unfold submit_entry; kept. Qed.
Lemma kept_request_loop n i : keeps I (request_loop n i).
Proof. induction n as [|n IH]; cbn [request_loop]; kept. Qed.
Hint Resolve kept_daemon_new_round kept_submit_loop kept_request_loop : kept.
Lemma kept_request_all k l : keeps I (request_all k l).
Proof. revert k. induction l as [|e l IH]; intros k; cbn [request_all]; kept. Qed.
Hint Resolve kept_request_all : kept.

Lemma kept_message pk : keeps I (message pk).
Proof.
  unfold message, on_block_height, on_coinbase_set, on_block_reward, on_orphan_block, on_good_block,
    on_good, on_block_data, send_coinbase. kept.
Qed.
Hint Resolve kept_message : kept.

(** The results with which a handler is called for the last time. *)
Definition ends (result : Result.Code) : bool :=
  match result with
  | Result.connection_declined | Result.connection_aborted | Result.connection_closed
  | Result.connection_error => true
  | _ => false
  end.

Lemma kept_connect_handler result buffer :
  Wallet <> who \/ ends result = false -> keeps I (connect_handler result buffer).
Proof.
  intros He. unfold connect_handler, daemon_process_data, reset_daemon, send_coinbase.
  destruct result; try destruct He as [He|[=]]; kept; apply kept_daemon; congruence.
Qed.

(** The events that do not close or make the connection to [who]. *)
Definition elsewhere (e : Server.event) : Prop :=
  match e with
  | Server.Accept i => Miner i <> who
  | Miner_event i _ result _ => Miner i <> who \/ result = Result.receive_ok
  | Wallet_event result _ => Wallet <> who \/ ends result = false
  | _ => True
  end.

Lemma kept_connection i address result buffer :
  Miner i <> who -> keeps I (init_connection_handler i address result buffer).
Proof.
  intros Hi. assert (Hp : forall f, keeps I (modify_pool i f)) by (intros f; by apply kept_other).
  assert (Hd : keeps I (process_data i buffer)) by apply kept_process_data.
  unfold init_connection_handler. destruct result; try apply Hp; try apply Hd.
  apply keeps_bind; [apply keeps_this|intros p]. apply kept_get. intros w Hw.
  destruct (negb (m_connection p)); [apply keeps_undefined|].
  apply keeps_bind; [apply Hp|intros _]. apply keeps_bind; [apply Hp|intros _].
  rewrite Hw. by apply kept_daemon.
Qed.

Lemma kept_handle e : elsewhere e -> keeps I (handle e).
Proof.
  destruct e as [i|i address result buffer|result buffer|c|c|c|c|c|t]; intros He; cbn [handle].
  - apply keeps_modify. intros w. by apply (steady_other _ _ HI).
  - destruct (decide (Miner i = who)) as [Hi|Hi]; [|by apply kept_connection].
    destruct He as [?| ->]; [done|]. apply kept_process_data.
  - by apply kept_connect_handler.
  - unfold block_timer_handler. kept.
  - unfold get_height_timer_handler. kept.
  - unfold orphan_check_timer_handler. kept.
  - kept.
  - unfold maintenance_timer_handler. kept. apply keeps_modify. apply (steady_maintenance _ _ HI).
  - apply keeps_modify. apply (steady_clock _ _ HI).
Qed.
End steady.

(** ** The system *)
Abbreviation connection := Connection.connection.

(** The handlers' world and the connections. *)
Record System := mk_system {
  world : World;
  sockets : gmap peer connection;
}.

(** What was transmitted to [who]. *)
Definition to_peer (who : peer) (l : list (peer * bytes)) : list bytes :=
  omap (fun e => if decide (e.1 = who) then Some e.2 else None) l.

(** The program holds the connection: the [m_connection] of its [Pool_connection], or that of
    [Daemon_connection]. *)
Definition owned (who : peer) (w : World) : bool :=
  match who with
  | Wallet => d_connection (daemon w)
  | Miner self => match pools w !! self with Some p => m_connection p | None => false end
  end.

(** What a run of a handler from [w] to [w'] did to a connection: what it transmitted is posted, and
    a pointer that it reset is dropped. *)
Definition after_handler (w w' : World) (who : peer) (c : connection) : connection :=
  let news := drop (length (to_peer who (sent w))) (to_peer who (sent w')) in
  let c := foldl (fun c data => Connection.transmit data c) c news in
  if Connection.referenced c && negb (owned who w') then Connection.drop_reference c else c.

Definition sync (w w' : World) (cs : gmap peer connection) : gmap peer connection :=
  map_imap (fun who c => Some (after_handler w w' who c)) cs.

(** The timers and the clock; a new miner; the network under a connection, with the address of the
    peer. *)
Inductive system_event :=
  | Pool (e : Server.event)
  | Accept (self : nat) (address : bytes)
  | Net (who : peer) (address : bytes) (e : Connection.event).

Section system.
Context `{Platform} `{Block_hash} `{Address_hash} `{Gmp} `{Libm} `{Std_sort}.

(** In a call of its handler a connection is held by the lambda that calls it, whatever the handler
    does with the program's pointer. *)
Definition in_call : list Connection.call -> bool := fun _ => true.

(** The handler of the connection, on a call that was made. *)
Definition call_event (who : peer) (address : bytes) (call : Connection.call) : Server.event :=
  match who with
  | Wallet => Wallet_event call.1 (default [] call.2)
  | Miner self => Miner_event self address call.1 (default [] call.2)
  end.

Definition on_call (who : peer) (address : bytes) (call : Connection.call) (w : World) : option World :=
  snd <$> handle (call_event who address call) w.

Definition system_handle (e : system_event) (s : System) : option System :=
  match e with
  | Pool e =>
      w' ← snd <$> handle e (world s);
      Some (mk_system w' (sync (world s) w' (sockets s)))
  | Accept self address =>
      c ← Connection.handle_accept in_call true;
      w1 ← snd <$> handle (Server.Accept self) (world s);
      w2 ← on_call (Miner self) address (Result.connection_ok, None) w1;
      Some (mk_system w2 (sync (world s) w2 (<[Miner self := c]> (sockets s))))
  | Net who address e =>
      c ← sockets s !! who;
      c' ← Connection.handle in_call e c;
      match drop (length (Connection.calls c)) (Connection.calls c') with
      | [] => Some (mk_system (world s) (<[who := c']> (sockets s)))
      | call :: _ =>
          w' ← on_call who address call (world s);
          Some (mk_system w' (sync (world s) w' (<[who := c']> (sockets s))))
      end
  end.

(** The network does not transmit or drop for the program, and only the connection to the wallet is
    made by [async_connect]. *)
Definition from_network (who : peer) (e : Connection.event) : Prop :=
  match e with
  | Connection.Connected _ => who = Wallet
  | Connection.Received _ _ _ | Connection.Run_posted _ _ | Connection.Arrive _ => True
  | Connection.Transmit _ | Connection.Drop => False
  end.

(** A new connection is a new object. *)
Definition system_possible (e : system_event) (s : System) : Prop :=
  match e with
  | Pool (Server.Accept _) | Pool (Miner_event _ _ _ _) | Pool (Wallet_event _ _) => False
  | Pool _ => True
  | Accept self _ => pools (world s) !! self = None /\ sockets s !! Miner self = None
  | Net who _ e => from_network who e /\ exists c, sockets s !! who = Some c /\ Connection.possible e c
  end.

(** The connection to the wallet is under way from the start. *)
Definition system_starts (w0 : World) (s : System) : Prop :=
  exists c, Connection.connect None None = Some c /\ s = mk_system w0 {[ Wallet := c ]}.

Inductive system_reachable (w0 : World) : System -> Prop :=
  | system_start s : system_starts w0 s -> system_reachable w0 s
  | system_step e s s' : system_reachable w0 s -> system_possible e s -> system_handle e s = Some s' ->
      system_reachable w0 s'.

(** ** The invariant *)

(** The handler of [who] may be called: the pointer is set, and a miner has its filter. *)
Definition up (who : peer) (w : World) : Prop :=
  daemon_alive w = true /\
  match who with
  | Wallet => d_connection (daemon w) = true
  | Miner self => exists p, pools w !! self = Some p /\
      m_connection p = true /\ closed p = false /\ is_Some (m_ddos p)
  end.

Definition down (who : peer) (w : World) : Prop :=
  daemon_alive w = true /\
  match who with
  | Wallet => d_connection (daemon w) = false
  | Miner self => forall p, pools w !! self = Some p -> m_connection p = false
  end.

Lemma to_peer_same who data l : to_peer who (l ++ [(who, data)]) = to_peer who l ++ [data].
Proof. unfold to_peer. rewrite omap_app. cbn. by rewrite decide_True. Qed.

Lemma to_peer_other who other data l : other <> who -> to_peer who (l ++ [(other, data)]) = to_peer who l.
Proof. intros Hi. unfold to_peer. rewrite omap_app. cbn. rewrite decide_False by done. apply app_nil_r. Qed.

Lemma up_steady who : steady who (up who).
Proof.
  split.
  - by intros w [? _].
  - done.
  - intros d w Hd [Ha Hu]. split; [done|]. destruct who; [|done]. cbn in *. by rewrite Hd.
  - done.
  - done.
  - intros i p w Hi [Ha Hu]. split; [done|]. destruct who as [|self]; [done|].
    destruct Hu as (q&Hq&?). exists q. cbn. rewrite lookup_insert_ne; [done|congruence].
  - intros i f w <- Hf [Ha (q&Hq&Hc&Hcl&Hd)]. split; [done|]. exists (f q). cbn. rewrite lookup_alter_eq, Hq.
    destruct (Hf q) as (->&->&?). auto.
  - intros w [Ha Hu]. split; [done|]. destruct who as [|self]; [done|].
    destruct Hu as (q&Hq&Hc&Hcl&Hd). exists q. cbn. split; [|done]. by apply map_lookup_filter_Some.
  - done.
Qed.

(** While the connection is down nothing is transmitted to it. *)
Lemma down_steady who n : steady who (fun w => down who w /\ to_peer who (sent w) = n).
Proof.
  split.
  - by intros w [[? _] _].
  - done.
  - intros d w Hd [[Ha Hdown] Hn]. split; [|done]. split; [done|]. destruct who; [|done]. cbn in *. by rewrite Hd.
  - intros data w [[Ha Hd] <-] Hc. split; [done|]. apply to_peer_other. intros <-. cbn in Hd. congruence.
  - intros i p data w [[Ha Hd] <-] Hp Hc. split; [done|]. apply to_peer_other.
    intros <-. cbn in Hd. by rewrite (Hd p Hp) in Hc.
  - intros i p w Hi [[Ha Hd] Hn]. split; [|done]. split; [done|]. destruct who as [|self]; [done|].
    intros q. cbn. rewrite lookup_insert_ne by congruence. apply Hd.
  - intros i f w <- Hf [[Ha Hd] Hn]. split; [|done]. split; [done|]. intros q. cbn. rewrite lookup_alter_eq.
    destruct (pools w !! i) as [p|] eqn:Hp; [|done]. intros [= <-]. destruct (Hf p) as (->&_). by apply Hd.
  - intros w [[Ha Hd] Hn]. split; [|done]. split; [done|]. destruct who as [|self]; [done|].
    intros q [Hq _]%map_lookup_filter_Some. by apply Hd.
  - done.
Qed.

(** The log only grows. *)
Lemma log_steady who l : steady who (fun w => daemon_alive w = true /\ l `prefix_of` sent w).
Proof.
  split; try done; [by intros w [? _]|..].
  - intros data w [? Hl] _. split; [done|]. cbn. by apply prefix_app_r.
  - intros i p data w [? Hl] _ _. split; [done|]. cbn. by apply prefix_app_r.
Qed.

(** No pool connection, and nothing was transmitted. *)
Definition absent (who : peer) (w : World) : Prop :=
  daemon_alive w = true /\ to_peer who (sent w) = [] /\
  match who with Wallet => False | Miner self => pools w !! self = None end.

Lemma absent_steady who : steady who (absent who).
Proof.
  split; unfold absent; destruct who as [|self]; try (intros; tauto).
  - intros data w (?&?&?) _. split_and!; try done. etrans; [by apply to_peer_other|done].
  - intros i p data w (?&?&Hn) Hp _. split_and!; try done. etrans; [apply to_peer_other; congruence|done].
  - intros i p w Hi (?&?&Hn). split_and!; try done. cbn. rewrite lookup_insert_ne; [done|congruence].
  - intros i f w [= <-] Hf (?&?&Hn). split_and!; try done. cbn. by rewrite lookup_alter_eq, Hn.
  - intros w (?&?&Hn). split_and!; try done. cbn. by rewrite map_lookup_filter, Hn.
Qed.

(** From [w] to [w'] by steps that do not close or make the connection to [who]. *)
Definition kept_between (who : peer) (w w' : World) : Prop := forall I, steady who I -> I w -> I w'.

Lemma kept_event who e w u w' : elsewhere who e -> handle e w = Some (u, w') -> kept_between who w w'.
Proof. intros He Hr I HI Hw. by eapply (kept_handle who I HI e He). Qed.

Lemma kept_trans who w1 w2 w3 :
  kept_between who w1 w2 -> kept_between who w2 w3 -> kept_between who w1 w3.
Proof. intros H12 H23 I HI Hw. by apply H23, H12. Qed.

(** The connection and the world agree about [who]. *)
Definition linked (who : peer) (w : World) (c : connection) : Prop :=
  Connection.reachable in_call c /\
  (Connection.sent c).*1 ++ Connection.posted c ≡ₚ to_peer who (sent w) /\
  if Connection.referenced c then up who w else down who w /\ Connection.pending c = Connection.no_operation.

Lemma transmit_all news c :
  Connection.reachable in_call c -> Connection.referenced c = true ->
  let c' := foldl (fun c data => Connection.transmit data c) c news in
  Connection.reachable in_call c' /\ Connection.referenced c' = true /\
  Connection.sent c' = Connection.sent c /\ Connection.posted c' = Connection.posted c ++ news.
Proof.
  revert c. induction news as [|d news IH]; intros c Hc Hr; cbn; [by rewrite app_nil_r|].
  destruct (IH (Connection.transmit d c)) as (?&?&?&Hp); [|done|].
  - by eapply (Connection.reachable_event in_call (Connection.Transmit d)).
  - split_and!; try done. rewrite Hp. cbn. by rewrite <-app_assoc.
Qed.

Lemma news_of who w w' :
  kept_between who w w' -> daemon_alive w = true ->
  to_peer who (sent w') =
    to_peer who (sent w) ++ drop (length (to_peer who (sent w))) (to_peer who (sent w')).
Proof.
  intros Hk Ha. destruct (Hk _ (log_steady who (sent w))) as [_ [l Hl]]; [by split|].
  rewrite Hl. unfold to_peer. rewrite omap_app. by rewrite drop_app_length.
Qed.

Lemma up_owned who w : up who w -> owned who w = true.
Proof. intros [_ Hu]. destruct who as [|self]; [done|]. destruct Hu as (p&Hp&Hc&_). cbn. by rewrite Hp. Qed.

Lemma down_owned who w : down who w -> owned who w = false.
Proof.
  intros [_ Hd]. destruct who as [|self]; [done|]. cbn. destruct (pools w !! self) as [p|]; [|done]. by apply Hd.
Qed.

Lemma linked_after who w w' c :
  kept_between who w w' -> daemon_alive w = true -> linked who w c ->
  linked who w' (after_handler w w' who c).
Proof.
  intros Hk Ha (Hc&Hp&Hu). unfold after_handler. pose proof (news_of who w w' Hk Ha) as Hnews.
  destruct (Connection.referenced c) eqn:Er.
  - pose proof (Hk _ (up_steady who) Hu) as Hup.
    set (news := drop _ _) in *. destruct (transmit_all news c Hc Er) as (Hc'&Hr'&Hs'&Hp').
    rewrite Hr', (up_owned _ _ Hup). cbn [andb negb]. split; [done|]. split; [|by rewrite Hr'].
    by rewrite Hs', Hp', app_assoc, Hp, Hnews.
  - destruct Hu as [Hd Hpend].
    destruct (Hk _ (down_steady who (to_peer who (sent w)))) as [Hd' Hn]; [by split|].
    rewrite Hn, drop_all. cbn. rewrite Er. cbn. split; [done|]. rewrite Hn, Er. by split_and!.
Qed.

Definition Linked (s : System) : Prop :=
  daemon_alive (world s) = true /\ forall who,
    match sockets s !! who with
    | Some c => linked who (world s) c
    | None => absent who (world s)
    end.

Lemma lookup_sync w w' cs who : sync w w' cs !! who = after_handler w w' who <$> cs !! who.
Proof. unfold sync. rewrite map_lookup_imap. by destruct (cs !! who). Qed.

(** The others, in a step of [who]. *)
Lemma linked_others w w' cs who other c :
  kept_between other w w' -> other <> who -> Linked (mk_system w cs) ->
  match sync w w' (<[who := c]> cs) !! other with
  | Some c => linked other w' c | None => absent other w' end.
Proof.
  intros Hk Hi [Ha Hl]. rewrite lookup_sync, lookup_insert_ne by done. specialize (Hl other). cbn in Hl.
  destruct (cs !! other) as [co|]; [by apply linked_after|]. by apply (Hk _ (absent_steady other)).
Qed.

Lemma release_referenced c : Connection.referenced (Connection.release c) = Connection.referenced c.
Proof. unfold Connection.release, Connection.close. by destruct (Connection.alive c), (Connection.is_open c). Qed.

Lemma release_pending c :
  Connection.pending c = Connection.no_operation ->
  Connection.pending (Connection.release c) = Connection.no_operation.
Proof. unfold Connection.release, Connection.close. by destruct (Connection.alive c), (Connection.is_open c). Qed.

(** A completion on a connection that is held calls the handler once. *)
Definition one_call (c c' : connection) : Prop :=
  exists call, Connection.calls c' = Connection.calls c ++ [call] /\ Connection.referenced c' = true /\
    ((call.1 = Result.receive_ok \/ call.1 = Result.connection_ok /\ Connection.pending c = Connection.connecting) \/
     ends call.1 = true /\ Connection.pending c' = Connection.no_operation).

Lemma last_call c r :
  Connection.referenced c = true -> ends r = true ->
  one_call c (Connection.release (Connection.call_handler in_call r None (Connection.completed c))).
Proof.
  intros Hc Hr. exists (r, None). rewrite release_referenced, (proj1 (release_same _)). cbn. rewrite Hc.
  split; [done|]. split; [done|]. right. split; [done|]. by apply release_pending.
Qed.

Lemma receive_calls error available read_error c c' :
  Connection.on_receive in_call error available read_error c = Some c' ->
  Connection.referenced c = true -> one_call c c'.
Proof.
  unfold Connection.on_receive. intros Hr Hc.
  assert (Ha : Connection.alive (Connection.completed c) = true) by (unfold Connection.alive; cbn; by rewrite Hc).
  rewrite Ha in Hr.
  destruct error as [[]|]; try (injection Hr as <-; by apply last_call).
  destruct available as [n|]; [|done]. cbn [mbind option_bind] in Hr.
  destruct (n =? 0)%nat; [injection Hr as <-; by apply last_call|].
  destruct read_error; [injection Hr as <-; by apply last_call|].
  injection Hr as <-. eexists. rewrite release_referenced, (proj1 (release_same _)). cbn.
  split; [reflexivity|]. rewrite Hc. split; [done|]. by left; left.
Qed.

Lemma connect_calls error c :
  Connection.referenced c = true -> Connection.pending c = Connection.connecting ->
  one_call c (Connection.on_connect in_call error c).
Proof.
  intros Hc Hp. unfold Connection.on_connect.
  assert (Connection.alive (Connection.completed c) = true) as -> by (unfold Connection.alive; cbn; by rewrite Hc).
  destruct error; [by apply last_call|]. eexists. rewrite release_referenced, (proj1 (release_same _)). cbn.
  split; [reflexivity|]. rewrite Hc. split; [done|]. left. by right.
Qed.

Lemma linked_same who w c c' :
  linked who w c -> Connection.reachable in_call c' ->
  (Connection.sent c').*1 ++ Connection.posted c' ≡ₚ (Connection.sent c).*1 ++ Connection.posted c ->
  Connection.referenced c' = Connection.referenced c ->
  (Connection.referenced c = false -> Connection.pending c' = Connection.no_operation) ->
  linked who w c'.
Proof.
  intros (_&Hp&Hu) Hc' Hperm Hr Hpend. split; [done|]. split; [by rewrite Hperm|].
  rewrite Hr. destruct (Connection.referenced c); [done|]. destruct Hu as [? _]. split; [done|by apply Hpend].
Qed.

(** The end of a connection: the handler resets its pointer. *)
Lemma end_run who address call w u w' :
  ends call.1 = true -> handle (call_event who address call) w = Some (u, w') -> up who w ->
  sent w' = sent w /\ down who w'.
Proof.
  destruct call as [r d]. intros He Hr [Ha Hu]. destruct who as [|self]; cbn [call_event fst snd] in *.
  - assert (modify_daemon (set_d_connection false) w = Some (u, w')) as [= _ <-] by (by destruct r).
    by split.
  - assert (modify_pool self close_pool w = Some (u, w')) as [_ ->]%modify_pool_inv by (by destruct r).
    destruct Hu as (p&Hp&_). split; [done|]. split; [done|]. intros q Hq.
    rewrite (edit_lookup _ _ _ _ Hp) in Hq. by injection Hq as <-.
Qed.

Lemma linked_end who address call w u w' c :
  ends call.1 = true -> handle (call_event who address call) w = Some (u, w') ->
  Connection.referenced c = true -> Connection.pending c = Connection.no_operation ->
  linked who w c -> linked who w' (after_handler w w' who c).
Proof.
  intros Hcall Hr Href Hpend (Hc&Hp&Hu). rewrite Href in Hu.
  destruct (end_run _ _ _ _ _ _ Hcall Hr Hu) as [Hs Hd]. unfold after_handler.
  rewrite Hs, drop_all. cbn [foldl]. rewrite Href, (down_owned _ _ Hd). cbn [negb andb].
  unfold Connection.drop_reference. split; [|split].
  - by eapply (Connection.reachable_event in_call Connection.Drop).
  - match goal with |- context [Connection.release ?d] => destruct (release_same d) as (_&_&->&->) end.
    by rewrite Hs.
  - rewrite release_referenced. cbn [Connection.referenced]. split; [done|by apply release_pending].
Qed.

(** Events of others keep the daemon connection. *)
Lemma kept_alive who w w' : kept_between who w w' -> daemon_alive w = true -> daemon_alive w' = true.
Proof. intros Hk Ha. by destruct (Hk _ (log_steady who [])) as [? _]; [split; [done|apply prefix_nil]|]. Qed.

Lemma linked_pool e s s' :
  Linked s -> system_possible (Pool e) s -> system_handle (Pool e) s = Some s' -> Linked s'.
Proof.
  intros [Ha Hl] Hp Hh. cbn [system_handle] in Hh. destruct (handle e (world s)) as [[u w']|] eqn:Er; [|done].
  injection Hh as <-. assert (Hk : forall who, kept_between who (world s) w').
  { intros who. eapply kept_event; [|exact Er]. by destruct e. }
  split; [exact (kept_alive Wallet _ _ (Hk Wallet) Ha)|]. intros i. cbn [world sockets]. rewrite lookup_sync.
  specialize (Hl i). destruct (sockets s !! i) as [c|]; [by apply linked_after|].
  by apply (Hk i _ (absent_steady i)).
Qed.

Lemma accepted_up self address p w u w' :
  pools w !! self = Some p -> m_connection p = true -> closed p = false -> daemon_alive w = true ->
  handle (Miner_event self address Result.connection_ok []) w = Some (u, w') ->
  sent w' = sent w /\ up (Miner self) w'.
Proof.
  intros Hp Hc Hcl Ha Hr. cbn [handle init_connection_handler] in Hr.
  apply M_bind_Some in Hr as (q&w1&[Hq ->]%this_inv&Hr). rewrite Hp in Hq. injection Hq as <-.
  apply M_bind_Some in Hr as (w1&w2&[= <- <-]&Hr). rewrite Hc in Hr. cbn [negb] in Hr.
  apply M_bind_Some in Hr as (u1&w1&[_ ->]%modify_pool_inv&Hr).
  apply M_bind_Some in Hr as (u2&w1&[_ ->]%modify_pool_inv&Hr). rewrite Ha in Hr. cbn [negb] in Hr.
  injection Hr as _ <-. split; [done|]. split; [done|]. eexists. cbn.
  rewrite !lookup_alter_eq, Hp. split; [reflexivity|]. split; [done|]. split; [done|]. by eexists.
Qed.

Lemma linked_accept self address s s' :
  Linked s -> system_possible (Accept self address) s ->
  system_handle (Accept self address) s = Some s' -> Linked s'.
Proof.
  intros HL [Hn Hc] Hh. pose proof HL as [Ha Hl]. cbn [system_handle Connection.handle_accept mbind option_bind] in Hh.
  destruct (handle (Server.Accept self) (world s)) as [[u1 w1]|] eqn:E1; [|done].
  cbn [fmap option_fmap option_map snd mbind option_bind] in Hh. unfold on_call in Hh.
  destruct (handle (call_event (Miner self) address (Result.connection_ok, None)) w1) as [[u2 w2]|] eqn:E2; [|done].
  cbn [fmap option_fmap option_map snd mbind option_bind] in Hh. injection Hh as <-.
  assert (Hk : forall who, who <> Miner self -> kept_between who (world s) w2).
  { intros who Hi. eapply kept_trans; [eapply kept_event; [|exact E1]|eapply kept_event; [|exact E2]];
      cbn; auto. }
  assert (Hw2 : sent w2 = sent (world s) /\ up (Miner self) w2).
  { injection E1 as _ <-. eapply accepted_up in E2 as [Hs Hu]; [by split|cbn; by rewrite lookup_insert_eq|done..]. }
  destruct Hw2 as [Hs Hu]. split; [by destruct Hu|]. intros who. cbn [world sockets].
  destruct (decide (who = Miner self)) as [->|Hi]; [|apply (linked_others (world s)); [by apply Hk|done|by destruct s]].
  rewrite lookup_sync, lookup_insert_eq. cbn [fmap option_fmap option_map].
  unfold after_handler. rewrite Hs, drop_all. cbn [foldl]. rewrite (up_owned _ _ Hu), andb_false_r.
  split; [by apply Connection.reachable_accept|]. split; [|done]. rewrite Hs.
  specialize (Hl (Miner self)). rewrite Hc in Hl. by destruct Hl as (_&->&_).
Qed.

(** A step of [who] alone. *)
Lemma linked_one who c c' s :
  Linked s -> sockets s !! who = Some c -> linked who (world s) c' ->
  Linked (mk_system (world s) (<[who := c']> (sockets s))).
Proof.
  intros [Ha Hl] Hc Hc'. split; [done|]. intros i. cbn [world sockets].
  destruct (decide (i = who)) as [->|Hi]; [by rewrite lookup_insert_eq|]. rewrite lookup_insert_ne by done. apply Hl.
Qed.

(** A step of [who] that calls its handler. *)
Lemma linked_call who address call c c' w' s :
  Linked s -> linked who (world s) c' -> one_call c c' -> Connection.referenced c = true ->
  drop (length (Connection.calls c)) (Connection.calls c') = [call] ->
  (Connection.pending c = Connection.connecting -> who = Wallet) ->
  on_call who address call (world s) = Some w' ->
  Linked (mk_system w' (sync (world s) w' (<[who := c']> (sockets s)))).
Proof.
  intros HL Hc' (call'&Hcalls&Href&Hend) Hc Hdrop Hw Hr. rewrite Hcalls, drop_app_length in Hdrop.
  injection Hdrop as ->. unfold on_call in Hr.
  destruct (handle _ (world s)) as [[u w1]|] eqn:Er; [|done]. injection Hr as ->.
  assert (Hk : forall other, other <> who -> kept_between other (world s) w').
  { intros other Hi. eapply kept_event; [|exact Er]. destruct who as [|self]; cbn; auto. }
  assert (Ha' : daemon_alive w' = true).
  { destruct who as [|self]; [apply (kept_alive (Miner 0) (world s))|apply (kept_alive Wallet (world s))];
      try (by apply Hk); by destruct HL. }
  split; [done|]. intros i. cbn [world sockets].
  destruct (decide (i = who)) as [->|Hi]; [|apply (linked_others (world s)); [by apply Hk|done|by destruct s]].
  rewrite lookup_sync, lookup_insert_eq. cbn [fmap option_fmap option_map].
  destruct Hend as [Hgo|[He Hp]]; [|by eapply linked_end]. apply linked_after; [|by destruct HL|done].
  eapply kept_event; [|exact Er]. destruct Hgo as [Hgo|[Hgo Hp]]; destruct who as [|self]; cbn; rewrite ?Hgo; auto.
  by specialize (Hw Hp).
Qed.

Lemma linked_net who address e s s' :
  Linked s -> system_possible (Net who address e) s ->
  system_handle (Net who address e) s = Some s' -> Linked s'.
Proof.
  intros HL [Hnet (c&Hc&Hpc)] Hh. pose proof HL as [Ha Hl].
  cbn [system_handle] in Hh. rewrite Hc in Hh. cbn [mbind option_bind] in Hh.
  destruct (Connection.handle in_call e c) as [c'|] eqn:Ee; [|done]. cbn [mbind option_bind] in Hh.
  pose proof (Hl who) as Hself. rewrite Hc in Hself. pose proof Hself as (Hreach&_&Hu).
  pose proof (Connection.reachable_event in_call e c c' Hreach Hpc Ee) as Hreach'.
  destruct (handle_data in_call e c c' (reachable_orderly _ _ Hreach) Hpc Ee) as (_&Hperm&_).
  assert (Hsame : Connection.referenced c' = Connection.referenced c ->
    (Connection.referenced c = false -> Connection.pending c' = Connection.no_operation) ->
    linked who (world s) c').
  { apply linked_same; [done|done|]. rewrite Hperm. by destruct e; rewrite ?app_nil_r. }
  assert (Hcalled : one_call c c' -> Connection.referenced c = true -> 
    (Connection.pending c = Connection.connecting -> who = Wallet) -> Linked s').
  { intros Hone Href Hw. pose proof Hone as (call&Hcalls&Href'&_).
    assert (Hd : drop (length (Connection.calls c)) (Connection.calls c') = [call])
      by (by rewrite Hcalls, drop_app_length).
    rewrite Hd in Hh. destruct (on_call who address call (world s)) as [w'|] eqn:Eo; [|done]. injection Hh as <-.
    eapply linked_call; eauto. apply Hsame; congruence. }
  assert (Hheld : Connection.pending c <> Connection.no_operation -> Connection.referenced c = true).
  { intros Hp. destruct (Connection.referenced c); [done|]. by destruct Hu as [_ ?]. }
  destruct e as [error| error available read_error| |i n| |data]; try done; cbn [Connection.handle] in Ee.
  - injection Ee as <-. assert (Connection.referenced c = true) by (apply Hheld; by rewrite Hpc).
    apply Hcalled; [by apply connect_calls|done|done].
  - destruct Hpc as [Hpend _]. assert (Connection.referenced c = true) by (apply Hheld; by rewrite Hpend).
    apply Hcalled; [by eapply receive_calls|done|congruence].
  - injection Ee as <-. destruct Hpc as (d&Hd&_). unfold Connection.run_posted in *. rewrite Hd in *.
    rewrite (proj1 (release_same _)) in Hh. cbn [Connection.calls] in Hh. rewrite drop_all in Hh. injection Hh as <-.
    apply (linked_one who c); [done|done|]. apply Hsame; [by rewrite release_referenced|].
    intros Hr. rewrite Hr in Hu. apply release_pending. by destruct Hu.
  - injection Ee as <-. cbn [Connection.arrive Connection.calls] in Hh. rewrite drop_all in Hh. injection Hh as <-.
    apply (linked_one who c); [done|done|]. apply Hsame; [done|]. intros Hr. rewrite Hr in Hu. by destruct Hu.
Qed.

Lemma linked_event e s s' : Linked s -> system_possible e s -> system_handle e s = Some s' -> Linked s'.
Proof. destruct e; [apply linked_pool|apply linked_accept|apply linked_net]. Qed.

Lemma started_linked w0 s : started w0 -> system_starts w0 s -> Linked s /\ world s = w0.
Proof.
  intros [config acct blk bans r reward now _] (c&Hc&->). split; [|done]. split; [done|].
  intros [|self]; cbn [world sockets].
  - rewrite lookup_singleton_eq. split; [by apply Connection.reachable_connect|]. by injection Hc as <-.
  - by rewrite lookup_singleton_ne.
Qed.

(** Each event of the system is none, one or two of the pool. *)
Lemma system_event_reachable w0 e s s' :
  reachable w0 (world s) -> system_possible e s -> system_handle e s = Some s' -> reachable w0 (world s').
Proof.
  intros Hr Hp Hh. destruct e as [e|self address|who address e]; cbn [system_handle] in Hh.
  - destruct (handle e (world s)) as [[[] w']|] eqn:E; [|done]. injection Hh as <-.
    eapply reachable_step; [exact Hr|]. apply (step_event _ _ e); [by destruct e|done].
  - destruct Hp as [Hn _]. cbn [Connection.handle_accept mbind option_bind] in Hh.
    destruct (handle (Server.Accept self) (world s)) as [[[] w1]|] eqn:E1; [|done].
    cbn [fmap option_fmap option_map snd mbind option_bind] in Hh. unfold on_call in Hh.
    destruct (handle _ w1) as [[[] w2]|] eqn:E2 in Hh; [|done]. injection Hh as <-.
    eapply reachable_step; [eapply reachable_step; [exact Hr|]|].
    + by apply (step_event _ _ (Server.Accept self)).
    + by eapply step_event; [|exact E2].
  - destruct (sockets s !! who) as [c|]; [|done]. cbn [mbind option_bind] in Hh.
    destruct (Connection.handle in_call e c) as [c'|]; [|done]. cbn [mbind option_bind] in Hh.
    destruct (drop _ _) as [|call ?]; [by injection Hh as <-|]. unfold on_call in Hh.
    destruct (handle _ (world s)) as [[[] w']|] eqn:E in Hh; [|done]. injection Hh as <-.
    eapply reachable_step; [exact Hr|]. eapply step_event; [|exact E]. by destruct who.
Qed.

Lemma system_linked w0 s : started w0 -> system_reachable w0 s -> reachable w0 (world s) /\ Linked s.
Proof.
  intros Hs Hr. induction Hr as [s Hst|e s s' _ [IH HL] Hp Hh].
  - destruct (started_linked w0 s Hs Hst) as [HL ->]. split; [apply reachable_start|done].
  - split; [by eapply system_event_reachable|by eapply linked_event].
Qed.

(** What [Linked] says of a connection. *)
Lemma linked_spec who w c :
  linked who w c ->
  Connection.reachable in_call c /\ Connection.referenced c = owned who w /\
  (Connection.sent c).*1 ++ Connection.posted c ≡ₚ to_peer who (sent w) /\
  (Connection.pending c <> Connection.no_operation -> up who w).
Proof.
  intros (Hreach&Hperm&Hu). split; [done|]. destruct (Connection.referenced c).
  - by rewrite (up_owned _ _ Hu).
  - destruct Hu as [Hd Hn]. by rewrite (down_owned _ _ Hd).
Qed.

(** C4: the pool and the network together, from a start.  Every run of the system is a run of
    [Server] and, for the wallet and each miner, a run of [Network]; a connection is held exactly
    while the program's pointer to it is set; what the handlers transmitted to a peer is what was
    given to its socket and what waits for it; and an operation is under way only on a connection
    that is up, so that a handler is called with its pointer set, and that of a miner with its
    filter made and the connection not closed. *)
Theorem system_refines w0 s :
  started w0 -> system_reachable w0 s ->
  reachable w0 (world s) /\ is_Some (sockets s !! Wallet) /\
  forall who c, sockets s !! who = Some c ->
    Connection.reachable in_call c /\
    Connection.referenced c = owned who (world s) /\
    (Connection.sent c).*1 ++ Connection.posted c ≡ₚ to_peer who (sent (world s)) /\
    (Connection.pending c <> Connection.no_operation -> up who (world s)).
Proof.
  intros Hs Hr. destruct (system_linked w0 s Hs Hr) as [Hw [_ Hl]]. split; [done|]. split.
  - specialize (Hl Wallet). destruct (sockets s !! Wallet); [by eexists|]. by destruct Hl as (_&_&?).
  - intros who c Hc. specialize (Hl who). rewrite Hc in Hl. by apply linked_spec.
Qed.

(** The runs, for examples. *)
Fixpoint system_run (es : list system_event) (s : System) : option System :=
  match es with [] => Some s | e :: es' => s' ← system_handle e s; system_run es' s' end.

Fixpoint all_possible (es : list system_event) (s : System) : Prop :=
  match es with
  | [] => True
  | e :: es' => system_possible e s /\
      match system_handle e s with Some s' => all_possible es' s' | None => False end
  end.

Lemma system_run_reachable w0 es s s' :
  system_reachable w0 s -> all_possible es s -> system_run es s = Some s' -> system_reachable w0 s'.
Proof.
  revert s. induction es as [|e es IH]; intros s Hs Hp Hr; [by injection Hr as <-|].
  cbn in Hp, Hr. destruct Hp as [He Hp]. destruct (system_handle e s) as [s1|] eqn:E; [|done].
  eapply IH; [|exact Hp|exact Hr]. by eapply system_step.
Qed.
End system.

(** ** A witness: the wallet is connected; a miner connects, asks for a block before it has logged in,
    and goes *)
Definition example_run : list system_event :=
  [Net Wallet [] (Connection.Connected None); Net Wallet [] (Connection.Run_posted 0 9);
   Accept 0 [Byte.x31]; Net (Miner 0) [Byte.x31] (Connection.Arrive [z2b Packet.GET_BLOCK]);
   Net (Miner 0) [Byte.x31] (Connection.Received None (Some 1%nat) None); Pool (Clock 5000000001);
   Net (Miner 0) [Byte.x31] (Connection.Received (Some eof) None None); Pool (Maintenance_timer false)].

Definition example_start : System :=
  mk_system start_world {[ Wallet := Connection.mk_connection true true Connection.connecting [] [] [] [] ]}.

Lemma system_refines_witness :
  let _ := zero_platform in let _ := zero_hash in let _ := sum_hash in let _ := gmp_Z in
  let _ := unit_pow in let _ := insertion_sort in
  exists s, system_run example_run example_start = Some s /\ reachable start_world (world s) /\
    pools (world s) !! 0%nat = None /\ Connection.referenced <$> sockets s !! Miner 0 = Some false /\
    (fun c => length (Connection.sent c)) <$> sockets s !! Wallet = Some 1%nat.
Proof.
  pose (P := zero_platform). pose (B := zero_hash). pose (A := sum_hash). pose (G := gmp_Z).
  pose (L := unit_pow). pose (S := insertion_sort).
  assert (E1 : is_Some (system_run example_run example_start)) by (vm_compute; by eexists).
  destruct (system_run example_run example_start) as [s|] eqn:E; [|by destruct E1].
  assert (Hp : all_possible example_run example_start).
  { vm_compute. repeat first [exact I|reflexivity|apply le_n|split|eexists]. }
  exists s. split; [exact E|]. split.
  - refine (proj1 (system_refines start_world s start_started _)).
    assert (Hst : system_starts start_world example_start) by (by eexists).
    exact (system_run_reachable start_world example_run _ s (system_start _ _ Hst) Hp E).
  - vm_compute in E. by injection E as <-.
Defined.
