(* ===== verification/Lifecycle.v ===== *)
(** * Startup and shutdown: [main.cpp], [server.cpp], [data_registry.cpp], the factories

    [main] makes a [Server], [init]s it and [run]s it.  Module [Factory] is what makes sockets and
    timers; [Stats] is [stats_collector.cpp]; [Startup] is [init] and [run] up to the threads;
    [Shutdown] is what a signal does to the threads, as a step relation; [Ownership] is who holds
    whom by a [shared_ptr], and so whose destructor runs.  [None] is a failed [assert], an
    exception nothing catches or undefined behaviour. *)
From Stdlib Require Import Strings.String.
From S2P Require Import Prelude Bytes StdMap Float64 Uint Packet Coinbase LLD CBlock Ddos Banned Prime.
From S2P Require Import Registry Payout Sqlite World Endpoint Network Config.
From S2P Require Server.

(** ** The factories: [socket_factory.hpp], [socket_factory_impl.hpp], [timer_factory.hpp] *)
Module Factory.
(** [Socket_impl]: its endpoint and its acceptor. *)
Record socket := mk_socket { m_local_endpoint : Endpoint; m_acceptor : Socket.listener }.

(** [Socket_factory_impl::create_socket_impl]; [None] is a null pointer. *)
Definition create_socket_impl (local_endpoint : Endpoint) : option socket :=
  match m_protocol local_endpoint with
  | udp => None
  | tcp => Some (mk_socket local_endpoint Socket.new_listener)
  | none => None
  end.

(** [Socket_factory::create_socket] *)
Definition create_socket (local_endpoint : Endpoint) : option (option socket) :=
  if is_valid local_endpoint then
    multicast ← is_multicast local_endpoint;
    if (multicast : bool) then None else Some (create_socket_impl local_endpoint)
  else None.

Definition create_timer : Timer.timer := Timer.new_timer.
End Factory.

(** ** The statistics collector: [stats_collector.hpp], [stats_collector.cpp] *)
Module Stats.
(** [weak_this] is what [shared_from_this] locks.  Its class is a private base, so no [shared_ptr]
    ever sets it. *)
Record Stats_collector := mk_stats {
  m_pool_connections : list nat;
  m_persistance_timer : option Timer.timer;
  weak_this : bool;
}.

Definition new_default : Stats_collector := mk_stats [] None false.
Definition new_stats (persistance_timer : Timer.timer) : Stats_collector :=
  mk_stats [] (Some persistance_timer) false.

Definition shared_from_this (s : Stats_collector) : option Stats_collector :=
  if weak_this s then Some s else None.

Definition init (s : Stats_collector) : option Stats_collector :=
  t ← m_persistance_timer s;
  s ← shared_from_this s;
  Some (mk_stats (m_pool_connections s) (Some (Timer.start t)) (weak_this s)).

Definition add_pool_connection (pool_connection : nat) (s : Stats_collector) : Stats_collector :=
  mk_stats (m_pool_connections s ++ [pool_connection]) (m_persistance_timer s) (weak_this s).

(** The operations without a body. *)
Definition increment_connection_count (address guid : bytes) (s : Stats_collector) := s.
Definition decrement_connection_count (address guid : bytes) (s : Stats_collector) := s.
Definition get_connectoin_count (address : bytes) (s : Stats_collector) : Z := 0.
Definition update_connection_data (address guid : bytes) (PPS WPS : f64) (s : Stats_collector) := s.
Definition update_pool_data (s : Stats_collector) := s.
Definition update_account_data (update_all : bool) (s : Stats_collector) := s.
Definition clear_account_round_shares (s : Stats_collector) := s.
Definition save_current_round (s : Stats_collector) := s.
Definition flag_round_as_orphan (round : Z) (s : Stats_collector) := s.
Definition add_account_earnings (account_address : bytes) (round block_number shares amount_earned time : Z)
  (s : Stats_collector) := s.
Definition DeleteAccountEarnings (account_address : bytes) (round : Z) (s : Stats_collector) := s.
Definition AddAccountPayment (account_address : bytes) (round block_number amount_paid time : Z)
  (s : Stats_collector) := s.
Definition DeleteAccountPayment (account_address : bytes) (round : Z) (s : Stats_collector) := s.

(** Neither constructor makes an object that can be initialised. *)
Lemma init_fails t : init new_default = None /\ init (new_stats t) = None.
Proof. done. Qed.
End Stats.

(** ** [Server::init] and [Server::run] *)
Module Startup.
(** What the machine answers: the parsed [pool.conf], the files, the results of [open] and [bind]
    for the connection to the wallet and of [open], [bind] and [listen] for the acceptor, what
    [m_round_reward] happens to hold, and the time. *)
Record host := mk_host {
  document : option (option Json.value);
  acct : option bytes;
  blk : option bytes;
  bans : ban_files;
  connect_open : option error_code;
  connect_bind : option error_code;
  listen_open : option error_code;
  listen_bind : option error_code;
  listen_listen : option error_code;
  garbage : Z;
  now : Z;
}.

(** [Data_registry], with the members [Registry] leaves out. *)
Record Data_registry_object := mk_registry_object {
  data : Data_registry;
  m_database : option Sqlite_database;
  m_stats_collector : Stats.Stats_collector;
  m_persistance_timer : Timer.timer;
  m_submit_block : CBlock;
}.

Definition get_submit_block (o : Data_registry_object) : CBlock := m_submit_block o.
Definition set_submit_block (block : CBlock) (o : Data_registry_object) : Data_registry_object :=
  mk_registry_object (data o) (m_database o) (m_stats_collector o) (m_persistance_timer o) block.

(** It has a result type and no [return]; nothing calls it. *)
Definition BalanceSort (firstElem secondElem : bytes) : option bool := None.

Record Server := mk_server {
  m_config : Config.t;
  m_data_registry : Data_registry_object;
  m_network_component : bool;
  m_listen_socket : option Factory.socket;
  m_daemon_socket : option Factory.socket;
  m_maintenance_timer : Timer.timer;
}.

Section startup.
Context `{Platform} `{Address_text}.

(** The constructor; [new_registry] is its data, with the banned users [init] loads. *)
Definition new_registry_object (config : Config.t) (h : host) : option Data_registry_object :=
  r ← new_registry (Config.registry_config config) (acct h) (blk h) (bans h);
  Some (mk_registry_object r None Stats.new_default Factory.create_timer empty_block).

Definition registry_init (config : Config.t) (o : Data_registry_object) : Data_registry_object :=
  mk_registry_object (data o)
    (if decide (Config.m_database_type config = key "sqlite")
     then Some (new_sqlite (Config.m_database_file config)) else m_database o)
    (m_stats_collector o) (Timer.start (m_persistance_timer o)) (m_submit_block o).

Definition loopback : bytes := key "127.0.0.1".

(** [Server::init]; the server it makes, or none when the configuration cannot be read. *)
Definition init (h : host) : option (option Server) :=
  '(read, config) ← Config.read_config (document h) Config.new;
  if negb read then Some None else
  registry ← new_registry_object config h;
  let registry := registry_init config registry in
  listen_socket ← Factory.create_socket (of_string tcp loopback (Config.m_pool_port config) 0);
  daemon_socket ← Factory.create_socket (of_string tcp loopback 0 0);
  Some (Some (mk_server config registry true listen_socket daemon_socket Factory.create_timer)).

(** [Daemon_connection::connect] through [Socket_impl::connect]. *)
Definition daemon_connect (remote_wallet : Endpoint) (h : host) (s : Server)
  : option (option Connection.connection) :=
  socket ← m_daemon_socket s;
  if negb (is_valid remote_wallet) then None else
  _ ← get_tcp_base (Factory.m_local_endpoint socket);
  Some (Socket.connect (connect_open h) (connect_bind h)).

(** A pool that serves: the world of the handlers, the sockets, the timers and the threads it has
    started beside the main one. *)
Record serving := mk_serving {
  world : World;
  wallet : Connection.connection;
  listener : Socket.listener;
  maintenance : Timer.timer;
  persistance : Timer.timer;
  database : option Sqlite_database;
  io_threads : Z;
}.

(** [Server::run] up to [m_io_context->run()]; it returns at once when the socket of the wallet's
    connection cannot be opened. *)
Definition run (h : host) (s : Server) : option (option serving) :=
  let config := m_config s in
  wallet ← daemon_connect (of_string tcp (Config.m_wallet_ip config) (Config.m_port config) 0) h s;
  match wallet with
  | None => Some None
  | Some connection =>
      listen_socket ← m_listen_socket s;
      _ ← get_tcp_base (Factory.m_local_endpoint listen_socket);
      let '(_, acceptor) := Socket.listen (listen_open h) (listen_bind h) (listen_listen h)
                              (Factory.m_acceptor listen_socket) in
      let registry := m_data_registry s in
      Some (Some (mk_serving
        (mk_world (data registry) true (mk_daemon true [] false false (garbage h) [] 0) true ∅
           static_globals (now h) [])
        connection acceptor (Timer.start (m_maintenance_timer s)) (m_persistance_timer registry)
        (m_database registry) (Config.m_connection_threads config)))
  end.

Inductive outcome :=
  | Returned (code : Z)
  | No_wallet
  | Serving (s : serving).

(** [main] up to the event loop. *)
Definition main (h : host) : option outcome :=
  server ← init h;
  match server with
  | None => Some (Returned (-1))
  | Some s =>
      r ← run h s;
      Some match r with None => No_wallet | Some s => Serving s end
  end.

(** ** The outcomes of a start *)
Definition loopback_address : address := ipv4 (z2b <$> [127; 0; 0; 1]).

Lemma loopback_socket n :
  make_address loopback = Some loopback_address ->
  Factory.create_socket (of_string tcp loopback n 0) =
    Some (Some (Factory.mk_socket (mk_endpoint tcp (Some (loopback_address, n))) Socket.new_listener)).
Proof. intros Hl. unfold of_string. by rewrite Hl. Qed.

(** C37: a start of the pool, given a configuration that is read and files that are databases: the
    wallet's address has to be the text of an address, and not one for multicast, or an assertion
    fails; the program returns when the socket for the wallet cannot be opened; and else it serves,
    in a world that [Server.started] describes, with its timers running, as many threads as
    configured, and the connection to the wallet under way.  The result of [listen] is not looked
    at: when the port is in use the pool serves without accepting anyone.  Both sockets are bound
    to 127.0.0.1. *)
Theorem startup h config r :
  make_address loopback = Some loopback_address ->
  Config.read_config (document h) Config.new = Some (true, config) ->
  new_registry (Config.registry_config config) (acct h) (blk h) (bans h) = Some r ->
  let usable := match make_address (Config.m_wallet_ip config) with
                | Some a => negb (is_multicast_address a) | None => false end in
  let listening := bool_decide (listen_open h = None /\ listen_bind h = None /\ listen_listen h = None) in
  if usable then
    if bool_decide (connect_open h = None /\ connect_bind h = None) then
      exists s, main h = Some (Serving s) /\ Server.started (world s) /\ registry (world s) = r /\
        io_threads s = Config.m_connection_threads config /\
        (forall keeps, Connection.reachable keeps (wallet s)) /\
        Connection.pending (wallet s) = Connection.connecting /\
        Socket.accepting (listener s) = listening /\
        Timer.waiting (maintenance s) = Some O /\ Timer.waiting (persistance s) = Some O
    else main h = Some No_wallet
  else main h = None.
Proof.
  intros Hl Hread Hr usable listening. unfold main, init. rewrite Hread. cbn [mbind option_bind negb].
  unfold new_registry_object. rewrite Hr. cbn [mbind option_bind]. rewrite !loopback_socket by done.
  cbn [mbind option_bind]. unfold run, daemon_connect. cbn [m_config m_daemon_socket mbind option_bind].
  assert (Hv : is_valid (of_string tcp (Config.m_wallet_ip config) (Config.m_port config) 0) = usable).
  { unfold usable, of_string, init_ip_endpoint. destruct (make_address (Config.m_wallet_ip config)) as [a|]; [|done].
    cbn [m_protocol]. assert (with_scope 0 a = a) as -> by (by destruct a).
    by destruct (is_multicast_address a). }
  rewrite Hv. destruct usable; [|done]. cbn [negb mbind option_bind].
  unfold Socket.connect, Connection.connect, Connection.initialise_socket.
  destruct (connect_open h) as [e|]; [by rewrite bool_decide_eq_false_2 by (by intros [? ?])|].
  destruct (connect_bind h) as [e|]; [by rewrite bool_decide_eq_false_2 by (by intros [? ?])|].
  rewrite bool_decide_eq_true_2 by done. cbn [mbind option_bind m_listen_socket Factory.m_acceptor].
  destruct (Socket.listen (listen_open h) (listen_bind h) (listen_listen h) Socket.new_listener)
    as [code acceptor] eqn:El.
  eexists. split; [reflexivity|]. cbn [world listener io_threads wallet maintenance persistance].
  split; [by econstructor|]. split; [done|]. split; [done|].
  split; [intros keeps; by apply Connection.reachable_connect|]. split; [done|]. split; [|done].
  unfold listening, Socket.listen, Socket.bind_acceptor in *. cbn in El.
  destruct (listen_open h), (listen_bind h), (listen_listen h); cbn in El; injection El as <- <-;
    by first [rewrite bool_decide_eq_true_2 by done | rewrite bool_decide_eq_false_2 by (by intros (?&?&?))].
Qed.

(** Without a [pool.conf] the program returns -1. *)
Lemma no_configuration h : document h = None -> main h = Some (Returned (-1)).
Proof. intros Hd. unfold main, init, Config.read_config. by rewrite Hd. Qed.
End startup.
End Startup.

(** ** What a signal does *)
Module Shutdown.

(** An element of [m_io_threads]: whether it is still in [m_io_context->run()], and whether it may
    be joined. *)
Record thread := mk_thread { running : bool; joinable : bool }.

(** Where the program is.  [Joining self i]: the handler of the signal, on the thread [self] or on
    the main one, is at the [i]th [join]; [Destroying i]: so is [~Server].  [Members]: the body of
    [~Server] is done.  [Terminated]: an exception left a thread or a destructor. *)
Inductive phase :=
  | Serving
  | Joining (self : option nat) (i : nat)
  | Destroying (i : nat)
  | Members
  | Terminated.

Record process := mk_process {
  stopped : bool;
  threads : list thread;
  at_ : phase;
}.

(** [Server::run] has started [n] threads and calls [run] itself. *)
Definition serving (n : nat) : process := mk_process false (replicate n (mk_thread true true)) Serving.

(** [run] has returned before there was a thread. *)
Definition no_wallet : process := mk_process true [] (Destroying 0).

(** [std::thread::join] by [self] on [t], the [i]th thread. *)
Inductive joined := Throws | Blocks | Joined.
Definition join (self : option nat) (i : nat) (t : thread) : joined :=
  if negb (joinable t) then Throws
  else if decide (self = Some i) then Throws
  else if running t then Blocks else Joined.

(** One iteration of the loop over [m_io_threads]; [next] is the phase at index [i], [done] the one
    after the loop. *)
Definition join_loop (self : option nat) (i : nat) (next : phase) (done : phase) (p : process)
  : option process :=
  match threads p !! i with
  | None => Some (mk_process (stopped p) (threads p) done)
  | Some t =>
      match join self i t with
      | Throws => Some (mk_process (stopped p) (threads p) Terminated)
      | Blocks => None
      | Joined => Some (mk_process (stopped p) (<[i := mk_thread false false]> (threads p)) next)
      end
  end.

(** Is [self] a thread that runs handlers? *)
Definition runs_handlers (self : option nat) (p : process) : Prop :=
  match self with
  | None => True
  | Some i => exists t, threads p !! i = Some t /\ running t = true
  end.

Inductive step : process -> process -> Prop :=
  (** The io_context runs the handler of the signal, which stops it, on some thread. *)
  | step_signal self p :
      at_ p = Serving -> runs_handlers self p ->
      step p (mk_process true (threads p) (Joining self 0))
  (** A thread returns from [run] when it is not the one in the handler. *)
  | step_return i t p :
      stopped p = true -> threads p !! i = Some t -> running t = true ->
      (forall j, at_ p <> Joining (Some i) j) -> at_ p <> Terminated ->
      step p (mk_process (stopped p) (<[i := mk_thread false (joinable t)]> (threads p)) (at_ p))
  (** The handler.  When it returns on the main thread so does [run], and [main] returns; on another
      thread it does not get there, having to join itself. *)
  | step_join self i p p' :
      at_ p = Joining self i ->
      join_loop self i (Joining self (S i)) (Destroying 0) p = Some p' -> step p p'
  (** [~Server], on the main thread. *)
  | step_destroy i p p' :
      at_ p = Destroying i -> join_loop None i (Destroying (S i)) Members p = Some p' -> step p p'.

(** What holds of a process with [n] threads. *)
Definition invariant (n : nat) (p : process) : Prop :=
  length (threads p) = n /\
  match at_ p with
  | Serving => stopped p = false /\ threads p = replicate n (mk_thread true true)
  | Joining self i =>
      stopped p = true /\
      (forall j t, threads p !! j = Some t -> joinable t = negb (bool_decide (j < i)%nat)) /\
      match self with
      | None => True
      | Some k => (i <= k)%nat /\ exists t, threads p !! k = Some t /\ running t = true
      end
  | Destroying i => stopped p = true /\ i = O /\ forall j t, threads p !! j = Some t -> joinable t = false
  | Members => n = O
  | Terminated => n <> O
  end.

Lemma invariant_serving n : invariant n (serving n).
Proof. split; [apply length_replicate|done]. Qed.

Lemma lookup_joinable (l : list thread) i t j t' :
  l !! i = Some t -> <[i := mk_thread false (joinable t)]> l !! j = Some t' ->
  exists t0, l !! j = Some t0 /\ joinable t' = joinable t0.
Proof.
  intros Hi Hj. apply list_lookup_insert_Some in Hj as [(->&<-&_)|(_&Hj)]; by eexists.
Qed.

Lemma join_inv self i t :
  match join self i t with
  | Throws => joinable t = false \/ self = Some i
  | Blocks => joinable t = true /\ self <> Some i /\ running t = true
  | Joined => joinable t = true /\ self <> Some i /\ running t = false
  end.
Proof. unfold join. destruct (joinable t); cbn; [|auto]. case_decide; [auto|]. by destruct (running t). Qed.

Lemma invariant_step n p p' : invariant n p -> step p p' -> invariant n p'.
Proof.
  intros [Hl Hp] Hstep. destruct Hstep as [self p Hat Hself|i t p Hs Hi Ht Hj Hterm|self i p p' Hat Hjoin|i p p' Hat Hjoin].
  - split; [done|]. rewrite Hat in Hp. destruct Hp as [_ Hth]. cbn. split; [done|]. split.
    + intros j t Hjt. rewrite Hth in Hjt. apply lookup_replicate in Hjt as [-> _].
      by rewrite bool_decide_eq_false_2 by lia.
    + destruct self as [k|]; [|done]. split; [lia|done].
  - split; cbn; [by rewrite length_insert|]. destruct (at_ p) as [|self j|j| |] eqn:E; try done.
    + destruct Hp as [Hs' _]. by rewrite Hs in Hs'.
    + destruct Hp as (_&Hjs&Hself). split; [done|]. split.
      * intros k t' Hk. destruct (lookup_joinable _ _ _ _ _ Hi Hk) as (t0&Ht0&->). by apply Hjs.
      * destruct self as [k|]; [|done]. destruct Hself as (Hk&t'&Ht'&Hr). split; [done|]. exists t'.
        split; [|done]. rewrite list_lookup_insert_ne; [done|]. intros ->. by apply (Hj j).
    + destruct Hp as (_&->&Hjs). split; [done|]. split; [done|].
      intros k t' Hk. destruct (lookup_joinable _ _ _ _ _ Hi Hk) as (t0&Ht0&->). by eapply Hjs.
  - rewrite Hat in Hp. destruct Hp as (Hs&Hjs&Hself). unfold join_loop in Hjoin.
    destruct (threads p !! i) as [t|] eqn:Hi.
    + pose proof (join_inv self i t) as Hji. destruct (join self i t); [|done|].
      * injection Hjoin as <-. split; [done|]. cbn. apply lookup_lt_Some in Hi. lia.
      * injection Hjoin as <-. destruct Hji as (_&Hne&Hr). split; cbn; [by rewrite length_insert|].
        split; [done|]. split.
        -- intros j t' Hj. apply list_lookup_insert_Some in Hj as [(<-&<-&_)|(Hij&Hj)].
           ++ by rewrite bool_decide_eq_true_2 by lia.
           ++ rewrite (Hjs j t' Hj). f_equal. apply bool_decide_ext. lia.
        -- destruct self as [k|]; [|done]. destruct Hself as (Hk&t'&Ht'&Hr').
           assert (k <> i) by congruence. split; [lia|]. exists t'. by rewrite list_lookup_insert_ne.
    + injection Hjoin as <-. split; [done|]. cbn. split; [done|]. split; [done|].
      intros j t Hj. rewrite (Hjs j t Hj). apply lookup_ge_None in Hi. apply lookup_lt_Some in Hj.
      by rewrite bool_decide_eq_true_2 by lia.
  - rewrite Hat in Hp. destruct Hp as (Hs&->&Hjs). unfold join_loop in Hjoin.
    destruct (threads p !! 0%nat) as [t|] eqn:Hi.
    + pose proof (Hjs _ _ Hi) as Ht. unfold join in Hjoin. rewrite Ht in Hjoin. injection Hjoin as <-.
      split; [done|]. cbn. apply lookup_lt_Some in Hi. lia.
    + injection Hjoin as <-. split; [done|]. cbn. apply lookup_ge_None in Hi. lia.
Qed.

(** The steps that are left. *)
Definition left_over (p : process) : nat :=
  length (filter (fun t => running t = true) (threads p)) +
  match at_ p with
  | Serving => 2 * length (threads p) + 3
  | Joining _ i => 2 * length (threads p) - i + 2
  | Destroying i => 1
  | Members | Terminated => 0
  end.

Lemma running_insert (l : list thread) i t b :
  l !! i = Some t ->
  (length (filter (fun t => running t = true) (<[i := mk_thread false b]> l)) +
    (if running t then 1 else 0) = length (filter (fun t => running t = true) l))%nat.
Proof.
  revert i. induction l as [|t' l IH]; intros [|i] Hi; try done.
  - injection Hi as ->. cbn [insert list_insert]. rewrite !filter_cons. cbn [running].
    destruct (running t); repeat case_decide; cbn [length]; (done || lia).
  - change (<[S i := ?x]> (t' :: l)) with (t' :: <[i := x]> l). rewrite !filter_cons. specialize (IH i Hi).
    case_decide; cbn [length]; lia.
Qed.


Lemma step_decreases n p p' : invariant n p -> step p p' -> (left_over p' < left_over p)%nat.
Proof.
  intros [Hl Hp] Hstep. unfold left_over.
  destruct Hstep as [self p Hat Hself|i t p Hs Hi Ht Hj Hterm|self i p p' Hat Hjoin|i p p' Hat Hjoin].
  - rewrite Hat. cbn [threads at_]. lia.
  - cbn [threads at_]. pose proof (running_insert _ i t (joinable t) Hi) as Hr. rewrite Ht in Hr.
    rewrite length_insert. lia.
  - rewrite Hat in *. unfold join_loop in Hjoin. destruct (threads p !! i) as [t|] eqn:Hi.
    + pose proof (lookup_lt_Some _ _ _ Hi). pose proof (join_inv self i t) as Hji.
      destruct (join self i t); [|done|]; injection Hjoin as <-; cbn [threads at_]; [lia|].
      destruct Hji as (_&_&Hr). pose proof (running_insert _ i t false Hi) as Hf. rewrite Hr in Hf.
      rewrite length_insert. lia.
    + injection Hjoin as <-. cbn [threads at_]. lia.
  - rewrite Hat in *. destruct Hp as (_&->&Hjs). unfold join_loop in Hjoin.
    destruct (threads p !! 0%nat) as [t|] eqn:Hi.
    + unfold join in Hjoin. rewrite (Hjs _ _ Hi) in Hjoin. injection Hjoin as <-. cbn [threads at_]. lia.
    + injection Hjoin as <-. cbn [threads at_]. lia.
Qed.

(** C27: a signal, with [n] threads beside the main one.  Whatever thread runs its handler and in
    whatever order the others stop, a process that is not at its end can go on, and it is at its
    end after [3 n + 3] steps: with a thread or more it ends in an exception, of the handler that
    joins its own thread or of [~Server], which joins the threads again; [~Server] gets to the
    members only when there is no thread. *)
Theorem signal_ends n p k :
  nsteps step k (serving n) p ->
  (k <= 3 * n + 3)%nat /\
  (at_ p = Members \/ at_ p = Terminated \/ exists p', step p p') /\
  (at_ p = Members -> n = O) /\ (at_ p = Terminated -> n <> O).
Proof.
  intros Hrun.
  assert (Hinv : invariant n p /\ (k + left_over p <= left_over (serving n))%nat).
  { revert Hrun. generalize (invariant_serving n). generalize (serving n). intros q Hq Hrun.
    induction Hrun as [q|k q1 q2 q3 Hs _ IH]; [by split|].
    pose proof (step_decreases n _ _ Hq Hs). destruct IH as [? ?]; [by eapply invariant_step|].
    split; [done|lia]. }
  destruct Hinv as [[Hl Hp] Hk]. split; [|split].
  - assert (left_over (serving n) <= 3 * n + 3)%nat; [|lia]. unfold left_over. cbn.
    rewrite length_replicate. pose proof (length_filter (fun t => running t = true) (replicate n (mk_thread true true))) as Hf.
    rewrite length_replicate in Hf. lia.
  - destruct (at_ p) as [|self i|i| |] eqn:E; [| | |by left|by right; left]; right; right.
    + eexists. by apply (step_signal None).
    + destruct Hp as (Hs&_&Hself). destruct (join_loop self i (Joining self (S i)) (Destroying 0) p) as [p'|] eqn:Ej.
      { exists p'. by eapply step_join. }
      unfold join_loop in Ej. destruct (threads p !! i) as [t|] eqn:Hi; [|done].
      pose proof (join_inv self i t) as Hji. destruct (join self i t); try done.
      destruct Hji as (_&Hne&Hr). eexists. apply (step_return i t); try done.
      * intros j Hj. rewrite E in Hj. by injection Hj as ->.
      * by rewrite E.
    + destruct Hp as (Hs&->&Hjs). destruct (join_loop None 0 (Destroying 1) Members p) as [p'|] eqn:Ej.
      { exists p'. by eapply step_destroy. }
      unfold join_loop, join in Ej. destruct (threads p !! 0%nat) as [t|] eqn:Hi; [|done].
      by rewrite (Hjs _ _ Hi) in Ej.
  - split; intros E; rewrite E in Hp; done.
Qed.

End Shutdown.

(** ** Who holds whom *)
Module Ownership.

(** The objects of a pool that is connected to its wallet. *)
Inductive object :=
  | Server
  | Io_context
  | Signal_set
  | Timer_factory
  | Component
  | Socket_factory
  | Listen_socket
  | Maintenance_timer
  | Registry
  | Database
  | Persistance_timer
  | Persistance_handler
  | Daemon
  | Daemon_socket
  | Daemon_timers
  | Daemon_handlers
  | Wallet_connection.

#[export] Instance object_eq_dec : EqDecision object.
Proof. solve_decision. Defined.

(** The members that are a [shared_ptr] or a [unique_ptr], the captures of the handlers, and the
    handlers that wait in the io_context and in the connection. *)
Definition members (o : object) : list object :=
  match o with
  | Server => [Daemon; Maintenance_timer; Component; Listen_socket; Io_context; Registry; Signal_set]
  | Io_context => [Persistance_handler; Daemon_handlers]
  | Signal_set => []
  | Timer_factory => [Io_context]
  | Component => [Socket_factory]
  | Socket_factory => [Io_context]
  | Listen_socket => [Io_context]
  | Maintenance_timer => [Io_context]
  | Registry => [Database; Timer_factory; Persistance_timer]
  | Database => []
  | Persistance_timer => [Io_context]
  | Persistance_handler => [Registry]
  | Daemon => [Daemon_socket; Wallet_connection; Timer_factory; Daemon_timers]
  | Daemon_socket => [Io_context]
  | Daemon_timers => [Io_context]
  | Daemon_handlers => [Daemon]
  | Wallet_connection => [Io_context; Daemon]
  end.

(** The server is a variable of [main]; any other object goes with the last of its owners. *)
Inductive destroyed : object -> Prop :=
  | destroyed_server : destroyed Server
  | destroyed_last o p :
      o ∈ members p -> (forall q, o ∈ members q -> destroyed q) -> destroyed o.

Definition objects : list object :=
  [Server; Io_context; Signal_set; Timer_factory; Component; Socket_factory; Listen_socket;
   Maintenance_timer; Registry; Database; Persistance_timer; Persistance_handler; Daemon; Daemon_socket;
   Daemon_timers; Daemon_handlers; Wallet_connection].

Definition owners (o : object) : list object := filter (fun p => o ∈ members p) objects.

Lemma owners_spec o p : p ∈ owners o <-> o ∈ members p.
Proof.
  unfold owners. rewrite list_elem_of_filter. split; [by intros [? _]|]. intros Ho. split; [done|].
  apply (bool_decide_unpack _). by destruct p.
Qed.

(** Objects that hold each other stay. *)
Lemma cycle_stays (C : object -> Prop) :
  ~ C Server -> (forall o, C o -> exists p, C p /\ p ∈ owners o) -> forall o, destroyed o -> ~ C o.
Proof.
  intros Hserver HC o Hd. induction Hd as [|o p Hp Hall IH]; [done|].
  intros Ho. destruct (HC o Ho) as (q&Hq&Hin%owners_spec). by apply (IH q).
Qed.

Lemma sole_owner o p : owners o = [p] -> destroyed p -> destroyed o.
Proof.
  intros Ho Hp. apply (destroyed_last o p).
  - apply owners_spec. rewrite Ho. by left.
  - intros q Hq%owners_spec. rewrite Ho in Hq. by apply list_elem_of_singleton in Hq as ->.
Qed.

(** What goes when [main] returns. *)
Definition gone (o : object) : bool :=
  match o with
  | Server | Signal_set | Component | Socket_factory | Listen_socket | Maintenance_timer => true
  | _ => false
  end.

(** When [main] has returned the server's own objects are gone; the io_context, the registry, the
    database and the connection to the wallet are not, since the handlers that wait in the
    io_context hold the registry and the daemon connection, which hold it.  [~Data_registry], the
    one place that saves the banned users, does not run, nor does [~Sqlite_database]. *)
Theorem registry_stays o : destroyed o <-> gone o = true.
Proof.
  split.
  - intros Hd. apply not_false_is_true. revert Hd. apply (cycle_stays (fun o => gone o = false)); [done|].
    intros o' Ho'. assert (Hex : Exists (fun p => gone p = false) (owners o')).
    { apply (bool_decide_unpack _). by destruct o'. }
    apply Exists_exists in Hex as (p&?&?). by exists p.
  - intros Ho. destruct o; try done; try (apply (sole_owner _ Server); [reflexivity|constructor]); [constructor|].
    apply (sole_owner _ Component); [reflexivity|]. apply (sole_owner _ Server); [reflexivity|constructor].
Qed.
End Ownership.

(** ** Witnesses *)
Definition loopback_text : Address_text := {|
  make_address s := if decide (s = Startup.loopback) then Some Startup.loopback_address else None;
  to_string _ := Startup.loopback;
|}.

(** A first start with [src/pool.conf], on a machine where the pool's port is in use. *)
Definition first_start : Startup.host :=
  Startup.mk_host (Some (Some pool_conf)) None None (None, None) None None None (Some other_error) None 0 1000.

Lemma startup_witness :
  let _ := zero_platform in let _ := loopback_text in
  exists s, Startup.main first_start = Some (Startup.Serving s) /\ Startup.io_threads s = 4 /\
    Socket.accepting (Startup.listener s) = false.
Proof.
  pose (P := zero_platform). pose (A := loopback_text).
  destruct (Config.read pool_conf Config.new) as [config|] eqn:Hc; [|by vm_compute in Hc].
  assert (Hread : Config.read_config (Startup.document first_start) Config.new = Some (true, config)).
  { unfold Config.read_config, first_start. cbn [Startup.document mbind option_bind]. by rewrite Hc. }
  destruct (new_registry (Config.registry_config config) None None (None, None)) as [r|] eqn:Hr; [|done].
  pose proof (Startup.startup first_start config r eq_refl Hread Hr) as Hs.
  assert (Hip : Config.m_wallet_ip config = Startup.loopback) by (vm_compute in Hc; by injection Hc as <-).
  rewrite Hip in Hs. cbn zeta in Hs. destruct Hs as (s&Hm&_&_&Ht&_&_&Hacc&_).
  exists s. split; [exact Hm|]. split; [|exact Hacc].
  rewrite Ht. vm_compute in Hc. by injection Hc as <-.
Defined.

Lemma signal_ends_witness :
  exists p, nsteps Shutdown.step 1 (Shutdown.serving 4) p /\ Shutdown.at_ p <> Shutdown.Members.
Proof.
  eexists. assert (Hrun : nsteps Shutdown.step 1 (Shutdown.serving 4)
    (Shutdown.mk_process true (Shutdown.threads (Shutdown.serving 4)) (Shutdown.Joining None 0))).
  { eapply nsteps_l; [|apply nsteps_O]. by apply Shutdown.step_signal. }
  split; [exact Hrun|]. intros Hm.
  destruct (Shutdown.signal_ends 4 _ 1 Hrun) as (_&_&Hn&_). by specialize (Hn Hm).
Defined.
