(* ===== verification/Coinbase_threads.v ===== *)
(** * The coinbase between its locks: [Coinbase_mt], [src/src/coinbase.hpp]

    The handler of the wallet builds the coinbase by calls of [Coinbase_mt], each of which holds its
    mutex; miners on other threads look their payout up and have their shares credited meanwhile.
    Module [Coinbase_mt] has the calls as operations of [Threads]; [build_coinbase_t] is the thread
    of the handler, and [coinbase_undisturbed] what the others do to the coinbase it builds: a look
    up may leave an output of zero, and no more. *)
From S2P Require Import Prelude Bytes StdMap Float64 Coinbase LLD Banned Registry Payout World Threads Races.
From S2P Require Import Daemon_conn.

(** ** The calls *)
Module Coinbase_mt.

Definition call {A} (f : Coinbase.t -> A * Coinbase.t) : prog Data_registry A :=
  Atomic (fun r => let '(a, c) := f (m_coinbase r) in Some (a, set_coinbase_of c r)) Ret.

Definition reset (nMax : Z) : prog Data_registry unit := call (fun c => (tt, Coinbase.Reset nMax c)).
Definition get_remainder : prog Data_registry Z := call (fun c => (Coinbase.GetRemainder c, c)).
Definition add_transaction (nAddress : bytes) (nValue : Z) : prog Data_registry Z :=
  call (Coinbase.AddTransaction nAddress nValue).
Definition serialize : prog Data_registry bytes := call (fun c => (Coinbase.Serialize c, c)).
Definition find_address (nxs_address : bytes) : prog Data_registry bool :=
  call (fun c => (Coinbase.find_address nxs_address c, c)).
Definition get_map_outputs (nxs_address : bytes) : prog Data_registry Z :=
  call (Coinbase.get_map_outputs nxs_address).
Definition is_complete : prog Data_registry bool := call (fun c => (Coinbase.IsComplete c, c)).

(** [get_pool_fee] gives a reference, through which the handler reads and writes without the mutex;
    no other thread does. *)
Definition write_pool_fee (fee : Z) : prog Data_registry unit :=
  call (fun c => (tt, Coinbase.set_pool_fee fee c)).
Definition read_pool_fee : prog Data_registry Z := call (fun c => (Coinbase.nPoolFee c, c)).
End Coinbase_mt.

Section programs.
Context `{Platform} `{Std_sort}.

(** Of the record the loop reads the balance only. *)
Definition GetBalance (k : bytes) : prog Data_registry Z :=
  Atomic (fun r => let '(a, r) := get_account k r in Some (Account.nAccountBalance a, r)) Ret.

(** The loop over the sorted accounts, with the [break] of the branch that is never taken. *)
Fixpoint add_payouts_t (names : list bytes) : prog Data_registry unit :=
  match names with
  | [] => Ret tt
  | name :: names' =>
      balance ← GetBalance name;
      if 0 <? balance then
        nValue ← Coinbase_mt.add_transaction name balance;
        if nValue <? 0 then
          _ ← Coinbase_mt.add_transaction name (u64 (balance + nValue)); Ret tt
        else add_payouts_t names'
      else add_payouts_t names'
  end.

(** The handler of [BLOCK_REWARD], up to the message to the wallet.  The comparisons of the sort
    read one record each; they are one operation here. *)
Definition build_coinbase_t (round_reward : Z) (last_blockfinder : bytes) : prog Data_registry unit :=
  config ← Atomic (gets m_config) Ret;
  Coinbase_mt.write_pool_fee (u64 (round_reward * get_pool_fee config)) ;;
  fee ← Coinbase_mt.read_pool_fee;
  Coinbase_mt.reset (u64 (round_reward - fee)) ;;
  vAccounts ← Atomic (gets get_sorted_accounts) Ret;
  add_payouts_t vAccounts ;;
  complete ← Coinbase_mt.is_complete;
  if complete : bool then Ret tt else
  nBonus ← Coinbase_mt.get_remainder;
  _ ← Coinbase_mt.add_transaction last_blockfinder nBonus; Ret tt.

(** The handler of [GET_PAYOUT], up to the answer. *)
Definition get_payout_t (nxs_address : bytes) : prog Data_registry unit :=
  found ← Coinbase_mt.find_address nxs_address;
  if found : bool then _ ← Coinbase_mt.get_map_outputs nxs_address; Ret tt else Ret tt.

(** ** Alone *)
Ltac alone :=
  repeat (rewrite ?run_alone_mbind, ?run_alone_bind; cbn [mbind option_bind prog_bind bind run_alone];
    unfold prog_bind, Coinbase_mt.write_pool_fee, Coinbase_mt.read_pool_fee, Coinbase_mt.reset, Coinbase_mt.is_complete,
      Coinbase_mt.get_remainder, Coinbase_mt.add_transaction, Coinbase_mt.call, GetBalance,
      mbind, M_bind, modify, gets, mret, M_ret).

Lemma set_coinbase_same r : set_coinbase_of (m_coinbase r) r = r.
Proof. by destruct r. Qed.

Lemma AddTransaction_nonneg a v c : ((Coinbase.AddTransaction a v c).1 <? 0) = false.
Proof.
  apply Z.ltb_ge. unfold Coinbase.AddTransaction.
  destruct (_ <? _); cbn; apply wrap_fits; lia.
Qed.

Lemma add_payouts_alone names r :
  run_alone (add_payouts_t names) r = Some (tt, foldl (fun r name => add_payout name r) r names).
Proof.
  revert r. induction names as [|name names IH]; intros r; [done|].
  cbn [add_payouts_t foldl]. unfold add_payout at 2. alone. destruct (get_account name r) as [a r1].
  destruct (0 <? Account.nAccountBalance a); [|apply IH]. alone.
  pose proof (AddTransaction_nonneg name (Account.nAccountBalance a) (m_coinbase r1)) as Hn.
  destruct (Coinbase.AddTransaction _ _ _) as [v c]. cbn in Hn. rewrite Hn. apply IH.
Qed.

Lemma build_coinbase_alone reward last r :
  run_alone (build_coinbase_t reward last) r = Some (tt, build_coinbase reward last r).
Proof.
  unfold build_coinbase_t, build_coinbase. alone. rewrite add_payouts_alone. cbn [mbind option_bind].
  set (r1 := foldl _ _ _). alone. rewrite !set_coinbase_same.
  destruct (Coinbase.IsComplete (m_coinbase r1)); [done|]. alone. rewrite set_coinbase_same.
  by destruct (Coinbase.AddTransaction _ _ _).
Qed.
End programs.

(** ** Coinbases that differ in outputs of zero *)
Definition output (k : bytes) (c : Coinbase.t) : Z := default 0 (map_find k (Coinbase.mapOutputs c)).

Record same_payouts (c1 c2 : Coinbase.t) : Prop := mk_same_payouts {
  same_sorted : map_sorted (Coinbase.mapOutputs c1) /\ map_sorted (Coinbase.mapOutputs c2);
  same_output : forall k, output k c1 = output k c2;
  same_current : Coinbase.nCurrentValue c1 = Coinbase.nCurrentValue c2;
  same_max : Coinbase.nMaxValue c1 = Coinbase.nMaxValue c2;
  same_fee : Coinbase.nPoolFee c1 = Coinbase.nPoolFee c2;
}.

#[export] Instance same_payouts_per : RelationClasses.PER same_payouts.
Proof.
  split.
  - intros c1 c2 [[]]. split; [done|congruence..].
  - intros c1 c2 c3 [[] H12 ? ? ?] [[] H23 ? ? ?]. split; [done|intros k; by rewrite H12|congruence..].
Qed.

#[export] Instance Reset_proper nMax : Proper (same_payouts ==> same_payouts) (Coinbase.Reset nMax).
Proof. intros c1 c2 []. by split. Qed.

#[export] Instance set_pool_fee_proper fee : Proper (same_payouts ==> same_payouts) (Coinbase.set_pool_fee fee).
Proof. intros c1 c2 []. by split. Qed.

#[export] Instance AddOutput_proper a v : Proper (same_payouts ==> same_payouts) (Coinbase.AddOutput a v).
Proof.
  intros c1 c2 [[H1 H2] Ho Hc Hm Hf]. split; cbn; [split; by apply add_to_sorted| |congruence|done|done].
  intros k. unfold output in *. cbn. rewrite !find_add_to by done. case_decide; [|apply Ho]. cbn. by rewrite Ho.
Qed.

Lemma AddTransaction_same a v c1 c2 :
  same_payouts c1 c2 ->
  (Coinbase.AddTransaction a v c1).1 = (Coinbase.AddTransaction a v c2).1 /\
  same_payouts (Coinbase.AddTransaction a v c1).2 (Coinbase.AddTransaction a v c2).2.
Proof.
  intros Hs. unfold Coinbase.AddTransaction. rewrite (same_max _ _ Hs), (same_current _ _ Hs).
  destruct (_ <? _); [done|]. cbn. rewrite (same_current _ _ Hs), (same_max _ _ Hs). split; [done|].
  by apply AddOutput_proper.
Qed.

(** A look up keeps the payouts, also one that comes too late and inserts an output. *)
Lemma get_map_outputs_same a c :
  map_sorted (Coinbase.mapOutputs c) -> same_payouts c (Coinbase.get_map_outputs a c).2.
Proof.
  intros Hs. unfold Coinbase.get_map_outputs. destruct (map_find a (Coinbase.mapOutputs c)) eqn:E; [by split|].
  split; cbn; [split; [done|by apply insert_sorted]| |done..].
  intros k. unfold output. cbn. rewrite find_insert by done. case_decide; [by subst; rewrite E|done].
Qed.

(** ** The wallet's thread among those of miners *)
Section undisturbed.
Context `{Platform} `{Std_sort}.
Context (keys : list bytes) (B : bytes -> Z) (config : Config).
Implicit Types (r : Data_registry).

(** The accounts are there under their keys, with their balances. *)
Definition settled r : Prop :=
  accounts_sorted r /\ map_keys (m_account_db r) = keys /\ m_config r = config /\
  forall k, k ∈ keys -> exists a, account_of k r = Some a /\ Account.key a = k /\ Account.nAccountBalance a = B k.

Definition tidy r : Prop := map_sorted (Coinbase.mapOutputs (m_coinbase r)).

Lemma tidy_same r : tidy r -> same_payouts (m_coinbase r) (m_coinbase r).
Proof. by split. Qed.

(** No operation of the thread changes a balance or a payout. *)
Fixpoint harmless {A} (p : prog Data_registry A) : Prop :=
  match p with
  | Ret _ => True
  | Atomic f k => forall r b r', settled r -> tidy r -> f r = Some (b, r') ->
      settled r' /\ same_payouts (m_coinbase r) (m_coinbase r') /\ harmless (k b)
  end.

(** The operations of the thread have the same results where the balances and the payouts are the
    same, and keep it so. *)
Fixpoint steadfast {A} (p : prog Data_registry A) : Prop :=
  match p with
  | Ret _ => True
  | Atomic f k => forall r1 r2, settled r1 -> settled r2 -> same_payouts (m_coinbase r1) (m_coinbase r2) ->
      exists b r1' r2', f r1 = Some (b, r1') /\ f r2 = Some (b, r2') /\ settled r1' /\ settled r2' /\
        same_payouts (m_coinbase r1') (m_coinbase r2') /\ steadfast (k b)
  end.

Lemma steadfast_bind {A C} (p : prog Data_registry A) (g : A -> prog Data_registry C) :
  steadfast p -> (forall a, steadfast (g a)) -> steadfast (p ≫= g).
Proof.
  unfold mbind, prog_bind. intros Hp Hg. induction p as [a|D f k IH]; cbn in *; [done|].
  intros r1 r2 H1 H2 Hs. destruct (Hp r1 r2 H1 H2 Hs) as (b&r1'&r2'&?&?&?&?&?&?).
  exists b, r1', r2'. split_and!; auto.
Qed.

Lemma steadfast_call {A} (f : Coinbase.t -> A * Coinbase.t) :
  (forall c1 c2, same_payouts c1 c2 -> (f c1).1 = (f c2).1 /\ same_payouts (f c1).2 (f c2).2) ->
  steadfast (Coinbase_mt.call f).
Proof.
  intros Hf r1 r2 H1 H2 Hs. destruct (Hf _ _ Hs) as [Hb Hc].
  destruct (f (m_coinbase r1)) as [b1 c1], (f (m_coinbase r2)) as [b2 c2]. cbn in Hb. subst b2.
  by exists b1, (set_coinbase_of c1 r1), (set_coinbase_of c2 r2).
Qed.

Lemma harmless_call {A} (f : Coinbase.t -> A * Coinbase.t) :
  (forall c, map_sorted (Coinbase.mapOutputs c) -> same_payouts c (f c).2) -> harmless (Coinbase_mt.call f).
Proof.
  intros Hf r b r' Hr Ht. specialize (Hf _ Ht). destruct (f (m_coinbase r)) as [b1 c]. by intros [= <- <-].
Qed.

Lemma settled_balance r k : settled r -> balance_of k (m_account_db r) = if decide (k ∈ keys) then B k else 0.
Proof.
  intros (Hs&Hk&_&Ha). unfold balance_of, account_of in *. case_decide as Hin.
  - destruct (Ha k Hin) as (a&->&_&?). done.
  - destruct (map_find k (m_account_db r)) eqn:E; [|done]. exfalso. apply Hin. rewrite <-Hk.
    apply find_is_Some; [exact Hs|]. by eexists.
Qed.

Lemma settled_sorted r1 r2 : settled r1 -> settled r2 -> get_sorted_accounts r1 = get_sorted_accounts r2.
Proof.
  intros H1 H2. unfold get_sorted_accounts, Database.GetKeys.
  pose proof H1 as (_&->&_). pose proof H2 as (_&->&_). apply std_sort_ext. intros a b.
  by rewrite !(settled_balance r1), !(settled_balance r2).
Qed.

Lemma settled_known r k : settled r -> k ∈ keys ->
  exists a, get_account k r = (a, r) /\ Account.key a = k /\ Account.nAccountBalance a = B k.
Proof.
  intros (_&_&_&Ha) Hk. destruct (Ha k Hk) as (a&Hf&?&?). exists a. split_and!; [|done..].
  by apply get_account_present.
Qed.

Lemma settled_update r a :
  settled r -> Account.key a ∈ keys -> Account.nAccountBalance a = B (Account.key a) ->
  settled (update_account a r).
Proof.
  intros (Hs&Hk&Hc&Ha) Hin Hb. split_and!.
  - by apply update_account_sorted.
  - rewrite <-Hk. unfold update_account, Database.UpdateRecord. cbn. apply keys_insert; [exact Hs|].
    apply find_is_Some; [exact Hs|]. by rewrite Hk.
  - done.
  - intros k Hki. rewrite account_of_update by done. case_decide; [subst; by exists a|by apply Ha].
Qed.

(** ** The threads *)
Lemma get_payout_harmless k : harmless (get_payout_t k).
Proof.
  intros r b r' Hr Ht Hv. injection Hv as <- <-. rewrite set_coinbase_same.
  split; [done|]. split; [by apply tidy_same|].
  destruct (Coinbase.find_address _ _); [|done]. intros r1 v r1' Hr1 Ht1 Hv.
  by destruct (harmless_call (Coinbase.get_map_outputs k) (get_map_outputs_same k) r1 v r1' Hr1 Ht1 Hv) as (?&?&_).
Qed.

Lemma credit_share_harmless k weight : k ∈ keys -> harmless (credit_share k weight).
Proof.
  intros Hk r a r' Hr Ht [= E]. destruct (settled_known r k Hr Hk) as (a'&Ha&Hkey&Hb). rewrite Ha in E.
  injection E as <- <-. split; [done|]. split; [by apply tidy_same|].
  intros r1 [] r1' Hr1 Ht1 [= <-]. split; [|split; [exact (tidy_same r1 Ht1)|done]].
  subst k. by apply settled_update.
Qed.

Lemma add_payouts_steadfast names : names ⊆ keys -> steadfast (add_payouts_t names).
Proof.
  induction names as [|name names IH]; intros Hn; [done|]. cbn [add_payouts_t].
  assert (Hin : name ∈ keys) by (apply Hn; by left).
  assert (Hrest : steadfast (add_payouts_t names)) by (apply IH; intros x Hx; apply Hn; by right).
  intros r1 r2 H1 H2 Hs.
  destruct (settled_known r1 name H1 Hin) as (a1&E1&_&Hb1), (settled_known r2 name H2 Hin) as (a2&E2&_&Hb2).
  exists (B name), r1, r2. rewrite E1, E2, Hb1, Hb2. split_and!; try done. cbn [prog_bind bind].
  assert (Hadd : forall v (g : Z -> prog Data_registry unit), (forall x, steadfast (g x)) ->
    steadfast (Coinbase_mt.add_transaction name v ≫= g)).
  { intros v g Hg. apply steadfast_bind; [|done]. apply steadfast_call. apply AddTransaction_same. }
  destruct (0 <? B name); [|done]. apply Hadd. intros v. destruct (v <? 0); [|done]. by apply Hadd.
Qed.

Lemma build_coinbase_steadfast reward last : steadfast (build_coinbase_t reward last).
Proof.
  assert (Hsort : forall g : list bytes -> prog Data_registry unit,
    (forall names, names ⊆ keys -> steadfast (g names)) ->
    steadfast (Atomic (gets get_sorted_accounts) Ret ≫= g)).
  { intros g Hg r1 r2 H1 H2 Hs. exists (get_sorted_accounts r1), r1, r2. unfold gets.
    rewrite (settled_sorted r1 r2) by done. split_and!; try done. apply Hg. intros x.
    rewrite sorted_accounts_permutation. by destruct H2 as (_&->&_). }
  assert (Hconfig : forall g : Config -> prog Data_registry unit,
    (forall c, steadfast (g c)) -> steadfast (Atomic (gets m_config) Ret ≫= g)).
  { intros g Hg r1 r2 H1 H2 Hs. exists config, r1, r2. unfold gets.
    pose proof H1 as (_&_&->&_). pose proof H2 as (_&_&->&_). split_and!; try done. apply Hg. }
  apply Hconfig. intros c. apply steadfast_bind; [apply steadfast_call|intros _].
  { intros c1 c2 Hs. split; [done|by apply set_pool_fee_proper]. }
  apply steadfast_bind; [apply steadfast_call; intros c1 c2 Hs; by split; [apply Hs|]|intros fee].
  apply steadfast_bind; [apply steadfast_call|intros _].
  { intros c1 c2 Hs. split; [done|by apply Reset_proper]. }
  apply Hsort. intros names Hn. apply steadfast_bind; [by apply add_payouts_steadfast|intros _].
  apply steadfast_bind; [apply steadfast_call|intros complete].
  { intros c1 c2 Hs. split; [|done]. cbn. unfold Coinbase.IsComplete. by destruct Hs as [_ _ -> ->]. }
  destruct complete; [done|]. apply steadfast_bind; [apply steadfast_call|intros bonus].
  { intros c1 c2 Hs. split; [|done]. cbn. unfold Coinbase.GetRemainder. by destruct Hs as [_ _ -> ->]. }
  apply steadfast_bind; [apply steadfast_call; apply AddTransaction_same|done].
Qed.

(** The wallet's thread, the first, goes on as it would alone. *)
Lemma undisturbed schedule ts r ri p ts' r' :
  ts !! 0%nat = Some p -> steadfast p -> (forall j q, ts !! S j = Some q -> harmless q) ->
  settled r -> settled ri -> same_payouts (m_coinbase ri) (m_coinbase r) ->
  interleave schedule ts r = Some (ts', r') ->
  exists p' ri', ts' !! 0%nat = Some p' /\ run_alone p ri = run_alone p' ri' /\ settled r' /\
    same_payouts (m_coinbase ri') (m_coinbase r').
Proof.
  revert ts r ri p. induction schedule as [|j schedule IH].
  { intros ts r ri p Hp _ _ Hr _ Hs [= <- <-]. by exists p, ri. }
  intros ts r ri p Hp Hst Hth Hr Hri Hs. cbn. destruct (ts !! j) as [[a|D f k]|] eqn:Hj; [done| |done]. cbn.
  destruct (f r) as [[b r1]|] eqn:Ef; [|done]. cbn. intros Hrun.
  pose proof (lookup_lt_Some _ _ _ Hj) as Hlt. destruct j as [|j].
  - rewrite Hp in Hj. injection Hj as ->.
    destruct (Hst ri r Hri Hr Hs) as (b'&ri1&r1'&Ei&Ef'&Hri1&Hr1&Hs1&Hk). rewrite Ef in Ef'. injection Ef' as <- <-.
    destruct (IH (<[0%nat := k b]> ts) r1 ri1 (k b)) as (p'&ri'&?&Hal&?&?); try done.
    { by apply list_lookup_insert_eq. }
    { intros j q. rewrite list_lookup_insert_ne by done. apply Hth. }
    exists p', ri'. split_and!; try done. cbn. unfold mbind, M_bind. by rewrite Ei.
  - assert (Ht : tidy r) by apply Hs.
    destruct (Hth j _ Hj r b r1 Hr Ht Ef) as (Hr1&Hs1&Hk).
    apply (IH (<[S j := k b]> ts) r1 ri p); try done; [by rewrite list_lookup_insert_ne| |by etrans].
    { intros i q. destruct (decide (i = j)) as [->|Hi].
      - rewrite list_lookup_insert_eq by done. by intros [= <-].
      - rewrite list_lookup_insert_ne by congruence. apply Hth. }
Qed.
End undisturbed.

(** ** Properties *)
Section properties.
Context `{Platform} `{Std_sort}.

(** What miners do meanwhile: a share of an account that exists is credited, a payout is asked for. *)
Inductive miner_thread (r : Data_registry) : prog Data_registry unit -> Prop :=
  | share_thread k weight : is_Some (account_of k r) -> miner_thread r (credit_share k weight)
  | payout_thread k : miner_thread r (get_payout_t k).

Lemma starts_settled r :
  accounts_sorted r -> (forall k a, account_of k r = Some a -> Account.key a = k) ->
  settled (map_keys (m_account_db r)) (fun k => balance_of k (m_account_db r)) (m_config r) r.
Proof.
  intros Hs Hk. split_and!; try done. intros k Hin. apply find_is_Some in Hin as [a Ha]; [|exact Hs].
  exists a. split; [done|]. split; [by apply Hk|]. unfold balance_of. by rewrite Ha.
Qed.

Lemma miner_harmless r p :
  accounts_sorted r -> miner_thread r p ->
  harmless (map_keys (m_account_db r)) (fun k => balance_of k (m_account_db r)) (m_config r) p.
Proof.
  intros Hs [k w Hk|k]; [|apply get_payout_harmless]. apply credit_share_harmless.
  by apply find_is_Some.
Qed.

(** A question for a payout that is answered in two calls, around all that builds the coinbase. *)
Lemma late_question reward last k r :
  Coinbase.find_address k (m_coinbase r) = true ->
  exists schedule,
    interleave schedule [build_coinbase_t reward last; get_payout_t k] r =
      Some ([Ret tt; Ret tt],
        set_coinbase_of (Coinbase.get_map_outputs k (m_coinbase (build_coinbase reward last r))).2
          (build_coinbase reward last r)).
Proof.
  intros Hf. destruct (alone_schedule _ _ _ (build_coinbase_alone reward last r)) as [n Hn].
  exists (1%nat :: replicate n 0%nat ++ [1%nat]).
  erewrite interleave_next; [|reflexivity|].
  2:{ cbn. rewrite Hf, set_coinbase_same. reflexivity. }
  rewrite interleave_app, Hn by done. cbn [mbind option_bind]. set (r1 := build_coinbase reward last r).
  cbn. by destruct (Coinbase.get_map_outputs k (m_coinbase r1)).
Qed.

(** C19: the coinbase that the wallet's handler builds while miners on any number of other threads
    have shares credited and ask for their payouts.  In whatever order the calls come, once the
    handler has built it the coinbase pays to each address what it would have been paid with nothing
    in between, with the same sums and the same fee, and no balance has changed.  It need not be the
    same coinbase: [get_map_outputs] inserts the address that it is asked for, and one that was
    found in the coinbase before may be gone by then, so that an output of zero is left and sent to
    the wallet. *)
Theorem coinbase_undisturbed reward last r :
  accounts_sorted r -> map_sorted (Coinbase.mapOutputs (m_coinbase r)) ->
  (forall k a, account_of k r = Some a -> Account.key a = k) ->
  (forall schedule ts ts' r', Forall (miner_thread r) ts ->
     interleave schedule (build_coinbase_t reward last :: ts) r = Some (ts', r') ->
     finished (default (Ret tt) (ts' !! 0%nat)) = true ->
     same_payouts (m_coinbase (build_coinbase reward last r)) (m_coinbase r') /\
     forall k, balance_of k (m_account_db r') = balance_of k (m_account_db r)) /\
  forall k, Coinbase.find_address k (m_coinbase r) = true ->
    Coinbase.find_address k (m_coinbase (build_coinbase reward last r)) = false ->
    exists schedule r',
      interleave schedule [build_coinbase_t reward last; get_payout_t k] r = Some ([Ret tt; Ret tt], r') /\
      map_find k (Coinbase.mapOutputs (m_coinbase r')) = Some 0.
Proof.
  intros Hs Ht Hk. pose proof (starts_settled r Hs Hk) as Hr. split.
  - intros schedule ts ts' r' Hts Hrun Hfin.
    destruct (undisturbed (map_keys (m_account_db r)) (fun k => balance_of k (m_account_db r)) (m_config r)
      schedule (build_coinbase_t reward last :: ts) r r (build_coinbase_t reward last)
      ts' r' eq_refl (build_coinbase_steadfast _ _ _ reward last)) as (p'&ri'&Hp'&Hal&Hr'&Hsame); try done.
    { intros j q Hq. eapply miner_harmless; [done|]. by apply (Forall_lookup_1 _ _ _ _ Hts Hq). }
    rewrite build_coinbase_alone, Hp' in *. cbn in Hfin. destruct p' as [[]|]; [|done].
    injection Hal as <-. split; [done|]. intros k. rewrite (settled_balance _ _ _ r' k Hr').
    symmetry. exact (settled_balance _ _ _ r k Hr).
  - intros k Hf Hgone. destruct (late_question reward last k r Hf) as [schedule Hrun].
    exists schedule. eexists. split; [exact Hrun|]. cbn. unfold Coinbase.find_address, map_count in Hgone.
    unfold Coinbase.get_map_outputs. destruct (map_find k _); [done|]. cbn. apply find_insert_eq.
Qed.
End properties.

(** ** A witness: the last coinbase paid an account whose balance is gone *)
Definition paid_registry : Data_registry :=
  set_accounts [([Byte.x41], Account.mk [Byte.x41] 0 100 0); ([Byte.x42], Account.mk [Byte.x42] 30 0 0)]
    (set_coinbase_of (Coinbase.mk [([Byte.x41], 20)] 20 20 0) (example_registry 0)).

Lemma coinbase_undisturbed_witness :
  let _ := zero_platform in let _ := insertion_sort in
  (exists ts' r', interleave [0; 1; 0; 0; 0; 0; 0; 0; 1; 2; 0; 0; 0; 0; 2]%nat
     [build_coinbase_t 100 [Byte.x42]; credit_share [Byte.x41] 5; get_payout_t [Byte.x42]] paid_registry =
       Some (ts', r') /\
     same_payouts (m_coinbase (build_coinbase 100 [Byte.x42] paid_registry)) (m_coinbase r')) /\
  exists schedule r',
    interleave schedule [build_coinbase_t 100 [Byte.x42]; get_payout_t [Byte.x41]] paid_registry =
      Some ([Ret tt; Ret tt], r') /\
    map_find [Byte.x41] (Coinbase.mapOutputs (m_coinbase r')) = Some 0.
Proof.
  pose (P := zero_platform). pose (S := insertion_sort).
  destruct (coinbase_undisturbed 100 [Byte.x42] paid_registry) as [Hsame Hzero].
  - by repeat constructor.
  - by repeat constructor.
  - intros k a Hf%find_Some; [|by repeat constructor].
    apply elem_of_cons in Hf as [[= -> ->]|[= -> ->]%list_elem_of_singleton]; done.
  - split.
    + set (l := [0; 1; 0; 0; 0; 0; 0; 0; 1; 2; 0; 0; 0; 0; 2]%nat). set (ts := [credit_share _ _; _]).
      assert (Hfin : match interleave l (build_coinbase_t 100 [Byte.x42] :: ts) paid_registry with
        | Some (ts', _) => finished (default (Ret tt) (ts' !! 0%nat)) = true | None => False end)
        by (vm_compute; reflexivity).
      destruct (interleave l _ paid_registry) as [[ts' r']|] eqn:E; [|done]. exists ts', r'.
      split; [done|]. apply (Hsame l ts ts' r'); [|exact E|exact Hfin].
      repeat constructor. by eexists.
    + by apply (Hzero [Byte.x41]).
Defined.
