(* ===== verification/Process.v ===== *)
(** * The process: [main.cpp] and the event loop it ends in

    [System] is the pool with its connections, on any timer, any miner and any clock.  Here it has
    its listening socket and its timers, and begins where [Lifecycle.Startup.main] ends: an event is
    one of the network or of the clock, and all that the program does about it.  [process_refines]:
    the runs are runs of [System] and of the listening socket, and each timer that was started goes
    on.  [wallet_lost]: what is left of the pool without the wallet.  [short_packet]: a few bytes of
    a peer are enough to end what is defined. *)
From S2P Require Import Prelude Bytes StdMap Float64 Uint Packet Coinbase LLD CBlock Ddos Banned.
From S2P Require Import Base58 Prime Registry Config Payout World Daemon_queue Pool_conn Pool_shares Daemon_conn Network Server.
From S2P Require Import Endpoint System Lifecycle.

(** ** The timers and what their handlers are *)
Inductive timer_name := Block_t | Height_t | Orphan_t | Maintenance_t | Persistance_t.

#[export] Instance timer_name_eq_dec : EqDecision timer_name.
Proof. solve_decision. Defined.

Definition timer_event (name : timer_name) (canceled : bool) : Server.event :=
  match name with
  | Block_t => Block_timer canceled
  | Height_t => Height_timer canceled
  | Orphan_t => Orphan_timer canceled
  | Maintenance_t => Maintenance_timer canceled
  | Persistance_t => Persistance_timer canceled
  end.

#[export] Instance call_eq_dec : EqDecision Connection.call := @prod_eq_dec _ Result.Code_eq_dec _ _.

(** A handler that was not canceled ends with the [start] of its timer; two of them return before,
    when the registry is gone. *)
Definition restarts (name : timer_name) (w : World) : bool :=
  match name with Block_t | Orphan_t => registry_alive w | _ => true end.

Record Process := mk_process {
  system : System;
  listener : Socket.listener;
  timers : timer_name -> Timer.timer;
}.

Definition set_timer (name : timer_name) (t : Timer.timer) (ts : timer_name -> Timer.timer)
  : timer_name -> Timer.timer :=
  fun n => if decide (n = name) then t else ts n.

Definition start_timer (name : timer_name) (ts : timer_name -> Timer.timer) : timer_name -> Timer.timer :=
  set_timer name (Timer.start (ts name)) ts.

(** The calls of the handler that [Daemon_connection::connect] gives its connection. *)
Definition wallet_calls (s : System) : list Connection.call :=
  match sockets s !! Wallet with Some c => Connection.calls c | None => [] end.

Definition connected_call : Connection.call := (Result.connection_ok, None).

(** What the handler of the wallet's connection does to the timers, on the calls from [s] to [s']. *)
Definition connect_timers (s s' : System) (ts : timer_name -> Timer.timer) : timer_name -> Timer.timer :=
  if bool_decide (connected_call ∈ drop (length (wallet_calls s)) (wallet_calls s'))
  then start_timer Height_t (start_timer Orphan_t (start_timer Block_t ts))
  else ts.

(** Asio completes an operation of a connection or of the acceptor; the time of a timer has come;
    the io_context runs its handler; time passes. *)
Inductive process_event :=
  | Network (who : peer) (address : bytes) (e : Connection.event)
  | Accepted (error : option error_code) (remote_ok local_ok : bool) (self : nat) (address : bytes)
  | Expires (name : timer_name)
  | Fires (name : timer_name)
  | Passes (now : Z).

Section process.
Context `{Platform} `{Block_hash} `{Address_hash} `{Gmp} `{Libm} `{Std_sort}.

Definition process_handle (e : process_event) (s : Process) : option Process :=
  match e with
  | Network who address e =>
      s' ← system_handle (Net who address e) (system s);
      Some (mk_process s' (listener s) (connect_timers (system s) s' (timers s)))
  | Accepted error remote_ok local_ok self address =>
      l ← Socket.on_accept error remote_ok self (listener s);
      if bool_decide (error = None) && Socket.held (listener s) then
        if negb local_ok then None else
        s' ← system_handle (Accept self address) (system s);
        Some (mk_process s' l (timers s))
      else Some (mk_process (system s) l (timers s))
  | Expires name =>
      Some (mk_process (system s) (listener s) (set_timer name (Timer.expire (timers s name)) (timers s)))
  | Fires name =>
      '(_, canceled) ← head (Timer.posted (timers s name));
      s' ← system_handle (Pool (timer_event name canceled)) (system s);
      let ts := set_timer name (Timer.run_posted (timers s name)) (timers s) in
      Some (mk_process s' (listener s)
        (if negb canceled && restarts name (world (system s)) then start_timer name ts else ts))
  | Passes now =>
      s' ← system_handle (Pool (Clock now)) (system s);
      Some (mk_process s' (listener s) (timers s))
  end.

Definition process_possible (e : process_event) (s : Process) : Prop :=
  match e with
  | Network who address e => system_possible (Net who address e) (system s)
  | Accepted error remote_ok _ self address =>
      Socket.possible (Socket.Accepted error remote_ok self) (listener s) /\
      system_possible (Accept self address) (system s)
  | Expires name => is_Some (Timer.waiting (timers s name))
  | Fires name => Timer.posted (timers s name) <> []
  | Passes _ => True
  end.

Inductive process_run : Process -> list process_event -> Process -> Prop :=
  | process_done s : process_run s [] s
  | process_step e es s s1 s' : process_possible e s -> process_handle e s = Some s1 ->
      process_run s1 es s' -> process_run s (e :: es) s'.

(** A pool that [main] has brought to its event loop. *)
Definition process_start (s : Startup.serving) : Process :=
  mk_process (mk_system (Startup.world s) {[ Wallet := Startup.wallet s ]}) (Startup.listener s)
    (fun name => match name with
     | Maintenance_t => Startup.maintenance s
     | Persistance_t => Startup.persistance s
     | _ => Factory.create_timer
     end).

Definition serves `{Address_text} (h : Startup.host) (es : list process_event) (s : Process) : Prop :=
  exists s0, Startup.main h = Some (Startup.Serving s0) /\ process_run (process_start s0) es s.
End process.

(** ** The start *)
Lemma serving_start `{Platform} `{Address_text} h s :
  Startup.main h = Some (Startup.Serving s) ->
  Server.started (Startup.world s) /\ Connection.connect None None = Some (Startup.wallet s) /\
  sent (Startup.world s) = [] /\ registry_alive (Startup.world s) = true /\
  Socket.accepted (Startup.listener s) = [] /\
  Startup.maintenance s = Timer.start Factory.create_timer /\
  Startup.persistance s = Timer.start Factory.create_timer.
Proof.
  unfold Startup.main, Startup.init.
  destruct (Config.read_config _ _) as [[read config]|]; [|done]. cbn [mbind option_bind].
  destruct read; [|done]. cbn [negb].
  unfold Startup.new_registry_object. destruct (new_registry _ _ _ _) as [r|] eqn:Er; [|done].
  cbn [mbind option_bind].
  destruct (Factory.create_socket (of_string tcp _ (Config.m_pool_port config) 0)) as [ls|] eqn:El; [|done].
  cbn [mbind option_bind].
  destruct (Factory.create_socket (of_string tcp _ 0 0)) as [ds|]; [|done]. cbn [mbind option_bind].
  unfold Startup.run. destruct (Startup.daemon_connect _ _ _) as [[c|]|] eqn:Ec; [|done..].
  cbn [mbind option_bind Startup.m_listen_socket]. destruct ls as [ls|]; [|done]. cbn [mbind option_bind].
  destruct (get_tcp_base _); [|done]. cbn [mbind option_bind].
  destruct (Socket.listen _ _ _ _) as [code acceptor] eqn:Ea. intros [= <-]. cbn.
  split; [by econstructor|]. split.
  { unfold Startup.daemon_connect in Ec. destruct (Startup.m_daemon_socket _); [|done]. cbn [mbind option_bind] in Ec.
    destruct (negb _); [done|]. destruct (get_tcp_base _); [|done]. injection Ec as Ec.
    unfold Socket.connect, Connection.connect, Connection.initialise_socket in *.
    by destruct (Startup.connect_open h), (Startup.connect_bind h). }
  split_and!; try done.
  unfold Factory.create_socket in El. destruct (is_valid _); [|done].
  destruct (is_multicast _) as [[]|]; [done| |done]. injection El as El.
  unfold Factory.create_socket_impl in El. destruct (m_protocol _); try done.
  injection El as <-. cbn [Factory.m_acceptor] in Ea. unfold Socket.listen, Socket.bind_acceptor in Ea. cbn in Ea.
  destruct (Startup.listen_open h), (Startup.listen_bind h), (Startup.listen_listen h); cbn in Ea; by injection Ea as <- <-.
Qed.

(** ** Lemmas: what an event of the system leaves alone *)
Section events.
Context `{Platform} `{Block_hash} `{Address_hash} `{Gmp} `{Libm} `{Std_sort}.

(** An invariant of the pool's handlers is one of the system. *)
Lemma system_world (I : World -> Prop) e s s' :
  (forall e w u w', handle e w = Some (u, w') -> I w -> I w') ->
  system_handle e s = Some s' -> I (world s) -> I (world s').
Proof.
  intros HI Hh Hw. destruct e as [e|self address|who address e]; cbn [system_handle] in Hh.
  - destruct (handle e (world s)) as [[u w']|] eqn:E; [|done]. injection Hh as <-. by eapply HI.
  - cbn [Connection.handle_accept mbind option_bind] in Hh. unfold on_call in Hh.
    destruct (handle (Server.Accept self) (world s)) as [[u w1]|] eqn:E1; [|done].
    cbn [fmap option_fmap option_map snd mbind option_bind] in Hh.
    destruct (handle _ w1) as [[u2 w2]|] eqn:E2 in Hh; [|done]. injection Hh as <-.
    eapply HI; [exact E2|]. by eapply HI.
  - destruct (sockets s !! who) as [c|]; [|done]. cbn [mbind option_bind] in Hh.
    destruct (Connection.handle in_call e c) as [c'|]; [|done]. cbn [mbind option_bind] in Hh.
    destruct (drop _ _) as [|call ?]; [by injection Hh as <-|]. unfold on_call in Hh.
    destruct (handle _ (world s)) as [[u w']|] eqn:E in Hh; [|done]. injection Hh as <-. by eapply HI.
Qed.

(** Nothing ends the registry or the daemon's connection object. *)
Definition objects_alive (w : World) : Prop := daemon_alive w = true /\ registry_alive w = true.

Lemma objects_alive_steady who : steady who objects_alive.
Proof. split; try done. by intros w []. Qed.

Lemma objects_stay e s s' :
  system_handle e s = Some s' -> objects_alive (world s) -> objects_alive (world s').
Proof.
  apply system_world. clear e s s'. intros e w u w' Hr.
  assert (exists who, elsewhere who e) as [who He].
  { destruct e as [|i a r b|r b| | | | | |]; try (by exists Wallet); [by exists Wallet; left|by exists (Miner 0); left]. }
  exact (kept_event who e w u w' He Hr _ (objects_alive_steady who)).
Qed.

Lemma calls_after w w' who c : Connection.calls (after_handler w w' who c) = Connection.calls c.
Proof.
  unfold after_handler. generalize (drop (length (to_peer who (sent w))) (to_peer who (sent w'))).
  intros news. set (d := foldl _ c news). assert (Hd : Connection.calls d = Connection.calls c).
  { unfold d. clear d. revert c. induction news as [|x news IH]; intros c; [done|]. cbn. by rewrite IH. }
  destruct (_ && _); [|done]. unfold Connection.drop_reference. by rewrite (proj1 (release_same _)).
Qed.

Lemma calls_sync w w' cs who : Connection.calls <$> sync w w' cs !! who = Connection.calls <$> cs !! who.
Proof. rewrite lookup_sync. destruct (cs !! who); cbn; [|done]. by rewrite calls_after. Qed.

Lemma wallet_calls_sync w w' cs : wallet_calls (mk_system w' (sync w w' cs)) = wallet_calls (mk_system w' cs).
Proof.
  unfold wallet_calls. cbn [sockets]. pose proof (calls_sync w w' cs Wallet) as Hc.
  destruct (sync w w' cs !! Wallet), (cs !! Wallet); cbn in Hc; congruence.
Qed.

(** A connection only adds to the calls it has made. *)
Lemma calls_grow e c c' :
  Connection.handle in_call e c = Some c' -> Connection.calls c `prefix_of` Connection.calls c'.
Proof.
  assert (Hrel : forall d, Connection.calls c `prefix_of` Connection.calls d ->
    Connection.calls c `prefix_of` Connection.calls (Connection.release d)).
  { intros d Hd. by rewrite (proj1 (release_same _)). }
  assert (Hcall : forall r p d, Connection.calls d = Connection.calls c ->
    Connection.calls c `prefix_of` Connection.calls (Connection.call_handler in_call r p d)).
  { intros r p d <-. cbn. apply prefix_app_r. done. }
  destruct e as [error|error available read_error|d|i n| |d]; cbn [Connection.handle]; intros Hh.
  - injection Hh as <-. unfold Connection.on_connect. destruct (Connection.alive _); [|done].
    destruct error; apply Hrel; cbn; by apply prefix_app_r.
  - unfold Connection.on_receive in Hh. destruct (Connection.alive _); [|by injection Hh as <-].
    destruct error as [[]|]; try (injection Hh as <-; apply Hrel; by apply Hcall).
    destruct available as [n|]; [|done]. cbn [mbind option_bind] in Hh.
    destruct (n =? 0)%nat; [injection Hh as <-; apply Hrel; by apply Hcall|].
    destruct read_error; injection Hh as <-; apply Hrel; [by apply Hcall|]. cbn. by apply prefix_app_r.
  - by injection Hh as <-.
  - injection Hh as <-. unfold Connection.run_posted. destruct (_ !! i); [|done]. by apply Hrel.
  - injection Hh as <-. by apply Hrel.
  - by injection Hh as <-.
Qed.

Lemma wallet_calls_grow e s s' :
  system_handle e s = Some s' ->
  wallet_calls s `prefix_of` wallet_calls s' /\
  match e with
  | Net Wallet _ _ => True
  | Accept self _ => sockets s !! Miner self = None -> wallet_calls s' = wallet_calls s
  | _ => wallet_calls s' = wallet_calls s
  end.
Proof.
  intros Hh. destruct e as [e|self address|who address e]; cbn [system_handle] in Hh.
  - destruct (handle e (world s)) as [[u w']|]; [|done]. injection Hh as <-.
    rewrite wallet_calls_sync. by destruct s.
  - cbn [Connection.handle_accept mbind option_bind] in Hh.
    destruct (handle (Server.Accept self) (world s)) as [[u w1]|]; [|done].
    cbn [fmap option_fmap option_map snd mbind option_bind] in Hh.
    destruct (on_call _ _ _ w1) as [w2|]; [|done]. injection Hh as <-. rewrite wallet_calls_sync.
    unfold wallet_calls. cbn [sockets]. by rewrite lookup_insert_ne.
  - destruct (sockets s !! who) as [c|] eqn:Ec; [|done]. cbn [mbind option_bind] in Hh.
    destruct (Connection.handle in_call e c) as [c'|] eqn:Ee; [|done]. cbn [mbind option_bind] in Hh.
    pose proof (calls_grow e c c' Ee) as Hg.
    assert (Hw : forall w, wallet_calls (mk_system w (<[who := c']> (sockets s))) =
      match who with Wallet => Connection.calls c' | _ => wallet_calls s end).
    { intros w. unfold wallet_calls. cbn [sockets].
      destruct who; [by rewrite lookup_insert_eq|by rewrite lookup_insert_ne]. }
    assert (Hold : who = Wallet -> wallet_calls s = Connection.calls c).
    { intros ->. unfold wallet_calls. by rewrite Ec. }
    destruct (drop _ _) as [|call ?].
    + injection Hh as <-. rewrite Hw. destruct who; [|done]. by rewrite Hold by done.
    + destruct (on_call _ _ _ _) as [w'|]; [|done]. injection Hh as <-. rewrite wallet_calls_sync, Hw.
      destruct who; [|done]. by rewrite Hold by done.
Qed.

Lemma dom_sync w w' cs : dom (sync w w' cs) = dom cs.
Proof.
  apply set_eq. intros who. rewrite !elem_of_dom, lookup_sync. by rewrite fmap_is_Some.
Qed.

Lemma system_sockets e s s' :
  system_handle e s = Some s' ->
  dom (sockets s') = match e with Accept self _ => {[ Miner self ]} ∪ dom (sockets s) | _ => dom (sockets s) end.
Proof.
  intros Hh. destruct e as [e|self address|who address e]; cbn [system_handle] in Hh.
  - destruct (handle e (world s)) as [[u w']|]; [|done]. injection Hh as <-. apply dom_sync.
  - cbn [Connection.handle_accept mbind option_bind] in Hh.
    destruct (handle (Server.Accept self) (world s)) as [[u w1]|]; [|done].
    cbn [fmap option_fmap option_map snd mbind option_bind] in Hh.
    destruct (on_call _ _ _ w1) as [w2|]; [|done]. injection Hh as <-. cbn [sockets].
    rewrite dom_sync. apply dom_insert_L.
  - destruct (sockets s !! who) as [c|] eqn:Ec; [|done]. cbn [mbind option_bind] in Hh.
    destruct (Connection.handle in_call e c) as [c'|]; [|done]. cbn [mbind option_bind] in Hh.
    assert (Hd : dom (<[who := c']> (sockets s)) = dom (sockets s)) by (by apply dom_insert_lookup_L).
    destruct (drop _ _) as [|call ?]; [by injection Hh as <-|].
    destruct (on_call _ _ _ _) as [w'|]; [|done]. injection Hh as <-. cbn [sockets]. by rewrite dom_sync.
Qed.
End events.

(** ** The timers *)
Section timers.

(** The timer waits for its time, or its handler waits to be run; it was never canceled. *)
Definition ticking (t : Timer.timer) : Prop :=
  (exists h, Timer.waiting t = Some h /\ Timer.posted t = []) \/
  (exists h, Timer.waiting t = None /\ Timer.posted t = [(h, false)]).

Definition idle (t : Timer.timer) : Prop := Timer.waiting t = None /\ Timer.posted t = [].

Lemma idle_start t : idle t -> ticking (Timer.start t).
Proof. intros [Hw Hp]. left. unfold Timer.start, Timer.cancel. rewrite Hw. cbn. rewrite Hp. by eexists. Qed.

Lemma ticking_expire t : ticking t -> ticking (Timer.expire t).
Proof.
  intros [(h&Hw&Hp)|(h&Hw&Hp)]; unfold Timer.expire; rewrite Hw; [right|by right; eexists].
  exists h. cbn. by rewrite Hp.
Qed.

Lemma ticking_fire t h canceled :
  ticking t -> head (Timer.posted t) = Some (h, canceled) -> canceled = false /\ idle (Timer.run_posted t).
Proof.
  intros [(i&Hw&Hp)|(i&Hw&Hp)] Hh; rewrite Hp in Hh; [done|]. injection Hh as <- <-.
  split; [done|]. unfold Timer.run_posted. by rewrite Hp.
Qed.

Definition on_connection (name : timer_name) : bool :=
  match name with Block_t | Height_t | Orphan_t => true | _ => false end.

(** The program has started the timer. *)
Definition started_timer (name : timer_name) (cs : list Connection.call) : Prop :=
  on_connection name = true -> connected_call ∈ cs.

Definition timer_ok (cs : list Connection.call) (name : timer_name) (t : Timer.timer) : Prop :=
  (started_timer name cs -> ticking t) /\ (~ started_timer name cs -> idle t).

(** A connection comes up once. *)
Lemma connected_once op cs new :
  Connection.well_ordered op (cs ++ new) -> connected_call ∈ cs -> connected_call ∉ new.
Proof.
  assert (Hchunks : forall chunks l, connected_call ∉ l -> connected_call ∉ (Connection.received <$> chunks) ++ l).
  { intros chunks l Hl [(d&[=]&_)%list_elem_of_fmap|?]%elem_of_app; done. }
  destruct cs as [|c cs]; [by intros _ ?%elem_of_nil|]. intros Hw _ Hn.
  assert (Htail : connected_call ∉ cs ++ new).
  { remember (c :: cs ++ new) as l eqn:El. cbn in Hw. rewrite <-El in Hw.
    destruct Hw as [| |chunks _|chunks result _ Hr]; [done|injection El as _ <-; by intros ?%elem_of_nil|..];
      injection El as _ <-.
    - rewrite <-(app_nil_r (_ <$> _)). apply Hchunks. by intros ?%elem_of_nil.
    - apply Hchunks. intros [= <-]%list_elem_of_singleton. by destruct Hr. }
  apply Htail, elem_of_app. by right.
Qed.
End timers.

(** ** The invariant of the process *)
Section invariant.
Context `{Platform} `{Block_hash} `{Address_hash} `{Gmp} `{Libm} `{Std_sort}.

Definition process_inv (s : Process) : Prop :=
  Linked (system s) /\ objects_alive (world (system s)) /\
  forall name, timer_ok (wallet_calls (system s)) name (timers s name).

Lemma wallet_linked s : Linked s ->
  exists c, sockets s !! Wallet = Some c /\ linked Wallet (world s) c /\ wallet_calls s = Connection.calls c.
Proof.
  intros [_ Hl]. specialize (Hl Wallet). unfold wallet_calls.
  destruct (sockets s !! Wallet) as [c|]; [by exists c|]. by destruct Hl as (_&_&?).
Qed.

Lemma wallet_ordered s : Linked s -> exists op, Connection.well_ordered op (wallet_calls s).
Proof.
  intros (c&_&(Hr&_)&->)%wallet_linked. destruct (reachable_orderly _ _ Hr) as (op&Hop&_). by exists op.
Qed.

Lemma lookup_set_timer name t ts n : set_timer name t ts n = if decide (n = name) then t else ts n.
Proof. done. Qed.

Lemma timer_ok_set cs name t ts :
  timer_ok cs name t -> (forall n, timer_ok cs n (ts n)) -> forall n, timer_ok cs n (set_timer name t ts n).
Proof. intros Ht Hts n. rewrite lookup_set_timer. by destruct (decide (n = name)) as [->|]. Qed.

Lemma connect_timers_ok s s' ts :
  wallet_calls s `prefix_of` wallet_calls s' -> Linked s' ->
  (forall n, timer_ok (wallet_calls s) n (ts n)) ->
  forall n, timer_ok (wallet_calls s') n (connect_timers s s' ts n).
Proof.
  intros [new Hnew] HL Hts n. destruct (wallet_ordered s' HL) as [op Hop]. rewrite Hnew in Hop.
  unfold connect_timers. rewrite Hnew, drop_app_length. specialize (Hts n) as [Hyes Hno].
  case_bool_decide as Hin.
  - assert (Hold : connected_call ∉ wallet_calls s) by (intros Hc; by apply (connected_once op _ _ Hop Hc)).
    assert (Hall : started_timer n (wallet_calls s ++ new)) by (intros _; apply elem_of_app; by right).
    split; [intros _|done].
    destruct (on_connection n) eqn:En.
    + assert (Hidle : idle (ts n)) by (apply Hno; intros Hs; by apply Hold, Hs).
      apply idle_start in Hidle. by destruct n.
    + assert (Ht : ticking (ts n)) by (apply Hyes; unfold started_timer; by rewrite En). by destruct n.
  - assert (Hiff : started_timer n (wallet_calls s ++ new) <-> started_timer n (wallet_calls s)).
    { unfold started_timer. rewrite elem_of_app. tauto. }
    split; [intros Hs; apply Hyes; by apply Hiff|intros Hs; apply Hno; by rewrite <-Hiff].
Qed.

Lemma ticking_ok cs name t : ticking t -> timer_ok cs name t -> forall t', ticking t' -> timer_ok cs name t'.
Proof.
  intros Ht [_ Hno] t' Ht'. split; [done|]. intros Hn. destruct (Hno Hn) as [Hw Hp], Ht as [(h&?&_)|(h&_&?)]; congruence.
Qed.

Lemma process_step_inv e s s' :
  process_inv s -> process_possible e s -> process_handle e s = Some s' -> process_inv s'.
Proof.
  intros (HL&Ho&Ht) Hp Hh.
  assert (Hsys : forall ev sys, system_possible ev (system s) -> system_handle ev (system s) = Some sys ->
    Linked sys /\ objects_alive (world sys) /\ wallet_calls (system s) `prefix_of` wallet_calls sys).
  { intros ev sys Hpe Hhe. split; [by eapply linked_event|]. split; [by eapply objects_stay|].
    by apply wallet_calls_grow in Hhe as [? _]. }
  destruct e as [who address e|error remote_ok local_ok self address|name|name|now];
    cbn [process_handle process_possible] in *.
  - destruct (system_handle _ _) as [sys|] eqn:E in Hh; [|done]. injection Hh as <-.
    destruct (Hsys _ _ Hp E) as (?&?&?). split; [done|]. split; [done|]. by apply connect_timers_ok.
  - destruct Hp as [_ Hp]. destruct (Socket.on_accept _ _ _ _) as [l|]; [|done]. cbn [mbind option_bind] in Hh.
    destruct (_ && _); [|by injection Hh as <-]. destruct (negb local_ok); [done|].
    destruct (system_handle _ _) as [sys|] eqn:E in Hh; [|done]. injection Hh as <-.
    destruct (Hsys _ _ Hp E) as (?&?&_). split; [done|]. split; [done|]. intros n.
    apply wallet_calls_grow in E as [_ Hc]. cbn [system timers]. rewrite Hc by apply Hp. apply Ht.
  - injection Hh as <-. split; [done|]. split; [done|]. cbn [system timers]. apply timer_ok_set; [|done].
    destruct Hp as [h Hp]. specialize (Ht name) as [Hyes Hno]. split; [|].
    + intros Hs. by apply ticking_expire, Hyes.
    + intros Hs. destruct (Hno Hs) as [Hw _]. congruence.
  - destruct (head _) as [[h canceled]|] eqn:Eh; [|done]. cbn [mbind option_bind] in Hh.
    destruct (system_handle _ _) as [sys|] eqn:E in Hh; [|done]. injection Hh as <-.
    destruct (Hsys (Pool (timer_event name canceled)) sys ltac:(by destruct name) E) as (?&?&_).
    split; [done|]. split; [done|]. cbn [system timers].
    apply wallet_calls_grow in E as [_ ->].
    assert (Htick : ticking (timers s name)).
    { apply Ht. destruct (decide (on_connection name = true -> connected_call ∈ wallet_calls (system s))); [done|].
      destruct (proj2 (Ht name)) as [_ Hn]; [done|]. by rewrite Hn in Eh. }
    destruct (ticking_fire _ _ _ Htick Eh) as [-> Hidle].
    assert (restarts name (world (system s)) = true) as -> by (destruct Ho as [_ Ho]; by destruct name).
    cbn [negb andb]. intros n. unfold start_timer. rewrite !lookup_set_timer.
    destruct (decide (n = name)) as [->|Hn]; [|apply Ht].
    rewrite decide_True by done. eapply ticking_ok; [exact Htick|apply Ht|]. by apply idle_start.
  - destruct (system_handle _ _) as [sys|] eqn:E in Hh; [|done]. injection Hh as <-.
    destruct (Hsys (Pool (Clock now)) sys I E) as (?&?&_). split; [done|]. split; [done|]. cbn [system timers].
    by apply wallet_calls_grow in E as [_ ->].
Qed.

Lemma process_run_inv s es s' : process_run s es s' -> process_inv s -> process_inv s'.
Proof. induction 1; intros Hs; [done|]. eauto using process_step_inv. Qed.

Lemma process_start_inv `{Address_text} h s : Startup.main h = Some (Startup.Serving s) -> process_inv (process_start s).
Proof.
  intros (Hs&Hc&_&Hr&_&Hm&Hp)%serving_start. cbn.
  destruct (started_linked (Startup.world s) (system (process_start s)) Hs ltac:(by eexists)) as [HL _].
  split; [done|]. split; [split; [by destruct HL|done]|].
  assert (Hcalls : wallet_calls (system (process_start s)) = []).
  { unfold wallet_calls. cbn. rewrite lookup_singleton_eq. by injection Hc as <-. }
  intros n. rewrite Hcalls. unfold timer_ok, started_timer.
  destruct n; cbn [process_start timers]; rewrite ?Hm, ?Hp;
    (split; intros Hn; [|try (exfalso; apply Hn; done); done]); try (by apply idle_start);
    by specialize (Hn eq_refl) as ?%elem_of_nil.
Qed.
End invariant.

(** ** Runs *)
Section runs.
Context `{Platform} `{Block_hash} `{Address_hash} `{Gmp} `{Libm} `{Std_sort}.

(** What an event does to the parts: none, or one event of the system, and none or one of the
    listening socket. *)
Lemma process_parts e s s' :
  process_possible e s -> process_handle e s = Some s' ->
  (system s' = system s \/ exists ev, system_possible ev (system s) /\
     system_handle ev (system s) = Some (system s')) /\
  (exists es, Socket.run (listener s) es (listener s')) /\
  ((forall self, is_Some (sockets (system s) !! Miner self) <-> self ∈ Socket.accepted (listener s)) ->
   forall self, is_Some (sockets (system s') !! Miner self) <-> self ∈ Socket.accepted (listener s')).
Proof.
  intros Hp Hh.
  assert (Hsame : forall ev sys ts, system_possible ev (system s) -> system_handle ev (system s) = Some sys ->
    match ev with Accept _ _ => False | _ => True end -> s' = mk_process sys (listener s) ts ->
    (system s' = system s \/ exists ev, system_possible ev (system s) /\
       system_handle ev (system s) = Some (system s')) /\
    (exists es, Socket.run (listener s) es (listener s')) /\
    ((forall self, is_Some (sockets (system s) !! Miner self) <-> self ∈ Socket.accepted (listener s)) ->
     forall self, is_Some (sockets (system s') !! Miner self) <-> self ∈ Socket.accepted (listener s'))).
  { intros ev sys ts Hpe Hhe Hev ->. split; [right; by exists ev|]. split; [exists []; constructor|].
    intros Hs self. cbn [system listener]. rewrite <-Hs, <-!elem_of_dom, (system_sockets _ _ _ Hhe).
    by destruct ev. }
  destruct e as [who address e|error remote_ok local_ok self address|name|name|now];
    cbn [process_handle process_possible] in *.
  - destruct (system_handle _ _) as [sys|] eqn:E in Hh; [|done]. injection Hh as <-.
    by eapply Hsame; [exact Hp|exact E|..].
  - destruct Hp as [Hpl Hp]. destruct (Socket.on_accept _ _ _ _) as [l|] eqn:El; [|done].
    cbn [mbind option_bind] in Hh.
    assert (Hrun : exists es, Socket.run (listener s) es l).
    { eexists. eapply (Socket.run_cons (Socket.Accepted error remote_ok self)); [exact Hpl|exact El|constructor]. }
    unfold Socket.on_accept in El. destruct error as [err|].
    + injection Hh as <-. split; [by left|]. split; [done|]. by injection El as <-.
    + destruct (Socket.held (listener s)).
      * destruct remote_ok; [|done]. destruct local_ok; [|done]. cbn [negb andb] in Hh.
        rewrite bool_decide_eq_true_2 in Hh by done.
        destruct (system_handle _ _) as [sys|] eqn:E in Hh; [|done]. injection Hh as <-.
        split; [right; by exists (Accept self address)|]. split; [done|]. injection El as <-.
        intros Hs i. cbn [system listener Socket.accept Socket.accepted].
        rewrite <-elem_of_dom, (system_sockets _ _ _ E), elem_of_union, elem_of_singleton, elem_of_dom, Hs, elem_of_app,
          list_elem_of_singleton. split; [intros [[= ->]|?]; auto|intros [?| ->]; auto].
      * rewrite andb_false_r in Hh. injection Hh as <-. split; [by left|]. split; [done|]. by injection El as <-.
  - injection Hh as <-. split; [by left|]. split; [exists []; constructor|done].
  - destruct (head _) as [[h canceled]|]; [|done]. cbn [mbind option_bind] in Hh.
    destruct (system_handle _ _) as [sys|] eqn:E in Hh; [|done]. injection Hh as <-.
    eapply Hsame; [|exact E|done..]. by destruct name.
  - destruct (system_handle _ _) as [sys|] eqn:E in Hh; [|done]. injection Hh as <-.
    by eapply Hsame; [|exact E|..].
Qed.

Lemma socket_run_app l1 es1 l2 es2 l3 :
  Socket.run l1 es1 l2 -> Socket.run l2 es2 l3 -> Socket.run l1 (es1 ++ es2) l3.
Proof. induction 1; intros Hr; [done|]. cbn. econstructor; eauto. Qed.

Lemma process_run_parts w0 s es s' :
  process_run s es s' -> system_reachable w0 (system s) ->
  (forall self, is_Some (sockets (system s) !! Miner self) <-> self ∈ Socket.accepted (listener s)) ->
  system_reachable w0 (system s') /\ (exists es, Socket.run (listener s) es (listener s')) /\
  forall self, is_Some (sockets (system s') !! Miner self) <-> self ∈ Socket.accepted (listener s').
Proof.
  induction 1 as [s|e es s s1 s' Hp Hh _ IH]; intros Hr Hs; [by split; [|split; [exists []; constructor|]]|].
  destruct (process_parts e s s1 Hp Hh) as (Hsys&[es1 Hl]&Hacc).
  destruct IH as (?&[es2 ?]&?).
  - destruct Hsys as [->|(ev&?&?)]; [done|]. by eapply system_step.
  - by apply Hacc.
  - split; [done|]. split; [|done]. exists (es1 ++ es2). by eapply socket_run_app.
Qed.

(** C5: a run of the program from [main] on.  It is a run of the pool over its connections, which
    [system_refines] is about, and one of the listening socket; a connection of a miner is there for
    each that was accepted.  The two timers that are started before the event loop go on for ever,
    and so do the three of the wallet's connection once it has come up, and not before: the timer
    waits for its time or its one handler waits to be run, none is canceled. *)
Theorem process_refines `{Address_text} h s0 es s :
  Startup.main h = Some (Startup.Serving s0) -> process_run (process_start s0) es s ->
  Server.started (Startup.world s0) /\ system_reachable (Startup.world s0) (system s) /\
  (exists l, Socket.run (Startup.listener s0) l (listener s)) /\
  (forall self, is_Some (sockets (system s) !! Miner self) <-> self ∈ Socket.accepted (listener s)) /\
  forall name,
    if on_connection name && bool_decide (connected_call ∉ wallet_calls (system s))
    then idle (timers s name) else ticking (timers s name).
Proof.
  intros Hm Hrun. pose proof (process_run_inv _ _ _ Hrun (process_start_inv h s0 Hm)) as (_&_&Ht).
  destruct (serving_start h s0 Hm) as (Hs&Hc&_&_&Hacc&_). split; [done|].
  destruct (process_run_parts (Startup.world s0) _ _ _ Hrun) as (?&?&?).
  - apply system_start. by eexists.
  - intros self. cbn. rewrite lookup_singleton_ne, Hacc by done.
    split; [by intros []|by intros ?%elem_of_nil].
  - split_and!; [done..|]. intros name. destruct (Ht name) as [Hyes Hno].
    unfold started_timer in *. destruct (on_connection name); [|by apply Hyes]. cbn [andb].
    case_bool_decide as Hd; [apply Hno; intros Hx; exact (Hd (Hx eq_refl))|].
    apply Hyes. intros _. by destruct (decide (connected_call ∈ wallet_calls (system s))).
Qed.

(** The wallet's pointer stays null, and nothing is transmitted to the wallet any more. *)
Lemma lost_step e s s' :
  process_inv s -> owned Wallet (world (system s)) = false ->
  process_possible e s -> process_handle e s = Some s' ->
  owned Wallet (world (system s')) = false /\
  to_peer Wallet (sent (world (system s'))) = to_peer Wallet (sent (world (system s))) /\
  wallet_calls (system s') = wallet_calls (system s).
Proof.
  intros (HL&_) Hown Hp Hh. destruct (process_parts e s s' Hp Hh) as ([->|(ev&Hpe&Hhe)]&_); [done|].
  destruct (wallet_linked _ HL) as (c&Hc&(Hreach&_&Hu)&Hcalls).
  assert (Hdown : down Wallet (world (system s)) /\ Connection.pending c = Connection.no_operation).
  { destruct (Connection.referenced c); [|done]. by rewrite (up_owned _ _ Hu) in Hown. }
  destruct Hdown as [Hdown Hpend].
  assert (Hk : forall w', kept_between Wallet (world (system s)) w' -> owned Wallet w' = false /\
    to_peer Wallet (sent w') = to_peer Wallet (sent (world (system s)))).
  { intros w' Hk. destruct (Hk _ (down_steady Wallet (to_peer Wallet (sent (world (system s)))))) as [Hd Hn]; [done|].
    split; [by apply down_owned|done]. }
  pose proof (wallet_calls_grow _ _ _ Hhe) as [_ Hwc].
  destruct ev as [ev|self address|who address ev]; cbn [system_handle] in Hhe.
  - destruct (handle ev _) as [[u w']|] eqn:Er; [|done]. injection Hhe as Hsys. rewrite <-Hsys in *.
    destruct (Hk w') as [? ?]; [|done]. eapply kept_event; [|exact Er]. by destruct ev.
  - destruct Hpe as [_ Hn]. specialize (Hwc Hn). cbn [Connection.handle_accept mbind option_bind] in Hhe. unfold on_call in Hhe.
    destruct (handle (Server.Accept self) _) as [[u w1]|] eqn:E1; [|done].
    cbn [fmap option_fmap option_map snd mbind option_bind] in Hhe.
    destruct (handle _ w1) as [[u2 w2]|] eqn:E2 in Hhe; [|done]. injection Hhe as Hsys. rewrite <-Hsys in *.
    destruct (Hk w2) as [? ?]; [|done].
    eapply kept_trans; (eapply kept_event; [|eassumption]); [done|by left].
  - destruct Hpe as [Hnet (c0&Hc0&Hpc)]. rewrite Hc0 in Hhe. cbn [mbind option_bind] in Hhe.
    destruct (Connection.handle in_call ev c0) as [c'|] eqn:Ee; [|done]. cbn [mbind option_bind] in Hhe.
    destruct who as [|self].
    + rewrite Hc in Hc0. injection Hc0 as <-.
      assert (Hsame : Connection.calls c' = Connection.calls c).
      { destruct ev as [|error available read_error| |i n| |]; try done; cbn in Hpc, Ee.
        - by rewrite Hpc in Hpend.
        - destruct Hpc as [Hpc _]. by rewrite Hpc in Hpend.
        - injection Ee as <-. unfold Connection.run_posted. destruct (_ !! i); [|done].
          by rewrite (proj1 (release_same _)).
        - by injection Ee as <-. }
      rewrite Hsame, drop_all in Hhe. injection Hhe as <-. split; [done|]. split; [done|].
      unfold wallet_calls at 1. cbn [sockets]. by rewrite lookup_insert_eq, Hsame.
    + destruct (drop _ _) as [|call ?]; [by injection Hhe as Hsys; rewrite <-Hsys in *|]. unfold on_call in Hhe.
      destruct (handle _ _) as [[u w']|] eqn:Er in Hhe; [|done]. injection Hhe as Hsys. rewrite <-Hsys in *.
      destruct (Hk w') as [? ?]; [|done]. eapply kept_event; [|exact Er]. by left.
Qed.

(** The handler of the height timer transmits through the pointer first. *)
Lemma height_tick_lost s :
  process_inv s -> owned Wallet (world (system s)) = false -> connected_call ∈ wallet_calls (system s) ->
  process_handle (Fires Height_t) s = None.
Proof.
  intros (_&_&Ht) Hown Hc. destruct (Ht Height_t) as [Hyes _]. specialize (Hyes (fun _ => Hc)).
  cbn [process_handle]. destruct (head _) as [[h canceled]|] eqn:Eh; [|done].
  destruct (ticking_fire _ _ _ Hyes Eh) as [-> _]. cbn [mbind option_bind system_handle timer_event handle].
  unfold get_height_timer_handler, transmit_wallet, mbind, M_bind, gets. cbn in Hown. by rewrite Hown.
Qed.

(** C6: a pool that has lost its wallet, or was declined by it, at any time of a run.  The pointer
    to the connection stays null and nothing is transmitted to the wallet any more: there is no
    second connection.  When the wallet had been connected, the height timer is on its way to a
    transmission through that pointer: no run goes past its next tick, which is undefined.  When the
    wallet had declined, the pool stays up and its three timers are never started. *)
Theorem wallet_lost `{Address_text} h es1 s es s' :
  serves h es1 s -> owned Wallet (world (system s)) = false -> process_run s es s' ->
  owned Wallet (world (system s')) = false /\
  to_peer Wallet (sent (world (system s'))) = to_peer Wallet (sent (world (system s))) /\
  if bool_decide (connected_call ∈ wallet_calls (system s)) then
    (Fires Height_t ∉ es) /\ ticking (timers s' Height_t) /\ process_handle (Fires Height_t) s' = None
  else forall name, on_connection name = true -> (Fires name ∉ es) /\ idle (timers s' name).
Proof.
  intros (s0&Hm&Hrun1) Hown Hrun.
  pose proof (process_run_inv _ _ _ Hrun1 (process_start_inv h s0 Hm)) as Hinv. clear Hrun1.
  assert (Hall : process_inv s' /\ owned Wallet (world (system s')) = false /\
    to_peer Wallet (sent (world (system s'))) = to_peer Wallet (sent (world (system s))) /\
    wallet_calls (system s') = wallet_calls (system s) /\
    forall name, Fires name ∈ es -> on_connection name = true ->
      connected_call ∈ wallet_calls (system s) /\ name <> Height_t).
  { induction Hrun as [s|e es s s1 s' Hp Hh _ IH]; [split_and!; try done; by intros name ?%elem_of_nil|].
    destruct (lost_step e s s1 Hinv Hown Hp Hh) as (Hown1&Hsent1&Hcalls1).
    pose proof (process_step_inv e s s1 Hinv Hp Hh) as Hinv1.
    destruct (IH Hown1 Hinv1) as (?&?&?&?&Hfires). split_and!; try done; [congruence..|].
    intros name [<-|Hin]%elem_of_cons Hname; [|rewrite <-Hcalls1; by apply Hfires].
    assert (Hc : connected_call ∈ wallet_calls (system s)).
    { apply dec_stable. intros Hc. destruct Hinv as (_&_&Ht). destruct (Ht name) as [_ Hno].
      destruct Hno as [_ Hn]; [intros Hs; by apply Hc, Hs|]. cbn in Hp. by rewrite Hn in Hp. }
    split; [done|]. intros ->. by rewrite height_tick_lost in Hh. }
  destruct Hall as (Hinv'&Hown'&Hsent&Hcalls&Hfires). split; [done|]. split; [done|].
  case_bool_decide as Hc.
  - split; [intros Hin; by destruct (Hfires Height_t Hin eq_refl)|].
    split; [|apply height_tick_lost; by rewrite ?Hcalls]. destruct Hinv' as (_&_&Ht).
    apply Ht. intros _. by rewrite Hcalls.
  - intros name Hname. split; [intros Hin; by destruct (Hfires name Hin Hname)|].
    destruct Hinv' as (_&_&Ht). apply Ht. intros Hs. apply Hc. rewrite <-Hcalls. by apply Hs.
Qed.

(** C7: two to four bytes that come alone, from a miner or from the wallet, are read as a packet
    without its length: the constructors of both packets read outside of them.  Whatever the pool has
    done until then, nothing is defined after it. *)
Theorem short_packet `{Address_text} h es s who c address data :
  serves h es s -> sockets (system s) !! who = Some c ->
  Connection.pending c = Connection.receiving -> Connection.incoming c = [] ->
  (2 <= length data <= 4)%nat ->
  exists s1, process_possible (Network who address (Connection.Arrive data)) s /\
    process_handle (Network who address (Connection.Arrive data)) s = Some s1 /\
    world (system s1) = world (system s) /\
    let read := Network who address (Connection.Received None (Some (length data)) None) in
    process_possible read s1 /\ process_handle read s1 = None.
Proof.
  intros (s0&Hm&Hrun) Hc Hpend Hinc Hlen.
  pose proof (process_run_inv _ _ _ Hrun (process_start_inv h s0 Hm)) as ([_ Hl]&_).
  specialize (Hl who). rewrite Hc in Hl. destruct (linked_spec _ _ _ Hl) as (_&Href&_&Hup).
  assert (Hr : Connection.referenced c = true) by (rewrite Href; apply up_owned, Hup; by rewrite Hpend).
  set (c1 := Connection.arrive data c).
  eexists. split; [split; [done|by exists c]|]. split.
  { cbn [process_handle system_handle]. rewrite Hc. cbn [mbind option_bind Connection.handle].
    change (Connection.calls (Connection.arrive data c)) with (Connection.calls c). rewrite drop_all. reflexivity. }
  split; [done|]. cbn zeta. cbn [process_possible system_possible system sockets].
  split.
  { split; [done|]. exists c1. rewrite lookup_insert_eq. split; [done|]. cbn. rewrite Hinc. by split. }
  cbn [process_handle system_handle system sockets]. rewrite lookup_insert_eq. cbn [mbind option_bind Connection.handle].
  unfold Connection.on_receive. fold c1. cbv zeta.
  assert (Connection.alive (Connection.completed c1) = true) as -> by (unfold Connection.alive; cbn; by rewrite Hr).
  cbn [mbind option_bind]. destruct (Nat.eqb_spec (length data) 0) as [|_]; [lia|].
  cbn [mbind option_bind]. rewrite (proj1 (release_same _)). cbn. rewrite drop_app_length, Hinc. cbn [app].
  rewrite take_ge by lia.
  assert (on_call who address (Result.receive_ok, Some data) (world (system s)) = None) as ->; [|done].
  assert (Hread : forall hd, read_payload hd data = None).
  { destruct data as [|b1 [|b2 [|b3 [|b4 [|b5 ?]]]]]; cbn in Hlen; try lia; done. }
  unfold on_call. destruct who; cbn.
  - unfold daemon_process_data, Daemon_packet.parse, mbind, M_bind, lift. destruct data; [done|]. by rewrite Hread.
  - unfold process_data, Packet.parse, mbind, M_bind, lift. by rewrite Hread.
Qed.
End runs.

(** ** Witnesses *)
Section exec.
Context `{Platform} `{Block_hash} `{Address_hash} `{Gmp} `{Libm} `{Std_sort}.

(** The runs, for examples. *)
Fixpoint process_exec (es : list process_event) (s : Process) : option Process :=
  match es with [] => Some s | e :: es' => s' ← process_handle e s; process_exec es' s' end.

Fixpoint process_allowed (es : list process_event) (s : Process) : Prop :=
  match es with
  | [] => True
  | e :: es' => process_possible e s /\
      match process_handle e s with Some s' => process_allowed es' s' | None => False end
  end.

Lemma process_exec_run es s s' : process_allowed es s -> process_exec es s = Some s' -> process_run s es s'.
Proof.
  revert s. induction es as [|e es IH]; intros s Hp Hr; [injection Hr as <-; constructor|].
  cbn in Hp, Hr. destruct Hp as [He Hp]. destruct (process_handle e s) as [s1|] eqn:E; [|done].
  econstructor; eauto.
Qed.
End exec.

(** A start with [src/pool.conf] on a machine where all goes well. *)
Definition quiet_start : Startup.host :=
  Startup.mk_host (Some (Some pool_conf)) None None (None, None) None None None None None 0 1000.

(** The wallet accepts the connection; a miner comes; the height timer runs. *)
Definition connected_run : list process_event :=
  [Network Wallet [] (Connection.Connected None); Accepted None true true 0 [Byte.x31];
   Expires Height_t; Fires Height_t; Passes 2000].

(** The wallet closes the connection. *)
Definition closed_run : list process_event :=
  connected_run ++ [Network Wallet [] (Connection.Received (Some eof) None None)].

Ltac allowed := vm_compute; repeat first [exact I|reflexivity|apply le_n|split|eexists|discriminate].

Lemma process_refines_witness :
  let _ := zero_platform in let _ := zero_hash in let _ := sum_hash in let _ := gmp_Z in
  let _ := unit_pow in let _ := insertion_sort in let _ := loopback_text in
  exists s0 s, Startup.main quiet_start = Some (Startup.Serving s0) /\
    process_run (process_start s0) connected_run s /\
    0%nat ∈ Socket.accepted (listener s) /\ ticking (timers s Height_t).
Proof.
  pose (P := zero_platform). pose (B := zero_hash). pose (A := sum_hash). pose (G := gmp_Z).
  pose (L := unit_pow). pose (S := insertion_sort). pose (T := loopback_text).
  destruct (Startup.main quiet_start) as [[| |s0]|] eqn:Em; try by vm_compute in Em.
  assert (Hp : process_allowed connected_run (process_start s0)).
  { vm_compute in Em. injection Em as <-. allowed. }
  assert (He : is_Some (process_exec connected_run (process_start s0))).
  { clear Hp. vm_compute in Em. injection Em as <-. vm_compute. by eexists. }
  destruct (process_exec connected_run (process_start s0)) as [s|] eqn:E; [|by destruct He].
  exists s0, s. split; [done|]. pose proof (process_exec_run _ _ _ Hp E) as Hrun. split; [exact Hrun|].
  destruct (process_refines quiet_start s0 connected_run s Em Hrun) as (_&_&_&Hacc&Ht).
  clear Hp He. vm_compute in Em. injection Em as <-. vm_compute in E. injection E as <-. split.
  - apply Hacc. vm_compute. by eexists.
  - exact (Ht Height_t).
Defined.

Section quiet.
#[local] Existing Instances zero_platform zero_hash sum_hash gmp_Z unit_pow insertion_sort loopback_text.

Definition quiet_process : option Process :=
  match Startup.main quiet_start with Some (Startup.Serving s) => Some (process_start s) | _ => None end.

Lemma quiet_serves es s0 s :
  quiet_process = Some s0 -> process_allowed es s0 -> process_exec es s0 = Some s -> serves quiet_start es s.
Proof.
  unfold quiet_process. intros Hq Hp He. destruct (Startup.main quiet_start) as [[| |q]|] eqn:Em; try done.
  injection Hq as <-. exists q. split; [done|]. by apply process_exec_run.
Qed.

Lemma wallet_lost_witness :
  exists s s', serves quiet_start closed_run s /\ owned Wallet (world (system s)) = false /\
    process_run s [Expires Height_t] s' /\ process_handle (Fires Height_t) s' = None.
Proof.
  destruct quiet_process as [s0|] eqn:Eq; [|by vm_compute in Eq].
  assert (Hq : serves quiet_start closed_run (default s0 (process_exec closed_run s0))).
  { apply (quiet_serves _ s0); [done|..]; vm_compute in Eq; injection Eq as <-; [allowed|by vm_compute]. }
  assert (Hown : owned Wallet (world (system (default s0 (process_exec closed_run s0)))) = false).
  { clear Hq. vm_compute in Eq. injection Eq as <-. by vm_compute. }
  assert (Hcalls : connected_call ∈ wallet_calls (system (default s0 (process_exec closed_run s0)))).
  { clear Hq Hown. vm_compute in Eq. injection Eq as <-. vm_compute. by left. }
  set (s := default s0 _) in *. exists s. eexists. split; [exact Hq|]. split; [exact Hown|].
  assert (Hrun : process_run s [Expires Height_t]
    (mk_process (system s) (listener s) (set_timer Height_t (Timer.expire (timers s Height_t)) (timers s)))).
  { eapply process_step; [|reflexivity|apply process_done]. unfold s. clear Hq Hown Hcalls s.
    vm_compute in Eq. injection Eq as <-. vm_compute. by eexists. }
  split; [exact Hrun|].
  destruct (wallet_lost quiet_start closed_run s _ _ Hq Hown Hrun) as (_&_&Hlost).
  rewrite bool_decide_eq_true_2 in Hlost by exact Hcalls. by destruct Hlost as (_&_&?).
Defined.

Lemma short_packet_witness :
  exists s s1 c, serves quiet_start connected_run s /\ sockets (system s) !! Miner 0 = Some c /\
    process_handle (Network (Miner 0) [Byte.x31] (Connection.Received None (Some 3%nat) None)) s1 = None.
Proof.
  destruct quiet_process as [s0|] eqn:Eq; [|by vm_compute in Eq].
  assert (Hq : serves quiet_start connected_run (default s0 (process_exec connected_run s0))).
  { apply (quiet_serves _ s0); [done|..]; vm_compute in Eq; injection Eq as <-; [allowed|by vm_compute]. }
  set (c := Connection.mk_connection true true Connection.receiving [] [] [] [connected_call]).
  assert (Hc : sockets (system (default s0 (process_exec connected_run s0))) !! Miner 0 = Some c).
  { clear Hq. vm_compute in Eq. injection Eq as <-. by vm_compute. }
  set (s := default s0 _) in *.
  destruct (short_packet quiet_start connected_run s (Miner 0) c [Byte.x31] [Byte.x00; Byte.x01; Byte.x02] Hq Hc
    eq_refl eq_refl ltac:(cbn; lia)) as (s1&_&_&_&_&Hnone).
  exists s, s1, c. split; [exact Hq|]. split; [exact Hc|]. exact Hnone.
Defined.
End quiet.
